(* ===== verification/_CoqProject ===== *)
-Q . S2P
Prelude.v
Capability.v
F64.v
Values.v
Isa.v
Display.v
Log.v
Verify.v
Format.v
Builder.v
Sync.v
JitTrace.v
JitClif.v
JitCompiler.v
Quota.v
Native.v
Program.v
ProgramTheory.v
Samples.v
Vm.v
VmSafety.v
VmFrame.v
VmTheory.v
DisplayTheory.v
VmExec.v
ProgramRun.v
JitDispatch.v
JitTheory.v
JitLower.v
JitExec.v
JitSim.v
JitRegion.v
JitReference.v
JitSound.v
JitRefine.v
JitGaps.v
JitQuantum.v
JitFlow.v
Process.v
CapTable.v
CapTableTheory.v
Lifecycle.v
LifecycleTheory.v
Mailbox.v
MailboxTheory.v
Oneshot.v
Shared.v
SharedTheory.v
Timer.v
Finalize.v
FinalizeTheory.v
Forgets.v
Authenticate.v
Runtime.v
Worker.v
Supervisor.v
System.v
Demo.v
EndTheory.v
SamplesRun.v
Cli.v
CliTheory.v
SupervisorTheory.v
Frame.v
WorkerTheory.v
Conserve.v
ConserveWorker.v
ConserveHost.v
SystemTheory.v
Harness.v
TestsBytecode.v
TestsMailbox.v
TestsScheduler.v
TestsVm.v
TestsJit.v
TestsRuntime.v
Tests.v
