(* ===== verification/Prelude.v ===== *)
(** * Byteflow: a verified model of the flow virtual machine and its scheduler

    Byteflow (src/crates/byteflow/src/) is an embeddable runtime: programs are
    assembled into chunks of register bytecode, decoded and verified, and run as
    _flows_, lightweight processes that own a virtual machine, a mailbox, a quota and
    a set of capabilities, and that exchange messages under an M:N scheduler.

    ** Parts and how they interact

    An embedder builds a chunk (bytecode/program.rs on top of bytecode/builder.rs) or decodes one
    (bytecode/format.rs), has it verified (bytecode/verify.rs) and spawns a flow on
    it.  A worker runs the flow's machine for a budget of instructions (vm/machine.rs);
    the machine answers a [VmResult]: finished, yielded, trapped, or a request to the
    scheduler (send, ask, receive, spawn, delegate, ...).  A request names other flows
    by 128-bit tokens only; the worker resolves them in the capability table
    (scheduler/capability.rs), charges the sender's quota (scheduler/quota.rs) and
    pushes the message into the target's mailbox (scheduler/mailbox/), which either
    queues it or hands it to the flow parked there.  Native functions are called
    through a gate derived from the flow's authority (vm/native.rs).  A flow that ends is
    finalized (scheduler/finalize.rs): every table forgets it, its monitors and links are
    told, and its handle (scheduler/oneshot.rs, handle.rs) is answered.  One more thread
    keeps sleepers and receive deadlines (scheduler/timer.rs), and supervisors start failed
    children again (scheduler/supervisor.rs).  A runtime may have a trace compiler (jit/): a
    pc met often enough is the entry of a region that is compiled with Cranelift and run on
    a table of machine words instead of the registers.  The command line (bin/byteflow.rs)
    packs, verifies, lists and runs modules.

    ** Files

    - [Prelude]: Rust's [Result] with the [let?] notation, machine integers and their
      wrap-around, bytes, little-endian codecs, UTF-8, list and automation lemmas.
    - [Capability] (bytecode/cap.rs): tokens, rights, native masks, authority records,
      [Cap.attenuate], and the revocation counters as a store of aliased cells.
    - [F64]: IEEE 754 binary64 as bit patterns, on the standard library's executable
      [SpecFloat].
    - [Values] (bytecode/value.rs): values and messages; a [Str] or [Bytes] carries the
      identity of its allocation, which the heap accounting observes ([Arc::ptr_eq]).
    - [Isa] (bytecode/opcode.rs, instruction.rs, chunk.rs): opcodes, instructions,
      functions, chunks.
    - [Display] (the [Display]s of the values and instructions, bytecode/disasm.rs, output.rs):
      texts, from the digits of an integer or a float to the listing of a chunk;
      [DisplayTheory].  [Log] (log.rs): the diagnostic level and its lines.
    - [Verify] (bytecode/verify.rs), [Format] (bytecode/format.rs), [Builder]
      (bytecode/builder.rs): the verifier, the module format, the assembler.
    - [Sync] (scheduler/error.rs, sync_lock.rs): errors and mutexes with their poison.
    - [Program] (bytecode/program.rs): the structured assembler, a state monad over the
      builder; [ProgramTheory]: what it assembles verifies; [ProgramRun]: its counting loop
      computes what it should.  [Samples] (samples.rs): the sample modules, as the source
      assembles them; [SamplesRun]: their runs.
    - [JitTrace] (jit/exit.rs, trace.rs, runtime.rs and the recording half of compiler.rs):
      exits, hot counters, the trace cache, regions.  [JitClif]: the part of Cranelift's
      intermediate language the compiler uses, with an executable semantics, and the class
      [Cranelift].  [JitCompiler] (jit/compiler.rs, frame.rs): the lowering of a region.
      [JitDispatch] (jit/dispatch.rs, scheduler/jit.rs, module_local.rs): how a quantum is run
      with traces.  [JitTheory]: regions; [JitLower], [JitExec], [JitSim], [JitRegion],
      [JitSound], [JitRefine]: the lowering succeeds and its code does what the interpreter
      does; [JitReference]: a back end that satisfies the hypotheses; [JitGaps]: where
      compiled code differs; [JitQuantum], [JitFlow]: quanta, without a trace and with.
    - [Quota] (scheduler/quota.rs): ledgers, token buckets, the quota directory.
    - [Native] (vm/fault.rs, vm/native.rs, natives.rs): faults, the world a running
      machine shares with the rest, the native table, its gate, the standard natives.
    - [Vm] (vm/frame.rs, result.rs, machine.rs): the machine, one definition per
      opcode arm of [Vm::run]; [VmSafety] and [VmTheory]: its theorems.
      [VmFrame]: what any instruction leaves alone.
    - [Process] (scheduler/process.rs): flows.
    - [CapTable] (scheduler/capability.rs, delegate.rs, spawn.rs, link_admin.rs): the
      capability table and the decisions on authority records; [CapTableTheory].
    - [Lifecycle] (scheduler/monitor.rs, link.rs, registry.rs, directory.rs, the indices of
      finalize.rs): monitors, links, names, the flow directory, pending kills, waiting
      senders and askers; [LifecycleTheory].
    - [Mailbox] (scheduler/mailbox/): the queue and the mailbox; [MailboxTheory].
    - [Oneshot] (scheduler/oneshot.rs, handle.rs): the completion slot and its channel.
    - [Shared] (scheduler/metrics.rs, the struct [Shared] of runtime.rs, the data of
      timer.rs): the state the threads share and the primitives on it; [SharedTheory]: how
      a function moves flows, as triples.
    - [Timer] (scheduler/timer.rs), [Finalize] (finalize.rs), [Authenticate] and [Worker]
      (worker.rs), [Runtime] (runtime.rs), [Supervisor] (supervisor.rs): one definition per
      function, a handler per [VmResult].
    - [System]: the threads of a runtime and its embedder as a step relation.
    - [FinalizeTheory], [Forgets], [EndTheory], [SupervisorTheory], [WorkerTheory]:
      theorems of these parts; [Frame]: a property of states that every function of the
      scheduler keeps, from the primitives up; [Conserve], [ConserveWorker],
      [ConserveHost]: what every function does with flows; [SystemTheory]: theorems over
      all interleavings; [Demo]: the concrete runtime of the witnesses.
    - [Cli] (bin/byteflow.rs): the commands, over a disk, two streams and a machine;
      [CliTheory].
    - [Harness], [TestsBytecode], [TestsMailbox], [TestsScheduler], [TestsVm], [TestsJit],
      [TestsRuntime]: the repository's own tests (the [tests] modules under src/ and
      tests/security_caps.rs), each translated to a boolean that evaluates; [Tests]: they pass.

    ** How state and effects are modelled

    A mutable Rust value is a record that each operation takes and returns.  What is
    shared through an [Arc] is a reference into an explicit store: revocation counters
    ([RevocationCell.store]), quotas ([world]), so that a revocation through one handle
    is seen through the others.  A [Mutex] is its data and a poison flag; a method is
    one critical section (or several, where the code unlocks in between, as
    [CapTable.mint] does), so that interleavings are sequences of sections.  Fallible
    code returns [result]; a panic is [None] (machine integers under overflow checks,
    native functions).  The machine's handlers run in a small state-and-control monad,
    the scheduler's functions in a state monad [W] on [Shared.t] whose [None] is a panic of
    the thread.  The shared state holds flows by value, where they are: injector, deques,
    timer, mailboxes; what the code shares behind an [Arc] is in a store of it.  A turn of a
    thread (one look for work, one quantum with the handling of its result, one timer entry,
    one exit) is atomic in [System.step]; the finer interleavings of the critical sections
    are treated where they matter, in [MailboxTheory], [CapTableTheory] and [Oneshot].
    Integers are [Z] at their Rust width, wrapped, saturated or checked as the code
    does it; the model is of a 64-bit host.

    Parameters stand for what the source does not contain: the operating system's
    random generator, clock readings, Cranelift (the class [Cranelift], with [CraneliftSound]
    for the theorems that need it: a function the module accepts behaves as the semantics of
    [JitClif] says; [JitReference] is an instance), host natives ([NativeFn], with the classes
    [NativesConfined] and [NativesSafe] saying what a theorem relies on, and instances
    for the standard natives), the compiler's size of [Value] ([ValueLayout]), the
    allocator's growth ([Allocator]), the order of equal deadlines ([MinHeap]), which
    characters a quoted string shows as they are ([Unicode]) and the texts of the operating
    system's refusals ([Os]).

    ** What the theorems show

    - Machine: a verified chunk never traps with a bad constant, function or opcode nor
      an empty frame stack, in any slices ([verified_chunk_runs_safely]); it only presents
      tokens it was given ([tokens_not_forged]); slicing does not change what runs
      ([slices_compose]); calls, stores, argument windows and integer arithmetic on
      every branch.
    - Modules: verification decides well-formedness, encoding and decoding round-trip,
      a decoded chunk is bounded and well-typed, truncated input is refused, labels
      resolve ([finish_resolves_labels]).
    - Authority: attenuation is exact, revocation kills derived grants; every token
      that resolves stems from a grant of trusted code through attenuations only
      ([authority_from_roots]); a revoked flow stays revoked; new tokens are exactly
      the grant asked for; spawn, link and administration decisions are exact; the
      native gate is exact.
    - Scheduler: over every interleaving of the threads' turns, a flow is in exactly one
      place ([one_place]) and is never lost before its handle is answered
      ([loses_nobody]); finalization terminates ([finalize_terminates]) and no table
      mentions a finalized flow ([nothing_remains]); a flow cannot hold a worker for ever
      ([drive_terminates]); the timer fires in order, never early and never late; the
      restart window, the strategies' cascades and giving up are exact.
    - Completion: an outcome is handed out once, a joiner is never stranded, a bounded join
      is bounded.
    - Mailboxes: the queue refines a bounded FIFO with a recomputed byte budget; no
      wakeup is lost along any sequence of calls; no flow is lost or duplicated; both
      bounds hold; a stale deadline takes nobody.
    - Assembler: a program built from statements that do not use labels or registers of
      another function verifies ([program_verifies]); the loop combinator counts
      ([counting_loop]); every sample module assembles, verifies and runs on the runtime
      model to the outcome its documentation gives ([samples_run]).
    - Texts: chunks with the same listing do the same ([listing_faithful]), unless a constant
      holds a line feed ([listing_forged]); a float is printed with digits that read back
      ([float_digits]); the diagnostic level is read once ([level_read_once]).
    - Command line: what a call writes and when it fails ([cli_contract]); a packed module
      reads back ([pack_then_read]); what the demonstrations print ([demos_print]); a file
      that is not a module is refused ([bad_module_refused]).
    - Traces: a recorded region covers a bounded set of instructions of the function and the
      walk ends ([region_sound]); lowering fails in exactly two cases ([lower_complete]); for
      a supported region whose registers hold integers, running the compiled code and
      applying its exit is a run of the interpreter ([jit_trace_sound]); a quantum in which
      no trace is entered is the interpreter's ([declined_quantum]); one in which traces are
      entered ends as the interpreter's, up to [Bool] and [Unit] read as integers
      ([jit_flow_sound]).
    - The repository's tests pass on the model, 174 of 175, in both build profiles
      ([repository_tests_pass]): what the definitions answer is what the source's authors
      expect of it.
    - Quotas: an exhausted ledger fails closed, buckets bound rates.
    - Lifecycle: a monitor fires exactly once, links are symmetric and unique, names and
      their index agree and no name outlives its flow, no asker is orphaned.
    - Defects found by modelling are theorems too: [machine_misreports],
      [const_collapses_signed_zero], [sender_stranded], [drop_oldest_flushes],
      [mint_spans_revocation], [hop_charge_leaks], [cascade_forgotten], [send_poisoned],
      [budget_exit_loses_registers], [returns_collide], [lone_branch_forgets],
      [cut_block_refused], [words_are_untyped], [calls_share_slots],
      [native_code_undefined], [reload_keeps_stale_trace], [yield_does_not_end_quantum],
      [native_instructions_uncounted], [demo_boom_has_no_main], [listing_forged],
      [join_after_poll_fails].

    ** Bounds and fuel

    [Vm.run] recurses on the instruction budget, which is the loop's own bound.
    [Format.read_value] has the fuel of the format's nesting limit plus one, which the
    depth check of the code reaches first.  [CapId.random_attempts] and
    [CapTable.fresh_attempts] recurse on the loops' own counts, 8 and 32.  The eviction
    loop of a queue recurses on the queue.  [finalize_flow] has one turn for each flow a
    mailbox holds, plus one: every turn settles a flow and only takes flows out of
    mailboxes ([finalize_terminates]).  [drive_loop] takes its fuel as an argument; the CPU
    budget of the flow, plus one, is enough ([drive_terminates]).  The waiting loops of
    [Oneshot] and the turns of [Timer.drive] take the list, or the number, of the turns the
    host gives them.  The walk of a trace region has fuel [collect_fuel], twice the limit of
    instructions plus two: a block enqueues two starts at most and records one instruction
    at least ([region_sound]).  The dispatch of a hot site has fuel 2, its recursion is one
    call deep ([hot_dispatch_depth]).  Compiled code of a region has the budget plus one as
    fuel for its blocks: every instruction pays one unit first.  The runs of the samples have
    60 rounds of one worker turn and one timer turn, which [samples_run] shows to be enough.
    The search for the shortest decimal of a float starts 309 digits before the point and has
    634 steps, down to the last digit a binary64 has ([float_digits]); the digits of an integer have
    its bit length as fuel.  The command line's theorems hold of any patience of the caller, the
    rounds of its machine; [demos_print] names one that is enough.  A test waits at most 200
    rounds (400 with a deadline), and native code in it runs at most 100000 blocks;
    [repository_tests_pass] shows both to be enough.  No other definition is fuelled.

    ** Not modelled

    Condition variables and the operating system's threads (a wait is a turn); the order in
    which crossbeam's deques race (a deque is a list, a worker pops and steals its head);
    Cranelift itself; the polling of a handle as an asynchronous [Future]; the scheduler's
    calls to the log and the [Display] of its ids; the JIT inside the scheduler's worker loop
    (a flow's quantum under it is modelled by itself), and with it the one test that
    starts a runtime with the JIT enabled; the examples, which are programs on top of the library. *)

From Stdlib Require Export ZArith Lia List Bool.
From stdpp Require Export base list gmap numbers strings pretty.
From coqutil Require Import Byte Word.LittleEndianList.

#[global] Open Scope Z_scope.

(** ** Rust's [Result] *)

Inductive result (A E : Type) : Type :=
| Ok (a : A)
| Err (e : E).
Arguments Ok {A E} a.
Arguments Err {A E} e.

Declare Scope rust_scope.
Delimit Scope rust_scope with rust.

(** [let? x := e in k] is [let x = e?; k]. *)
Notation "'let?' x ':=' e 'in' k" :=
  (match e with Ok x => k | Err err => Err err end)
  (at level 10, x pattern, e at level 200, k at level 200,
   format "'[v' 'let?'  x  ':='  e  'in' '/' k ']'") : rust_scope.
#[global] Open Scope rust_scope.

Definition is_ok {A E} (r : result A E) : bool :=
  match r with Ok _ => true | Err _ => false end.

Definition ok {A E} (r : result A E) : option A :=
  match r with Ok a => Some a | Err _ => None end.

#[export] Instance result_eq_dec {A E} `{EqDecision A, EqDecision E} :
  EqDecision (result A E).
Proof. solve_decision. Defined.

(** ** Machine integers

    A [w]-bit integer is a [Z]; [in_u w] and [in_i w] are the ranges of the
    unsigned and of the two's complement type, [wrap_u] and [wrap_i] what a
    wrapping operation or an [as] cast does. *)

Definition in_u (w z : Z) : Prop := 0 <= z < 2 ^ w.
Definition in_i (w z : Z) : Prop := - 2 ^ (w - 1) <= z < 2 ^ (w - 1).
Definition in_ub (w z : Z) : bool := (0 <=? z) && (z <? 2 ^ w).
Definition in_ib (w z : Z) : bool := (- 2 ^ (w - 1) <=? z) && (z <? 2 ^ (w - 1)).

Definition wrap_u (w z : Z) : Z := z mod 2 ^ w.
Definition wrap_i (w z : Z) : Z := (z + 2 ^ (w - 1)) mod 2 ^ w - 2 ^ (w - 1).

Definition u8_max : Z := 2 ^ 8 - 1.
Definition u16_max : Z := 2 ^ 16 - 1.
Definition u32_max : Z := 2 ^ 32 - 1.
Definition u64_max : Z := 2 ^ 64 - 1.
Definition i64_max : Z := 2 ^ 63 - 1.
Definition i64_min : Z := - 2 ^ 63.
(** The model is of a 64-bit host. *)
Definition usize_max : Z := u64_max.

(** [saturating_add] / [saturating_sub] of the 64-bit unsigned types. *)
Definition sat_add_u64 (a b : Z) : Z := Z.min (a + b) u64_max.
Definition sat_sub_u64 (a b : Z) : Z := Z.max 0 (a - b).

(** An unadorned [+], [-] or unary [-] of Rust: [None] is the panic of a build
    with overflow checks; a build without them wraps. *)
Definition checked_i (overflow_checks : bool) (w z : Z) : option Z :=
  if in_ib w z then Some z
  else if overflow_checks then None else Some (wrap_i w z).
Definition checked_u (overflow_checks : bool) (w z : Z) : option Z :=
  if in_ub w z then Some z
  else if overflow_checks then None else Some (wrap_u w z).

Lemma in_ub_spec w z : in_ub w z = true <-> in_u w z.
Proof. unfold in_ub, in_u. rewrite andb_true_iff. lia. Qed.

Lemma in_ib_spec w z : in_ib w z = true <-> in_i w z.
Proof. unfold in_ib, in_i. rewrite andb_true_iff. lia. Qed.

Lemma wrap_u_id w z : in_u w z -> wrap_u w z = z.
Proof. intros. by apply Z.mod_small. Qed.

Lemma wrap_u_range w z : 0 <= w -> in_u w (wrap_u w z).
Proof. intros. apply Z.mod_pos_bound. by apply Z.pow_pos_nonneg. Qed.

Lemma wrap_i_id w z : 0 < w -> in_i w z -> wrap_i w z = z.
Proof.
  unfold in_i, wrap_i. intros Hw Hz.
  assert (2 ^ w = 2 * 2 ^ (w - 1)) as E
    by (rewrite <- Z.pow_succ_r by lia; f_equal; lia).
  rewrite Z.mod_small by lia. lia.
Qed.

Lemma wrap_i_range w z : 0 < w -> in_i w (wrap_i w z).
Proof.
  unfold in_i, wrap_i. intros Hw.
  assert (2 ^ w = 2 * 2 ^ (w - 1)) as E
    by (rewrite <- Z.pow_succ_r by lia; f_equal; lia).
  pose proof (Z.mod_pos_bound (z + 2 ^ (w - 1)) (2 ^ w)
                ltac:(apply Z.pow_pos_nonneg; lia)). lia.
Qed.

Lemma wrap_i_mod w z : 0 < w -> wrap_i w (z mod 2 ^ w) = wrap_i w z.
Proof.
  intros. unfold wrap_i. f_equal.
  rewrite Zplus_mod_idemp_l. done.
Qed.

Lemma checked_i_id oc w z : in_i w z -> checked_i oc w z = Some z.
Proof. intros H. unfold checked_i. apply in_ib_spec in H. by rewrite H. Qed.

Lemma checked_u_id oc w z : in_u w z -> checked_u oc w z = Some z.
Proof. intros H. unfold checked_u. apply in_ub_spec in H. by rewrite H. Qed.

(** ** Bytes *)

Abbreviation byte := Init.Byte.byte.

Definition u8_of (b : byte) : Z := byte.unsigned b.
Definition byte_of (z : Z) : byte := byte.of_Z z.

Lemma u8_of_byte_of z : in_u 8 z -> u8_of (byte_of z) = z.
Proof.
  intros H. unfold u8_of, byte_of. rewrite byte.unsigned_of_Z.
  unfold byte.wrap. by apply Z.mod_small.
Qed.

Lemma byte_of_u8_of b : byte_of (u8_of b) = b.
Proof. apply byte.of_Z_unsigned. Qed.

Lemma u8_of_range b : in_u 8 (u8_of b).
Proof. apply byte.unsigned_range. Qed.

Definition byte_eqb (a b : byte) : bool := u8_of a =? u8_of b.

Lemma byte_eqb_spec a b : byte_eqb a b = true <-> a = b.
Proof.
  unfold byte_eqb. rewrite Z.eqb_eq. split; [|by intros ->].
  apply byte.unsigned_inj.
Qed.

#[export] Instance byte_eq_dec : EqDecision byte.
Proof.
  intros a b. destruct (byte_eqb a b) eqn:E.
  - left. by apply byte_eqb_spec.
  - right. intros ->. assert (byte_eqb b b = true) by by apply byte_eqb_spec.
    congruence.
Defined.

#[export] Program Instance byte_countable : Countable byte :=
  inj_countable' u8_of byte_of _.
Next Obligation. apply byte_of_u8_of. Qed.

Fixpoint bytes_eqb (a b : list byte) : bool :=
  match a, b with
  | [], [] => true
  | x :: a', y :: b' => byte_eqb x y && bytes_eqb a' b'
  | _, _ => false
  end.

Lemma bytes_eqb_spec a b : bytes_eqb a b = true <-> a = b.
Proof.
  revert b. induction a as [|x a IH]; intros [|y b]; simpl; try done.
  rewrite andb_true_iff, byte_eqb_spec, IH. split; [by intros [-> ->]|].
  by intros [= -> ->].
Qed.

(** [z.to_le_bytes()] of an [8 n]-bit integer, and [from_le_bytes] of the
    unsigned and of the signed type of that width. *)
Definition to_le (n : nat) (z : Z) : list byte := le_split n z.
Definition from_le (bs : list byte) : Z := le_combine bs.
Definition from_le_i (bs : list byte) : Z :=
  wrap_i (Z.of_nat (length bs) * 8) (le_combine bs).

Lemma to_le_length n z : length (to_le n z) = n.
Proof. apply length_le_split. Qed.

Lemma from_le_to_le n z : in_u (Z.of_nat n * 8) z -> from_le (to_le n z) = z.
Proof.
  intros H. unfold from_le, to_le. rewrite le_combine_split.
  by apply Z.mod_small.
Qed.

Lemma from_le_i_to_le n z :
  (0 < n)%nat -> in_i (Z.of_nat n * 8) z -> from_le_i (to_le n z) = z.
Proof.
  intros Hn H. unfold from_le_i, to_le.
  rewrite length_le_split, le_combine_split, wrap_i_mod by lia.
  apply wrap_i_id; [lia|done].
Qed.

Lemma from_le_range bs : in_u (Z.of_nat (length bs) * 8) (from_le bs).
Proof.
  unfold in_u, from_le. rewrite Z.mul_comm. apply le_combine_bound.
Qed.

(** [core::str::from_utf8]: the well-formed byte sequences of Unicode's table
    3-7, which is what the standard library's validator accepts. *)
Definition in_range (lo hi : Z) (b : byte) : bool :=
  (lo <=? u8_of b) && (u8_of b <=? hi).
Definition utf8_cont : byte -> bool := in_range 128 191.

Fixpoint utf8_valid (s : list byte) : bool :=
  match s with
  | [] => true
  | b0 :: s0 =>
    if in_range 0 127 b0 then utf8_valid s0
    else match s0 with
    | [] => false
    | b1 :: s1 =>
      if in_range 194 223 b0 then utf8_cont b1 && utf8_valid s1
      else match s1 with
      | [] => false
      | b2 :: s2 =>
        if in_range 224 224 b0 then
          in_range 160 191 b1 && utf8_cont b2 && utf8_valid s2
        else if in_range 237 237 b0 then
          in_range 128 159 b1 && utf8_cont b2 && utf8_valid s2
        else if in_range 225 239 b0 then
          utf8_cont b1 && utf8_cont b2 && utf8_valid s2
        else match s2 with
        | [] => false
        | b3 :: s3 =>
          if in_range 240 240 b0 then
            in_range 144 191 b1 && utf8_cont b2 && utf8_cont b3 && utf8_valid s3
          else if in_range 241 243 b0 then
            utf8_cont b1 && utf8_cont b2 && utf8_cont b3 && utf8_valid s3
          else if in_range 244 244 b0 then
            in_range 128 143 b1 && utf8_cont b2 && utf8_cont b3 && utf8_valid s3
          else false
        end
      end
    end
  end.

(** The UTF-8 bytes of an ASCII literal of the source. *)
Fixpoint ascii_bytes (s : string) : list byte :=
  match s with
  | EmptyString => []
  | String a s' => Strings.Ascii.byte_of_ascii a :: ascii_bytes s'
  end.

(** ** Lists *)

(** [iter().position(f)]: the index of the first element satisfying [f]. *)
Fixpoint position {A} (f : A -> bool) (l : list A) : option nat :=
  match l with
  | [] => None
  | x :: l' => if f x then Some 0%nat else S <$> position f l'
  end.

Lemma position_Some {A} (f : A -> bool) l i :
  position f l = Some i ->
  exists x, l !! i = Some x /\ f x = true /\
    forall j y, (j < i)%nat -> l !! j = Some y -> f y = false.
Proof.
  revert i. induction l as [|x l IH]; intros i; simpl; [done|].
  destruct (f x) eqn:Hx.
  - intros [= <-]. exists x. split_and!; [done..|]. intros; lia.
  - destruct (position f l) as [k|]; simpl; [|done]. intros [= <-].
    destruct (IH k eq_refl) as (y & Hy & Hfy & Hbefore).
    exists y. split_and!; [done..|]. intros [|j] z Hj Hz.
    + simpl in Hz. congruence.
    + eapply Hbefore; [|done]. lia.
Qed.

Lemma position_None {A} (f : A -> bool) l :
  position f l = None <-> Forall (fun x => f x = false) l.
Proof.
  induction l as [|x l IH]; simpl; [by split; [constructor|]|].
  rewrite Forall_cons. destruct (f x).
  - split; [done|]. by intros [? _].
  - destruct (position f l); simpl.
    + split; [done|]. intros [_ H]. by apply IH in H.
    + split; [|done]. intros _. split; [done|]. by apply IH.
Qed.

(** [for (i, x) in l.iter().enumerate() { f(i, x)?; }], counting from [i]. *)
Fixpoint try_for_each {A E} (f : nat -> A -> result unit E) (i : nat) (l : list A)
  : result unit E :=
  match l with
  | [] => Ok tt
  | x :: l' => let? _ := f i x in try_for_each f (S i) l'
  end.

Lemma try_for_each_Ok {A E} (f : nat -> A -> result unit E) i l :
  try_for_each f i l = Ok tt <->
  forall k x, l !! k = Some x -> f (i + k)%nat x = Ok tt.
Proof.
  revert i. induction l as [|x l IH]; intros i; simpl; [done|].
  split.
  - destruct (f i x) as [[]|] eqn:E0; [|done]. intros H [|k] y; simpl.
    + intros [= <-]. by rewrite Nat.add_0_r.
    + intros Hk. rewrite <- Nat.add_succ_comm. by apply (IH (S i)).
  - intros H. pose proof (H 0%nat x eq_refl) as H0. rewrite Nat.add_0_r in H0.
    rewrite H0. apply IH. intros k y Hk. rewrite Nat.add_succ_comm. by apply H.
Qed.

Lemma try_for_each_Err {A E} (f : nat -> A -> result unit E) i l e :
  try_for_each f i l = Err e ->
  exists k x, l !! k = Some x /\ f (i + k)%nat x = Err e /\
    forall j y, (j < k)%nat -> l !! j = Some y -> f (i + j)%nat y = Ok tt.
Proof.
  revert i. induction l as [|x l IH]; intros i; simpl; [done|].
  destruct (f i x) as [[]|e'] eqn:E0.
  - intros H. destruct (IH _ H) as (k & y & Hk & Hf & Hb).
    exists (S k), y. rewrite <- Nat.add_succ_comm. split_and!; [done..|].
    intros [|j] z Hj; simpl.
    + intros [= <-]. by rewrite Nat.add_0_r.
    + rewrite <- Nat.add_succ_comm. apply Hb. lia.
  - intros [= <-]. exists 0%nat, x. rewrite Nat.add_0_r. split_and!; [done..|]. lia.
Qed.

(** [len() as u32]. *)
Definition len_u32 {A} (l : list A) : Z := wrap_u 32 (Z.of_nat (length l)).

(** [v.get(i)] for an unsigned index. *)
Definition get {A} (l : list A) (i : Z) : option A :=
  if i <? Z.of_nat (length l) then l !! Z.to_nat i else None.

Lemma get_eq {A} (l : list A) i : get l i = l !! Z.to_nat i.
Proof.
  unfold get. destruct (Z.ltb_spec i (Z.of_nat (length l))); [done|].
  symmetry. apply lookup_ge_None_2. lia.
Qed.

(** ** Texts *)

Definition hex_digit (d : Z) : string :=
  match get ["0"; "1"; "2"; "3"; "4"; "5"; "6"; "7"; "8"; "9"; "A"; "B"; "C"; "D";
             "E"; "F"]%string d with
  | Some s => s
  | None => ""%string
  end.

(** [{:02X}] of a byte. *)
Definition hex_byte (b : Z) : string := hex_digit (b / 16) +:+ hex_digit (b mod 16).

(** ** Record updates

    [r <| f := v |>] and [r <| f ::= g |>] rebuild [r] with its field [f] replaced or
    mapped.  A record opts in with an instance of [Eta] that rebuilds it from its
    fields; the setters are derived from it. *)

Class Eta (R : Type) := eta : R -> R.
Class Setter {R T : Type} (proj : R -> T) := update : (T -> T) -> R -> R.
Arguments update {R T} proj {_} f r /.

Ltac derive_setter :=
  match goal with
  | |- @Setter ?R _ ?p =>
    let rebuild := eval hnf in (@eta R _) in
    let abstracted := eval pattern p in rebuild in
    match abstracted with
    | ?g _ =>
      let t := eval cbv beta in (fun f r => g (fun r' => f (p r')) r) in exact t
    end
  end.
#[export] Hint Extern 1 (Setter _) => derive_setter : typeclass_instances.

Notation "r <| proj ::= f |>" := (update proj f r)
  (at level 12, f at next level, left associativity) : rust_scope.
Notation "r <| proj := v |>" := (update proj (fun _ => v) r)
  (at level 12, left associativity) : rust_scope.

(** ** Automation shared by the components *)

Create HintDb byteflow.
#[export] Hint Resolve wrap_u_range wrap_i_range u8_of_range : byteflow.
#[export] Hint Extern 1 (_ <= _) => lia : byteflow.
#[export] Hint Extern 1 (_ < _) => lia : byteflow.

(** Case analysis on the scrutinee of a [match] in a hypothesis or the goal. *)
Ltac split_match :=
  match goal with
  | H : context [match ?x with _ => _ end] |- _ =>
    lazymatch x with context [match _ with _ => _ end] => fail | _ => idtac end;
    destruct x eqn:?
  | |- context [match ?x with _ => _ end] =>
    lazymatch x with context [match _ with _ => _ end] => fail | _ => idtac end;
    destruct x eqn:?
  end.

(** Open every conjunction of the context. *)
Ltac split_conj :=
  repeat match goal with H : _ /\ _ |- _ => destruct H end.

Lemma lookup_replicate_decide {A} n (x : A) k :
  replicate n x !! k = if decide (k < n)%nat then Some x else None.
Proof.
  destruct (decide _); [by apply lookup_replicate_2|].
  apply lookup_ge_None_2. rewrite length_replicate. lia.
Qed.
