(* ===== verification/Capability.v ===== *)
(** Capabilities: the token ([CapId]), the rights bitset ([CapRights]), the
    native allow-list ([NativeMask]), the revocation counters and the
    authorization record ([Cap]) with [Cap::attenuate], the only derivation
    path.  Models bytecode/cap.rs. *)

From S2P Require Import Prelude.

(** ** Tokens *)

Module CapId.

(** [bytecode/cap.rs] [CapId]: a [u128]. *)
Definition t : Type := Z.

(** [bytecode/cap.rs] [CapIdError] *)
Inductive error := Entropy.

(** [bytecode/cap.rs] [CapId::NONE] *)
Definition NONE : t := 0.

(** [bytecode/cap.rs] [CapId::is_none] *)
Definition is_none (c : t) : bool := c =? 0.

(** [bytecode/cap.rs] [CapId::as_u128] *)
Definition as_u128 (c : t) : Z := c.

(** [bytecode/cap.rs] [CapId::from_raw] *)
Definition from_raw (raw : Z) : t := raw.

Section random.
(** The operating system's generator ([getrandom::getrandom]): one call either
    fails or fills a 16-byte buffer. *)
Context {R : Type} (getrandom : R -> option (list byte) * R).

(** The [for _ in 0..8] loop of [random]. *)
Fixpoint random_attempts (n : nat) (rng : R) : result t error * R :=
  match n with
  | O => (Err Entropy, rng)
  | S n' =>
    match getrandom rng with
    | (None, rng') => (Err Entropy, rng')
    | (Some bytes, rng') =>
      let raw := from_le bytes in
      if negb (raw =? 0) then (Ok raw, rng') else random_attempts n' rng'
    end
  end.

(** [bytecode/cap.rs] [CapId::random] *)
Definition random (rng : R) : result t error * R := random_attempts 8 rng.
End random.

End CapId.

(** ** Rights *)

Module CapRights.

(** [bytecode/cap.rs] [CapRights]: a [u32] bitset. *)
Definition t : Type := Z.

(** [bytecode/cap.rs:109-117] [CapRights::NONE .. CapRights::NATIVE] *)
Definition NONE : t := 0.
Definition SEND : t := Z.shiftl 1 0.
Definition ASK : t := Z.shiftl 1 1.
Definition RECV : t := Z.shiftl 1 2.
Definition SPAWN : t := Z.shiftl 1 3.
Definition LINK : t := Z.shiftl 1 4.
Definition MONITOR : t := Z.shiftl 1 5.
Definition ADMIN : t := Z.shiftl 1 6.
Definition NATIVE : t := Z.shiftl 1 7.

(** [bytecode/cap.rs] [CapRights::ADDRESSING] *)
Definition ADDRESSING : t := Z.lor (Z.lor (Z.lor SEND ASK) LINK) MONITOR.

(** [bytecode/cap.rs] [CapRights::FLOW] *)
Definition FLOW : t :=
  Z.lor (Z.lor (Z.lor (Z.lor (Z.lor (Z.lor SEND ASK) RECV) SPAWN) LINK) MONITOR)
    NATIVE.

(** [bytecode/cap.rs] [CapRights::ROOT] *)
Definition ROOT : t := FLOW.

(** [bytecode/cap.rs] [CapRights::SEND_ASK] *)
Definition SEND_ASK : t := Z.lor SEND ASK.

(** [bytecode/cap.rs] [CapRights::empty] *)
Definition empty : t := 0.

(** [bytecode/cap.rs] [CapRights::union] *)
Definition union (a b : t) : t := Z.lor a b.

(** [bytecode/cap.rs] [CapRights::intersect] *)
Definition intersect (a b : t) : t := Z.land a b.

(** [bytecode/cap.rs] [CapRights::contains] *)
Definition contains (a b : t) : bool := Z.land a b =? b.

(** [bytecode/cap.rs] [CapRights::is_subset_of]; [!] of a [u32] is
    taken at width 32. *)
Definition is_subset_of (a b : t) : bool :=
  Z.land a (wrap_u 32 (Z.lnot b)) =? 0.

(** [bytecode/cap.rs] [CapRights::bits] *)
Definition bits (a : t) : Z := a.

(** [bytecode/cap.rs] [CapRights::bits_u8] *)
Definition bits_u8 (a : t) : Z := wrap_u 8 a.

(** [bytecode/cap.rs] [CapRights::from_bits] *)
Definition from_bits (b : Z) : t := b.

(** [bytecode/cap.rs] [CapRights::from_u8] *)
Definition from_u8 (b : Z) : t := b.

End CapRights.

(** ** Native allow-lists *)

Module NativeMask.

(** [bytecode/cap.rs] [NativeMask]: 64-bit words, least index first. *)
Definition t : Type := list Z.

#[global] Instance eq_dec : EqDecision t.
Proof. unfold t. apply _. Defined.

(** [native_count.div_ceil(64)] *)
Definition word_count (native_count : Z) : nat := Z.to_nat ((native_count + 63) / 64).

(** [bytecode/cap.rs] [NativeMask::empty] *)
Definition empty (native_count : Z) : t := replicate (word_count native_count) 0.

(** [v.last_mut()] and its update. *)
Definition update_last (f : Z -> Z) (v : list Z) : list Z :=
  match last v with
  | Some w => <[(length v - 1)%nat := f w]> v
  | None => v
  end.

(** [bytecode/cap.rs] [NativeMask::full] *)
Definition full (native_count : Z) : t :=
  let v := replicate (word_count native_count) u64_max in
  let rem := native_count mod 64 in
  if negb (rem =? 0) then
    update_last (fun w => Z.land w (Z.shiftl 1 rem - 1)) v
  else v.

(** The body of the loop of [from_indices]. *)
Definition set_index (native_count : Z) (v : list Z) (i : Z) : list Z :=
  let w := i / 64 in
  let b := i mod 64 in
  if (w <? Z.of_nat (length v)) && (i <? native_count) then
    alter (fun word => Z.lor word (Z.shiftl 1 b)) (Z.to_nat w) v
  else v.

(** [bytecode/cap.rs] [NativeMask::from_indices] *)
Definition from_indices (native_count : Z) (idxs : list Z) : t :=
  fold_left (set_index native_count) idxs (replicate (word_count native_count) 0).

(** [bytecode/cap.rs] [NativeMask::word_len] *)
Definition word_len (m : t) : Z := Z.of_nat (length m).

(** [bytecode/cap.rs] [NativeMask::allows] *)
Definition allows (m : list Z) (idx : Z) : bool :=
  let w := idx / 64 in
  let b := idx mod 64 in
  match get m w with
  | Some word => negb (Z.land word (Z.shiftl 1 b) =? 0)
  | None => false
  end.

(** [bytecode/cap.rs] [NativeMask::intersect] *)
Definition intersect (m requested : list Z) : t :=
  let n := Nat.min (length m) (length requested) in
  map (fun i =>
         let a := match m !! i with Some w => w | None => 0 end in
         let b := match requested !! i with Some w => w | None => 0 end in
         Z.land a b)
      (seq 0 n).

End NativeMask.

(** ** Revocation counters

    An [Arc<RevocationCell>] is a reference into a store of counters: the flow,
    its native gate and the capability table alias one counter, so a revocation
    through one of them is seen by the others. *)

Module RevocationCell.

Definition ref : Type := N.

(** [bytecode/cap.rs] [RevocationCell] *)
Record store := mk_store { next : ref; counters : gmap ref Z }.

Definition empty_store : store := mk_store 0%N ∅.

(** [bytecode/cap.rs] [RevocationCell::new] *)
Definition new (s : store) : ref * store :=
  (next s, mk_store (N.succ (next s)) (<[next s := 0]> (counters s))).

(** [bytecode/cap.rs] [RevocationCell::epoch] *)
Definition epoch (s : store) (r : ref) : Z := default 0 (counters s !! r).

(** [bytecode/cap.rs] [RevocationCell::revoke]: [fetch_add] wraps. *)
Definition revoke (s : store) (r : ref) : store :=
  mk_store (next s) (<[r := wrap_u 64 (epoch s r + 1)]> (counters s)).

End RevocationCell.

(** ** Authorization records *)

Module CapTarget.

(** [bytecode/cap.rs] [CapTarget] *)
Inductive t := Flow (id : Z) | NativeTable | Scheduler.

#[global] Instance eq_dec : EqDecision t.
Proof. solve_decision. Defined.

(** [bytecode/cap.rs] [CapTarget::flow_id] *)
Definition flow_id (x : t) : option Z :=
  match x with
  | Flow id => Some id
  | NativeTable | Scheduler => None
  end.

End CapTarget.

Module Cap.

(** [bytecode/cap.rs] [Cap] *)
Record t := mk {
  target : CapTarget.t;
  rights : CapRights.t;
  native_mask : option NativeMask.t;
  epoch : Z }.

(** [bytecode/cap.rs] [Cap::root] *)
Definition root (tgt : CapTarget.t) (r : CapRights.t) (m : option NativeMask.t)
    (s : RevocationCell.store) (cell : RevocationCell.ref) : t :=
  {| target := tgt; rights := r; native_mask := m;
     epoch := RevocationCell.epoch s cell |}.

(** [bytecode/cap.rs] [Cap::is_valid] *)
Definition is_valid (c : t) (s : RevocationCell.store) (cell : RevocationCell.ref) : bool :=
  epoch c =? RevocationCell.epoch s cell.

(** [bytecode/cap.rs] [Cap::attenuate] *)
Definition attenuate (c : t) (want_rights : CapRights.t)
    (want_native : option NativeMask.t) : t :=
  let r := CapRights.intersect (rights c) want_rights in
  let m := match native_mask c, want_native with
           | Some cur, Some req => Some (NativeMask.intersect cur req)
           | Some cur, None => Some cur
           | None, _ => None
           end in
  {| target := target c; rights := r; native_mask := m; epoch := epoch c |}.

End Cap.

#[global] Instance cap_eq_dec : EqDecision Cap.t.
Proof. solve_decision. Defined.

(** ** Bit-level facts *)

Lemma land_bit_ne0 w b : 0 <= b -> negb (Z.land w (Z.shiftl 1 b) =? 0) = Z.testbit w b.
Proof.
  intros Hb. rewrite Z.shiftl_1_l.
  destruct (Z.testbit w b) eqn:E.
  - apply negb_true_iff, Z.eqb_neq. intros H0.
    apply (f_equal (fun z => Z.testbit z b)) in H0.
    rewrite Z.land_spec, Z.pow2_bits_true, Z.bits_0, E in H0 by lia. done.
  - apply negb_false_iff, Z.eqb_eq. apply Z.bits_inj'. intros n Hn.
    rewrite Z.land_spec, Z.pow2_bits_eqb, Z.bits_0 by lia.
    destruct (Z.eqb_spec b n) as [<-|]; [by rewrite E|by rewrite andb_false_r].
Qed.

Lemma land_ones_subset a b : Z.land (Z.land a b) a = Z.land a b.
Proof. rewrite <- Z.land_assoc, (Z.land_comm b a), Z.land_assoc. by rewrite Z.land_diag. Qed.

(** [contains] and [is_subset_of] both say that every bit is allowed. *)
Lemma contains_spec a b :
  CapRights.contains a b = true <->
  forall n, 0 <= n -> Z.testbit b n = true -> Z.testbit a n = true.
Proof.
  unfold CapRights.contains. rewrite Z.eqb_eq. split.
  - intros H n Hn Hb. rewrite <- H in Hb. rewrite Z.land_spec in Hb.
    by apply andb_true_iff in Hb as [? _].
  - intros H. apply Z.bits_inj'. intros n Hn. rewrite Z.land_spec.
    destruct (Z.testbit b n) eqn:E; [by rewrite H|by rewrite andb_false_r].
Qed.

Lemma testbit_wrap_u_lnot b n :
  0 <= n < 32 -> Z.testbit (wrap_u 32 (Z.lnot b)) n = negb (Z.testbit b n).
Proof.
  intros Hn. unfold wrap_u. rewrite Z.mod_pow2_bits_low by lia.
  by rewrite Z.lnot_spec by lia.
Qed.

Lemma testbit_above w a n : in_u w a -> 0 <= w <= n -> Z.testbit a n = false.
Proof.
  intros [Ha1 Ha2] Hn. destruct (Z.eq_dec a 0) as [->|]; [apply Z.bits_0|].
  apply Z.bits_above_log2; [lia|]. apply Z.log2_lt_pow2; [lia|].
  eapply Z.lt_le_trans; [exact Ha2|]. apply Z.pow_le_mono_r; lia.
Qed.

Lemma is_subset_of_contains a b :
  in_u 32 a -> CapRights.is_subset_of a b = CapRights.contains b a.
Proof.
  intros Ha. apply eq_true_iff_eq. rewrite contains_spec.
  unfold CapRights.is_subset_of. rewrite Z.eqb_eq. split.
  - intros H n Hn Hbit. destruct (decide (n < 32)).
    + apply (f_equal (fun z => Z.testbit z n)) in H.
      rewrite Z.land_spec, testbit_wrap_u_lnot, Hbit, Z.bits_0 in H by lia.
      by destruct (Z.testbit b n).
    + rewrite (testbit_above 32) in Hbit by (done || lia). done.
  - intros H. apply Z.bits_inj'. intros n Hn. rewrite Z.land_spec, Z.bits_0.
    destruct (decide (n < 32)).
    + rewrite testbit_wrap_u_lnot by lia. specialize (H n Hn).
      destruct (Z.testbit a n); [by rewrite H|done].
    + by rewrite (testbit_above 32 a) by (done || lia).
Qed.

Lemma contains_refl a : CapRights.contains a a = true.
Proof. apply contains_spec. auto. Qed.

Lemma contains_trans a b c :
  CapRights.contains a b = true -> CapRights.contains b c = true ->
  CapRights.contains a c = true.
Proof. rewrite !contains_spec. auto. Qed.

Lemma contains_intersect a b :
  CapRights.contains a (CapRights.intersect a b) = true.
Proof.
  apply contains_spec. intros n _. unfold CapRights.intersect.
  rewrite Z.land_spec. by intros [? _]%andb_true_iff.
Qed.

Lemma contains_intersect_iff a b c :
  CapRights.contains (CapRights.intersect a b) c =
  CapRights.contains a c && CapRights.contains b c.
Proof.
  apply eq_true_iff_eq. rewrite andb_true_iff, !contains_spec.
  unfold CapRights.intersect. split.
  - intros H. split; intros n Hn Hc; specialize (H n Hn Hc);
      rewrite Z.land_spec in H; by apply andb_true_iff in H as [? ?].
  - intros [Ha Hb] n Hn Hc. by rewrite Z.land_spec, Ha, Hb.
Qed.

(** ** Native allow-lists, bit by bit *)

Lemma allows_bit (m : list Z) idx :
  0 <= idx ->
  NativeMask.allows m idx =
  match m !! Z.to_nat (idx / 64) with
  | Some w => Z.testbit w (idx mod 64)
  | None => false
  end.
Proof.
  intros Hi. unfold NativeMask.allows. cbv zeta. rewrite get_eq.
  destruct (m !! Z.to_nat (idx / 64)); [|done].
  apply land_bit_ne0. apply Z.mod_pos_bound. lia.
Qed.

Lemma intersect_lookup (m r : list Z) i :
  (NativeMask.intersect m r : list Z) !! i =
  match m !! i, r !! i with Some a, Some b => Some (Z.land a b) | _, _ => None end.
Proof.
  unfold NativeMask.intersect. rewrite list_lookup_fmap.
  destruct (decide (i < Nat.min (length m) (length r))%nat) as [Hi|Hi].
  - rewrite lookup_seq_lt by done. simpl.
    destruct (lookup_lt_is_Some_2 m i) as [a ->]; [lia|].
    destruct (lookup_lt_is_Some_2 r i) as [b ->]; [lia|]. done.
  - rewrite lookup_seq_ge by lia. simpl.
    destruct (decide (length m <= i)%nat) as [Hm|Hm].
    + by rewrite (lookup_ge_None_2 m) by done.
    + rewrite (lookup_ge_None_2 r) by lia. by destruct (m !! i).
Qed.

(** The attenuation primitive allows exactly what both masks allow. *)
Lemma mask_intersect_allows (m r : list Z) idx :
  0 <= idx ->
  NativeMask.allows (NativeMask.intersect m r) idx =
  NativeMask.allows m idx && NativeMask.allows r idx.
Proof.
  intros Hi. rewrite !allows_bit, intersect_lookup by done.
  destruct (m !! _), (r !! _); simpl; rewrite ?andb_false_r; try done.
  by rewrite Z.land_spec.
Qed.

Lemma word_count_spec n i :
  0 <= n -> 0 <= i -> (Z.to_nat (i / 64) < NativeMask.word_count n)%nat <-> i / 64 * 64 < n.
Proof.
  intros Hn Hi. unfold NativeMask.word_count.
  pose proof (Z.div_mod (n + 63) 64 ltac:(lia)).
  pose proof (Z.mod_pos_bound (n + 63) 64 ltac:(lia)).
  assert (0 <= i / 64) by (apply Z.div_pos; lia).
  assert (0 <= (n + 63) / 64) by (apply Z.div_pos; lia).
  rewrite <- Z2Nat.inj_lt by lia. lia.
Qed.

Lemma testbit_u64_max b : 0 <= b < 64 -> Z.testbit u64_max b = true.
Proof.
  intros. change u64_max with (Z.ones 64). by apply Z.ones_spec_low.
Qed.

Lemma update_last_lookup f v i :
  NativeMask.update_last f v !! i =
  if decide (S i = length v) then f <$> v !! i else v !! i.
Proof.
  unfold NativeMask.update_last. rewrite last_lookup.
  destruct v as [|x v]; [by destruct (decide _)|].
  simpl length. simpl pred.
  destruct ((x :: v) !! length v) as [w|] eqn:Hw.
  2: { apply lookup_ge_None in Hw. simpl in Hw. lia. }
  replace (S (length v) - 1)%nat with (length v) by lia.
  destruct (decide (S i = S (length v))) as [E|E].
  - assert (i = length v) as -> by lia. rewrite Hw. simpl fmap.
    apply list_lookup_insert_eq. simpl. lia.
  - by rewrite list_lookup_insert_ne by lia.
Qed.

(** [full] allows exactly the indices below [native_count]. *)
Lemma full_allows native_count idx :
  0 <= native_count -> 0 <= idx ->
  NativeMask.allows (NativeMask.full native_count) idx = (idx <? native_count).
Proof.
  intros Hn Hi. rewrite allows_bit by done. unfold NativeMask.full.
  pose proof (word_count_spec native_count idx Hn Hi) as Hwc.
  pose proof (Z.div_mod idx 64 ltac:(lia)) as Hidx.
  pose proof (Z.mod_pos_bound idx 64 ltac:(lia)) as Hib.
  pose proof (Z.div_mod native_count 64 ltac:(lia)) as Hcnt.
  pose proof (Z.mod_pos_bound native_count 64 ltac:(lia)) as Hcb.
  pose proof (lookup_replicate_decide (NativeMask.word_count native_count) u64_max) as Hrep.
  destruct (Z.eqb_spec (native_count mod 64) 0) as [Hz|Hz]; simpl.
  - rewrite Hrep. destruct (decide _) as [H|H].
    + rewrite testbit_u64_max by lia. symmetry. apply Z.ltb_lt. apply Hwc in H. lia.
    + symmetry. apply Z.ltb_ge. rewrite Hwc in H. lia.
  - rewrite update_last_lookup, length_replicate, !Hrep.
    assert (NativeMask.word_count native_count = Z.to_nat (native_count / 64 + 1)) as Ewc.
    { unfold NativeMask.word_count. f_equal. symmetry.
      apply Z.div_unique with (native_count mod 64 - 1); lia. }
    assert (0 <= native_count / 64) by (apply Z.div_pos; lia).
    assert (0 <= idx / 64) by (apply Z.div_pos; lia).
    destruct (decide (S _ = _)) as [El|El]; destruct (decide (_ < _)%nat) as [H'|H'];
      simpl; try lia.
    + rewrite Z.land_spec, testbit_u64_max by lia. simpl.
      replace (Z.shiftl 1 (native_count mod 64) - 1) with (Z.ones (native_count mod 64))
        by (rewrite Z.ones_equiv, Z.shiftl_1_l; lia).
      assert (idx / 64 = native_count / 64) as Eq by lia.
      destruct (Z.ltb_spec idx native_count).
      * apply Z.ones_spec_low. lia.
      * apply Z.ones_spec_high. lia.
    + rewrite testbit_u64_max by lia. symmetry. apply Z.ltb_lt. lia.
Qed.

(** [from_indices] allows exactly the listed indices below [native_count]. *)
Lemma set_index_lookup native_count (v : list Z) i j :
  0 <= i ->
  NativeMask.set_index native_count v i !! j =
  if decide (j = Z.to_nat (i / 64)) then
    (fun w => if i <? native_count then Z.lor w (Z.shiftl 1 (i mod 64)) else w) <$> v !! j
  else v !! j.
Proof.
  intros Hi. unfold NativeMask.set_index.
  assert (0 <= i / 64) by (apply Z.div_pos; lia).
  destruct (Z.ltb_spec (i / 64) (Z.of_nat (length v))) as [Hl|Hl]; simpl.
  - destruct (Z.ltb_spec i native_count) as [Hc|Hc].
    + destruct (decide _) as [->|Hne].
      * by rewrite list_lookup_alter_eq.
      * by rewrite list_lookup_alter_ne by lia.
    + destruct (decide _); [by destruct (v !! j)|done].
  - destruct (decide _) as [->|]; [|done].
    rewrite lookup_ge_None_2 by lia. done.
Qed.

Lemma set_index_allows native_count (v : list Z) i idx :
  0 <= i -> 0 <= idx ->
  (i < native_count -> (Z.to_nat (i / 64) < length v)%nat) ->
  NativeMask.allows (NativeMask.set_index native_count v i) idx =
  NativeMask.allows v idx || ((idx =? i) && (i <? native_count)).
Proof.
  intros Hi Hidx Hlen. rewrite !allows_bit, set_index_lookup by done.
  pose proof (Z.div_mod i 64 ltac:(lia)). pose proof (Z.div_mod idx 64 ltac:(lia)).
  assert (0 <= i / 64) by (apply Z.div_pos; lia).
  assert (0 <= idx / 64) by (apply Z.div_pos; lia).
  pose proof (Z.mod_pos_bound i 64 ltac:(lia)).
  destruct (decide _) as [E|E].
  - destruct (v !! Z.to_nat (idx / 64)) as [w|] eqn:Hw; simpl.
    + destruct (Z.ltb_spec i native_count); [|by rewrite andb_false_r, orb_false_r].
      rewrite Z.lor_spec, Z.shiftl_1_l, Z.pow2_bits_eqb by lia. f_equal.
      rewrite andb_true_r. apply eq_true_iff_eq. rewrite !Z.eqb_eq. lia.
    + apply lookup_ge_None in Hw.
      destruct (Z.ltb_spec i native_count) as [Hc|]; [|by rewrite andb_false_r].
      specialize (Hlen Hc). lia.
  - destruct (Z.eqb_spec idx i) as [->|]; [done|]. simpl. by rewrite orb_false_r.
Qed.

Lemma set_index_length native_count v i :
  length (NativeMask.set_index native_count v i) = length v.
Proof. unfold NativeMask.set_index. by destruct (_ && _); rewrite ?length_alter. Qed.

Lemma from_indices_allows native_count idxs idx :
  0 <= native_count -> Forall (fun i => 0 <= i) idxs -> 0 <= idx ->
  NativeMask.allows (NativeMask.from_indices native_count idxs) idx =
  (idx <? native_count) && existsb (Z.eqb idx) idxs.
Proof.
  intros Hn Hidxs Hidx. unfold NativeMask.from_indices.
  assert (Hgen : forall v,
    length v = NativeMask.word_count native_count ->
    NativeMask.allows (fold_left (NativeMask.set_index native_count) idxs v) idx =
    NativeMask.allows v idx || ((idx <? native_count) && existsb (Z.eqb idx) idxs)).
  { induction Hidxs as [|i idxs Hi _ IH]; intros v Hv; simpl.
    - by rewrite andb_false_r, orb_false_r.
    - rewrite IH by by rewrite set_index_length.
      rewrite set_index_allows; [|done|done|].
      + rewrite <- orb_assoc. f_equal. destruct (Z.eqb_spec idx i) as [->|]; simpl.
        * by destruct (i <? native_count), (existsb _ _).
        * by destruct (_ <? _).
      + intros Hc. rewrite Hv. apply word_count_spec; [done..|].
        pose proof (Z.div_mod i 64 ltac:(lia)).
        pose proof (Z.mod_pos_bound i 64 ltac:(lia)). lia. }
  rewrite Hgen by apply length_replicate.
  rewrite allows_bit, lookup_replicate_decide by done.
  destruct (decide _); [by rewrite Z.bits_0|done].
Qed.

(** ** Attenuation *)

(** What the native mask of an authority record allows. *)
Definition mask_allows (m : option NativeMask.t) (idx : Z) : bool :=
  match m with Some m => NativeMask.allows m idx | None => false end.

Definition request_allows (m : option NativeMask.t) (idx : Z) : bool :=
  match m with Some m => NativeMask.allows m idx | None => true end.

(** A chain of derivations, oldest request first. *)
Definition attenuate_all (c : Cap.t)
    (reqs : list (CapRights.t * option NativeMask.t)) : Cap.t :=
  fold_left (fun c '(r, m) => Cap.attenuate c r m) reqs c.

Lemma attenuate_rights c r m want :
  CapRights.contains (Cap.rights (Cap.attenuate c r m)) want =
  CapRights.contains (Cap.rights c) want && CapRights.contains r want.
Proof. apply contains_intersect_iff. Qed.

Lemma attenuate_mask c r m idx :
  0 <= idx ->
  mask_allows (Cap.native_mask (Cap.attenuate c r m)) idx =
  mask_allows (Cap.native_mask c) idx && request_allows m idx.
Proof.
  intros Hi. unfold Cap.attenuate. simpl.
  destruct (Cap.native_mask c), m; simpl; rewrite ?andb_true_r; try done.
  by apply mask_intersect_allows.
Qed.

Lemma attenuate_all_is_valid c reqs s cell :
  Cap.is_valid (attenuate_all c reqs) s cell = Cap.is_valid c s cell.
Proof.
  unfold attenuate_all. revert c. induction reqs as [|[r m] reqs IH]; intros c; [done|].
  simpl. by rewrite IH.
Qed.

(** C5: attenuation is exact and never escalates.  Through any chain of
    derivations the result carries a right iff the root and every request carry
    it, allows a native iff the root's mask and every requested mask allow it,
    and keeps the root's target and epoch. *)
Theorem attenuate_chain_exact c reqs :
  (forall want,
     CapRights.contains (Cap.rights (attenuate_all c reqs)) want =
     CapRights.contains (Cap.rights c) want &&
     forallb (fun '(r, _) => CapRights.contains r want) reqs) /\
  (forall idx, 0 <= idx ->
     mask_allows (Cap.native_mask (attenuate_all c reqs)) idx =
     mask_allows (Cap.native_mask c) idx &&
     forallb (fun '(_, m) => request_allows m idx) reqs) /\
  Cap.target (attenuate_all c reqs) = Cap.target c /\
  Cap.epoch (attenuate_all c reqs) = Cap.epoch c.
Proof.
  unfold attenuate_all. revert c.
  induction reqs as [|[r m] reqs IH]; intros c; simpl.
  { split_and!; intros; by rewrite ?andb_true_r. }
  destruct (IH (Cap.attenuate c r m)) as (Hr & Hm & Ht & He). split_and!.
  - intros want. by rewrite Hr, attenuate_rights, andb_assoc.
  - intros idx Hi. by rewrite Hm, attenuate_mask, andb_assoc by done.
  - done.
  - done.
Qed.

Lemma epoch_revoke s cell :
  RevocationCell.epoch (RevocationCell.revoke s cell) cell =
  wrap_u 64 (RevocationCell.epoch s cell + 1).
Proof. unfold RevocationCell.epoch at 1, RevocationCell.revoke. simpl. by rewrite lookup_insert_eq. Qed.

Lemma epoch_revoke_ne s cell cell' :
  cell <> cell' ->
  RevocationCell.epoch (RevocationCell.revoke s cell) cell' = RevocationCell.epoch s cell'.
Proof.
  intros. unfold RevocationCell.epoch, RevocationCell.revoke. simpl.
  by rewrite lookup_insert_ne.
Qed.

Lemma wrap_succ_ne e : wrap_u 64 (e + 1) <> e.
Proof.
  unfold wrap_u. intros H. pose proof (Z.div_mod (e + 1) (2 ^ 64) ltac:(lia)). lia.
Qed.

(** one [revoke] of the issuer's counter invalidates the root grant and
    every grant derived from it, and leaves grants of other issuers alone. *)
Lemma revoke_kills_derived s cell tgt r m reqs :
  let c := attenuate_all (Cap.root tgt r m s cell) reqs in
  Cap.is_valid c s cell = true /\
  Cap.is_valid c (RevocationCell.revoke s cell) cell = false /\
  (forall cell' c', cell <> cell' ->
     Cap.is_valid c' (RevocationCell.revoke s cell) cell' = Cap.is_valid c' s cell').
Proof.
  simpl. rewrite !attenuate_all_is_valid. unfold Cap.is_valid. simpl.
  rewrite epoch_revoke. split_and!.
  - by rewrite Z.eqb_refl.
  - apply Z.eqb_neq. intros H. by apply (wrap_succ_ne (RevocationCell.epoch s cell)).
  - intros cell' c' Hne. by rewrite epoch_revoke_ne.
Qed.
