(* ===== verification/F64.v ===== *)
(** Rust's [f64]: an IEEE-754 binary64 value kept as its 64-bit pattern, with the
    arithmetic and comparisons of the standard library computed by Rocq's
    executable specification of floating point ([SpecFloat], precision 53,
    maximal exponent 1024, round to nearest even).  Rust leaves the payload of a
    NaN produced by arithmetic open; the model produces the quiet NaN. *)

From Stdlib Require Import SpecFloat.
From S2P Require Import Prelude.

Module F64.

Definition t : Type := Z.

Definition prec : Z := 53.
Definition emax : Z := 1024.

Definition quiet_nan : t := 9221120237041090560. (* 0x7ff8000000000000 *)

(** [f64::from_bits], to the number the pattern denotes. *)
Definition to_sf (bits : t) : spec_float :=
  let s := Z.testbit bits 63 in
  let e := Z.shiftr bits 52 mod 2048 in
  let m := bits mod 2 ^ 52 in
  if e =? 2047 then
    if m =? 0 then S754_infinity s else S754_nan
  else if e =? 0 then
    match m with
    | Z.pos p => S754_finite s p (-1074)
    | _ => S754_zero s
    end
  else
    match m + 2 ^ 52 with
    | Z.pos p => S754_finite s p (e - 1075)
    | _ => S754_nan
    end.

Definition sign_bit (s : bool) : Z := if s then 2 ^ 63 else 0.

(** [f64::to_bits]: the pattern of a number, which fits 64 bits when its mantissa
    and exponent do. *)
Definition encoding (x : spec_float) : Z :=
  match x with
  | S754_zero s => sign_bit s
  | S754_infinity s => sign_bit s + 2047 * 2 ^ 52
  | S754_nan => quiet_nan
  | S754_finite s m e =>
    if Z.pos m <? 2 ^ 52 then sign_bit s + Z.pos m
    else sign_bit s + (e + 1075) * 2 ^ 52 + (Z.pos m - 2 ^ 52)
  end.
Definition of_sf (x : spec_float) : t := wrap_u 64 (encoding x).

Definition add (x y : t) : t := of_sf (SFadd prec emax (to_sf x) (to_sf y)).
Definition sub (x y : t) : t := of_sf (SFsub prec emax (to_sf x) (to_sf y)).
Definition mul (x y : t) : t := of_sf (SFmul prec emax (to_sf x) (to_sf y)).
Definition div (x y : t) : t := of_sf (SFdiv prec emax (to_sf x) (to_sf y)).

(** Unary minus flips the sign bit, of a NaN too. *)
Definition neg (x : t) : t := Z.lxor x (2 ^ 63).

(** [==], [<] and [<=]: false whenever an operand is a NaN. *)
Definition eqb (x y : t) : bool := SFeqb (to_sf x) (to_sf y).
Definition ltb (x y : t) : bool := SFltb (to_sf x) (to_sf y).
Definition leb (x y : t) : bool := SFleb (to_sf x) (to_sf y).

(** [i as f64] of an [i64]: the nearest binary64 number. *)
Definition of_i64 (i : Z) : t := of_sf (binary_normalize prec emax i 0 false).

(** [x as i64]: towards zero, saturating, a NaN to 0. *)
Definition to_i64 (x : t) : Z :=
  match to_sf x with
  | S754_nan | S754_zero _ => 0
  | S754_infinity s => if s then i64_min else i64_max
  | S754_finite s m e =>
    let a := if 0 <=? e then Z.shiftl (Z.pos m) e else Z.shiftr (Z.pos m) (- e) in
    let z := if s then - a else a in
    Z.max i64_min (Z.min i64_max z)
  end.

Definition is_nan (x : t) : bool :=
  match to_sf x with S754_nan => true | _ => false end.

End F64.

(** One, two, three and the largest finite number, as [to_bits] prints them. *)
Example f64_one_plus_two :
  F64.add (F64.of_i64 1) (F64.of_i64 2) = 4613937818241073152.
Proof. vm_compute. reflexivity. Qed.

Example f64_zero_div_zero : F64.div 0 0 = F64.quiet_nan.
Proof. vm_compute. reflexivity. Qed.

Example f64_signed_zeros_equal : F64.eqb 0 (F64.neg 0) = true /\ 0 <> F64.neg 0.
Proof. split; [vm_compute; reflexivity | discriminate]. Qed.

Example f64_overflow_to_infinity :
  F64.add 9218868437227405311 9218868437227405311 = 9218868437227405312.
Proof. vm_compute. reflexivity. Qed.

Example f64_of_i64_rounds_to_even : F64.of_i64 9007199254740993 = F64.of_i64 9007199254740992.
Proof. vm_compute. reflexivity. Qed.

(** A pattern that is not a NaN survives decoding and encoding. *)
Lemma f64_of_sf_to_sf x :
  in_u 64 x -> F64.is_nan x = false -> F64.of_sf (F64.to_sf x) = x.
Proof.
  intros Hx. unfold F64.is_nan. intros Hnan. unfold F64.of_sf.
  enough (F64.encoding (F64.to_sf x) = x) as -> by by apply wrap_u_id.
  revert Hnan. destruct Hx as [Hx0 Hx1]. unfold F64.to_sf.
  assert (Hsign : F64.sign_bit (Z.testbit x 63) = x / 2 ^ 63 * 2 ^ 63).
  { rewrite Z.testbit_eqb by lia.
    assert (0 <= x / 2 ^ 63 < 2) by (split; [apply Z.div_pos|apply Z.div_lt_upper_bound]; lia).
    unfold F64.sign_bit. destruct (Z.eqb_spec ((x / 2 ^ 63) mod 2) 1) as [E|E];
      rewrite Z.mod_small in E by lia; lia. }
  pose proof (Z.div_mod x (2 ^ 52) ltac:(lia)) as Dx.
  pose proof (Z.mod_pos_bound x (2 ^ 52) ltac:(lia)) as Mx.
  assert (Hexp : x / 2 ^ 52 = x / 2 ^ 63 * 2048 + Z.shiftr x 52 mod 2048).
  { rewrite Z.shiftr_div_pow2 by lia.
    replace (x / 2 ^ 63) with (x / 2 ^ 52 / 2048)
      by (rewrite Z.div_div by lia; f_equal; lia).
    pose proof (Z.div_mod (x / 2 ^ 52) 2048 ltac:(lia)). lia. }
  set (e := Z.shiftr x 52 mod 2048) in *. set (m := x mod 2 ^ 52) in *.
  destruct (Z.eqb_spec e 2047) as [He|He].
  { destruct (Z.eqb_spec m 0); [|done]. intros _. unfold F64.encoding. lia. }
  destruct (Z.eqb_spec e 0) as [He0|He0].
  - intros _. destruct m as [|p|p] eqn:Em; unfold F64.encoding; [lia| |lia].
    destruct (Z.ltb_spec (Z.pos p) (2 ^ 52)); lia.
  - intros _. destruct (m + 2 ^ 52) as [|p|p] eqn:Em; [lia| |lia].
    unfold F64.encoding. destruct (Z.ltb_spec (Z.pos p) (2 ^ 52)); lia.
Qed.

Lemma f64_to_i64_range x : in_i 64 (F64.to_i64 x).
Proof.
  unfold F64.to_i64, i64_min, i64_max. destruct (F64.to_sf x) as [s|[]| |[] m e];
    unfold in_i; change (2 ^ (64 - 1)) with (2 ^ 63); lia.
Qed.

Lemma f64_of_sf_range x : in_u 64 (F64.of_sf x).
Proof. apply wrap_u_range. lia. Qed.

Lemma lxor_range w a b : 0 <= w -> in_u w a -> in_u w b -> in_u w (Z.lxor a b).
Proof.
  intros Hw Ha Hb. assert (Hnn : 0 <= Z.lxor a b) by (apply Z.lxor_nonneg; unfold in_u in *; lia).
  split; [done|]. apply Z.bounded_iff_bits_nonneg; [done..|]. intros n Hn.
  rewrite Z.lxor_spec.
  rewrite (proj1 (Z.bounded_iff_bits_nonneg w a Hw (proj1 Ha)) (proj2 Ha)) by done.
  by rewrite (proj1 (Z.bounded_iff_bits_nonneg w b Hw (proj1 Hb)) (proj2 Hb)).
Qed.

Lemma f64_neg_range x : in_u 64 x -> in_u 64 (F64.neg x).
Proof. intros. apply lxor_range; [lia|done|by split]. Qed.
