(* ===== verification/Values.v ===== *)
(** Runtime values and Atomic Hop envelopes.  Models bytecode/value.rs.

    An [Arc<str>] or [Arc<[u8]>] is a pointer to its allocation and the bytes it
    holds: two values share a buffer iff their pointers are equal
    ([Arc::ptr_eq]), which the heap accounting of the VM depends on, while
    [PartialEq] compares the bytes. *)

From S2P Require Import Prelude F64 Capability.

(** The size of the enum is left to the compiler's layout: the model takes
    [size_of::<Value>()] as a positive constant. *)
Class ValueLayout := {
  size_of_value : Z;
  size_of_value_pos : 0 < size_of_value }.

(** The layout rustc chooses on x86-64. *)
#[global] Instance layout_x86_64 : ValueLayout | 100.
Proof. refine {| size_of_value := 64 |}. lia. Defined.

(** Identity of an [Arc] allocation. *)
Definition ptr : Type := N.
#[global] Instance ptr_eq_dec : EqDecision ptr.
Proof. unfold ptr. apply _. Defined.
Definition ptr_eq (p q : ptr) : bool := N.eqb p q.

(** [bytecode/value.rs] [TAG_SYS_DOWN] *)
Definition TAG_SYS_DOWN : Z := 65281. (* 0xFF01 *)

(** [bytecode/value.rs] [TAG_SYS_EXIT] *)
Definition TAG_SYS_EXIT : Z := 65282. (* 0xFF02 *)

(** [bytecode/value.rs] [Message]: the envelope, over the type of its payload. *)
Record message (V : Type) := mk_message {
  sender : Z;
  reply_cap : CapId.t;
  request_id : Z;
  tag : Z;
  payload : V }.
Arguments mk_message {V} _ _ _ _ _.
Arguments sender {V} _.
Arguments reply_cap {V} _.
Arguments request_id {V} _.
Arguments tag {V} _.
Arguments payload {V} _.

Module Value.

(** [bytecode/value.rs] [Value] *)
Inductive t :=
| Unit
| Bool (b : bool)
| Int (i : Z)
| Float (x : F64.t)
| Pid (p : Z)
| Message (m : message t)
| Cap (c : CapId.t)
| Str (p : ptr) (s : list byte)
| Bytes (p : ptr) (b : list byte).

(** [bytecode/value.rs] [Value::str]: copies into a fresh allocation. *)
Definition str (fresh : ptr) (s : list byte) : t := Str fresh s.

(** [bytecode/value.rs] [Value::bytes] *)
Definition bytes (fresh : ptr) (b : list byte) : t := Bytes fresh b.

Definition is_empty {A} (l : list A) : bool :=
  match l with [] => true | _ => false end.

(** [bytecode/value.rs] [Value::is_truthy] *)
Definition is_truthy (v : t) : bool :=
  match v with
  | Unit | Bool false | Int 0 => false
  | Str _ s => negb (is_empty s)
  | Bytes _ b => negb (is_empty b)
  | _ => true
  end.

(** [bytecode/value.rs] [Value::as_int] *)
Definition as_int (v : t) : option Z :=
  match v with
  | Int i => Some i
  | Bool b => Some (Z.b2z b)
  | _ => None
  end.

(** [bytecode/value.rs] [Value::as_pid] *)
Definition as_pid (v : t) : option Z :=
  match v with Pid p => Some p | _ => None end.

(** [bytecode/value.rs] [Value::as_cap] *)
Definition as_cap (v : t) : option CapId.t :=
  match v with Cap c => Some c | _ => None end.

(** [bytecode/value.rs] [Value::as_message] *)
Definition as_message (v : t) : option (message t) :=
  match v with Message m => Some m | _ => None end.

(** [bytecode/value.rs] [Value::as_str] *)
Definition as_str (v : t) : option (list byte) :=
  match v with Str _ s => Some s | _ => None end.

(** [bytecode/value.rs] [Value::as_bytes] *)
Definition as_bytes (v : t) : option (list byte) :=
  match v with
  | Bytes _ b => Some b
  | Str _ s => Some s
  | _ => None
  end.

(** [bytecode/value.rs:183-212] [Value::memory_size, Value::heap_size] *)
Fixpoint memory_size `{ValueLayout} (v : t) : Z :=
  size_of_value +
  match v with
  | Str _ s => Z.of_nat (length s)
  | Bytes _ b => Z.of_nat (length b)
  | Message m => memory_size (payload m)
  | Unit | Bool _ | Int _ | Float _ | Pid _ | Cap _ => 0
  end.

Definition heap_size `{ValueLayout} (v : t) : Z :=
  match v with
  | Str _ s => Z.of_nat (length s)
  | Bytes _ b => Z.of_nat (length b)
  | Message m => memory_size (payload m)
  | Unit | Bool _ | Int _ | Float _ | Pid _ | Cap _ => 0
  end.

(** [bytecode/value.rs] [Value::type_name] *)
Definition type_name (v : t) : string :=
  match v with
  | Unit => "unit"
  | Bool _ => "bool"
  | Int _ => "int"
  | Float _ => "float"
  | Pid _ => "pid"
  | Message _ => "message"
  | Cap _ => "cap"
  | Str _ _ => "str"
  | Bytes _ _ => "bytes"
  end.

(** The derived [PartialEq] of [Value] and [Message]: [f64]'s [==] on floats,
    contents behind an [Arc]. *)
Fixpoint eqb (a b : t) : bool :=
  match a, b with
  | Unit, Unit => true
  | Bool x, Bool y => Bool.eqb x y
  | Int x, Int y => x =? y
  | Float x, Float y => F64.eqb x y
  | Pid x, Pid y => x =? y
  | Message m, Message n =>
    (sender m =? sender n) && (reply_cap m =? reply_cap n) &&
    (request_id m =? request_id n) && (tag m =? tag n) &&
    eqb (payload m) (payload n)
  | Cap x, Cap y => x =? y
  | Str _ x, Str _ y => bytes_eqb x y
  | Bytes _ x, Bytes _ y => bytes_eqb x y
  | _, _ => false
  end.

(** [From<u64>] and [From<i32>] of [Value]. *)
Definition from_u64 (v : Z) : t := Int (wrap_i 64 v).
Definition from_i32 (v : Z) : t := Int v.

End Value.

Abbreviation Message := (message Value.t).

Module Msg.

(** [bytecode/value.rs] [Message::new] *)
Definition new (snd rid tg : Z) (pl : Value.t) : Message :=
  {| sender := snd; reply_cap := CapId.NONE; request_id := rid; tag := tg;
     payload := pl |}.

(** [bytecode/value.rs] [Message::request] *)
Definition request (rid tg : Z) (pl : Value.t) : Message := new 0 rid tg pl.

(** [bytecode/value.rs] [Message::reply_to] *)
Definition reply_to (req : Message) (tg : Z) (pl : Value.t) : Message :=
  new 0 (request_id req) tg pl.

(** [bytecode/value.rs] [Message::down] *)
Definition down (monitor target_flow reason : Z) : Message :=
  new target_flow monitor TAG_SYS_DOWN (Value.Int (wrap_i 64 reason)).

(** [bytecode/value.rs] [Message::linked_exit] *)
Definition linked_exit (target_flow reason : Z) : Message :=
  new target_flow 0 TAG_SYS_EXIT (Value.Int (wrap_i 64 reason)).

(** [bytecode/value.rs] [Message::is_down] *)
Definition is_down (m : Message) : bool := tag m =? TAG_SYS_DOWN.

(** [bytecode/value.rs] [Message::is_exit] *)
Definition is_exit (m : Message) : bool := tag m =? TAG_SYS_EXIT.

(** [bytecode/value.rs] [Message::authenticate] *)
Definition authenticate (m : Message) (snd : Z) (rc : CapId.t) : Message :=
  {| sender := snd; reply_cap := rc; request_id := request_id m; tag := tag m;
     payload := payload m |}.

(** [bytecode/value.rs] [Message::with_payload] *)
Definition with_payload (m : Message) (pl : Value.t) : Message :=
  {| sender := sender m; reply_cap := reply_cap m; request_id := request_id m;
     tag := tag m; payload := pl |}.

End Msg.

(** Induction on values, through the payload of an envelope. *)
Section value_ind.
Context (P : Value.t -> Prop).
Context (Hunit : P Value.Unit) (Hbool : forall b, P (Value.Bool b))
  (Hint : forall i, P (Value.Int i)) (Hfloat : forall x, P (Value.Float x))
  (Hpid : forall p, P (Value.Pid p))
  (Hmsg : forall m, P (payload m) -> P (Value.Message m))
  (Hcap : forall c, P (Value.Cap c)) (Hstr : forall p s, P (Value.Str p s))
  (Hbytes : forall p b, P (Value.Bytes p b)).

Fixpoint value_induction (v : Value.t) : P v :=
  match v with
  | Value.Unit => Hunit
  | Value.Bool b => Hbool b
  | Value.Int i => Hint i
  | Value.Float x => Hfloat x
  | Value.Pid p => Hpid p
  | Value.Message m => Hmsg m (value_induction (payload m))
  | Value.Cap c => Hcap c
  | Value.Str p s => Hstr p s
  | Value.Bytes p b => Hbytes p b
  end.
End value_ind.

(** ** Well-formed values

    What the Rust types guarantee: integers in range, [Str] payloads UTF-8. *)
Fixpoint value_ok (v : Value.t) : Prop :=
  match v with
  | Value.Unit | Value.Bool _ | Value.Bytes _ _ => True
  | Value.Int i => in_i 64 i
  | Value.Float x => in_u 64 x
  | Value.Pid p => in_u 64 p
  | Value.Cap c => in_u 128 c
  | Value.Str _ s => utf8_valid s = true
  | Value.Message m =>
    in_u 64 (sender m) /\ in_u 128 (reply_cap m) /\ in_u 64 (request_id m) /\
    in_u 16 (tag m) /\ value_ok (payload m)
  end.

(** ** Authority carried by a value: every token reachable from it. *)
Fixpoint caps_of (v : Value.t) : list CapId.t :=
  match v with
  | Value.Cap c => [c]
  | Value.Message m => reply_cap m :: caps_of (payload m)
  | _ => []
  end.

(** Every token of [v] other than [CapId::NONE] is one of [S]. *)
Definition caps_within (S : CapId.t -> Prop) (v : Value.t) : Prop :=
  Forall (fun c => c = CapId.NONE \/ S c) (caps_of v).

Lemma caps_within_message S m :
  caps_within S (Value.Message m) <->
  (reply_cap m = CapId.NONE \/ S (reply_cap m)) /\ caps_within S (payload m).
Proof. unfold caps_within. simpl. by rewrite Forall_cons. Qed.

Lemma caps_within_cap S c :
  caps_within S (Value.Cap c) <-> c = CapId.NONE \/ S c.
Proof. unfold caps_within. simpl. by rewrite Forall_singleton. Qed.

Lemma caps_within_nil S v : caps_of v = [] -> caps_within S v.
Proof. unfold caps_within. intros ->. constructor. Qed.

Section size.
Context `{ValueLayout}.

Lemma memory_size_heap v :
  Value.memory_size v = size_of_value + Value.heap_size v.
Proof. by destruct v. Qed.

Lemma memory_size_pos v : 0 < Value.memory_size v.
Proof.
  pose proof size_of_value_pos.
  induction v using value_induction; simpl; lia.
Qed.

Lemma heap_size_nonneg v : 0 <= Value.heap_size v.
Proof.
  destruct v; simpl; try lia. pose proof (memory_size_pos (payload m)). lia.
Qed.
End size.

#[export] Hint Resolve memory_size_pos heap_size_nonneg : byteflow.
