(* ===== verification/Isa.v ===== *)
(** The instruction set: opcodes and their stable byte encoding, the packed
    instruction word and its constructors, function definitions and chunks.
    Models bytecode/opcode.rs, bytecode/instruction.rs and bytecode/chunk.rs. *)

From S2P Require Import Prelude Values.

Module Opcode.

(** [bytecode/opcode.rs] [Opcode] *)
Inductive t :=
| Halt | LoadConst | Move | LoadImm | Add | Sub | Mul | Div | Mod
| Neg | Eq | Lt | Le | Jump | Branch | Call | Return | CallNative
| Spawn | Yield | Sleep | Exit | SelfPid | Send | Receive | ReceiveTimeout
| ReceiveMatch | ReceiveMatchImm | Ask | Monitor | Demonitor | Link
| Unlink | AskTimeout | Delegate | FreshRequestId | ReceiveMatchCorr
| ReceiveMatchCorrImm | RegisterName | Whereis | Trap | Nop.

#[global] Instance eq_dec : EqDecision t.
Proof. solve_decision. Defined.

(** [bytecode/opcode.rs] [Opcode::from_u8] *)
Definition from_u8 (byte : Z) : option t :=
  match byte with
  | 0 => Some Halt
  | 1 => Some LoadConst
  | 2 => Some Move
  | 3 => Some LoadImm
  | 16 => Some Add
  | 17 => Some Sub
  | 18 => Some Mul
  | 19 => Some Div
  | 20 => Some Mod
  | 21 => Some Neg
  | 24 => Some Eq
  | 25 => Some Lt
  | 26 => Some Le
  | 32 => Some Jump
  | 33 => Some Branch
  | 48 => Some Call
  | 49 => Some Return
  | 50 => Some CallNative
  | 64 => Some Spawn
  | 65 => Some Yield
  | 66 => Some Sleep
  | 67 => Some Exit
  | 68 => Some SelfPid
  | 80 => Some Send
  | 81 => Some Receive
  | 82 => Some ReceiveTimeout
  | 83 => Some ReceiveMatch
  | 84 => Some ReceiveMatchImm
  | 85 => Some Ask
  | 86 => Some Monitor
  | 87 => Some Demonitor
  | 88 => Some Link
  | 89 => Some Unlink
  | 90 => Some AskTimeout
  | 91 => Some Delegate
  | 92 => Some FreshRequestId
  | 93 => Some ReceiveMatchCorr
  | 94 => Some ReceiveMatchCorrImm
  | 96 => Some Trap
  | 98 => Some RegisterName
  | 99 => Some Whereis
  | 97 => Some Nop
  | _ => None
  end.

(** [bytecode/opcode.rs] [Opcode::as_u8] *)
Definition as_u8 (op : t) : Z :=
  match op with
  | Halt => 0
  | LoadConst => 1
  | Move => 2
  | LoadImm => 3
  | Add => 16
  | Sub => 17
  | Mul => 18
  | Div => 19
  | Mod => 20
  | Neg => 21
  | Eq => 24
  | Lt => 25
  | Le => 26
  | Jump => 32
  | Branch => 33
  | Call => 48
  | Return => 49
  | CallNative => 50
  | Spawn => 64
  | Yield => 65
  | Sleep => 66
  | Exit => 67
  | SelfPid => 68
  | Send => 80
  | Receive => 81
  | ReceiveTimeout => 82
  | ReceiveMatch => 83
  | ReceiveMatchImm => 84
  | Ask => 85
  | Monitor => 86
  | Demonitor => 87
  | Link => 88
  | Unlink => 89
  | AskTimeout => 90
  | Delegate => 91
  | FreshRequestId => 92
  | ReceiveMatchCorr => 93
  | ReceiveMatchCorrImm => 94
  | RegisterName => 98
  | Whereis => 99
  | Trap => 96
  | Nop => 97
  end.

(** [bytecode/opcode.rs] [Opcode::fmt] *)
Definition name (op : t) : string :=
  match op with
  | Halt => "Halt"
  | LoadConst => "LoadConst"
  | Move => "Move"
  | LoadImm => "LoadImm"
  | Add => "Add"
  | Sub => "Sub"
  | Mul => "Mul"
  | Div => "Div"
  | Mod => "Mod"
  | Neg => "Neg"
  | Eq => "Eq"
  | Lt => "Lt"
  | Le => "Le"
  | Jump => "Jump"
  | Branch => "Branch"
  | Call => "Call"
  | Return => "Return"
  | CallNative => "CallNative"
  | Spawn => "Spawn"
  | Yield => "Yield"
  | Sleep => "Sleep"
  | Exit => "Exit"
  | SelfPid => "SelfPid"
  | Send => "Send"
  | Receive => "Receive"
  | ReceiveTimeout => "ReceiveTimeout"
  | ReceiveMatch => "ReceiveMatch"
  | ReceiveMatchImm => "ReceiveMatchImm"
  | Ask => "Ask"
  | Monitor => "Monitor"
  | Demonitor => "Demonitor"
  | Link => "Link"
  | Unlink => "Unlink"
  | AskTimeout => "AskTimeout"
  | Delegate => "Delegate"
  | FreshRequestId => "FreshRequestId"
  | ReceiveMatchCorr => "ReceiveMatchCorr"
  | ReceiveMatchCorrImm => "ReceiveMatchCorrImm"
  | RegisterName => "RegisterName"
  | Whereis => "Whereis"
  | Trap => "Trap"
  | Nop => "Nop"
  end.

(** Every opcode, in declaration order. *)
Definition all : list t :=
  [Halt; LoadConst; Move; LoadImm; Add; Sub; Mul; Div; Mod; Neg; Eq; Lt; Le; Jump; Branch; Call; Return; CallNative; Spawn; Yield; Sleep; Exit; SelfPid; Send; Receive; ReceiveTimeout; ReceiveMatch; ReceiveMatchImm; Ask; Monitor; Demonitor; Link; Unlink; AskTimeout; Delegate; FreshRequestId; ReceiveMatchCorr; ReceiveMatchCorrImm; RegisterName; Whereis; Trap; Nop].

End Opcode.

Module Instruction.

(** [bytecode/instruction.rs] [Instruction] *)
Record t := mk { op : Opcode.t; a : Z; b : Z; c : Z; imm : Z }.

#[global] Instance eq_dec : EqDecision t.
Proof. solve_decision. Defined.

(** [bytecode/instruction.rs] [Instruction::new] *)
Definition new (op : Opcode.t) (a b c imm : Z) : t := mk op a b c imm.

(** [bytecode/instruction.rs] [Instruction::nullary] *)
Definition nullary (op : Opcode.t) : t := new op 0 0 0 0.

(** [bytecode/instruction.rs] [Instruction::abc] *)
Definition abc (op : Opcode.t) (a b c : Z) : t := new op a b c 0.

(** [bytecode/instruction.rs] [Instruction::a_imm] *)
Definition a_imm (op : Opcode.t) (a imm : Z) : t := new op a 0 0 imm.

(** [bytecode/instruction.rs] [Instruction::only_imm] *)
Definition only_imm (op : Opcode.t) (imm : Z) : t := new op 0 0 0 imm.

End Instruction.

Module FunctionDef.

(** [bytecode/chunk.rs] [FunctionDef] *)
Record t := mk {
  name : list byte;
  entry : Z;
  arity : Z;
  num_registers : Z }.

#[global] Instance eq_dec : EqDecision t.
Proof. solve_decision. Defined.

End FunctionDef.

Module Chunk.

(** [bytecode/chunk.rs] [MAGIC] *)
Definition MAGIC : list byte := ascii_bytes "BFV0".

(** [bytecode/chunk.rs] [ABI_VERSION] *)
Definition ABI_VERSION : Z := 5.

(** [bytecode/chunk.rs] [Chunk] *)
Record t := mk {
  name : list byte;
  constants : list Value.t;
  code : list Instruction.t;
  functions : list FunctionDef.t }.

(** [bytecode/chunk.rs] [Chunk::function] *)
Definition function (ch : t) (index : Z) : option FunctionDef.t :=
  get (functions ch) index.

(** [bytecode/chunk.rs] [Chunk::constant] *)
Definition constant (ch : t) (index : Z) : option Value.t :=
  get (constants ch) index.

(** [bytecode/chunk.rs] [Chunk::len] *)
Definition len (ch : t) : Z := Z.of_nat (length (code ch)).

(** [bytecode/chunk.rs] [Chunk::is_empty] *)
Definition is_empty (ch : t) : bool := Value.is_empty (code ch).

(** The derived [Default]. *)
Definition default : t := mk [] [] [] [].

End Chunk.

(** ** Well-typed words: what the Rust field types guarantee *)

Definition instruction_ok (i : Instruction.t) : Prop :=
  in_u 8 (Instruction.a i) /\ in_u 8 (Instruction.b i) /\
  in_u 8 (Instruction.c i) /\ in_i 32 (Instruction.imm i).

Definition function_ok (f : FunctionDef.t) : Prop :=
  utf8_valid (FunctionDef.name f) = true /\ in_u 32 (FunctionDef.entry f) /\
  in_u 8 (FunctionDef.arity f) /\ in_u 8 (FunctionDef.num_registers f).

Definition chunk_ok (ch : Chunk.t) : Prop :=
  utf8_valid (Chunk.name ch) = true /\ Forall value_ok (Chunk.constants ch) /\
  Forall instruction_ok (Chunk.code ch) /\ Forall function_ok (Chunk.functions ch).

#[export] Instance instruction_ok_dec i : Decision (instruction_ok i).
Proof. unfold instruction_ok, in_u, in_i. apply _. Defined.
#[export] Instance function_ok_dec f : Decision (function_ok f).
Proof. unfold function_ok, in_u. apply _. Defined.

(** ** The byte encoding of opcodes *)

Lemma opcode_in_all op : op ∈ Opcode.all.
Proof. by destruct op; apply (bool_decide_unpack _); vm_compute. Qed.

Lemma opcode_from_as_u8 op : Opcode.from_u8 (Opcode.as_u8 op) = Some op.
Proof. by destruct op. Qed.

Lemma opcode_as_u8_range op : in_u 8 (Opcode.as_u8 op).
Proof. by destruct op; split; vm_compute. Qed.

Lemma opcode_as_from_u8 b op : Opcode.from_u8 b = Some op -> Opcode.as_u8 op = b.
Proof.
  unfold Opcode.from_u8.
  destruct b as [|p|]; [by intros [= <-]| |done].
  do 7 (destruct p as [p|p|]; try done; try by intros [= <-]).
Qed.

Lemma opcode_as_u8_inj op op' : Opcode.as_u8 op = Opcode.as_u8 op' -> op = op'.
Proof.
  intros E. apply (f_equal Opcode.from_u8) in E. rewrite !opcode_from_as_u8 in E. congruence.
Qed.
