(* ===== verification/Display.v ===== *)
(** The texts Byteflow prints: the [Display] of instructions, values and messages
    (bytecode/instruction.rs, value.rs, cap.rs), the listing of a chunk
    (bytecode/disasm.rs) and the sink of the [print] native (output.rs).

    A text is a list of bytes (UTF-8).  A format string is the list of its pieces,
    literals and arguments with their flags, as [format_args!] has it. *)

From Stdlib Require Import SpecFloat.
From S2P Require Import Prelude F64 Capability Values Isa.

Notation text := (list byte).

(** ** [core::fmt] *)

Module Fmt.

(** The digits of [z >= 0] in base [b], most significant first; [fuel] digits at most. *)
Definition digit (z : Z) : byte := byte_of (if z <? 10 then 48 + z else 87 + z).

Fixpoint digits (fuel : nat) (b z : Z) (rest : text) : text :=
  match fuel with
  | O => rest
  | S fuel =>
    let rest := digit (z mod b) :: rest in
    if z <? b then rest else digits fuel b (z / b) rest
  end.

(** As many digits as the number has bits are always enough. *)
Definition width (z : Z) : nat := S (Z.to_nat (Z.log2 z)).

(** [{}] of an unsigned and of a signed integer. *)
Definition unsigned (z : Z) : text := digits (width z) 10 z [].
Definition minus : byte := byte_of 45.
Definition plus : byte := byte_of 43.
Definition signed (z : Z) : text :=
  if z <? 0 then minus :: unsigned (- z) else unsigned z.

(** [{:+}] *)
Definition explicit_sign (z : Z) : text :=
  if z <? 0 then minus :: unsigned (- z) else plus :: unsigned z.

(** [{:x}] of an unsigned integer. *)
Definition hex (z : Z) : text := digits (width z) 16 z [].

(** [{:0n}] of a text without sign. *)
Definition zero_pad (n : nat) (s : text) : text :=
  replicate (n - length s) (byte_of 48) ++ s.

(** The pieces of a format string. *)
Inductive piece :=
| Lit (s : string)
| Text (s : text)
| Dec (z : Z)      (* {} *)
| Plus (z : Z)     (* {:+} *)
| Hex (z : Z).     (* {:#x} *)

Definition render (p : piece) : text :=
  match p with
  | Lit s => ascii_bytes s
  | Text s => s
  | Dec z => signed z
  | Plus z => explicit_sign z
  | Hex z => ascii_bytes "0x" ++ hex z
  end.

(** [write!] *)
Definition write (ps : list piece) : text := concat (map render ps).

(** The line feed of [writeln!]. *)
Definition newline : byte := byte_of 10.
Definition writeln (ps : list piece) : text := write ps ++ [newline].

(** ** Floating point numbers

    [{}] of an [f64] prints the shortest decimal that reads back as the number, and of
    those the closest to it, without an exponent. *)

(** The rounding interval of the positive number [m * 2 ^ e], over a common
    denominator: the number is [n / d], its neighbours' midpoints are [(n - below) / d]
    and [(n + above) / d], and they round to it iff the mantissa is even. *)
Record interval := mk_interval { iv_n : Z; iv_d : Z; iv_below : Z; iv_above : Z; iv_even : bool }.

Definition interval_of (m e : Z) : interval :=
  let up := 2 ^ Z.max 0 (e - 2) in
  let below := if (m =? 2 ^ 52) && negb (e =? -1074) then 1 else 2 in
  mk_interval (4 * m * up) (2 ^ Z.max 0 (2 - e)) (below * up) (2 * up) (Z.even m).

(** The multiple of [10 ^ k] in the interval that is closest to the number, divided by
    [10 ^ k]. *)
Definition at_scale (iv : interval) (k : Z) : option Z :=
  let shift := 10 ^ Z.max 0 (- k) in
  let n := iv_n iv * shift in
  let unit := iv_d iv * 10 ^ Z.max 0 k in
  let within x bound := if iv_even iv then x <=? bound * shift else x <? bound * shift in
  let d := n / unit in
  let r := n mod unit in
  let down := within r (iv_below iv) in
  let up := within (unit - r) (iv_above iv) in
  if up && (negb down || (unit <=? 2 * r)) then Some (d + 1)
  else if down then Some d
  else None.

(** The coarsest scale that has such a multiple, from [k] down. *)
Fixpoint shortest (fuel : nat) (iv : interval) (k : Z) : option (Z * Z) :=
  match fuel with
  | O => None
  | S fuel =>
    match at_scale iv k with
    | Some d => Some (d, k)
    | None => shortest fuel iv (k - 1)
    end
  end.

(** From [10 ^ 309], above every number, down to [10 ^ -324], the scale of the least. *)
Definition shortest_digits (m e : Z) : option (Z * Z) := shortest 634 (interval_of m e) 309.

(** The number [d * 10 ^ k] without an exponent. *)
Definition decimal (d k : Z) : text :=
  let ds := unsigned d in
  if 0 <=? k then ds ++ replicate (Z.to_nat k) (byte_of 48)
  else
    let frac := Z.to_nat (- k) in
    if (frac <? length ds)%nat then
      take (length ds - frac) ds ++ ascii_bytes "." ++ drop (length ds - frac) ds
    else ascii_bytes "0." ++ zero_pad frac ds.

Definition float (x : F64.t) : text :=
  let sign (s : bool) (t : text) := if s then minus :: t else t in
  match F64.to_sf x with
  | S754_nan => ascii_bytes "NaN"
  | S754_infinity s => sign s (ascii_bytes "inf")
  | S754_zero s => sign s (ascii_bytes "0")
  | S754_finite s m e =>
    match shortest_digits (Z.pos m) e with
    | Some (d, k) => sign s (decimal d k)
    | None => []
    end
  end.

(** ** Quoted strings

    [{:?}] of a [str] escapes quotes, backslashes, control characters and the characters
    that Unicode does not count as printable, which is the standard library's table: the
    class says which characters above ASCII are printed as they are. *)
Class Unicode := printable : Z -> bool.

(** The characters of a valid UTF-8 text, each with its bytes. *)
Fixpoint chars (s : text) : list (Z * text) :=
  match s with
  | [] => []
  | b0 :: s0 =>
    if u8_of b0 <? 128 then (u8_of b0, [b0]) :: chars s0
    else match s0 with
    | [] => []
    | b1 :: s1 =>
      let c1 := u8_of b1 mod 64 in
      if u8_of b0 <? 224 then ((u8_of b0 mod 32) * 64 + c1, [b0; b1]) :: chars s1
      else match s1 with
      | [] => []
      | b2 :: s2 =>
        let c2 := u8_of b2 mod 64 in
        if u8_of b0 <? 240 then
          (((u8_of b0 mod 16) * 64 + c1) * 64 + c2, [b0; b1; b2]) :: chars s2
        else match s2 with
        | [] => []
        | b3 :: s3 =>
          ((((u8_of b0 mod 8) * 64 + c1) * 64 + c2) * 64 + u8_of b3 mod 64,
            [b0; b1; b2; b3]) :: chars s3
        end
      end
    end
  end.

Definition backslash : byte := byte_of 92.
Definition quote : byte := byte_of 34.

Definition escape_char `{Unicode} (c : Z * text) : text :=
  let (code, bytes) := c in
  if code =? 0 then [backslash; byte_of 48]
  else if code =? 9 then [backslash; byte_of 116]
  else if code =? 10 then [backslash; byte_of 110]
  else if code =? 13 then [backslash; byte_of 114]
  else if (code =? 34) || (code =? 92) then backslash :: bytes
  else if (32 <=? code) && (code <? 127) then bytes
  else if (128 <=? code) && printable code then bytes
  else backslash :: ascii_bytes "u{" ++ hex code ++ ascii_bytes "}".

Definition debug_str `{Unicode} (s : text) : text :=
  [quote] ++ concat (map escape_char (chars s)) ++ [quote].

End Fmt.

Import Fmt.

(** ** Values and messages *)

(** [bytecode/cap.rs:77-85] [CapId::fmt] *)
Definition cap_id (c : CapId.t) : text :=
  if CapId.is_none c then ascii_bytes "cap#none"
  else ascii_bytes "cap#" ++ zero_pad 32 (hex (CapId.as_u128 c)).

(** [bytecode/value.rs:103-111] [Message::fmt], over the text of the payload. *)
Definition message_text (m : message text) : list piece :=
  [Lit "msg{from=flow#"; Dec (sender m); Lit ", reply="; Text (cap_id (reply_cap m));
   Lit ", id="; Dec (request_id m); Lit ", tag="; Dec (tag m); Lit ", payload=";
   Text (payload m); Lit "}"].

(** [bytecode/value.rs:256-270] [Value::fmt] *)
Fixpoint value (v : Value.t) : text :=
  match v with
  | Value.Unit => ascii_bytes "()"
  | Value.Bool b => ascii_bytes (if b then "true" else "false")
  | Value.Int i => signed i
  | Value.Float x => Fmt.float x
  | Value.Pid p => write [Lit "flow#"; Dec p]
  | Value.Message m =>
    write (message_text (mk_message (sender m) (reply_cap m) (request_id m) (tag m)
             (value (payload m))))
  | Value.Cap c => cap_id c
  | Value.Str _ s => s
  | Value.Bytes _ b => write [Lit "bytes["; Dec (Z.of_nat (length b)); Lit "]"]
  end.

(** ** Instructions *)

(** [bytecode/instruction.rs:42-112] [Instruction::fmt] *)
Definition instruction (i : Instruction.t) : list piece :=
  let op := Lit (Opcode.name (Instruction.op i)) in
  let a := Dec (Instruction.a i) in
  let b := Dec (Instruction.b i) in
  let c := Dec (Instruction.c i) in
  let imm := Dec (Instruction.imm i) in
  match Instruction.op i with
  | Opcode.Halt | Opcode.Yield | Opcode.Nop => [op]
  | Opcode.LoadConst => [op; Lit " r"; a; Lit ", const["; imm; Lit "]"]
  | Opcode.Move => [op; Lit " r"; a; Lit ", r"; b]
  | Opcode.LoadImm => [op; Lit " r"; a; Lit ", "; imm]
  | Opcode.Add | Opcode.Sub | Opcode.Mul | Opcode.Div | Opcode.Mod | Opcode.Eq
  | Opcode.Lt | Opcode.Le => [op; Lit " r"; a; Lit ", r"; b; Lit ", r"; c]
  | Opcode.Neg => [op; Lit " r"; a; Lit ", r"; b]
  | Opcode.Jump => [op; Lit " "; Plus (Instruction.imm i)]
  | Opcode.Branch => [op; Lit " r"; a; Lit ", "; Plus (Instruction.imm i)]
  | Opcode.Call | Opcode.CallNative =>
    [op; Lit " r"; a; Lit ", fn["; imm; Lit "], argc="; b]
  | Opcode.Return | Opcode.Exit | Opcode.Sleep | Opcode.Receive | Opcode.SelfPid
  | Opcode.FreshRequestId => [op; Lit " r"; a]
  | Opcode.Spawn =>
    [op; Lit " r"; a; Lit ", fn["; imm; Lit "], argc="; b; Lit ", rights=";
     Hex (Instruction.c i)]
  | Opcode.Send => [op; Lit " r"; a; Lit ", r"; b]
  | Opcode.ReceiveTimeout | Opcode.ReceiveMatch => [op; Lit " r"; a; Lit ", r"; b]
  | Opcode.ReceiveMatchImm => [op; Lit " r"; a; Lit ", tag="; imm]
  | Opcode.ReceiveMatchCorr => [op; Lit " r"; a; Lit ", tag=r"; b; Lit ", id=r"; c]
  | Opcode.ReceiveMatchCorrImm => [op; Lit " r"; a; Lit ", tag="; imm; Lit ", id=r"; b]
  | Opcode.Ask => [op; Lit " r"; a; Lit ", r"; b; Lit ", r"; c]
  | Opcode.AskTimeout =>
    [op; Lit " r"; a; Lit ", r"; b; Lit ", r"; c; Lit ", timeout=r"; imm]
  | Opcode.Monitor | Opcode.Link => [op; Lit " r"; a; Lit ", r"; b]
  | Opcode.Demonitor | Opcode.Unlink | Opcode.RegisterName => [op; Lit " r"; a]
  | Opcode.Whereis => [op; Lit " r"; a; Lit ", r"; b]
  | Opcode.Delegate =>
    [op; Lit " r"; a; Lit ", r"; b; Lit ", rights="; Hex (wrap_u 32 (Instruction.imm i));
     Lit ", native=r"; c]
  | Opcode.Trap => [op; Lit " "; imm]
  end.

(** ** Listings *)

(** [bytecode/disasm.rs:17-19] [disassemble, a constant] *)
Definition constant_line (i : nat) (c : Value.t) : text :=
  writeln [Lit ";   const["; Dec (Z.of_nat i); Lit "] = "; Text (value c)].

(** [bytecode/disasm.rs:20-26] [disassemble, a function] *)
Definition function_line (i : nat) (def : FunctionDef.t) : text :=
  writeln [Lit "; fn["; Dec (Z.of_nat i); Lit "] "; Text (FunctionDef.name def);
           Lit " entry="; Dec (FunctionDef.entry def); Lit " arity=";
           Dec (FunctionDef.arity def); Lit " regs="; Dec (FunctionDef.num_registers def)].

(** [bytecode/disasm.rs:28-31] [disassemble, the label of an instruction] *)
Definition label (functions : list FunctionDef.t) (i : nat) : text :=
  match List.find (fun f => FunctionDef.entry f =? Z.of_nat i) functions with
  | Some f => write [Lit "  ; "; Text (FunctionDef.name f)]
  | None => []
  end.

(** [bytecode/disasm.rs:27-33] [disassemble, an instruction] *)
Definition code_line (functions : list FunctionDef.t) (i : nat) (instr : Instruction.t) : text :=
  writeln [Text (zero_pad 4 (unsigned (Z.of_nat i))); Lit "  ";
           Text (write (instruction instr)); Text (label functions i)].

(** [bytecode/disasm.rs:8-16] [disassemble, the first line] *)
Definition header_line `{Unicode} (chunk : Chunk.t) : text :=
  writeln [Lit "; chunk "; Text (debug_str (Chunk.name chunk)); Lit " abi=";
           Dec Chunk.ABI_VERSION; Lit " constants="; Dec (Z.of_nat (length (Chunk.constants chunk)));
           Lit " functions="; Dec (Z.of_nat (length (Chunk.functions chunk)));
           Lit " code="; Dec (Z.of_nat (length (Chunk.code chunk)))].

(** [bytecode/disasm.rs] [disassemble] *)
Definition disassemble `{Unicode} (chunk : Chunk.t) : text :=
  header_line chunk ++
  concat (imap constant_line (Chunk.constants chunk)) ++
  concat (imap function_line (Chunk.functions chunk)) ++
  concat (imap (code_line (Chunk.functions chunk)) (Chunk.code chunk)).

(** ** The sink of the [print] native *)

(** [output.rs:26-38] [StdoutSink::write]: what it prints on standard output. *)
Definition stdout_sink (values : list Value.t) : text :=
  concat (imap (fun i v => (if decide (i = O) then [] else ascii_bytes " ") ++ value v) values) ++
  [newline].

(** [output.rs:18-20] [NullSink::write] *)
Definition null_sink (values : list Value.t) : text := [].
