(* ===== verification/Log.v ===== *)
(** Diagnostics on the error stream, log.rs: the level read once from the environment, and
    the lines it lets through.  A line is what [eprintln!] prints. *)

From S2P Require Import Prelude Display.
Import Fmt.

Module Log.

(** [log.rs:27-29] [OFF, INFO and DEBUG] *)
Definition OFF : Z := 0.
Definition INFO : Z := 1.
Definition DEBUG : Z := 2.

(** [log.rs:31-32] [LEVEL and INIT]: two atomics, read and written in turn; [INIT] is 0 or 1. *)
Record t := mk { LEVEL : Z; INIT : bool }.
Definition start : t := mk OFF false.

(** [char::is_whitespace] *)
Definition whitespace (c : Z) : bool :=
  ((9 <=? c) && (c <=? 13)) || (c =? 32) || (c =? 133) || (c =? 160) || (c =? 5760) ||
  ((8192 <=? c) && (c <=? 8202)) || (c =? 8232) || (c =? 8233) || (c =? 8239) || (c =? 8287) ||
  (c =? 12288).

Fixpoint drop_whitespace (cs : list (Z * text)) : list (Z * text) :=
  match cs with
  | c :: cs' => if whitespace (fst c) then drop_whitespace cs' else cs
  | [] => []
  end.

(** [str::trim] *)
Definition trim (s : text) : text :=
  concat (map snd (rev (drop_whitespace (rev (drop_whitespace (chars s)))))).

(** [str::to_ascii_lowercase] *)
Definition to_ascii_lowercase (s : text) : text :=
  map (fun b => if (65 <=? u8_of b) && (u8_of b <=? 90) then byte_of (u8_of b + 32) else b) s.

(** [log.rs:36-45] [level, the variable]: [None] is a variable that is not set, or not
    Unicode. *)
Definition parse (variable : option text) : Z :=
  match variable with
  | None => OFF
  | Some v =>
    let v := to_ascii_lowercase (trim v) in
    let one_of := existsb (fun s => bytes_eqb v (ascii_bytes s)) in
    if one_of [""; "0"; "off"; "false"; "no"]%string then OFF
    else if one_of ["debug"; "trace"; "2"]%string then DEBUG
    else INFO
  end.

(** [log.rs] [level] *)
Definition level (variable : option text) (l : t) : Z * t :=
  let l := if INIT l then l else mk (parse variable) true in
  (LEVEL l, l).

(** [log.rs] [set_level_for_tests] *)
Definition set_level_for_tests (level : Z) (l : t) : t := mk (Z.min level DEBUG) true.

(** [log.rs] [stamp_ms]: the clock's milliseconds since the epoch, if it is not before it. *)
Definition stamp_ms (since_epoch : option Z) : Z :=
  match since_epoch with Some ms => wrap_u 64 ms | None => 0 end.

(** [log.rs] [info]: the text on the error stream. *)
Definition info (variable : option text) (since_epoch : option Z) (msg : text) (l : t) : text * t :=
  let (n, l) := level variable l in
  (if INFO <=? n then
     writeln [Lit "["; Dec (stamp_ms since_epoch); Lit "] byteflow INFO  "; Text msg]
   else [], l).

(** [log.rs] [debug] *)
Definition debug (variable : option text) (since_epoch : option Z) (msg : text) (l : t) : text * t :=
  let (n, l) := level variable l in
  (if DEBUG <=? n then
     writeln [Lit "["; Dec (stamp_ms since_epoch); Lit "] byteflow DEBUG "; Text msg]
   else [], l).

(** One call: of [info] or of [debug], with what the environment says at that moment. *)
Inductive call := Info (variable : option text) (msg : text) | Debug (variable : option text) (msg : text).

Definition log (since_epoch : option Z) (c : call) (l : t) : text * t :=
  match c with
  | Info variable msg => info variable since_epoch msg l
  | Debug variable msg => debug variable since_epoch msg l
  end.

Fixpoint logs (since_epoch : option Z) (cs : list call) (l : t) : list text * t :=
  match cs with
  | [] => ([], l)
  | c :: cs =>
    let (line, l) := log since_epoch c l in
    let (lines, l) := logs since_epoch cs l in (line :: lines, l)
  end.

Definition variable_of (c : call) : option text := match c with Info v _ | Debug v _ => v end.

Lemma log_keeps since_epoch c n : snd (log since_epoch c (mk n true)) = mk n true.
Proof. by destruct c. Qed.

Lemma logs_read since_epoch cs n : logs since_epoch cs (mk n true) =
  (map (fun c => fst (log since_epoch c (mk n true))) cs, mk n true).
Proof.
  induction cs as [|c cs IH]; [done|]. cbn [logs map].
  by rewrite (surjective_pairing (log since_epoch c _)), log_keeps, IH.
Qed.

(** The level is the one of the variable at the first call, whatever it is set to later:
    calls print or do not print by it, so that nothing is printed when the first call saw
    no variable, and debug lines are a subset of what is let through at the higher level. *)
Lemma level_read_once since_epoch c cs :
  let n := parse (variable_of c) in
  snd (logs since_epoch (c :: cs) start) = mk n true /\
  fst (logs since_epoch (c :: cs) start) =
    map (fun c => fst (log since_epoch c (mk n true))) (c :: cs).
Proof.
  intros n. assert (Hfirst : log since_epoch c start = log since_epoch c (mk n true)) by by destruct c.
  cbn [logs]. by rewrite Hfirst, (surjective_pairing (log since_epoch c _)), log_keeps, logs_read.
Qed.

Lemma silent_by_default since_epoch cs : (forall c, c ∈ cs -> variable_of c = None) ->
  Forall (fun line => line = []) (fst (logs since_epoch cs start)).
Proof.
  intros Hv. destruct cs as [|c cs]; [constructor|].
  destruct (level_read_once since_epoch c cs) as [_ ->]. rewrite (Hv c) by by left.
  apply Forall_forall. intros line Hl%list_elem_of_In%in_map_iff. destruct Hl as (d & <- & _).
  by destruct d.
Qed.

Example levels : map parse [None; Some []; Some (ascii_bytes " OFF "); Some (ascii_bytes "1");
  Some (ascii_bytes "Debug"); Some (ascii_bytes "verbose")] = [OFF; OFF; OFF; INFO; DEBUG; INFO].
Proof. by vm_compute. Qed.

End Log.
