(* ===== verification/Verify.v ===== *)
(** The chunk verifier: the structural facts the interpreter relies on, decided
    before a chunk runs.  Models bytecode/verify.rs. *)

From S2P Require Import Prelude Capability Values Isa.

(** [bytecode/verify.rs] [TrustLevel] *)
Inductive TrustLevel := Trusted | Untrusted.
#[export] Instance trust_eq_dec : EqDecision TrustLevel.
Proof. solve_decision. Defined.

(** [bytecode/verify.rs] [VerifyConfig] *)
Record VerifyConfig := { trust : TrustLevel }.

(** [bytecode/verify.rs] [VerifyConfig::default] *)
Definition default_config : VerifyConfig := {| trust := Untrusted |}.

(** [bytecode/verify.rs] [ConstantKind] *)
Inductive ConstantKind := Capability | ProcessId | MessageKind.
#[export] Instance constant_kind_eq_dec : EqDecision ConstantKind.
Proof. solve_decision. Defined.

(** [bytecode/verify.rs] [VerifyError] *)
Inductive VerifyError :=
| UnknownOpcode (at_ : nat) (byte : Z)
| ConstOutOfRange (at_ : nat) (index : Z) (len : nat)
| FunctionOutOfRange (at_ : nat) (index : Z) (len : nat)
| JumpOutOfRange (at_ : nat) (target : Z) (len : nat)
| EmptyFunctionTable
| EntryOutOfRange (function : nat) (entry : Z) (len : nat)
| ArityExceedsRegisters (function : nat) (arity num_registers : Z)
| ForbiddenConstant (index : nat) (kind : ConstantKind).

(** [bytecode/verify.rs:39-47] [ConstantKind::fmt] *)
Definition kind_string (k : ConstantKind) : string :=
  match k with
  | Capability => "capability"
  | ProcessId => "pid"
  | MessageKind => "message"
  end.

Definition nat_string (n : nat) : string := pretty (Z.of_nat n).

(** [bytecode/verify.rs:102-135] [VerifyError::fmt] *)
Definition verify_error_string (e : VerifyError) : string :=
  match e with
  | UnknownOpcode at_ b =>
    "unknown opcode 0x" +:+ hex_byte b +:+ " at instruction " +:+ nat_string at_
  | ConstOutOfRange at_ index len =>
    "instruction " +:+ nat_string at_ +:+ " references constant " +:+ pretty index +:+
    ", pool has " +:+ nat_string len +:+ " entries"
  | FunctionOutOfRange at_ index len =>
    "instruction " +:+ nat_string at_ +:+ " references function " +:+ pretty index +:+
    ", table has " +:+ nat_string len +:+ " entries"
  | JumpOutOfRange at_ target len =>
    "instruction " +:+ nat_string at_ +:+ " jumps to " +:+ pretty target +:+
    ", out of code bounds (len=" +:+ nat_string len +:+ ")"
  | EmptyFunctionTable => "chunk has no entry function"
  | EntryOutOfRange function entry len =>
    "function " +:+ nat_string function +:+ " entry point " +:+ pretty entry +:+
    " is out of code bounds (len=" +:+ nat_string len +:+ ")"
  | ArityExceedsRegisters function arity num_registers =>
    "function " +:+ nat_string function +:+ " declares arity " +:+ pretty arity +:+
    " but only " +:+ pretty num_registers +:+ " registers"
  | ForbiddenConstant index kind =>
    "untrusted constant[" +:+ nat_string index +:+ "] must not embed " +:+ kind_string kind
  end.

(** [bytecode/verify.rs] [validate_constant] *)
Definition validate_constant (value : Value.t) (tr : TrustLevel) (index : nat)
  : result unit VerifyError :=
  if decide (tr = Trusted) then Ok tt
  else match value with
  | Value.Cap _ => Err (ForbiddenConstant index Capability)
  | Value.Pid _ => Err (ForbiddenConstant index ProcessId)
  | Value.Message _ => Err (ForbiddenConstant index MessageKind)
  | _ => Ok tt
  end.

(** [bytecode/verify.rs:173-191] [verify_with, the function loop] *)
Definition check_function (len : nat) (function : nat) (def : FunctionDef.t)
  : result unit VerifyError :=
  if Z.of_nat len <=? FunctionDef.entry def then
    Err (EntryOutOfRange function (FunctionDef.entry def) len)
  else if FunctionDef.num_registers def <? FunctionDef.arity def then
    Err (ArityExceedsRegisters function (FunctionDef.arity def)
           (FunctionDef.num_registers def))
  else Ok tt.

(** [bytecode/verify.rs:193-230] [verify_with, the instruction loop] *)
Definition check_instruction (ch : Chunk.t) (at_ : nat) (instr : Instruction.t)
  : result unit VerifyError :=
  match Instruction.op instr with
  | Opcode.LoadConst =>
    let idx := wrap_u 32 (Instruction.imm instr) in
    if Z.of_nat (length (Chunk.constants ch)) <=? idx then
      Err (ConstOutOfRange at_ idx (length (Chunk.constants ch)))
    else Ok tt
  | Opcode.Spawn | Opcode.Call =>
    let idx := wrap_u 32 (Instruction.imm instr) in
    if Z.of_nat (length (Chunk.functions ch)) <=? idx then
      Err (FunctionOutOfRange at_ idx (length (Chunk.functions ch)))
    else Ok tt
  | Opcode.CallNative => Ok tt
  | Opcode.Jump | Opcode.Branch =>
    let len := length (Chunk.code ch) in
    let target := Z.of_nat at_ + 1 + Instruction.imm instr in
    if (target <? 0) || (Z.of_nat len <? target) then
      Err (JumpOutOfRange at_ target len)
    else Ok tt
  | _ => Ok tt
  end.

(** [bytecode/verify.rs] [verify_with] *)
Definition verify_with (ch : Chunk.t) (config : VerifyConfig) : result unit VerifyError :=
  if Value.is_empty (Chunk.functions ch) then Err EmptyFunctionTable
  else
    let? _ := try_for_each (fun index value => validate_constant value (trust config) index)
                0 (Chunk.constants ch) in
    let? _ := try_for_each (check_function (length (Chunk.code ch)))
                0 (Chunk.functions ch) in
    try_for_each (check_instruction ch) 0 (Chunk.code ch).

(** [bytecode/verify.rs] [verify] *)
Definition verify (ch : Chunk.t) : result unit VerifyError :=
  verify_with ch default_config.

(** ** What verification promises *)

Definition carries_no_authority (v : Value.t) : Prop :=
  match v with Value.Cap _ | Value.Pid _ | Value.Message _ => False | _ => True end.

Definition function_wf (ch : Chunk.t) (def : FunctionDef.t) : Prop :=
  FunctionDef.entry def < Z.of_nat (length (Chunk.code ch)) /\
  FunctionDef.arity def <= FunctionDef.num_registers def.

Definition instr_wf (ch : Chunk.t) (at_ : nat) (i : Instruction.t) : Prop :=
  match Instruction.op i with
  | Opcode.LoadConst =>
    wrap_u 32 (Instruction.imm i) < Z.of_nat (length (Chunk.constants ch))
  | Opcode.Spawn | Opcode.Call =>
    wrap_u 32 (Instruction.imm i) < Z.of_nat (length (Chunk.functions ch))
  | Opcode.Jump | Opcode.Branch =>
    0 <= Z.of_nat at_ + 1 + Instruction.imm i <= Z.of_nat (length (Chunk.code ch))
  | _ => True
  end.

Definition code_wf (ch : Chunk.t) : Prop :=
  Chunk.functions ch <> [] /\ Forall (function_wf ch) (Chunk.functions ch) /\
  (forall at_ i, Chunk.code ch !! at_ = Some i -> instr_wf ch at_ i).

Definition chunk_wf (tr : TrustLevel) (ch : Chunk.t) : Prop :=
  code_wf ch /\ (tr = Untrusted -> Forall carries_no_authority (Chunk.constants ch)).

(** What an error says of the chunk it rejects. *)
Definition error_holds (ch : Chunk.t) (tr : TrustLevel) (e : VerifyError) : Prop :=
  match e with
  | UnknownOpcode _ _ => False
  | ConstOutOfRange at_ index len =>
    len = length (Chunk.constants ch) /\ Z.of_nat len <= index /\
    exists i, Chunk.code ch !! at_ = Some i /\ Instruction.op i = Opcode.LoadConst /\
      index = wrap_u 32 (Instruction.imm i)
  | FunctionOutOfRange at_ index len =>
    len = length (Chunk.functions ch) /\ Z.of_nat len <= index /\
    exists i, Chunk.code ch !! at_ = Some i /\
      (Instruction.op i = Opcode.Call \/ Instruction.op i = Opcode.Spawn) /\
      index = wrap_u 32 (Instruction.imm i)
  | JumpOutOfRange at_ target len =>
    len = length (Chunk.code ch) /\ ~ (0 <= target <= Z.of_nat len) /\
    exists i, Chunk.code ch !! at_ = Some i /\
      (Instruction.op i = Opcode.Jump \/ Instruction.op i = Opcode.Branch) /\
      target = Z.of_nat at_ + 1 + Instruction.imm i
  | EmptyFunctionTable => Chunk.functions ch = []
  | EntryOutOfRange f entry len =>
    len = length (Chunk.code ch) /\ Z.of_nat len <= entry /\
    exists def, Chunk.functions ch !! f = Some def /\ FunctionDef.entry def = entry
  | ArityExceedsRegisters f ar nr =>
    nr < ar /\ exists def, Chunk.functions ch !! f = Some def /\
      FunctionDef.arity def = ar /\ FunctionDef.num_registers def = nr
  | ForbiddenConstant index kind =>
    tr = Untrusted /\ exists v, Chunk.constants ch !! index = Some v /\
      Value.type_name v = match kind with
        | Capability => "cap" | ProcessId => "pid" | MessageKind => "message" end%string
  end.

Lemma validate_constant_Ok v tr i :
  validate_constant v tr i = Ok tt <-> (tr = Untrusted -> carries_no_authority v).
Proof.
  unfold validate_constant. destruct tr; simpl; [done|].
  destruct v; simpl; split; intros; try done; by (exfalso; auto).
Qed.

Lemma check_function_Ok ch k def :
  check_function (length (Chunk.code ch)) k def = Ok tt <-> function_wf ch def.
Proof.
  unfold check_function, function_wf.
  destruct (Z.leb_spec (Z.of_nat (length (Chunk.code ch))) (FunctionDef.entry def)).
  - split; [done|lia].
  - destruct (Z.ltb_spec (FunctionDef.num_registers def) (FunctionDef.arity def)).
    + split; [done|lia].
    + split; [lia|done].
Qed.

Lemma check_instruction_Ok ch k i :
  check_instruction ch k i = Ok tt <-> instr_wf ch k i.
Proof.
  unfold check_instruction, instr_wf. destruct (Instruction.op i); try done.
  all: match goal with |- context [?a <=? ?b] => destruct (Z.leb_spec a b); split; (done || lia)
       | |- context [(?a <? ?b) || (?c <? ?d)] =>
         destruct (Z.ltb_spec a b), (Z.ltb_spec c d); simpl; split; (done || lia) end.
Qed.

Lemma try_for_each_result {A E} (f : nat -> A -> result unit E) i l :
  try_for_each f i l = Ok tt \/ exists e, try_for_each f i l = Err e.
Proof. destruct (try_for_each f i l) as [[]|e]; eauto. Qed.

Lemma chunk_wf_checks tr ch :
  chunk_wf tr ch <->
  Chunk.functions ch <> [] /\
  try_for_each (fun index value => validate_constant value tr index) 0
    (Chunk.constants ch) = Ok tt /\
  try_for_each (check_function (length (Chunk.code ch))) 0 (Chunk.functions ch) = Ok tt /\
  try_for_each (check_instruction ch) 0 (Chunk.code ch) = Ok tt.
Proof.
  unfold chunk_wf, code_wf.
  rewrite !try_for_each_Ok, Forall_lookup.
  setoid_rewrite validate_constant_Ok. setoid_rewrite check_function_Ok.
  setoid_rewrite check_instruction_Ok. simpl. split.
  - intros ((? & ? & ?) & Hc). split_and!; try done.
    intros k x Hk Htr. specialize (Hc Htr). rewrite Forall_lookup in Hc. eauto.
  - intros (? & Hc & ? & ?). split_and!; try done.
    intros Htr. apply Forall_lookup. eauto.
Qed.

(** The verifier accepts exactly the well-formed chunks. *)
Lemma verify_with_Ok ch config :
  verify_with ch config = Ok tt <-> chunk_wf (trust config) ch.
Proof.
  rewrite chunk_wf_checks. unfold verify_with.
  destruct (Chunk.functions ch) as [|f fs] eqn:Ef; [simpl; naive_solver|].
  cbv [Value.is_empty]. 
  repeat match goal with |- context [try_for_each ?f ?i ?l] =>
    destruct (try_for_each_result f i l) as [->|[? ->]] end; naive_solver.
Qed.

Lemma verify_with_Err ch config e :
  verify_with ch config = Err e -> error_holds ch (trust config) e.
Proof.
  unfold verify_with.
  destruct (Chunk.functions ch) as [|f fs] eqn:Ef; [by intros [= <-]|].
  cbv [Value.is_empty]. rewrite <- Ef.
  destruct (try_for_each _ 0 (Chunk.constants ch)) as [[]|e0] eqn:Ec.
  2: { intros [= ->]. apply try_for_each_Err in Ec as (k & v & Hk & Hv & _).
       unfold validate_constant in Hv. simpl in Hv.
       destruct (decide (trust config = Trusted)) as [|Htr]; [done|].
       assert (trust config = Untrusted) by (by destruct (trust config)).
       destruct v; simplify_eq; simpl; eauto. }
  destruct (try_for_each _ 0 (Chunk.functions ch)) as [[]|e0] eqn:Efn.
  2: { intros [= ->]. apply try_for_each_Err in Efn as (k & def & Hk & Hd & _).
       unfold check_function in Hd. simpl in Hd.
       destruct (Z.leb_spec (Z.of_nat (length (Chunk.code ch))) (FunctionDef.entry def));
         simplify_eq; simpl; [eauto|].
       destruct (Z.ltb_spec (FunctionDef.num_registers def) (FunctionDef.arity def));
         simplify_eq; simpl; eauto. }
  intros Ei. apply try_for_each_Err in Ei as (k & i & Hk & Hi & _).
  unfold check_instruction in Hi. simpl in Hi.
  destruct (Instruction.op i) eqn:Eop; simplify_eq.
  all: match type of Hi with
       | context [?a <=? ?b] => destruct (Z.leb_spec a b)
       | context [(?a <? ?b) || (?c <? ?d)] =>
         destruct (Z.ltb_spec a b), (Z.ltb_spec c d); simpl in Hi end;
       simplify_eq; simpl; split_and!; eauto; try lia; exists i; eauto.
Qed.

(** C31: the verifier decides well-formedness.  It accepts a chunk exactly when
    the function table is non-empty, every entry point is inside the code, every
    arity fits its registers, every constant and function index is in range,
    every jump lands inside the code or one past its end and, at the untrusted
    level, no constant is a [Cap], [Pid] or [Message]; and when it rejects, the
    error it reports is true of the chunk ([UnknownOpcode] is never reported:
    an opcode byte is decoded before a chunk exists). *)
Theorem verify_decides_wf ch config :
  match verify_with ch config with
  | Ok _ => chunk_wf (trust config) ch
  | Err e => ~ chunk_wf (trust config) ch /\ error_holds ch (trust config) e
  end.
Proof.
  destruct (verify_with ch config) as [[]|e] eqn:E.
  - by apply verify_with_Ok.
  - split; [|by apply verify_with_Err].
    intros H. apply verify_with_Ok in H. congruence.
Qed.
