(* ===== verification/Format.v ===== *)
(** The BFV0 module format: encoder, bounded decoder, round trip, truncation and
    soundness of what the decoder lets through.  Models bytecode/format.rs. *)

From S2P Require Import Prelude Capability F64 Values Isa Verify.

Module Format.

(** [bytecode/format.rs:7-12] [MAX_NAME, MAX_ITEMS, MAX_BLOB, MAX_VALUE_DEPTH] *)
Definition MAX_NAME : Z := 64 * 1024.
Definition MAX_ITEMS : Z := 1000000.
Definition MAX_BLOB : Z := 1048576.
Definition MAX_VALUE_DEPTH : Z := 16.

(** [bytecode/format.rs] [FormatError] *)
Inductive FormatError :=
| BadMagic (found : list byte)
| UnsupportedAbi (v : Z)
| Truncated
| LimitExceeded (what : string) (got : Z)
| BadUtf8
| UnknownValueTag (tag : Z)
| UnknownOpcode (at_ : nat) (byte : Z)
| ForbiddenConstant (kind : ConstantKind)
| ValueTooNested.

(** [{:?}] of a byte array. *)
Definition bytes_debug (b : list byte) : string :=
  "[" +:+ String.concat ", " (map (fun b => pretty (u8_of b)) b) +:+ "]".

(** [bytecode/format.rs:28-50] [FormatError::fmt] *)
Definition format_error_string (e : FormatError) : string :=
  match e with
  | BadMagic found =>
    "bad magic " +:+ bytes_debug found +:+ ", expected " +:+ bytes_debug Chunk.MAGIC
  | UnsupportedAbi v => "unsupported ABI version " +:+ pretty v
  | Truncated => "truncated .bf module"
  | LimitExceeded what got => what +:+ " count " +:+ pretty got +:+ " exceeds decoder limit"
  | BadUtf8 => "name is not valid UTF-8"
  | UnknownValueTag t => "unknown value tag 0x" +:+ hex_byte t
  | UnknownOpcode at_ b =>
    "unknown opcode 0x" +:+ hex_byte b +:+ " at instruction " +:+ nat_string at_
  | ForbiddenConstant kind =>
    "untrusted module must not embed " +:+ kind_string kind +:+ " in the constant pool"
  | ValueTooNested => "value nesting exceeds decoder limit"
  end.

(** ** Encoder: each [write_*] appends to the buffer it is given *)

(** [bytecode/format.rs] [write_blob] *)
Definition write_blob (out bytes : list byte) : list byte :=
  (out ++ to_le 4 (len_u32 bytes)) ++ bytes.

(** [bytecode/format.rs] [write_string] *)
Definition write_string (out s : list byte) : list byte :=
  (out ++ to_le 4 (len_u32 s)) ++ s.

(** [out.push(b)]. *)
Definition push (out : list byte) (b : Z) : list byte := out ++ [byte_of b].

(** [bytecode/format.rs] [write_value] *)
Fixpoint write_value (out : list byte) (value : Value.t) : list byte :=
  match value with
  | Value.Unit => push out 0
  | Value.Bool b => push (push out 1) (Z.b2z b)
  | Value.Int i => push out 2 ++ to_le 8 i
  | Value.Float x => push out 3 ++ to_le 8 x
  | Value.Pid p => push out 4 ++ to_le 8 p
  | Value.Message m =>
    let out := push out 5 in
    let out := out ++ to_le 8 (sender m) in
    let out := out ++ to_le 16 (CapId.as_u128 (reply_cap m)) in
    let out := out ++ to_le 8 (request_id m) in
    let out := out ++ to_le 2 (tag m) in
    write_value out (payload m)
  | Value.Cap c => push out 6 ++ to_le 16 (CapId.as_u128 c)
  | Value.Str _ s => write_blob (push out 7) s
  | Value.Bytes _ b => write_blob (push out 8) b
  end.

(** [bytecode/format.rs:65-70] [encode, the function loop] *)
Definition write_function (out : list byte) (def : FunctionDef.t) : list byte :=
  let out := write_string out (FunctionDef.name def) in
  let out := out ++ to_le 4 (FunctionDef.entry def) in
  let out := push out (FunctionDef.arity def) in
  push out (FunctionDef.num_registers def).

(** [bytecode/format.rs:72-78] [encode, the code loop] *)
Definition write_instruction (out : list byte) (i : Instruction.t) : list byte :=
  let out := push out (Opcode.as_u8 (Instruction.op i)) in
  let out := push out (Instruction.a i) in
  let out := push out (Instruction.b i) in
  let out := push out (Instruction.c i) in
  out ++ to_le 4 (Instruction.imm i).

(** [bytecode/format.rs] [encode] *)
Definition encode (ch : Chunk.t) : list byte :=
  let out := Chunk.MAGIC in
  let out := out ++ to_le 4 Chunk.ABI_VERSION in
  let out := write_string out (Chunk.name ch) in
  let out := out ++ to_le 4 (len_u32 (Chunk.constants ch)) in
  let out := fold_left write_value (Chunk.constants ch) out in
  let out := out ++ to_le 4 (len_u32 (Chunk.functions ch)) in
  let out := fold_left write_function (Chunk.functions ch) out in
  let out := out ++ to_le 4 (len_u32 (Chunk.code ch)) in
  fold_left write_instruction (Chunk.code ch) out.

(** ** Decoder *)

(** [bytecode/format.rs] [Reader]: the buffer and the read position;
    [next_ptr] names the next heap allocation ([Arc::from]). *)
Record Reader := { data : list byte; pos : nat; next_ptr : ptr }.

Definition parser (A : Type) : Type := Reader -> result (A * Reader) FormatError.

Definition ret {A} (a : A) : parser A := fun r => Ok (a, r).
Definition throw {A} (e : FormatError) : parser A := fun _ => Err e.
Definition bind {A B} (m : parser A) (f : A -> parser B) : parser B :=
  fun r => let? (a, r') := m r in f a r'.

Notation "'let!' x ':=' m 'in' k" := (bind m (fun x => k))
  (at level 10, x pattern, m at level 200, k at level 200) : rust_scope.

Definition fresh_ptr : parser ptr :=
  fun r => Ok (next_ptr r,
               {| data := data r; pos := pos r; next_ptr := N.succ (next_ptr r) |}).

(** [bytecode/format.rs] [Reader::rest] *)
Definition rest (r : Reader) : nat := (length (data r) - pos r)%nat.

(** [bytecode/format.rs] [Reader::take] *)
Definition take (n : nat) : parser (list byte) := fun r =>
  if (rest r <? n)%nat then Err Truncated
  else Ok (firstn n (skipn (pos r) (data r)),
           {| data := data r; pos := (pos r + n)%nat; next_ptr := next_ptr r |}).

(** [bytecode/format.rs] [Reader::read_array] *)
Definition read_array (n : nat) : parser (list byte) := take n.

(** [bytecode/format.rs] [Reader::read_u8] *)
Definition read_u8 : parser Z :=
  let! slice := take 1 in
  match slice with b :: _ => ret (u8_of b) | [] => throw Truncated end.

(** [bytecode/format.rs] [Reader::read_u32] *)
Definition read_u32 : parser Z := let! a := read_array 4 in ret (from_le a).

(** [bytecode/format.rs] [Reader::read_u16] *)
Definition read_u16 : parser Z := let! a := read_array 2 in ret (from_le a).

(** [bytecode/format.rs] [Reader::read_i32] *)
Definition read_i32 : parser Z := let! a := read_array 4 in ret (from_le_i a).

(** [bytecode/format.rs] [Reader::read_i64] *)
Definition read_i64 : parser Z := let! a := read_array 8 in ret (from_le_i a).

(** [bytecode/format.rs] [Reader::read_u64] *)
Definition read_u64 : parser Z := let! a := read_array 8 in ret (from_le a).

(** [bytecode/format.rs] [Reader::read_u128] *)
Definition read_u128 : parser Z := let! a := read_array 16 in ret (from_le a).

(** [bytecode/format.rs] [Reader::read_f64] *)
Definition read_f64 : parser F64.t := let! a := read_array 8 in ret (from_le a).

(** [bytecode/format.rs] [Reader::read_count] *)
Definition read_count (what : string) : parser Z :=
  let! n := read_u32 in
  if MAX_ITEMS <? n then throw (LimitExceeded what n) else ret n.

(** [bytecode/format.rs] [Reader::read_string] *)
Definition read_string : parser (list byte) :=
  let! len := read_u32 in
  if MAX_NAME <? len then throw (LimitExceeded "name" len)
  else
    let! bytes := take (Z.to_nat len) in
    if utf8_valid bytes then ret bytes else throw BadUtf8.

(** [bytecode/format.rs] [Reader::read_blob] *)
Definition read_blob (what : string) : parser (list byte) :=
  let! len := read_u32 in
  if MAX_BLOB <? len then throw (LimitExceeded what len) else take (Z.to_nat len).

Definition forbid (tr : TrustLevel) (kind : ConstantKind) : parser unit :=
  if decide (tr = Untrusted) then throw (ForbiddenConstant kind) else ret tt.

(** [bytecode/format.rs] [Reader::read_value]: [fuel] is the levels that are
    left, [MAX_VALUE_DEPTH + 1 - depth], so running out of it is the depth
    check. *)
Fixpoint read_value_fuel (fuel : nat) (tr : TrustLevel) (depth : Z) : parser Value.t :=
  if MAX_VALUE_DEPTH <? depth then throw ValueTooNested
  else match fuel with
  | O => throw ValueTooNested
  | S fuel' =>
    let! byte := read_u8 in
    match byte with
    | 0 => ret Value.Unit
    | 1 => let! b := read_u8 in ret (Value.Bool (negb (b =? 0)))
    | 2 => let! i := read_i64 in ret (Value.Int i)
    | 3 => let! x := read_f64 in ret (Value.Float x)
    | 4 =>
      let! _ := forbid tr ProcessId in
      let! p := read_u64 in ret (Value.Pid p)
    | 5 =>
      let! _ := forbid tr MessageKind in
      let! snd := read_u64 in
      let! rc := read_u128 in
      let! rid := read_u64 in
      let! tg := read_u16 in
      let! pl := read_value_fuel fuel' tr (depth + 1) in
      ret (Value.Message (Msg.authenticate (Msg.new snd rid tg pl) snd (CapId.from_raw rc)))
    | 6 =>
      let! _ := forbid tr Capability in
      let! c := read_u128 in ret (Value.Cap (CapId.from_raw c))
    | 7 =>
      let! bytes := read_blob "str" in
      if utf8_valid bytes then
        let! p := fresh_ptr in ret (Value.str p bytes)
      else throw BadUtf8
    | 8 =>
      let! bytes := read_blob "bytes" in
      let! p := fresh_ptr in ret (Value.bytes p bytes)
    | tag => throw (UnknownValueTag tag)
    end
  end.
Definition read_value (tr : TrustLevel) (depth : Z) : parser Value.t :=
  read_value_fuel (Z.to_nat (MAX_VALUE_DEPTH + 1 - depth)) tr depth.

(** [for i in 0..n { v.push(m(i)?) }], from index [i] on. *)
Fixpoint read_n {A} (n : nat) (m : nat -> parser A) (i : nat) : parser (list A) :=
  match n with
  | O => ret []
  | S n' => let! x := m i in let! xs := read_n n' m (S i) in ret (x :: xs)
  end.

(** [bytecode/format.rs:108-115] [decode_with, the function loop] *)
Definition read_function (_ : nat) : parser FunctionDef.t :=
  let! name := read_string in
  let! entry := read_u32 in
  let! arity := read_u8 in
  let! nregs := read_u8 in
  ret (FunctionDef.mk name entry arity nregs).

(** [bytecode/format.rs:118-128] [decode_with, the code loop] *)
Definition read_instruction (at_ : nat) : parser Instruction.t :=
  let! byte := read_u8 in
  match Opcode.from_u8 byte with
  | None => throw (UnknownOpcode at_ byte)
  | Some op =>
    let! a := read_u8 in
    let! b := read_u8 in
    let! c := read_u8 in
    let! imm := read_i32 in
    ret (Instruction.mk op a b c imm)
  end.

(** [bytecode/format.rs] [decode_with] *)
Definition read_chunk (tr : TrustLevel) : parser Chunk.t :=
  let! magic := read_array 4 in
  if negb (bytes_eqb magic Chunk.MAGIC) then throw (BadMagic magic) else
  let! abi := read_u32 in
  if negb (abi =? Chunk.ABI_VERSION) then throw (UnsupportedAbi abi) else
  let! name := read_string in
  let! n_const := read_count "constants" in
  let! constants := read_n (Z.to_nat n_const) (fun _ => read_value tr 0) 0 in
  let! n_fn := read_count "functions" in
  let! functions := read_n (Z.to_nat n_fn) read_function 0 in
  let! n_code := read_count "code" in
  let! code := read_n (Z.to_nat n_code) read_instruction 0 in
  ret (Chunk.mk name constants code functions).
Definition decode_with (bytes : list byte) (tr : TrustLevel) : result Chunk.t FormatError :=
  let? (ch, _) := read_chunk tr {| data := bytes; pos := 0; next_ptr := 0%N |} in Ok ch.

(** [bytecode/format.rs] [decode] *)
Definition decode (bytes : list byte) : result Chunk.t FormatError :=
  decode_with bytes Untrusted.

End Format.

Import Format.

(** ** Encoding as concatenation *)

Definition enc_blob (b : list byte) : list byte := to_le 4 (len_u32 b) ++ b.

Fixpoint enc_value (v : Value.t) : list byte :=
  match v with
  | Value.Unit => [byte_of 0]
  | Value.Bool b => byte_of 1 :: [byte_of (Z.b2z b)]
  | Value.Int i => byte_of 2 :: to_le 8 i
  | Value.Float x => byte_of 3 :: to_le 8 x
  | Value.Pid p => byte_of 4 :: to_le 8 p
  | Value.Message m =>
    byte_of 5 :: to_le 8 (sender m) ++ to_le 16 (reply_cap m) ++
      to_le 8 (request_id m) ++ to_le 2 (tag m) ++ enc_value (payload m)
  | Value.Cap c => byte_of 6 :: to_le 16 c
  | Value.Str _ s => byte_of 7 :: enc_blob s
  | Value.Bytes _ b => byte_of 8 :: enc_blob b
  end.

Definition enc_function (def : FunctionDef.t) : list byte :=
  enc_blob (FunctionDef.name def) ++ to_le 4 (FunctionDef.entry def) ++
  [byte_of (FunctionDef.arity def)] ++ [byte_of (FunctionDef.num_registers def)].

Definition enc_instruction (i : Instruction.t) : list byte :=
  [byte_of (Opcode.as_u8 (Instruction.op i))] ++ [byte_of (Instruction.a i)] ++
  [byte_of (Instruction.b i)] ++ [byte_of (Instruction.c i)] ++ to_le 4 (Instruction.imm i).

Definition enc_list {A} (enc : A -> list byte) (l : list A) : list byte :=
  to_le 4 (len_u32 l) ++ concat (map enc l).

Definition enc_chunk (ch : Chunk.t) : list byte :=
  Chunk.MAGIC ++ to_le 4 Chunk.ABI_VERSION ++ enc_blob (Chunk.name ch) ++
  enc_list enc_value (Chunk.constants ch) ++
  enc_list enc_function (Chunk.functions ch) ++
  enc_list enc_instruction (Chunk.code ch).

Lemma write_value_enc out v : write_value out v = out ++ enc_value v.
Proof.
  revert out. induction v using value_induction; intros out;
    cbn [write_value enc_value]; rewrite ?IHv;
    unfold push, write_blob, enc_blob; by rewrite <- ?app_assoc.
Qed.

Lemma fold_left_append {A} (write : list byte -> A -> list byte) (enc : A -> list byte) l out :
  (forall out x, write out x = out ++ enc x) ->
  fold_left write l out = out ++ concat (map enc l).
Proof.
  intros H. revert out. induction l as [|x l IH]; intros out; simpl.
  - by rewrite app_nil_r.
  - by rewrite IH, H, <- app_assoc.
Qed.

Lemma encode_enc ch : encode ch = enc_chunk ch.
Proof.
  unfold encode, enc_chunk, enc_list.
  rewrite (fold_left_append write_value enc_value) by apply write_value_enc.
  rewrite (fold_left_append write_function enc_function).
  2: { intros. unfold write_function, enc_function, write_string, push, enc_blob.
       by rewrite <- !app_assoc. }
  rewrite (fold_left_append write_instruction enc_instruction).
  2: { intros. unfold write_instruction, enc_instruction, push. by rewrite <- !app_assoc. }
  unfold write_string, enc_blob. by rewrite <- !app_assoc.
Qed.

(** ** Reading back what was written *)

Definition remaining (r : Reader) : list byte := skipn (pos r) (data r).

(** Where [bs] comes next, [m] consumes it and returns a value satisfying [P]. *)
Definition parses {A} (m : parser A) (bs : list byte) (P : A -> Prop) : Prop :=
  forall r k, remaining r = bs ++ k ->
  exists v r', m r = Ok (v, r') /\ P v /\ remaining r' = k.

Lemma parses_ret {A} (v : A) (P : A -> Prop) : P v -> parses (ret v) [] P.
Proof. intros H r k Hr. by exists v, r. Qed.

Lemma parses_bind {A B} (m : parser A) (f : A -> parser B) bs cs P Q :
  parses m bs P -> (forall v, P v -> parses (f v) cs Q) ->
  parses (bind m f) (bs ++ cs) Q.
Proof.
  intros Hm Hf r k Hr. rewrite <- app_assoc in Hr.
  destruct (Hm r (cs ++ k) Hr) as (v & r1 & E & HP & Hr1).
  destruct (Hf v HP r1 k Hr1) as (w & r2 & E2 & HQ & Hr2).
  exists w, r2. unfold bind. by rewrite E.
Qed.

Lemma parses_weaken {A} (m : parser A) bs (P Q : A -> Prop) :
  parses m bs P -> (forall v, P v -> Q v) -> parses m bs Q.
Proof. intros H HPQ r k Hr. destruct (H r k Hr) as (v & r' & ? & ? & ?).
  exists v, r'. auto.
Qed.

(** A last step that consumes nothing. *)
Lemma parses_map {A B} (m : parser A) (f : A -> parser B) bs P Q :
  parses m bs P -> (forall v, P v -> parses (f v) [] Q) -> parses (bind m f) bs Q.
Proof. intros. rewrite <- (app_nil_r bs). by apply parses_bind with P. Qed.

Lemma parses_take bs : parses (take (length bs)) bs (eq bs).
Proof.
  intros r k Hr. unfold take. unfold remaining in Hr.
  assert (Hlen : (length (skipn (pos r) (data r)) = length bs + length k)%nat)
    by by rewrite Hr, length_app.
  rewrite length_drop in Hlen. unfold rest.
  destruct (Nat.ltb_spec (length (data r) - pos r) (length bs)); [lia|].
  eexists _, _. split_and!; [done| |].
  - by rewrite Hr, take_app_length.
  - unfold remaining. simpl. rewrite <- drop_drop, Hr. by rewrite drop_app_length.
Qed.

Lemma parses_fresh : parses fresh_ptr [] (fun _ => True).
Proof. intros r k Hr. by eexists _, _. Qed.

Lemma parses_u8 z : in_u 8 z -> parses read_u8 [byte_of z] (eq z).
Proof.
  intros Hz. apply parses_map with (eq [byte_of z]).
  - apply (parses_take [byte_of z]).
  - intros ? <-. apply parses_ret. by rewrite u8_of_byte_of.
Qed.

Lemma parses_le n z (read : list byte -> Z) :
  read (to_le n z) = z ->
  parses (let! a := read_array n in ret (read a)) (to_le n z) (eq z).
Proof.
  intros Hz. apply parses_map with (eq (to_le n z)).
  - unfold read_array. rewrite <- (to_le_length n z) at 1. apply parses_take.
  - intros ? <-. by apply parses_ret.
Qed.

Lemma parses_u16 z : in_u 16 z -> parses read_u16 (to_le 2 z) (eq z).
Proof. intros. by apply parses_le, from_le_to_le. Qed.
Lemma parses_u32 z : in_u 32 z -> parses read_u32 (to_le 4 z) (eq z).
Proof. intros. by apply parses_le, from_le_to_le. Qed.
Lemma parses_u64 z : in_u 64 z -> parses read_u64 (to_le 8 z) (eq z).
Proof. intros. by apply parses_le, from_le_to_le. Qed.
Lemma parses_f64 z : in_u 64 z -> parses read_f64 (to_le 8 z) (eq z).
Proof. intros. by apply parses_le, from_le_to_le. Qed.
Lemma parses_u128 z : in_u 128 z -> parses read_u128 (to_le 16 z) (eq z).
Proof. intros. by apply parses_le, from_le_to_le. Qed.
Lemma parses_i32 z : in_i 32 z -> parses read_i32 (to_le 4 z) (eq z).
Proof. intros. apply parses_le, from_le_i_to_le; [lia|done]. Qed.
Lemma parses_i64 z : in_i 64 z -> parses read_i64 (to_le 8 z) (eq z).
Proof. intros. apply parses_le, from_le_i_to_le; [lia|done]. Qed.

(** A length within a decoder limit survives the cast to [u32]. *)
Lemma len_u32_small {A} (l : list A) lim :
  lim <= u32_max -> Z.of_nat (length l) <= lim ->
  len_u32 l = Z.of_nat (length l) /\ in_u 32 (Z.of_nat (length l)).
Proof.
  unfold u32_max. intros Hlim Hl. unfold len_u32.
  assert (in_u 32 (Z.of_nat (length l))) by (unfold in_u; lia).
  split; [|done]. by apply wrap_u_id.
Qed.

Lemma parses_bounded_len {A B} (l : list A) lim e (f : Z -> parser B) bs Q :
  lim <= u32_max -> Z.of_nat (length l) <= lim ->
  parses (f (Z.of_nat (length l))) bs Q ->
  parses (let! len := read_u32 in if lim <? len then throw (e len) else f len)
    (to_le 4 (len_u32 l) ++ bs) Q.
Proof.
  intros Hlim Hl Hf. destruct (len_u32_small l lim Hlim Hl) as [-> Hr].
  apply parses_bind with (eq (Z.of_nat (length l))); [by apply parses_u32|].
  intros ? <-. by destruct (Z.ltb_spec lim (Z.of_nat (length l))); [lia|].
Qed.

Lemma parses_blob what b :
  Z.of_nat (length b) <= MAX_BLOB -> parses (read_blob what) (enc_blob b) (eq b).
Proof.
  intros Hb. apply (parses_bounded_len b); [unfold MAX_BLOB, u32_max; lia|done|].
  rewrite Nat2Z.id. apply parses_take.
Qed.

Lemma parses_string s :
  Z.of_nat (length s) <= MAX_NAME -> utf8_valid s = true ->
  parses read_string (enc_blob s) (eq s).
Proof.
  intros Hs Hu. apply (parses_bounded_len s); [unfold MAX_NAME, u32_max; lia|done|].
  rewrite Nat2Z.id. apply parses_map with (eq s); [apply parses_take|].
  intros ? <-. rewrite Hu. by apply parses_ret.
Qed.

(** Forgetting which allocation holds a buffer. *)
Fixpoint erase (v : Value.t) : Value.t :=
  match v with
  | Value.Str _ s => Value.Str 0%N s
  | Value.Bytes _ b => Value.Bytes 0%N b
  | Value.Message m => Value.Message (Msg.with_payload m (erase (payload m)))
  | _ => v
  end.

(** What the format can carry: buffers within [MAX_BLOB], at most [d] nested
    envelopes, and no authority at the untrusted level. *)
Fixpoint value_encodable (tr : TrustLevel) (d : nat) (v : Value.t) {struct v} : Prop :=
  match v with
  | Value.Str _ b | Value.Bytes _ b => Z.of_nat (length b) <= MAX_BLOB
  | Value.Pid _ | Value.Cap _ => tr = Trusted
  | Value.Message m =>
    tr = Trusted /\
    match d with O => False | S d' => value_encodable tr d' (payload m) end
  | _ => True
  end.

Lemma parses_forbid tr kind : tr = Trusted -> parses (forbid tr kind) [] (fun _ => True).
Proof. intros ->. by apply parses_ret. Qed.

(** A tag byte selects its branch of the decoder. *)
Lemma parses_tag {A} (z : Z) (f : Z -> parser A) bs Q :
  in_u 8 z -> parses (f z) bs Q ->
  parses (let! t := read_u8 in f t) (byte_of z :: bs) Q.
Proof.
  intros Hz Hf. apply (parses_bind read_u8 f [byte_of z] bs (eq z)).
  - by apply parses_u8.
  - by intros ? <-.
Qed.

(** A forbidden kind's guard, passed at the trusted level. *)
Lemma parses_guarded {A} tr kind (m : parser A) bs Q :
  tr = Trusted -> parses m bs Q -> parses (let! _ := forbid tr kind in m) bs Q.
Proof.
  intros Htr Hm. apply (parses_bind (forbid tr kind) (fun _ => m) [] bs (fun _ => True));
    [by apply parses_forbid|done].
Qed.

(** A field read back, then the rest. *)
Lemma parses_field {A B} (m : parser A) v (f : A -> parser B) bs cs Q :
  parses m bs (eq v) -> parses (f v) cs Q -> parses (bind m f) (bs ++ cs) Q.
Proof. intros Hm Hf. apply parses_bind with (eq v); [done|]. by intros ? <-. Qed.

Lemma parses_last {A B} (m : parser A) v (f : A -> parser B) bs (Q : B -> Prop) :
  parses m bs (eq v) -> (exists w, f v = ret w /\ Q w) -> parses (bind m f) bs Q.
Proof.
  intros Hm (w & Hf & HQ). apply parses_map with (eq v); [done|]. intros ? <-.
  rewrite Hf. by apply parses_ret.
Qed.

#[local] Hint Resolve parses_u8 parses_u16 parses_u32 parses_u64 parses_f64
  parses_u128 parses_i32 parses_i64 parses_blob parses_string : parser.

Ltac tag_branch := apply parses_tag; [by split|cbv iota beta].

Lemma parses_value tr fuel depth d v :
  Z.of_nat d = MAX_VALUE_DEPTH - depth -> fuel = S d ->
  value_ok v -> value_encodable tr d v ->
  parses (read_value_fuel fuel tr depth) (enc_value v) (fun w => erase w = erase v).
Proof.
  revert depth d fuel. induction v using value_induction; intros depth d fuel Hd -> Hok Henc;
    cbn [read_value_fuel enc_value];
    (destruct (Z.ltb_spec MAX_VALUE_DEPTH depth); [lia|]); simpl in Hok, Henc.
  - rewrite <- (app_nil_r [byte_of 0]). tag_branch. by apply parses_ret.
  - tag_branch. eapply parses_last; [apply parses_u8; destruct b; by split|].
    eexists. split; [done|]. by destruct b.
  - tag_branch. eapply parses_last; eauto with parser.
  - tag_branch. eapply parses_last; eauto with parser.
  - tag_branch. apply parses_guarded; [done|]. eapply parses_last; eauto with parser.
  - destruct Henc as [-> Henc]. destruct d as [|d]; [done|].
    destruct Hok as (Hs & Hrc & Hrid & Htg & Hpl).
    tag_branch. apply parses_guarded; [done|].
    do 4 (eapply parses_field; [eauto with parser|]).
    eapply parses_map; [apply (IHv (depth + 1) d); [lia|done..]|].
    intros w Hw. apply parses_ret. simpl. unfold Msg.with_payload, Msg.authenticate. simpl.
    by rewrite Hw.
  - tag_branch. apply parses_guarded; [done|]. eapply parses_last; eauto with parser.
  - tag_branch. apply parses_map with (eq s); [by apply parses_blob|]. intros ? <-.
    rewrite Hok. eapply parses_map; [apply parses_fresh|]. intros q _. by apply parses_ret.
  - tag_branch. apply parses_map with (eq b); [by apply parses_blob|]. intros ? <-.
    eapply parses_map; [apply parses_fresh|]. intros q _. by apply parses_ret.
Qed.

Lemma parses_function i def :
  function_ok def -> Z.of_nat (length (FunctionDef.name def)) <= MAX_NAME ->
  parses (read_function i) (enc_function def) (eq def).
Proof.
  intros (Hu & He & Ha & Hn) Hlen. unfold read_function, enc_function.
  do 3 (eapply parses_field; [eauto with parser|]).
  eapply parses_last; [eauto with parser|]. eexists. split; [done|]. by destruct def.
Qed.

Lemma parses_instruction at_ i :
  instruction_ok i -> parses (read_instruction at_) (enc_instruction i) (eq i).
Proof.
  intros (Ha & Hb & Hc & Hi). unfold read_instruction, enc_instruction.
  eapply parses_field; [apply parses_u8, opcode_as_u8_range|].
  rewrite opcode_from_as_u8.
  do 3 (eapply parses_field; [eauto with parser|]).
  eapply parses_last; [eauto with parser|]. eexists. split; [done|]. by destruct i.
Qed.

Lemma parses_read_n {A} (m : nat -> parser A) (enc : A -> list byte) (R : A -> A -> Prop) l i :
  Forall (fun x => forall i, parses (m i) (enc x) (R x)) l ->
  parses (read_n (length l) m i) (concat (map enc l)) (Forall2 R l).
Proof.
  intros H. revert i. induction H as [|x l Hx _ IH]; intros i; simpl.
  - by apply parses_ret.
  - eapply parses_bind; [apply Hx|]. intros v Hv.
    eapply parses_map; [apply IH|]. intros vs Hvs. apply parses_ret. by constructor.
Qed.

Lemma parses_counted {A B} what (m : nat -> parser A) enc (R : A -> A -> Prop) l
    (f : list A -> parser B) bs Q :
  Z.of_nat (length l) <= MAX_ITEMS ->
  Forall (fun x => forall i, parses (m i) (enc x) (R x)) l ->
  (forall l', Forall2 R l l' -> parses (f l') bs Q) ->
  parses (let! n := read_count what in let! l' := read_n (Z.to_nat n) m 0 in f l')
    (enc_list enc l ++ bs) Q.
Proof.
  intros Hl Hm Hf. unfold enc_list. rewrite <- app_assoc.
  apply parses_bind with (eq (Z.of_nat (length l))).
  - rewrite <- (app_nil_r (to_le _ _)). unfold read_count.
    apply (parses_bounded_len l MAX_ITEMS (LimitExceeded what) ret);
      [unfold MAX_ITEMS, u32_max; lia|done|by apply parses_ret].
  - intros ? <-. rewrite Nat2Z.id. eapply parses_bind; [|exact Hf].
    by apply parses_read_n.
Qed.

(** A chunk the format can carry at trust level [tr]. *)
Definition chunk_encodable (tr : TrustLevel) (ch : Chunk.t) : Prop :=
  Z.of_nat (length (Chunk.name ch)) <= MAX_NAME /\
  Z.of_nat (length (Chunk.constants ch)) <= MAX_ITEMS /\
  Z.of_nat (length (Chunk.functions ch)) <= MAX_ITEMS /\
  Z.of_nat (length (Chunk.code ch)) <= MAX_ITEMS /\
  Forall (value_encodable tr 16) (Chunk.constants ch) /\
  Forall (fun def => Z.of_nat (length (FunctionDef.name def)) <= MAX_NAME) (Chunk.functions ch).

(** Equality of chunks up to the allocations that hold their buffers. *)
Definition chunk_eqv (a b : Chunk.t) : Prop :=
  Chunk.name a = Chunk.name b /\
  map erase (Chunk.constants a) = map erase (Chunk.constants b) /\
  Chunk.code a = Chunk.code b /\ Chunk.functions a = Chunk.functions b.

Lemma parses_chunk tr ch :
  chunk_ok ch -> chunk_encodable tr ch ->
  parses (read_chunk tr) (enc_chunk ch) (chunk_eqv ch).
Proof.
  intros (Hn & Hcs & His & Hfs) (Ln & Lc & Lf & Li & Ec & Ef).
  unfold read_chunk, enc_chunk.
  eapply parses_field; [exact (parses_take Chunk.MAGIC)|].
  eapply parses_field; [by apply parses_u32|].
  eapply parses_field; [by apply parses_string|].
  apply parses_counted with (R := fun v w => erase w = erase v); [done| |intros cs Rc].
  { apply Forall_forall. intros v Hv i. rewrite Forall_forall in Hcs, Ec.
    apply (parses_value tr 17 0 16); [done|done|by apply Hcs|by apply Ec]. }
  apply parses_counted with (R := eq); [done| |intros fs Rf].
  { apply Forall_forall. intros def Hd i. rewrite Forall_forall in Hfs, Ef.
    apply parses_function; [by apply Hfs|by apply Ef]. }
  rewrite <- (app_nil_r (enc_list enc_instruction _)).
  apply parses_counted with (R := eq); [done| |intros code Ri].
  { apply Forall_forall. intros j Hj i. rewrite Forall_forall in His.
    apply parses_instruction. by apply His. }
  apply parses_ret. apply list_eq_Forall2 in Rf as <-. apply list_eq_Forall2 in Ri as <-.
  split_and!; try done. simpl. clear - Rc.
  induction Rc; simpl; [done|]. congruence.
Qed.

(** ** What a successful read says

    [reads m P]: when [m] succeeds its value satisfies [P], it has only moved
    forward in the same buffer, and it looked at nothing past its new position:
    cut there or later, the buffer reads the same; cut earlier, the read fails
    with [Truncated]. *)
Definition trunc (n : nat) (r : Reader) : Reader :=
  {| data := firstn n (data r); pos := pos r; next_ptr := next_ptr r |}.

Definition reads {A} (m : parser A) (P : A -> Prop) : Prop :=
  forall r v r', m r = Ok (v, r') ->
  P v /\ data r' = data r /\ (pos r <= pos r')%nat /\
  (forall n, (pos r' <= n)%nat -> m (trunc n r) = Ok (v, trunc n r')) /\
  (forall n, (pos r <= n < pos r')%nat -> m (trunc n r) = Err Truncated).

Lemma reads_ret {A} (v : A) (P : A -> Prop) : P v -> reads (ret v) P.
Proof. intros H r w r' [= <- <-]. split_and!; try done. lia. Qed.

Lemma reads_throw {A} e (P : A -> Prop) : reads (throw e) P.
Proof. by intros r v r'. Qed.

Lemma reads_fresh : reads fresh_ptr (fun _ => True).
Proof. intros r v r' [= <- <-]. simpl. split_and!; try done. lia. Qed.

Lemma reads_bind {A B} (m : parser A) (f : A -> parser B) P Q :
  reads m P -> (forall v, P v -> reads (f v) Q) -> reads (bind m f) Q.
Proof.
  intros Hm Hf r w r' E. unfold bind in *. destruct (m r) as [[v r1]|] eqn:E1; [|done].
  destruct (Hm _ _ _ E1) as (HP & Hd & Hp & Hkeep & Hcut).
  destruct (Hf v HP _ _ _ E) as (HQ & Hd2 & Hp2 & Hkeep2 & Hcut2).
  split_and!; [done|congruence|lia| |].
  - intros n Hn. rewrite Hkeep by lia. by apply Hkeep2.
  - intros n Hn. destruct (decide (pos r1 <= n)%nat).
    + rewrite Hkeep by done. apply Hcut2. lia.
    + rewrite Hcut by lia. done.
Qed.

Lemma reads_weaken {A} (m : parser A) (P Q : A -> Prop) :
  reads m P -> (forall v, P v -> Q v) -> reads m Q.
Proof. intros H HPQ r v r' E. destruct (H _ _ _ E) as (? & ?). auto. Qed.

Lemma reads_take n : reads (take n) (fun bs => length bs = n).
Proof.
  unfold take, rest. intros r v r'.
  destruct (Nat.ltb_spec (length (data r) - pos r) n); [done|]. intros [= <- <-]. simpl.
  split_and!; [rewrite length_firstn, length_skipn; lia|done|lia| |].
  - intros k Hk. rewrite length_firstn.
    destruct (Nat.ltb_spec (Nat.min k (length (data r)) - pos r) n); [lia|].
    unfold trunc. simpl. f_equal. f_equal.
    rewrite !firstn_skipn_comm, firstn_firstn. by rewrite Nat.min_l by lia.
  - intros k Hk. rewrite length_firstn.
    by destruct (Nat.ltb_spec (Nat.min k (length (data r)) - pos r) n); [|lia].
Qed.

Lemma reads_u8 : reads read_u8 (in_u 8).
Proof.
  eapply reads_bind; [apply reads_take|]. intros [|b bs] _; [apply reads_throw|].
  apply reads_ret, u8_of_range.
Qed.

Lemma reads_le n w (read : list byte -> Z) (P : Z -> Prop) :
  (forall bs, length bs = n -> P (read bs)) -> w = n ->
  reads (let! a := read_array n in ret (read a)) P.
Proof. intros H _. eapply reads_bind; [apply reads_take|]. intros bs Hbs. by apply reads_ret, H. Qed.

Lemma from_le_in_u bs n : length bs = n -> in_u (Z.of_nat n * 8) (from_le bs).
Proof. intros <-. apply from_le_range. Qed.

Lemma from_le_in_i bs n :
  (0 < n)%nat -> length bs = n -> in_i (Z.of_nat n * 8) (from_le_i bs).
Proof. intros Hn <-. apply wrap_i_range. lia. Qed.

Lemma reads_u16 : reads read_u16 (in_u 16).
Proof. eapply reads_le; [|done]. intros bs. apply from_le_in_u. Qed.
Lemma reads_u32 : reads read_u32 (in_u 32).
Proof. eapply reads_le; [|done]. intros bs. apply from_le_in_u. Qed.
Lemma reads_u64 : reads read_u64 (in_u 64).
Proof. eapply reads_le; [|done]. intros bs. apply from_le_in_u. Qed.
Lemma reads_u128 : reads read_u128 (in_u 128).
Proof. eapply reads_le; [|done]. intros bs. apply from_le_in_u. Qed.
Lemma reads_f64 : reads read_f64 (in_u 64).
Proof. eapply reads_le; [|done]. intros bs. apply from_le_in_u. Qed.
Lemma reads_i32 : reads read_i32 (in_i 32).
Proof. eapply reads_le; [|done]. intros bs. apply from_le_in_i. lia. Qed.
Lemma reads_i64 : reads read_i64 (in_i 64).
Proof. eapply reads_le; [|done]. intros bs. apply from_le_in_i. lia. Qed.

Lemma reads_bounded_len {B} lim e (f : Z -> parser B) (Q : B -> Prop) :
  (forall len, 0 <= len <= lim -> reads (f len) Q) ->
  reads (let! len := read_u32 in if lim <? len then throw (e len) else f len) Q.
Proof.
  intros Hf. eapply reads_bind; [apply reads_u32|]. intros len [Hlo _].
  destruct (Z.ltb_spec lim len); [apply reads_throw|]. apply Hf. lia.
Qed.

Lemma reads_count what : reads (read_count what) (fun n => 0 <= n <= MAX_ITEMS).
Proof. apply reads_bounded_len. intros len Hlen. by apply reads_ret. Qed.

Lemma reads_blob what : reads (read_blob what) (fun b => Z.of_nat (length b) <= MAX_BLOB).
Proof.
  apply reads_bounded_len. intros len Hlen.
  eapply reads_weaken; [apply reads_take|]. intros b. simpl. lia.
Qed.

Lemma reads_string :
  reads read_string (fun s => utf8_valid s = true /\ Z.of_nat (length s) <= MAX_NAME).
Proof.
  apply reads_bounded_len. intros len Hlen. eapply reads_bind; [apply reads_take|].
  intros s Hs. simpl in Hs. destruct (utf8_valid s) eqn:Hu; [|apply reads_throw].
  apply reads_ret. split; [done|lia].
Qed.

Lemma reads_forbid tr kind : reads (forbid tr kind) (fun _ => tr = Trusted).
Proof.
  unfold forbid. destruct (decide (tr = Untrusted)); [apply reads_throw|].
  apply reads_ret. by destruct tr.
Qed.

Lemma reads_n {A} n (m : nat -> parser A) i (P : A -> Prop) :
  (forall i, reads (m i) P) ->
  reads (read_n n m i) (fun l => length l = n /\ Forall P l).
Proof.
  intros Hm. revert i. induction n as [|n IH]; intros i; simpl.
  - apply reads_ret. by split.
  - eapply reads_bind; [apply Hm|]. intros x Hx. eapply reads_bind; [apply IH|].
    intros xs (Hl & Hxs). apply reads_ret. split; [simpl; lia|by constructor].
Qed.

#[local] Hint Resolve reads_u8 reads_u16 reads_u32 reads_u64 reads_f64 reads_u128
  reads_i32 reads_i64 reads_blob reads_string reads_forbid reads_fresh reads_count
  reads_throw : parser.

(** One field of a record being decoded. *)
Ltac read_field :=
  eapply reads_bind; [solve [eauto with parser]|];
  let H := fresh "Hread" in intros ? H; cbv beta in H.

Lemma reads_value tr fuel depth d :
  Z.of_nat d = MAX_VALUE_DEPTH - depth -> fuel = S d ->
  reads (read_value_fuel fuel tr depth) (fun v => value_ok v /\ value_encodable tr d v).
Proof.
  revert depth d. induction fuel as [|fuel IH]; intros depth d Hd Hfuel; [done|].
  injection Hfuel as ->. cbn [read_value_fuel].
  destruct (Z.ltb_spec MAX_VALUE_DEPTH depth); [apply reads_throw|].
  read_field.
  repeat match goal with |- reads (match ?x with _ => _ end) _ =>
    destruct x; try solve [apply reads_throw] end;
    repeat read_field; try (by apply reads_ret).
  - destruct (utf8_valid _) eqn:Hu; [|apply reads_throw].
    read_field. by apply reads_ret.
  - destruct d as [|d].
    { intros r w r' E. exfalso. unfold bind in E. cbn in E.
      destruct (Z.ltb_spec MAX_VALUE_DEPTH (depth + 1)); done. }
    eapply reads_bind; [apply (IH (depth + 1) d); [lia|done]|].
    intros pl (Hok & Henc). by apply reads_ret.
Qed.

Lemma reads_function i :
  reads (read_function i) (fun def =>
    function_ok def /\ Z.of_nat (length (FunctionDef.name def)) <= MAX_NAME).
Proof.
  unfold read_function. repeat read_field. apply reads_ret. split_conj.
  unfold function_ok. by split_and!.
Qed.

Lemma reads_instruction at_ : reads (read_instruction at_) instruction_ok.
Proof.
  unfold read_instruction. read_field. destruct (Opcode.from_u8 _); [|apply reads_throw].
  repeat read_field. by apply reads_ret.
Qed.

Lemma reads_chunk tr :
  reads (read_chunk tr) (fun ch => chunk_ok ch /\ chunk_encodable tr ch).
Proof.
  unfold read_chunk. eapply reads_bind; [apply reads_take|]. intros magic _.
  destruct (negb _); [apply reads_throw|]. read_field.
  destruct (negb _); [apply reads_throw|]. read_field. read_field.
  eapply reads_bind; [apply reads_n; intros; apply (reads_value tr 17 0 16); done|].
  intros cs (Lc & Hc). read_field.
  eapply reads_bind; [apply reads_n, reads_function|]. intros fs (Lf & Hf). read_field.
  eapply reads_bind; [apply reads_n, reads_instruction|]. intros code (Li & Hi).
  apply reads_ret. simpl in *. apply Forall_and in Hc as [Hc1 Hc2], Hf as [Hf1 Hf2].
  unfold chunk_ok, chunk_encodable. simpl.
  split_conj. split_and!; (done || lia).
Qed.

Lemma encodable_untrusted d v :
  value_encodable Untrusted d v -> carries_no_authority v.
Proof. destruct v; simpl; naive_solver. Qed.

Lemma decode_encode tr ch trailing :
  chunk_ok ch -> chunk_encodable tr ch ->
  exists ch', decode_with (encode ch ++ trailing) tr = Ok ch' /\ chunk_eqv ch ch'.
Proof.
  intros Hok Henc.
  destruct (parses_chunk tr ch Hok Henc
    {| data := enc_chunk ch ++ trailing; pos := 0; next_ptr := 0%N |} trailing eq_refl)
    as (ch' & r' & E & Heqv & _).
  exists ch'. unfold decode_with. rewrite encode_enc, E. done.
Qed.

Lemma decode_with_reads tr bytes ch :
  decode_with bytes tr = Ok ch ->
  (chunk_ok ch /\ chunk_encodable tr ch) /\
  exists used, forall n,
    decode_with (firstn n bytes) tr = if (used <=? n)%nat then Ok ch else Err Truncated.
Proof.
  unfold decode_with.
  destruct (read_chunk tr {| data := bytes; pos := 0; next_ptr := 0%N |})
    as [[ch0 r']|] eqn:E; [|done].
  intros [= ->]. destruct (reads_chunk tr _ _ _ E) as (Hok & _ & _ & Hkeep & Hcut).
  split; [done|]. exists (pos r'). intros n. unfold trunc in *. simpl in *.
  destruct (Nat.leb_spec (pos r') n).
  - by rewrite Hkeep.
  - by rewrite Hcut by lia.
Qed.

(** C32: encoding then decoding gives back the chunk, up to the identity of the
    buffers of its [Str] and [Bytes] constants, for every chunk within the
    decoder's limits (and without authority constants, at the untrusted level),
    whatever follows it in the input. *)
Theorem format_roundtrip tr ch trailing :
  chunk_ok ch -> chunk_encodable tr ch ->
  exists ch', decode_with (encode ch ++ trailing) tr = Ok ch' /\ chunk_eqv ch ch'.
Proof. apply decode_encode. Qed.

(** A module with a constant of every kind. *)
Definition sample_chunk : Chunk.t := Chunk.mk (ascii_bytes "sample")
  [Value.Unit; Value.Bool true; Value.Int (-7); Value.Float (F64.of_i64 3);
   Value.Pid 12; Value.Cap 99; Value.Str 4%N (ascii_bytes "hi");
   Value.Message (mk_message 1 2 3 4 (Value.Bytes 5%N [byte_of 255]))]
  [Instruction.a_imm Opcode.LoadConst 0 2; Instruction.only_imm Opcode.Jump (-2);
   Instruction.abc Opcode.Return 0 0 0]
  [FunctionDef.mk (ascii_bytes "main") 0 0 1].

Lemma format_roundtrip_witness :
  exists ch', decode_with (encode sample_chunk ++ [byte_of 1]) Trusted = Ok ch' /\
    chunk_eqv sample_chunk ch'.
Proof.
  apply (format_roundtrip Trusted sample_chunk [byte_of 1]).
  - split_and!; repeat constructor; vm_compute; congruence.
  - split_and!; repeat constructor; vm_compute; congruence.
Defined.

(** C33: what the decoder lets through.  A decoded chunk is well typed (integers
    in range, names and strings UTF-8), within every limit, and can be encoded
    and decoded again; decoded as untrusted it carries no [Cap], [Pid] or
    [Message] constant at all, so that the verifier's own check of the pool can
    only agree. *)
Theorem decode_sound tr bytes ch :
  decode_with bytes tr = Ok ch ->
  chunk_ok ch /\ chunk_encodable tr ch /\
  (tr = Untrusted -> Forall carries_no_authority (Chunk.constants ch)) /\
  verify_with ch {| trust := tr |} = verify_with ch {| trust := Trusted |} /\
  exists ch', decode_with (encode ch) tr = Ok ch' /\ chunk_eqv ch ch'.
Proof.
  intros E. apply decode_with_reads in E as ((Hok & Henc) & _).
  assert (Hno : tr = Untrusted -> Forall carries_no_authority (Chunk.constants ch)).
  { intros ->. destruct Henc as (_ & _ & _ & _ & Hc & _).
    eapply Forall_impl; [exact Hc|]. intros v. apply encodable_untrusted. }
  split_and!; try done.
  - unfold verify_with. destruct (Value.is_empty _); [done|]. cbn [trust].
    replace (try_for_each _ 0 (Chunk.constants ch)) with (@Ok unit VerifyError tt).
    + replace (try_for_each _ 0 (Chunk.constants ch)) with (@Ok unit VerifyError tt); [done|].
      symmetry. apply try_for_each_Ok. intros k x Hk. by apply validate_constant_Ok.
    + symmetry. apply try_for_each_Ok. intros k x Hk. apply validate_constant_Ok.
      intros Htr. specialize (Hno Htr). rewrite Forall_lookup in Hno. eauto.
  - rewrite <- (app_nil_r (encode ch)). by apply decode_encode.
Qed.

Lemma decode_sound_witness :
  exists ch, decode_with (encode sample_chunk) Trusted = Ok ch /\ chunk_ok ch.
Proof.
  eexists. split; [vm_compute; reflexivity|].
  apply (decode_sound Trusted (encode sample_chunk)). vm_compute. reflexivity.
Defined.

(** a truncated module is always rejected as truncated, never decoded into
    something else: an accepted input has a consumed length, any cut below it
    gives [Truncated] and any cut above it the same chunk. *)
Lemma decode_truncation tr bytes ch :
  decode_with bytes tr = Ok ch ->
  exists used, (used <= length bytes)%nat /\ forall n,
    decode_with (firstn n bytes) tr = if (used <=? n)%nat then Ok ch else Err Truncated.
Proof.
  intros E. destruct (decode_with_reads tr bytes ch E) as (_ & used & H).
  exists used. split; [|done].
  specialize (H (length bytes)). rewrite firstn_all, E in H.
  destruct (Nat.leb_spec used (length bytes)); [done|congruence].
Qed.

Lemma decode_truncation_witness :
  exists used, (used <= length (encode sample_chunk))%nat /\ forall n,
    decode_with (firstn n (encode sample_chunk)) Trusted =
    if (used <=? n)%nat then decode_with (encode sample_chunk) Trusted else Err Truncated.
Proof.
  destruct (decode_with (encode sample_chunk) Trusted) as [ch|] eqn:E;
    [|vm_compute in E; discriminate].
  exact (decode_truncation Trusted (encode sample_chunk) ch E).
Defined.
