(* ===== verification/Builder.v ===== *)
(** The assembler: constants, emission of every instruction, labels with
    back-patching, functions, and [finish].  Models bytecode/builder.rs. *)

From S2P Require Import Prelude Capability F64 Values Isa Verify.

Module ChunkBuilder.

(** [bytecode/builder.rs] [Label] *)
Definition Label : Type := Z.

(** [bytecode/builder.rs] [ChunkBuilder] *)
Record t := mk {
  name : list byte;
  constants : list Value.t;
  code : list Instruction.t;
  functions : list FunctionDef.t;
  next_label : Z;
  label_targets : gmap Z Z;
  pending_jumps : list (nat * Label);
  fn_starts : gmap (list byte) Z }.

(** [bytecode/builder.rs] [ChunkBuilder::new] *)
Definition new (name : list byte) : t := mk name [] [] [] 0 ∅ [] ∅.

(** [bytecode/builder.rs] [ChunkBuilder::const_] *)
Definition const_ (b : t) (v : Value.t) : Z * t :=
  match position (fun c => Value.eqb c v) (constants b) with
  | Some pos => (wrap_u 32 (Z.of_nat pos), b)
  | None =>
    (wrap_u 32 (Z.of_nat (length (constants b))),
     mk (name b) (constants b ++ [v]) (code b) (functions b) (next_label b)
       (label_targets b) (pending_jumps b) (fn_starts b))
  end.

(** [bytecode/builder.rs] [ChunkBuilder::new_label]: [None] is the overflow panic
    of [+= 1]. *)
Definition new_label (checks : bool) (b : t) : option (Label * t) :=
  (fun n => (next_label b,
     mk (name b) (constants b) (code b) (functions b) n (label_targets b)
       (pending_jumps b) (fn_starts b))) <$> checked_u checks 32 (next_label b + 1).

(** [bytecode/builder.rs] [ChunkBuilder::bind_label] *)
Definition bind_label (b : t) (label : Label) : t :=
  mk (name b) (constants b) (code b) (functions b) (next_label b)
    (<[label := len_u32 (code b)]> (label_targets b)) (pending_jumps b) (fn_starts b).

(** [bytecode/builder.rs] [ChunkBuilder::emit] *)
Definition emit (b : t) (i : Instruction.t) : nat * t :=
  (length (code b),
   mk (name b) (constants b) (code b ++ [i]) (functions b) (next_label b)
     (label_targets b) (pending_jumps b) (fn_starts b)).

Definition emit_ (b : t) (i : Instruction.t) : t := snd (emit b i).

Definition push_pending (b : t) (idx : nat) (l : Label) : t :=
  mk (name b) (constants b) (code b) (functions b) (next_label b) (label_targets b)
    (pending_jumps b ++ [(idx, l)]) (fn_starts b).

(** [bytecode/builder.rs] [ChunkBuilder::emit_halt] *)
Definition emit_halt (b : t) : t :=
  emit_ b (Instruction.nullary Opcode.Halt).

(** [bytecode/builder.rs] [ChunkBuilder::emit_load_const] *)
Definition emit_load_const (b : t) (dst konst : Z) : t :=
  emit_ b (Instruction.new Opcode.LoadConst dst 0 0 (wrap_i 32 konst)).

(** [bytecode/builder.rs] [ChunkBuilder::emit_load_imm] *)
Definition emit_load_imm (b : t) (dst imm : Z) : t :=
  emit_ b (Instruction.a_imm Opcode.LoadImm dst imm).

(** [bytecode/builder.rs] [ChunkBuilder::emit_move] *)
Definition emit_move (b : t) (dst src : Z) : t :=
  emit_ b (Instruction.abc Opcode.Move dst src 0).

Definition is_binop (op : Opcode.t) : bool :=
  match op with
  | Opcode.Add | Opcode.Sub | Opcode.Mul | Opcode.Div | Opcode.Mod
  | Opcode.Eq | Opcode.Lt | Opcode.Le => true
  | _ => false
  end.

(** [bytecode/builder.rs] [ChunkBuilder::emit_binop]: [None] is the debug
    assertion. *)
Definition emit_binop (checks : bool) (b : t) (op : Opcode.t) (dst lhs rhs : Z) : option t :=
  if checks && negb (is_binop op) then None
  else Some (emit_ b (Instruction.abc op dst lhs rhs)).

(** [bytecode/builder.rs] [ChunkBuilder::emit_neg] *)
Definition emit_neg (b : t) (dst src : Z) : t :=
  emit_ b (Instruction.abc Opcode.Neg dst src 0).

(** [bytecode/builder.rs] [ChunkBuilder::emit_jump] *)
Definition emit_jump (b : t) (target : Label) : t :=
  let (idx, b') := emit b (Instruction.only_imm Opcode.Jump 0) in push_pending b' idx target.

(** [bytecode/builder.rs] [ChunkBuilder::emit_branch] *)
Definition emit_branch (b : t) (cond : Z) (target : Label) : t :=
  let (idx, b') := emit b (Instruction.a_imm Opcode.Branch cond 0) in
  push_pending b' idx target.

(** [bytecode/builder.rs] [ChunkBuilder::emit_spawn_with_rights] *)
Definition emit_spawn_with_rights (b : t) (dst function argc : Z) (rights : CapRights.t) : t :=
  emit_ b (Instruction.new Opcode.Spawn dst argc (CapRights.bits_u8 rights) (wrap_i 32 function)).

(** [bytecode/builder.rs] [ChunkBuilder::emit_spawn] *)
Definition emit_spawn (b : t) (dst function argc : Z) : t :=
  emit_spawn_with_rights b dst function argc CapRights.FLOW.

(** [bytecode/builder.rs] [ChunkBuilder::emit_delegate] *)
Definition emit_delegate (b : t) (dst src_cap : Z) (rights : CapRights.t) : t :=
  emit_ b (Instruction.new Opcode.Delegate dst src_cap 255 (wrap_i 32 (CapRights.bits rights))).

(** [bytecode/builder.rs] [ChunkBuilder::emit_yield] *)
Definition emit_yield (b : t) : t :=
  emit_ b (Instruction.nullary Opcode.Yield).

(** [bytecode/builder.rs] [ChunkBuilder::emit_sleep] *)
Definition emit_sleep (b : t) (millis_reg : Z) : t :=
  emit_ b (Instruction.abc Opcode.Sleep millis_reg 0 0).

(** [bytecode/builder.rs] [ChunkBuilder::emit_exit] *)
Definition emit_exit (b : t) (reg : Z) : t :=
  emit_ b (Instruction.abc Opcode.Exit reg 0 0).

(** [bytecode/builder.rs] [ChunkBuilder::emit_self_pid] *)
Definition emit_self_pid (b : t) (dst : Z) : t :=
  emit_ b (Instruction.abc Opcode.SelfPid dst 0 0).

(** [bytecode/builder.rs] [ChunkBuilder::emit_fresh_request_id] *)
Definition emit_fresh_request_id (b : t) (dst : Z) : t :=
  emit_ b (Instruction.abc Opcode.FreshRequestId dst 0 0).

(** [bytecode/builder.rs] [ChunkBuilder::emit_send] *)
Definition emit_send (b : t) (target_cap_reg msg_reg : Z) : t :=
  emit_ b (Instruction.abc Opcode.Send target_cap_reg msg_reg 0).

(** [bytecode/builder.rs] [ChunkBuilder::emit_receive] *)
Definition emit_receive (b : t) (dst : Z) : t :=
  emit_ b (Instruction.abc Opcode.Receive dst 0 0).

(** [bytecode/builder.rs] [ChunkBuilder::emit_receive_timeout] *)
Definition emit_receive_timeout (b : t) (dst millis_reg : Z) : t :=
  emit_ b (Instruction.abc Opcode.ReceiveTimeout dst millis_reg 0).

(** [bytecode/builder.rs] [ChunkBuilder::emit_receive_match] *)
Definition emit_receive_match (b : t) (dst tag_reg : Z) : t :=
  emit_ b (Instruction.abc Opcode.ReceiveMatch dst tag_reg 0).

(** [bytecode/builder.rs] [ChunkBuilder::emit_receive_match_imm] *)
Definition emit_receive_match_imm (b : t) (dst tag : Z) : t :=
  emit_ b (Instruction.a_imm Opcode.ReceiveMatchImm dst tag).

(** [bytecode/builder.rs] [ChunkBuilder::emit_receive_match_corr] *)
Definition emit_receive_match_corr (b : t) (dst tag_reg id_reg : Z) : t :=
  emit_ b (Instruction.abc Opcode.ReceiveMatchCorr dst tag_reg id_reg).

(** [bytecode/builder.rs] [ChunkBuilder::emit_receive_match_corr_imm] *)
Definition emit_receive_match_corr_imm (b : t) (dst tag id_reg : Z) : t :=
  emit_ b (Instruction.new Opcode.ReceiveMatchCorrImm dst id_reg 0 tag).

(** [bytecode/builder.rs] [ChunkBuilder::emit_ask] *)
Definition emit_ask (b : t) (dest target_cap_reg msg_reg : Z) : t :=
  emit_ b (Instruction.abc Opcode.Ask dest target_cap_reg msg_reg).

(** [bytecode/builder.rs] [ChunkBuilder::emit_ask_timeout] *)
Definition emit_ask_timeout (b : t) (dest target_cap_reg msg_reg millis_reg : Z) : t :=
  emit_ b (Instruction.new Opcode.AskTimeout dest target_cap_reg msg_reg millis_reg).

(** [bytecode/builder.rs] [ChunkBuilder::emit_monitor] *)
Definition emit_monitor (b : t) (dest target_cap_reg : Z) : t :=
  emit_ b (Instruction.abc Opcode.Monitor dest target_cap_reg 0).

(** [bytecode/builder.rs] [ChunkBuilder::emit_demonitor] *)
Definition emit_demonitor (b : t) (monitor_reg : Z) : t :=
  emit_ b (Instruction.abc Opcode.Demonitor monitor_reg 0 0).

(** [bytecode/builder.rs] [ChunkBuilder::emit_link] *)
Definition emit_link (b : t) (dest target_cap_reg : Z) : t :=
  emit_ b (Instruction.abc Opcode.Link dest target_cap_reg 0).

(** [bytecode/builder.rs] [ChunkBuilder::emit_unlink] *)
Definition emit_unlink (b : t) (link_reg : Z) : t :=
  emit_ b (Instruction.abc Opcode.Unlink link_reg 0 0).

(** [bytecode/builder.rs] [ChunkBuilder::emit_register_name] *)
Definition emit_register_name (b : t) (name_reg : Z) : t :=
  emit_ b (Instruction.abc Opcode.RegisterName name_reg 0 0).

(** [bytecode/builder.rs] [ChunkBuilder::emit_whereis] *)
Definition emit_whereis (b : t) (dst name_reg : Z) : t :=
  emit_ b (Instruction.abc Opcode.Whereis dst name_reg 0).

(** [bytecode/builder.rs] [ChunkBuilder::emit_trap] *)
Definition emit_trap (b : t) (code : Z) : t :=
  emit_ b (Instruction.only_imm Opcode.Trap code).

(** [bytecode/builder.rs] [ChunkBuilder::emit_call] *)
Definition emit_call (b : t) (dst function argc : Z) : t :=
  emit_ b (Instruction.new Opcode.Call dst argc 0 (wrap_i 32 function)).

(** [bytecode/builder.rs] [ChunkBuilder::emit_call_native] *)
Definition emit_call_native (b : t) (dst native_index argc : Z) : t :=
  emit_ b (Instruction.new Opcode.CallNative dst argc 0 (wrap_i 32 native_index)).

(** [bytecode/builder.rs] [ChunkBuilder::emit_native1_from] *)
Definition emit_native1_from (b : t) (dst src native_index : Z) : t :=
  emit_call_native (emit_move b dst src) dst native_index 1.

(** [bytecode/builder.rs] [ChunkBuilder::emit_native_n] *)
Definition emit_native_n (b : t) (base native_index argc : Z) : t :=
  emit_call_native b base native_index argc.

(** [bytecode/builder.rs] [ChunkBuilder::emit_return] *)
Definition emit_return (b : t) (reg : Z) : t :=
  emit_ b (Instruction.abc Opcode.Return reg 0 0).

(** [bytecode/builder.rs] [ChunkBuilder::begin_function] *)
Definition begin_function (b : t) (fname : list byte) (arity num_registers : Z) : Z * t :=
  let idx := len_u32 (functions b) in
  (idx, mk (name b) (constants b) (code b)
     (functions b ++ [FunctionDef.mk fname (len_u32 (code b)) arity num_registers])
     (next_label b) (label_targets b) (pending_jumps b) (<[fname := idx]> (fn_starts b))).

(** [bytecode/builder.rs] [ChunkBuilder::function_index] *)
Definition function_index (b : t) (fname : list byte) : option Z := fn_starts b !! fname.

Definition with_num_registers (n : Z) (def : FunctionDef.t) : FunctionDef.t :=
  FunctionDef.mk (FunctionDef.name def) (FunctionDef.entry def) (FunctionDef.arity def) n.

(** [bytecode/builder.rs] [ChunkBuilder::set_num_registers] *)
Definition set_num_registers (b : t) (function_index num_registers : Z) : t :=
  mk (name b) (constants b) (code b)
    (alter (with_num_registers num_registers) (Z.to_nat function_index) (functions b))
    (next_label b) (label_targets b) (pending_jumps b) (fn_starts b).

Definition with_imm (imm : Z) (i : Instruction.t) : Instruction.t :=
  Instruction.mk (Instruction.op i) (Instruction.a i) (Instruction.b i) (Instruction.c i) imm.

(** [bytecode/builder.rs:357-369] [ChunkBuilder::finish, one pending jump] *)
Definition patch (targets : gmap Z Z) (code : list Instruction.t) (p : nat * Label)
  : list Instruction.t :=
  let (idx, label) := p in
  match targets !! label with
  | Some target =>
    let offset := target - (Z.of_nat idx + 1) in
    alter (with_imm (wrap_i 32 offset)) idx code
  | None => alter (with_imm 0) idx code
  end.

(** [bytecode/builder.rs] [ChunkBuilder::finish] *)
Definition finish (b : t) : Chunk.t :=
  Chunk.mk (name b) (constants b)
    (fold_left (patch (label_targets b)) (pending_jumps b) (code b)) (functions b).

End ChunkBuilder.

Import ChunkBuilder.

Definition is_jump (op : Opcode.t) : bool :=
  match op with Opcode.Jump | Opcode.Branch => true | _ => false end.

(** Builders that the assembler's methods produce. *)
Inductive built : ChunkBuilder.t -> Prop :=
| built_new n : built (new n)
| built_const b v : built b -> built (snd (const_ b v))
| built_new_label b checks l b' : built b -> new_label checks b = Some (l, b') -> built b'
| built_bind_label b l : built b -> built (bind_label b l)
| built_emit b i : built b -> is_jump (Instruction.op i) = false -> built (emit_ b i)
| built_jump b l : built b -> built (emit_jump b l)
| built_branch b c l : built b -> built (emit_branch b c l)
| built_function b n a r : built b -> built (snd (begin_function b n a r))
| built_registers b f r : built b -> built (set_num_registers b f r).

(** Every emitted jump awaits a patch, once, and labels are bound inside the code
    or at its end. *)
Record builder_wf (b : ChunkBuilder.t) : Prop := {
  bw_nodup : NoDup (map fst (pending_jumps b));
  bw_pending : forall idx i, code b !! idx = Some i ->
    is_jump (Instruction.op i) = true <-> idx ∈ map fst (pending_jumps b);
  bw_range : forall idx, idx ∈ map fst (pending_jumps b) -> (idx < length (code b))%nat;
  bw_targets : forall l t, label_targets b !! l = Some t ->
    0 <= t <= Z.of_nat (length (code b)) }.

Lemma len_u32_le {A} (l : list A) : 0 <= len_u32 l <= Z.of_nat (length l).
Proof.
  unfold len_u32, wrap_u. split; [by apply Z.mod_pos_bound|].
  apply Z.mod_le; lia.
Qed.

Lemma builder_wf_emit b i :
  builder_wf b -> is_jump (Instruction.op i) = false -> builder_wf (emit_ b i).
Proof.
  intros [Hnd Hp Hr Ht] Hi. constructor; simpl; try done.
  - intros idx j Hj. apply lookup_snoc_Some in Hj as [[Hlt Hj]|[-> ->]].
    + by apply Hp.
    + rewrite Hi. split; [done|]. intros Hin. specialize (Hr _ Hin). lia.
  - intros idx Hin. rewrite length_app. simpl. specialize (Hr _ Hin). lia.
  - intros l t Hl. rewrite length_app. simpl. specialize (Ht _ _ Hl). lia.
Qed.

Lemma builder_wf_pending b i l :
  builder_wf b -> is_jump (Instruction.op i) = true ->
  builder_wf (let (idx, b') := emit b i in push_pending b' idx l).
Proof.
  intros [Hnd Hp Hr Ht] Hi. constructor; simpl; rewrite ?map_app; simpl.
  - apply NoDup_app. split_and!; [done| |apply NoDup_singleton].
    intros x Hx Hx'. apply list_elem_of_singleton in Hx' as ->. specialize (Hr _ Hx). lia.
  - intros idx j Hj. rewrite elem_of_app, list_elem_of_singleton.
    apply lookup_snoc_Some in Hj as [[Hlt Hj]|[-> ->]].
    + rewrite (Hp _ _ Hj). split; [by left|]. intros [?| ->]; [done|lia].
    + rewrite Hi. split; [by right|done].
  - intros idx. rewrite elem_of_app, list_elem_of_singleton, length_app. simpl.
    intros [Hin| ->]; [specialize (Hr _ Hin)|]; lia.
  - intros l' t Hl. rewrite length_app. simpl. specialize (Ht _ _ Hl). lia.
Qed.

Lemma built_wf b : built b -> builder_wf b.
Proof.
  induction 1 as [n|b v _ IH|b checks l b' _ IH Hl|b l _ IH|b i _ IH Hi|b l _ IH|b c l _ IH
                 |b n a r _ IH|b f r _ IH].
  - constructor; simpl; [constructor| |set_solver|done]. intros idx i Hi. done.
  - unfold const_. destruct (position _ _); [done|]. by destruct IH.
  - unfold new_label in Hl. destruct (checked_u _ _ _); [|done]. injection Hl as <- <-.
    by destruct IH.
  - destruct IH as [? ? ? Ht]. constructor; simpl; try done. intros l' t.
    rewrite lookup_insert_Some. intros [[_ <-]|[_ Hl]]; [apply len_u32_le|eauto].
  - by apply builder_wf_emit.
  - by apply (builder_wf_pending b (Instruction.only_imm Opcode.Jump 0)).
  - by apply (builder_wf_pending b (Instruction.a_imm Opcode.Branch c 0)).
  - by destruct IH.
  - by destruct IH.
Qed.

(** ** Patching *)

Definition jump_offset (targets : gmap Z Z) (idx : nat) (label : Label) : Z :=
  match targets !! label with
  | Some target => wrap_i 32 (target - (Z.of_nat idx + 1))
  | None => 0
  end.

Lemma patch_alter targets code idx l :
  patch targets code (idx, l) = alter (with_imm (jump_offset targets idx l)) idx code.
Proof. unfold patch, jump_offset. by destruct (targets !! l). Qed.

Lemma patches_length targets pending code :
  length (fold_left (patch targets) pending code) = length code.
Proof.
  revert code. induction pending as [|[idx l] pending IH]; intros code; [done|].
  cbn [fold_left]. rewrite IH, patch_alter. apply length_alter.
Qed.

Lemma patches_lookup targets pending code idx :
  NoDup (map fst pending) ->
  (forall l, (idx, l) ∈ pending ->
     fold_left (patch targets) pending code !! idx =
     with_imm (jump_offset targets idx l) <$> code !! idx) /\
  (idx ∉ map fst pending -> fold_left (patch targets) pending code !! idx = code !! idx).
Proof.
  revert code. induction pending as [|[j l'] pending IH]; intros code Hnd.
  { split; [|done]. intros l Hin. by apply elem_of_nil in Hin. }
  cbn [fold_left map fst] in *. apply NoDup_cons in Hnd as [Hj Hnd].
  destruct (IH (patch targets code (j, l')) Hnd) as [Hin Hout].
  rewrite patch_alter in *. split.
  - intros l. rewrite elem_of_cons. intros [[= -> ->]|Hl].
    + rewrite Hout by done. by rewrite list_lookup_alter_eq.
    + rewrite (Hin l Hl). assert (j <> idx).
      { intros ->. apply Hj. apply list_elem_of_fmap. by exists (idx, l). }
      by rewrite list_lookup_alter_ne.
  - rewrite not_elem_of_cons. intros [Hne Hi]. rewrite Hout by done.
    by rewrite list_lookup_alter_ne.
Qed.

(** The instruction of the finished code that an emitted one becomes. *)
Definition finished (b : ChunkBuilder.t) (idx : nat) (i : Instruction.t) : Prop :=
  match is_jump (Instruction.op i) with
  | false => Chunk.code (finish b) !! idx = Some i
  | true => exists l off, (idx, l) ∈ pending_jumps b /\
      Chunk.code (finish b) !! idx = Some (with_imm off i) /\
      match label_targets b !! l with
      | Some target => Z.of_nat idx + 1 + off = target
      | None => off = 0
      end
  end.

Lemma finish_code b :
  builder_wf b -> Z.of_nat (length (code b)) < 2 ^ 31 ->
  forall idx i, code b !! idx = Some i -> finished b idx i.
Proof.
  intros [Hnd Hp Hr Ht] Hlen idx i Hi. unfold finished. specialize (Hp _ _ Hi). simpl.
  destruct (patches_lookup (label_targets b) (pending_jumps b) (code b) idx Hnd) as [Hin Hout].
  destruct (is_jump _).
  - assert (Hmem : idx ∈ map fst (pending_jumps b)) by by apply Hp.
    apply list_elem_of_fmap in Hmem as ([j l] & -> & Hmem). simpl in *.
    exists l, (jump_offset (label_targets b) j l). rewrite (Hin l Hmem), Hi.
    split_and!; [done..|]. unfold jump_offset.
    destruct (label_targets b !! l) as [t|] eqn:El; [|done].
    specialize (Ht _ _ El). apply lookup_lt_Some in Hi. rewrite wrap_i_id; [lia|lia|].
    unfold in_i. change (2 ^ (32 - 1)) with (2 ^ 31). lia.
  - rewrite Hout; [done|]. intros Hmem. by apply Hp in Hmem.
Qed.

Lemma finish_length b : length (Chunk.code (finish b)) = length (code b).
Proof. apply patches_length. Qed.

(** What verification asks of a jump holds of every finished one, and the other
    instructions of the finished code are the ones that were emitted. *)
Lemma finish_instr b idx i :
  builder_wf b -> Z.of_nat (length (code b)) < 2 ^ 31 ->
  Chunk.code (finish b) !! idx = Some i ->
  if is_jump (Instruction.op i) then
    0 <= Z.of_nat idx + 1 + Instruction.imm i <= Z.of_nat (length (Chunk.code (finish b)))
  else code b !! idx = Some i.
Proof.
  intros Hb Hlen Hi. pose proof (lookup_lt_Some _ _ _ Hi) as Hlt. rewrite finish_length in *.
  destruct (lookup_lt_is_Some_2 _ _ Hlt) as [i0 Hi0].
  pose proof (finish_code b Hb Hlen idx i0 Hi0) as Hf. unfold finished in Hf.
  destruct (is_jump (Instruction.op i0)) eqn:Ej.
  - destruct Hf as (l & off & _ & Hf & Hoff). rewrite Hi in Hf. injection Hf as ->.
    simpl in *. rewrite Ej. destruct (label_targets b !! l) as [t|] eqn:El; [|lia].
    apply (bw_targets b Hb) in El. lia.
  - rewrite Hi in Hf. injection Hf as <-. by rewrite Ej.
Qed.

(** Labels resolve.  In the chunk [finish] makes from anything assembled
    through the builder, the code has the instructions that were emitted, in
    order; each jump or branch to a bound label lands exactly on the label, each
    one to an unbound label falls through, every other instruction is untouched;
    and so the verifier never rejects it for a jump out of range. *)
Lemma finish_resolves_labels b :
  built b -> Z.of_nat (length (code b)) < 2 ^ 31 ->
  length (Chunk.code (finish b)) = length (code b) /\
  (forall idx i, code b !! idx = Some i ->
     match is_jump (Instruction.op i) with
     | false => Chunk.code (finish b) !! idx = Some i
     | true => exists l off, (idx, l) ∈ pending_jumps b /\
         Chunk.code (finish b) !! idx = Some (with_imm off i) /\
         match label_targets b !! l with
         | Some target => Z.of_nat idx + 1 + off = target
         | None => off = 0
         end
     end) /\
  (forall config at_ target len,
     verify_with (finish b) config <> Err (JumpOutOfRange at_ target len)).
Proof.
  intros Hb Hlen. pose proof (built_wf b Hb) as Hwf. split_and!.
  - apply finish_length.
  - intros idx i. exact (finish_code b Hwf Hlen idx i).
  - intros config at_ target len Hv. apply verify_with_Err in Hv as (-> & Hbad & i & Hi & Hop & ->).
    apply Hbad. pose proof (finish_instr b at_ i Hwf Hlen Hi) as Hj.
    by destruct Hop as [Hop|Hop]; rewrite Hop in Hj.
Qed.

(** A loop: a label bound before its body and one bound after it. *)
Definition sample_builder : ChunkBuilder.t :=
  let b := snd (begin_function (new (ascii_bytes "loop")) (ascii_bytes "main") 0 2) in
  let b := bind_label b 0 in
  let b := emit_branch b 0 1 in
  let b := emit_neg b 0 0 in
  let b := emit_jump b 0 in
  let b := bind_label b 1 in
  emit_return b 0.

Lemma finish_resolves_labels_witness :
  built sample_builder /\
  map Instruction.imm (Chunk.code (finish sample_builder)) = [2; 0; -3; 0] /\
  verify (finish sample_builder) <> Err (JumpOutOfRange 0 2 4).
Proof.
  assert (Hb : built sample_builder).
  { unfold sample_builder.
    apply built_emit; [|done]. apply built_bind_label, built_jump.
    apply built_emit; [|done]. apply built_branch, built_bind_label, built_function, built_new. }
  split_and!; [done|by vm_compute|].
  by apply (finish_resolves_labels sample_builder Hb ltac:(by vm_compute)).
Defined.

(** Deduplication compares constants with [==], so that [-0.0] is given the slot
    of an earlier [0.0]. *)
Lemma const_collapses_signed_zero :
  let b := snd (const_ (new []) (Value.Float 0)) in
  fst (const_ b (Value.Float (F64.neg 0))) = 0 /\
  constants (snd (const_ b (Value.Float (F64.neg 0)))) = [Value.Float 0] /\
  F64.div (F64.of_i64 1) 0 <> F64.div (F64.of_i64 1) (F64.neg 0).
Proof. split_and!; vm_compute; congruence. Qed.
