(* ===== verification/Sync.v ===== *)
(** Errors of the scheduler and fail-closed locking: a poisoned mutex refuses
    every later operation.  Models scheduler/error.rs and scheduler/sync_lock.rs. *)

From S2P Require Import Prelude.

(** [scheduler/error.rs] [RuntimeError] *)
Inductive RuntimeError :=
| PoisonedLock (where_ : string)
| Abandoned (where_ : string)
| AlreadyCollected (where_ : string)
| EntropyFailed
| CapIdCollision
| CannotFinalizeHostFlow.
#[export] Instance runtime_error_eq_dec : EqDecision RuntimeError.
Proof. solve_decision. Defined.

(** [scheduler/error.rs] [LifecycleError] *)
Inductive LifecycleError :=
| NoSuchFlow (id : Z)
| InvalidCapability
| InvalidMonitor
| InvalidLink
| NotOwner
| AlreadyRegistered
| AlreadyLinked
| EmptyName
| SelfRelation
| Unavailable.
#[export] Instance lifecycle_error_eq_dec : EqDecision LifecycleError.
Proof. solve_decision. Defined.

(** [scheduler/error.rs] [RuntimeError::fmt] *)
Definition error_string (e : RuntimeError) : string :=
  match e with
  | PoisonedLock where_ => "runtime mutex poisoned at " +:+ where_
  | Abandoned where_ => where_ +:+ ": flow was destroyed before producing an outcome"
  | AlreadyCollected where_ => where_ +:+ ": outcome was already collected"
  | EntropyFailed => "capability CSPRNG unavailable"
  | CapIdCollision => "could not allocate a unique capability id"
  | CannotFinalizeHostFlow => "cannot finalize reserved host flow"
  end.

(** [scheduler/error.rs:102-117] [LifecycleError::fmt] *)
Definition lifecycle_error_string (e : LifecycleError) : string :=
  match e with
  | NoSuchFlow id => "no live flow flow#" +:+ pretty id
  | InvalidCapability => "unknown or revoked capability"
  | InvalidMonitor => "unknown monitor"
  | InvalidLink => "unknown link"
  | NotOwner => "caller does not own this relation"
  | AlreadyRegistered => "registry name already taken"
  | AlreadyLinked => "flows are already linked"
  | EmptyName => "registry name must be non-empty"
  | SelfRelation => "cannot link or monitor a flow to itself"
  | Unavailable => "runtime table unavailable (poisoned lock)"
  end.

(** ** Mutexes

    A [std::sync::Mutex] holds its data and whether a thread panicked while
    holding the guard. *)
Record mutex (A : Type) := mk_mutex { poisoned : bool; guarded : A }.
Arguments mk_mutex {A} _ _.
Arguments poisoned {A} _.
Arguments guarded {A} _.

(** [Mutex::new]. *)
Definition mutex_new {A} (a : A) : mutex A := mk_mutex false a.

(** [scheduler/sync_lock.rs] [lock] *)
Definition lock {A} (m : mutex A) (where_ : string) : result A RuntimeError :=
  if poisoned m then Err (PoisonedLock where_) else Ok (guarded m).

(** [scheduler/sync_lock.rs] [wait]: the guard is released, [others] is what other threads do
    to the mutex until the wait ends, notified or spuriously, and the mutex is locked
    again. *)
Definition wait {A} (others : mutex A -> mutex A) (m : mutex A) (where_ : string)
  : result A RuntimeError * mutex A :=
  let m := others m in (lock m where_, m).

(** [scheduler/sync_lock.rs] [wait_timeout]: whether the time passed is dropped by the
    callers, which read the clock. *)
Definition wait_timeout {A} (others : mutex A -> mutex A) (m : mutex A) (where_ : string)
  : result A RuntimeError * mutex A := wait others m where_.

(** Dropping the guard leaves the updated data behind; unwinding through it
    poisons the mutex. *)
Definition unlock {A} (a : A) : mutex A := mk_mutex false a.
Definition poison {A} (a : A) : mutex A := mk_mutex true a.

(** A critical section [f]: its update is kept, its answer returned; a poisoned
    mutex runs nothing. *)
Definition with_lock {A B} (m : mutex A) (where_ : string) (f : A -> B * A)
  : result B RuntimeError * mutex A :=
  match lock m where_ with
  | Ok a => let (b, a') := f a in (Ok b, unlock a')
  | Err e => (Err e, m)
  end.

Lemma with_lock_poisoned {A B} (m : mutex A) w (f : A -> B * A) :
  poisoned m = true -> with_lock m w f = (Err (PoisonedLock w), m).
Proof. unfold with_lock, lock. by intros ->. Qed.

Lemma with_lock_ok {A B} (m : mutex A) w (f : A -> B * A) :
  poisoned m = false ->
  with_lock m w f = (Ok (fst (f (guarded m))), unlock (snd (f (guarded m)))).
Proof. unfold with_lock, lock. intros ->. by destruct (f (guarded m)). Qed.
