(* ===== verification/JitTrace.v ===== *)
(** The trace JIT's data: exits and their wire format, the keys, hot counters and caches
    of compiled traces, the runtime-wide state behind its locks, and the region of a
    chunk that a trace covers.
    Models jit/exit.rs, jit/frame.rs, jit/trace.rs, jit/runtime.rs, jit/error.rs and the
    region half of jit/compiler.rs. *)

From S2P Require Import Prelude Capability F64 Values Isa Verify Sync.

(** ** Exits *)

(** [jit/exit.rs] [ExitReason] *)
Inductive ExitReason :=
| Continue_ (pc : Z) | Effect (pc : Z) | Return_ (return_reg : Z) | Budget (pc : Z)
| Trap_ (pc : Z) | Deopt (pc : Z).
#[export] Instance exit_reason_eq_dec : EqDecision ExitReason.
Proof. solve_decision. Defined.

(** [jit/exit.rs] [JitReturn] *)
Record JitReturn := mk_jit_return { kind : Z; jpc : Z; return_reg : Z }.

(** [jit/exit.rs:29-34] [JIT_CONTINUE .. JIT_DEOPT] *)
Definition JIT_CONTINUE : Z := 0.
Definition JIT_EFFECT : Z := 1.
Definition JIT_RETURN : Z := 2.
Definition JIT_BUDGET : Z := 3.
Definition JIT_TRAP : Z := 4.
Definition JIT_DEOPT : Z := 5.

(** [jit/exit.rs] [JitReturn::from_reason] *)
Definition from_reason (reason : ExitReason) : JitReturn :=
  match reason with
  | Continue_ pc => mk_jit_return JIT_CONTINUE pc 0
  | Effect pc => mk_jit_return JIT_EFFECT pc 0
  | Return_ return_reg => mk_jit_return JIT_RETURN 0 return_reg
  | Budget pc => mk_jit_return JIT_BUDGET pc 0
  | Trap_ pc => mk_jit_return JIT_TRAP pc 0
  | Deopt pc => mk_jit_return JIT_DEOPT pc 0
  end.

(** [jit/exit.rs] [JitReturn::into_reason] *)
Definition into_reason (r : JitReturn) : ExitReason :=
  if kind r =? JIT_CONTINUE then Continue_ (jpc r)
  else if kind r =? JIT_EFFECT then Effect (jpc r)
  else if kind r =? JIT_RETURN then Return_ (wrap_u 8 (return_reg r))
  else if kind r =? JIT_BUDGET then Budget (jpc r)
  else if kind r =? JIT_TRAP then Trap_ (jpc r)
  else if kind r =? JIT_DEOPT then Deopt (jpc r)
  else Deopt (jpc r).

(** ** Limits *)

(** [jit/frame.rs] [MAX_JIT_CALL_DEPTH] *)
Definition MAX_JIT_CALL_DEPTH : Z := 32.

(** [jit/trace.rs] [MAX_TRACE_LENGTH] *)
Definition MAX_TRACE_LENGTH : nat := 256.

(** [jit/trace.rs] [HOT_THRESHOLD] *)
Definition HOT_THRESHOLD : Z := 1000.

(** ** Keys, traces and counters *)

Module TraceKey.

(** [jit/trace.rs] [TraceKey] *)
Record t := mk { function : Z; entry_pc : Z }.

#[global] Instance eq_dec : EqDecision t.
Proof. solve_decision. Defined.
#[global] Instance countable : Countable t.
Proof.
  apply (inj_countable' (fun k => (function k, entry_pc k)) (fun p => mk (fst p) (snd p))).
  by intros [].
Defined.

End TraceKey.

(** [jit/trace.rs] [TraceSpan]: the half-open range of pcs. *)
Record TraceSpan := mk_span { span_function : Z; range : Z * Z }.

(** [jit/error.rs] [CompileError] *)
Inductive CompileError :=
| Backend (message : string)
| EmptyTrace (function pc : Z)
| UndefinedRegister (reg pc : Z)
| UnsupportedOpcode (opcode : Opcode.t) (pc : Z)
| TraceTooLong (pc : Z) (limit : nat)
| ModuleError (message : string).

Section traces.
Context {E : Type}.

(** [jit/trace.rs] [CompiledTrace]: [E] is the entry point, native code. *)
Record CompiledTrace := mk_trace { span : TraceSpan; entry : E }.

(** [jit/trace.rs] [TraceCache] *)
Definition TraceCache : Type := gmap TraceKey.t CompiledTrace.

(** [jit/trace.rs] [HotCounter] *)
Definition HotCounter : Type := gmap TraceKey.t Z.

(** [jit/trace.rs] [HotCounter::hit] *)
Definition hit (hot : HotCounter) (key : TraceKey.t) (threshold : Z) : bool * HotCounter :=
  let counter := Z.min (default 0 (hot !! key) + 1) u32_max in
  (threshold <=? counter, <[key := counter]> hot).

(** [jit/trace.rs] [HotCounter::reset] *)
Definition reset (hot : HotCounter) (key : TraceKey.t) : HotCounter := delete key hot.

(** ** One owner's state *)

(** [jit/trace.rs] [JitContext]: an [Arc<Chunk>] is its address and the chunk; the
    Cranelift module is an argument of compilation. *)
Record JitContext := mk_context {
  ctx_chunk : ptr * Chunk.t;
  ctx_cache : TraceCache;
  ctx_hot : HotCounter;
  ctx_threshold : Z }.

(** [jit/trace.rs] [JitContext::new] *)
Definition context_new (chunk : ptr * Chunk.t) : JitContext :=
  mk_context chunk ∅ ∅ HOT_THRESHOLD.

(** [jit/trace.rs] [JitContext::reload] *)
Definition context_reload (c : JitContext) (chunk : ptr * Chunk.t) : JitContext :=
  mk_context chunk ∅ ∅ (ctx_threshold c).

(** ** The runtime's state *)

(** [jit/runtime.rs] [JitRuntime]: a [RwLock] refuses once poisoned, as a [Mutex] does. *)
Record JitRuntime := mk_runtime {
  rt_chunk : mutex (ptr * Chunk.t);
  rt_threshold : Z;
  rt_cache : mutex TraceCache;
  rt_hot : mutex HotCounter }.

(** [jit/runtime.rs] [JitRuntime::new] *)
Definition runtime_new (chunk : ptr * Chunk.t) (hot_threshold : Z) : JitRuntime :=
  mk_runtime (mutex_new chunk) hot_threshold (mutex_new ∅) (mutex_new ∅).

(** [jit/runtime.rs] [JitRuntime::with_default_threshold] *)
Definition with_default_threshold (chunk : ptr * Chunk.t) : JitRuntime :=
  runtime_new chunk HOT_THRESHOLD.

(** [if let Ok(mut guard) = lock { f }]: an update that a poisoned lock skips. *)
Definition if_ok {A} (m : mutex A) (f : A -> A) : mutex A :=
  if poisoned m then m else unlock (f (guarded m)).

(** [.ok()] of a lock. *)
Definition lock_ok {A} (m : mutex A) : option A :=
  if poisoned m then None else Some (guarded m).

(** [jit/runtime.rs] [JitRuntime::chunk] *)
Definition runtime_chunk (rt : JitRuntime) : option (ptr * Chunk.t) := lock_ok (rt_chunk rt).

(** [jit/runtime.rs] [JitRuntime::matches_chunk]: [Arc::ptr_eq]. *)
Definition matches_chunk (rt : JitRuntime) (vm_chunk : ptr) : bool :=
  match lock_ok (rt_chunk rt) with
  | Some c => ptr_eq (fst c) vm_chunk
  | None => false
  end.

(** [jit/runtime.rs] [JitRuntime::reload] *)
Definition runtime_reload (rt : JitRuntime) (chunk : ptr * Chunk.t) : JitRuntime :=
  mk_runtime (if_ok (rt_chunk rt) (fun _ => chunk)) (rt_threshold rt)
    (if_ok (rt_cache rt) (fun _ => ∅)) (if_ok (rt_hot rt) (fun _ => ∅)).

(** [jit/runtime.rs] [JitRuntime::get_trace] *)
Definition get_trace (rt : JitRuntime) (key : TraceKey.t) : option E :=
  cache ← lock_ok (rt_cache rt); entry <$> cache !! key.

(** [jit/runtime.rs] [JitRuntime::insert_trace] *)
Definition insert_trace (rt : JitRuntime) (key : TraceKey.t) (trace : CompiledTrace) : JitRuntime :=
  mk_runtime (rt_chunk rt) (rt_threshold rt) (if_ok (rt_cache rt) (<[key := trace]>)) (rt_hot rt).

(** [jit/runtime.rs] [JitRuntime::record_hot_hit] *)
Definition record_hot_hit (rt : JitRuntime) (key : TraceKey.t) : bool * JitRuntime :=
  match lock_ok (rt_hot rt) with
  | None => (false, rt)
  | Some hot =>
    let (hot_now, hot') := hit hot key (rt_threshold rt) in
    (hot_now, mk_runtime (rt_chunk rt) (rt_threshold rt) (rt_cache rt) (unlock hot'))
  end.

End traces.
Arguments CompiledTrace : clear implicits.
Arguments TraceCache : clear implicits.
Arguments JitContext : clear implicits.
Arguments JitRuntime : clear implicits.

(** ** Regions *)

(** [jit/compiler.rs] [TraceBlock] *)
Record TraceBlock := mk_block { start_pc : Z; pcs : list Z }.

(** [jit/compiler.rs] [TraceRegion] *)
Definition TraceRegion : Type := list TraceBlock.

(** [jit/compiler.rs] [is_effect_opcode] *)
Definition is_effect_opcode (op : Opcode.t) : bool :=
  match op with
  | Opcode.CallNative | Opcode.Spawn | Opcode.Yield | Opcode.Sleep | Opcode.Exit
  | Opcode.SelfPid | Opcode.Send | Opcode.Receive | Opcode.ReceiveTimeout
  | Opcode.ReceiveMatch | Opcode.ReceiveMatchImm | Opcode.Ask | Opcode.AskTimeout
  | Opcode.Monitor | Opcode.Demonitor | Opcode.Link | Opcode.Unlink | Opcode.Delegate
  | Opcode.FreshRequestId | Opcode.ReceiveMatchCorr | Opcode.ReceiveMatchCorrImm
  | Opcode.RegisterName | Opcode.Whereis | Opcode.Trap | Opcode.Halt => true
  | _ => false
  end.

(** [jit/compiler.rs] [jump_target] *)
Definition jump_target (jpc imm : Z) : Z := wrap_u 32 (jpc + 1 + imm).

(** [jit/compiler.rs] [branch_target] *)
Definition branch_target (bpc imm : Z) : Z := jump_target bpc imm.

Section region.
Context (checks : bool) (chunk : Chunk.t).

(** [jit/compiler.rs:615-624] [collect_trace_region, the two breaks before recording] *)
Definition stops_recording (instr : Instruction.t) : bool :=
  is_effect_opcode (Instruction.op instr) ||
  match Instruction.op instr with
  | Opcode.LoadConst =>
    match Chunk.constant chunk (wrap_u 32 (Instruction.imm instr)) with
    | Some (Value.Int _ | Value.Bool _) => false
    | _ => true
    end
  | _ => false
  end.

(** [pc + 1] on a [u32]. *)
Definition next_pc (pc : Z) : option Z := checked_u checks 32 (pc + 1).

(** [jit/compiler.rs:612-652] [collect_trace_region, the inner loop]: the pcs of the block,
    what it enqueues and what is left of [MAX_TRACE_LENGTH - total]; [None] is the
    overflow panic of [pc + 1]. *)
Fixpoint scan (room : nat) (pc : Z) : option (list Z * list Z * nat) :=
  match room with
  | O => Some ([], [], O)
  | S room =>
    match get (Chunk.code chunk) pc with
    | None => Some ([], [], S room)
    | Some instr =>
      if stops_recording instr then Some ([], [], S room)
      else if Nat.eqb room 0 then Some ([pc], [], O)
      else match Instruction.op instr with
      | Opcode.Return => Some ([pc], [], room)
      | Opcode.Jump => Some ([pc], [jump_target pc (Instruction.imm instr)], room)
      | Opcode.Branch =>
        next ← next_pc pc; Some ([pc], [next; branch_target pc (Instruction.imm instr)], room)
      | Opcode.Call =>
        let callee := wrap_u 32 (Instruction.imm instr) in
        next ← next_pc pc;
        Some ([pc], option_list (FunctionDef.entry <$> Chunk.function chunk callee) ++ [next], room)
      | _ =>
        next ← next_pc pc;
        r ← scan room next;
        let '(pcs, queue, room) := r in Some (pc :: pcs, queue, room)
      end
    end
  end.

Inductive walk := Region (blocks : TraceRegion) | PcOverflow | OutOfFuel.

(** [jit/compiler.rs:604-657] [collect_trace_region, the worklist] *)
Fixpoint collect (fuel : nat) (queue : list Z) (seen : gset Z) (room : nat)
    (blocks : TraceRegion) : walk :=
  match fuel with
  | O => OutOfFuel
  | S fuel =>
    match queue with
    | [] => Region blocks
    | start :: queue =>
      if decide (start ∈ seen) then collect fuel queue seen room blocks
      else if Nat.eqb room 0 then Region blocks
      else match scan room start with
      | None => PcOverflow
      | Some (pcs, more, room) =>
        collect fuel (queue ++ more) ({[start]} ∪ seen) room
          (match pcs with [] => blocks | _ => blocks ++ [mk_block start pcs] end)
      end
    end
  end.

Definition collect_fuel : nat := 2 * MAX_TRACE_LENGTH + 2.

(** [jit/compiler.rs] [collect_trace_region] *)
Definition collect_trace_region (key : TraceKey.t) : walk :=
  collect collect_fuel [TraceKey.entry_pc key] ∅ MAX_TRACE_LENGTH [].

(** [jit/compiler.rs] [region_max_pc] *)
Definition region_max_pc (region : TraceRegion) (key : TraceKey.t) : result Z CompileError :=
  match concat (map pcs region) with
  | [] => Err (EmptyTrace (TraceKey.function key) (TraceKey.entry_pc key))
  | pc :: rest => Ok (fold_left Z.max rest pc)
  end.

(** [chunk.code[*pc as usize]]: [None] is the index panic. *)
Definition instr_at (pc : Z) : option Instruction.t := get (Chunk.code chunk) pc.

(** [jit/compiler.rs] [last_return_in_region] *)
Definition last_return_in_region (region : TraceRegion) : option (Z * Z) :=
  list_find (fun p => Instruction.op (snd p) = Opcode.Return)
    (rev (omap (fun pc => (fun i => (pc, i)) <$> instr_at pc) (concat (map pcs region))))
  ≫= fun '(_, (pc, instr)) => Some (pc, Instruction.a instr).

End region.
