(* ===== verification/JitClif.v ===== *)
(** The part of Cranelift the trace compiler uses: the builder calls it makes, as the
    instructions they append, and the documented meaning of those instructions.

    Cranelift is not part of the repository.  Nothing here is code of the program: the
    instructions record which calls jit/compiler.rs makes and in which order, and [run]
    states what the Cranelift documentation says they do.  What the program gets back
    from it is the parameter [Cranelift], whose law [define_sound] relies on that
    meaning.

    Memory is in three objects, the frame, the slot table and the call stack, of cells of
    the width they are accessed with; an access outside an object is undefined
    ([Stuck]), and so is the division that traps the host. *)

From S2P Require Import Prelude.

(** ** Instructions and the builder *)

Inductive ty := I8 | I32 | I64.
#[global] Instance ty_eq_dec : EqDecision ty.
Proof. solve_decision. Defined.

(** SSA values and blocks are handles. *)
Abbreviation value := nat (only parsing).
Abbreviation block := nat (only parsing).

Inductive binary_op := iadd | isub | imul | sdiv | srem.
Inductive IntCC := Equal | SignedLessThan | SignedLessThanOrEqual | SignedGreaterThanOrEqual.

Inductive inst :=
| iconst (v : value) (t : ty) (n : Z)
| load (v : value) (t : ty) (addr : value)
| store (x addr : value)
| binary (v : value) (op : binary_op) (a b : value)
| icmp (v : value) (cc : IntCC) (a b : value)
| select (v : value) (c a b : value)
| uextend (v : value) (t : ty) (a : value)
| brif (c : value) (b1 b2 : block)
| jump (b : block)
| return_.

Definition terminator (i : inst) : bool :=
  match i with brif _ _ _ | jump _ | return_ => true | _ => false end.

(** Every block ends with a terminator and has no other. *)
Fixpoint filled (code : list inst) : bool :=
  match code with
  | [] => false
  | [i] => terminator i
  | i :: code => negb (terminator i) && filled code
  end.

Record builder := mk_builder {
  blocks : list (list inst);
  cur : block;
  next_value : nat }.

Section emission.
Context {Err_ : Type}.

(** Code that emits: it may fail. *)
Definition Emit (A : Type) : Type := builder -> result (A * builder) Err_.

Definition e_ret {A} (a : A) : Emit A := fun b => Ok (a, b).
Definition e_fail {A} (e : Err_) : Emit A := fun b => Err e.
Definition e_bind {A B} (m : Emit A) (k : A -> Emit B) : Emit B := fun b =>
  match m b with Ok (a, b') => k a b' | Err e => Err e end.

(** [builder.ins()] of an instruction without and with a result. *)
Definition ins (i : inst) : Emit unit := fun b =>
  Ok (tt, mk_builder (alter (fun code => code ++ [i]) (cur b) (blocks b)) (cur b) (next_value b)).
Definition ins_val (i : value -> inst) : Emit value := fun b =>
  let v := next_value b in
  Ok (v, mk_builder (alter (fun code => code ++ [i v]) (cur b) (blocks b)) (cur b) (S v)).

Definition create_block : Emit block := fun b =>
  Ok (length (blocks b), mk_builder (blocks b ++ [[]]) (cur b) (next_value b)).
Definition switch_to_block (k : block) : Emit unit := fun b =>
  Ok (tt, mk_builder (blocks b) k (next_value b)).

(** A fresh function of one parameter, value 0, in its entry block. *)
Definition new_function : builder := mk_builder [[]] 0 1.

End emission.
Arguments Emit : clear implicits.

Notation "'let^' x ':=' m 'in' k" := (e_bind m (fun x => k))
  (at level 10, x pattern, m at level 200, k at level 200) : rust_scope.

(** ** Meaning *)

Inductive object := Frame | Slots | Stack.
#[global] Instance object_eq_dec : EqDecision object.
Proof. solve_decision. Defined.
#[global] Instance object_countable : Countable object.
Proof.
  apply (inj_countable' (fun o => match o with Frame => 0 | Slots => 1 | Stack => 2 end)
    (fun z => if decide (z = 0) then Frame else if decide (z = 1) then Slots else Stack)).
  by intros [].
Defined.

(** An integer of a width, in two's complement, or the address of a cell; addresses
    have the width of [I64]. *)
Inductive cell := Int (t : ty) (z : Z) | Ptr (o : object) (ofs : Z).
#[global] Instance cell_eq_dec : EqDecision cell.
Proof. solve_decision. Defined.

Definition bits (t : ty) : Z := match t with I8 => 8 | I32 => 32 | I64 => 64 end.
Definition int (t : ty) (z : Z) : cell := Int t (wrap_i (bits t) z).
Definition cell_ty (c : cell) : ty := match c with Int t _ => t | Ptr _ _ => I64 end.

Abbreviation memory := (gmap (object * Z) cell).

Definition mem_load (m : memory) (t : ty) (addr : cell) : option cell :=
  match addr with
  | Ptr o ofs => c ← m !! (o, ofs); if decide (cell_ty c = t) then Some c else None
  | Int _ _ => None
  end.
Definition mem_store (m : memory) (addr x : cell) : option memory :=
  match addr with
  | Ptr o ofs =>
    c ← m !! (o, ofs); if decide (cell_ty c = cell_ty x) then Some (<[(o, ofs) := x]> m) else None
  | Int _ _ => None
  end.

Definition eval_binary (op : binary_op) (a b : cell) : option cell :=
  match op, a, b with
  | iadd, Ptr o ofs, Int I64 z => Some (Ptr o (ofs + z))
  | _, Int t x, Int t' y =>
    if decide (t = t') then
      match op with
      | iadd => Some (int t (x + y))
      | isub => Some (int t (x - y))
      | imul => Some (int t (x * y))
      | sdiv =>
        if (y =? 0) || ((y =? -1) && (x =? - 2 ^ (bits t - 1))) then None
        else Some (int t (Z.quot x y))
      | srem => if y =? 0 then None else Some (int t (Z.rem x y))
      end
    else None
  | _, _, _ => None
  end.

Definition eval_cc (cc : IntCC) (x y : Z) : bool :=
  match cc with
  | Equal => x =? y
  | SignedLessThan => x <? y
  | SignedLessThanOrEqual => x <=? y
  | SignedGreaterThanOrEqual => y <=? x
  end.

Abbreviation env := (gmap nat cell).

(** A point of the execution: the next instruction of a block. *)
Record point := mk_point { pt_block : block; pt_index : nat; pt_env : env; pt_mem : memory }.

Inductive progress := Running (p : point) | Returned (m : memory) | Stuck.

Section meaning.
Context (F : list (list inst)).

Definition goto (k : block) (e : env) (m : memory) : progress := Running (mk_point k 0 e m).

(** The instruction defines [v]. *)
Definition define_value (p : point) (v : value) (c : option cell) : progress :=
  match c with
  | Some c => Running (mk_point (pt_block p) (S (pt_index p)) (<[v := c]> (pt_env p)) (pt_mem p))
  | None => Stuck
  end.

Definition fetch (p : point) : option inst := F !! pt_block p ≫= (.!! pt_index p).

Definition truth (c : cell) : option bool :=
  match c with Int _ z => Some (negb (z =? 0)) | Ptr _ _ => None end.

Definition step (p : point) : progress :=
  let e := pt_env p in
  match fetch p with
  | None => Stuck
  | Some i =>
    match i with
    | iconst v t n => define_value p v (Some (int t n))
    | load v t addr => define_value p v (a ← e !! addr; mem_load (pt_mem p) t a)
    | store x addr =>
      match (c ← e !! x; a ← e !! addr; mem_store (pt_mem p) a c) with
      | Some m => Running (mk_point (pt_block p) (S (pt_index p)) e m)
      | None => Stuck
      end
    | binary v op a b => define_value p v (x ← e !! a; y ← e !! b; eval_binary op x y)
    | icmp v cc a b =>
      define_value p v
        (match e !! a, e !! b with
         | Some (Int t x), Some (Int t' y) =>
           if decide (t = t') then Some (Int I8 (Z.b2z (eval_cc cc x y))) else None
         | _, _ => None
         end)
    | select v c a b =>
      define_value p v (x ← e !! c; t ← truth x; if (t : bool) then e !! a else e !! b)
    | uextend v t a =>
      define_value p v
        (match e !! a with
         | Some (Int t' z) => Some (int t (wrap_u (bits t') z))
         | _ => None
         end)
    | brif c b1 b2 =>
      match e !! c ≫= truth with
      | Some true => goto b1 e (pt_mem p)
      | Some false => goto b2 e (pt_mem p)
      | None => Stuck
      end
    | jump b => goto b e (pt_mem p)
    | return_ => Returned (pt_mem p)
    end
  end.

Fixpoint run (fuel : nat) (p : point) : option progress :=
  match fuel with
  | O => None
  | S fuel =>
    match step p with
    | Running p' => run fuel p'
    | stop => Some stop
    end
  end.

(** A call of the function on the frame at the start of [Frame]. *)
Definition call_function (fuel : nat) (m : memory) : option progress :=
  run fuel (mk_point 0 0 {[ 0%nat := Ptr Frame 0 ]} m).

Definition goes (p p' : point) : Prop := step p = Running p'.

End meaning.

(** ** What the program gets from Cranelift *)

(** Making a module; declaring, defining and finalizing the function of a key in it; and
    calling the code this gives, on the frame at the start of [Frame]: [None] is a crash
    of the host. *)
Class Cranelift (K M C : Type) := {
  create_module : result M string;
  define_function : M -> K -> list (list inst) -> result C string * M;
  call_native : C -> memory -> option memory }.

(** Compiled code has filled blocks, and does what the instructions mean. *)
Class CraneliftSound (K M C : Type) `{Cranelift K M C} : Prop := {
  define_filled : forall m k F c m', define_function m k F = (Ok c, m') -> forallb filled F = true;
  define_sound : forall m k F c m' mem mem' fuel,
    define_function m k F = (Ok c, m') -> call_function F fuel mem = Some (Returned mem') ->
    call_native c mem = Some mem' }.
