(* ===== verification/JitCompiler.v ===== *)
(** The trace compiler: the Cranelift function it emits for a region of a chunk.
    Models jit/compiler.rs, call by call: each [builder.ins()] is an instruction appended
    to the current block, in the order of the source, and sealing a block, which only
    concerns SSA construction, is silent. *)

From S2P Require Import Prelude Capability F64 Values Isa Verify Sync JitTrace JitClif.

(** ** Layout of the frame *)

(** [jit/frame.rs:4-11] [OFF_REGISTER_COUNT .. OFF_CALL_STACK] *)
Definition OFF_REGISTER_COUNT : Z := 8.
Definition OFF_PC : Z := 12.
Definition OFF_BUDGET : Z := 16.
Definition OFF_FUNCTION : Z := 20.
Definition OFF_EXIT_KIND : Z := 24.
Definition OFF_RETURN_REG : Z := 28.
Definition OFF_CALL_DEPTH : Z := 32.
Definition OFF_CALL_STACK : Z := 40.

(** [jit/frame.rs] [JitCallRecord]: the size and the fields' offsets under [repr(C)]. *)
Definition CALL_RECORD_SIZE : Z := 16.
Definition OFF_RETURN_FUNCTION : Z := 4.
Definition OFF_DEST_REG : Z := 8.
Definition OFF_CALLER_REGS : Z := 12.

(** ** Registers in SSA values *)

Module RegisterMap.

(** [jit/compiler.rs] [RegisterMap] *)
Definition t : Type := list (option value).

(** [jit/compiler.rs] [RegisterMap::new] *)
Definition new (registers : Z) : t := replicate (Z.to_nat registers) None.

(** [jit/compiler.rs] [RegisterMap::get] *)
Definition get (m : t) (reg : Z) : option value := mjoin (Prelude.get m reg).

(** [jit/compiler.rs] [RegisterMap::set]: a register outside the map is dropped. *)
Definition set (m : t) (reg : Z) (v : value) : t :=
  <[Z.to_nat reg := Some v]> (m : list (option value)).

(** [jit/compiler.rs] [RegisterMap::clear] *)
Definition clear (m : t) : t := map (fun _ => None) m.

End RegisterMap.

Abbreviation E := (Emit CompileError).

(** ** Emission *)

(** [jit/compiler.rs] [field_ptr] *)
Definition field_ptr (base : value) (offset : Z) : E value :=
  let^ off := ins_val (fun v => iconst v I64 offset) in
  ins_val (fun v => binary v iadd base off).

(** [jit/compiler.rs] [store_slot] *)
Definition store_slot (slots : value) (reg : Z) (x : value) : E unit :=
  let^ offset := ins_val (fun v => iconst v I64 (reg * 8)) in
  let^ addr := ins_val (fun v => binary v iadd slots offset) in
  ins (store x addr).

(** [jit/compiler.rs] [bool_as_i64] *)
Definition bool_as_i64 (cond : value) : E value :=
  let^ one := ins_val (fun v => iconst v I64 1) in
  let^ zero := ins_val (fun v => iconst v I64 0) in
  ins_val (fun v => select v cond one zero).

(** [jit/compiler.rs] [write_u32_field] *)
Definition write_u32_field (frame_ptr : value) (offset x : Z) : E unit :=
  let^ addr := field_ptr frame_ptr offset in
  let^ val := ins_val (fun v => iconst v I32 x) in
  ins (store val addr).

(** [jit/compiler.rs] [write_exit] *)
Definition write_exit (frame_ptr : value) (kind pc return_reg : Z) : E unit :=
  let^ _ := write_u32_field frame_ptr OFF_EXIT_KIND kind in
  let^ _ := write_u32_field frame_ptr OFF_PC pc in
  let^ _ := write_u32_field frame_ptr OFF_RETURN_REG return_reg in
  ins return_.

(** [jit/compiler.rs] [write_dynamic_exit] *)
Definition write_dynamic_exit (frame_ptr : value) (kind : Z) (pc : value) (return_reg : Z)
  : E unit :=
  let^ _ := write_u32_field frame_ptr OFF_EXIT_KIND kind in
  let^ pc_ptr := field_ptr frame_ptr OFF_PC in
  let^ _ := ins (store pc pc_ptr) in
  let^ _ := write_u32_field frame_ptr OFF_RETURN_REG return_reg in
  ins return_.

(** [jit/compiler.rs] [emit_budget_tick] *)
Definition emit_budget_tick (budget_ptr frame_ptr : value) (pc : Z) : E unit :=
  let^ budget := ins_val (fun v => load v I32 budget_ptr) in
  let^ zero := ins_val (fun v => iconst v I32 0) in
  let^ exhausted := ins_val (fun v => icmp v Equal budget zero) in
  let^ continue_insn := create_block in
  let^ budget_exit := create_block in
  let^ _ := ins (brif exhausted budget_exit continue_insn) in
  let^ _ := switch_to_block budget_exit in
  let^ _ := write_exit frame_ptr JIT_BUDGET pc 0 in
  let^ _ := switch_to_block continue_insn in
  let^ one := ins_val (fun v => iconst v I32 1) in
  let^ new_budget := ins_val (fun v => binary v isub budget one) in
  ins (store new_budget budget_ptr).

(** [jit/compiler.rs] [load_reg] *)
Definition load_reg (registers : RegisterMap.t) (slots_ptr : value) (reg : Z)
  : E (value * RegisterMap.t) :=
  match RegisterMap.get registers reg with
  | Some v => e_ret (v, registers)
  | None =>
    let^ offset := ins_val (fun v => iconst v I64 (reg * 8)) in
    let^ addr := ins_val (fun v => binary v iadd slots_ptr offset) in
    let^ x := ins_val (fun v => load v I64 addr) in
    e_ret (x, RegisterMap.set registers reg x)
  end.

(** [jit/compiler.rs] [flush_registers]: from index [reg] on. *)
Fixpoint flush_registers (registers : RegisterMap.t) (slots_ptr : value) (reg : Z) : E unit :=
  match registers with
  | [] => e_ret tt
  | None :: registers => flush_registers registers slots_ptr (reg + 1)
  | Some x :: registers =>
    let^ _ := store_slot slots_ptr (wrap_u 8 reg) x in
    flush_registers registers slots_ptr (reg + 1)
  end.

(** [jit/compiler.rs] [branch_to_pc] *)
Definition branch_to_pc (frame_ptr : value) (pc_to_block : gmap Z block) (target_pc : Z) : E unit :=
  match pc_to_block !! target_pc with
  | Some b => ins (jump b)
  | None => write_exit frame_ptr JIT_CONTINUE target_pc 0
  end.

(** [jit/compiler.rs] [EmitContext]: without the builder and the registers, which are
    threaded. *)
Record EmitContext := mk_context_ {
  ec_chunk : Chunk.t;
  ec_slots_ptr : value;
  ec_frame_ptr : value;
  ec_trap_block : block;
  ec_return_block : block;
  ec_pc_to_block : gmap Z block;
  ec_call_depth_ptr : value;
  ec_call_stack_ptr : value;
  ec_supports_calls : bool }.

Definition record_field (record_addr : value) (offset : Z) : E value :=
  let^ off := ins_val (fun v => iconst v I64 offset) in
  ins_val (fun v => binary v iadd record_addr off).

(** [jit/compiler.rs:892-904] [emit_call, the arguments] *)
Fixpoint copy_arguments (slots_ptr : value) (dst : Z) (i : Z) (argc : nat) : E unit :=
  match argc with
  | O => e_ret tt
  | S argc =>
    let^ src_offset := ins_val (fun v => iconst v I64 ((dst + i) * 8)) in
    let^ src_addr := ins_val (fun v => binary v iadd slots_ptr src_offset) in
    let^ x := ins_val (fun v => load v I64 src_addr) in
    let^ dst_offset := ins_val (fun v => iconst v I64 (i * 8)) in
    let^ dst_addr := ins_val (fun v => binary v iadd slots_ptr dst_offset) in
    let^ _ := ins (store x dst_addr) in
    copy_arguments slots_ptr dst (i + 1) argc
  end.

(** [jit/compiler.rs:840-890] [emit_call, the call record] *)
Definition push_record (ctx : EmitContext) (depth : value) (pc dst : Z) : E (value * value) :=
  let^ record_bytes := ins_val (fun v => iconst v I32 CALL_RECORD_SIZE) in
  let^ record_off := ins_val (fun v => binary v imul depth record_bytes) in
  let^ record_off_ptr := ins_val (fun v => uextend v I64 record_off) in
  let^ record_addr := ins_val (fun v => binary v iadd (ec_call_stack_ptr ctx) record_off_ptr) in
  let^ return_pc := ins_val (fun v => iconst v I32 (pc + 1)) in
  let^ _ := ins (store return_pc record_addr) in
  let^ func_ptr := field_ptr (ec_frame_ptr ctx) OFF_FUNCTION in
  let^ caller_fn := ins_val (fun v => load v I32 func_ptr) in
  let^ caller_fn_addr := record_field record_addr OFF_RETURN_FUNCTION in
  let^ _ := ins (store caller_fn caller_fn_addr) in
  let^ dest := ins_val (fun v => iconst v I32 dst) in
  let^ dest_addr := record_field record_addr OFF_DEST_REG in
  let^ _ := ins (store dest dest_addr) in
  let^ reg_ptr := field_ptr (ec_frame_ptr ctx) OFF_REGISTER_COUNT in
  let^ caller_regs := ins_val (fun v => load v I32 reg_ptr) in
  let^ caller_regs_addr := record_field record_addr OFF_CALLER_REGS in
  let^ _ := ins (store caller_regs caller_regs_addr) in
  let^ one := ins_val (fun v => iconst v I32 1) in
  let^ new_depth := ins_val (fun v => binary v iadd depth one) in
  let^ _ := ins (store new_depth (ec_call_depth_ptr ctx)) in
  e_ret (func_ptr, reg_ptr).

(** [jit/compiler.rs] [emit_call] *)
Definition emit_call (ctx : EmitContext) (registers : RegisterMap.t) (pc : Z)
    (instr : Instruction.t) : E RegisterMap.t :=
  let callee := wrap_u 32 (Instruction.imm instr) in
  let argc := Instruction.b instr in
  let dst := Instruction.a instr in
  match Chunk.function (ec_chunk ctx) callee with
  | None => e_fail (UnsupportedOpcode Opcode.Call pc)
  | Some def =>
    match ec_pc_to_block ctx !! (FunctionDef.entry def : Z) with
    | None =>
      let^ _ := flush_registers registers (ec_slots_ptr ctx) 0 in
      let^ _ := write_exit (ec_frame_ptr ctx) JIT_CONTINUE pc 0 in
      e_ret registers
    | Some callee_block =>
      let^ _ := flush_registers registers (ec_slots_ptr ctx) 0 in
      let^ depth := ins_val (fun v => load v I32 (ec_call_depth_ptr ctx)) in
      let^ max_depth := ins_val (fun v => iconst v I32 MAX_JIT_CALL_DEPTH) in
      let^ too_deep := ins_val (fun v => icmp v SignedGreaterThanOrEqual depth max_depth) in
      let^ effect_exit := create_block in
      let^ call_body := create_block in
      let^ _ := ins (brif too_deep effect_exit call_body) in
      let^ _ := switch_to_block effect_exit in
      let^ _ := write_exit (ec_frame_ptr ctx) JIT_EFFECT pc 0 in
      let^ _ := switch_to_block call_body in
      let^ (func_ptr, reg_ptr) := push_record ctx depth pc dst in
      let^ _ := copy_arguments (ec_slots_ptr ctx) dst 0 (Z.to_nat argc) in
      let^ callee_fn := ins_val (fun v => iconst v I32 callee) in
      let^ _ := ins (store callee_fn func_ptr) in
      let^ callee_regs := ins_val (fun v => iconst v I32 (FunctionDef.num_registers def)) in
      let^ _ := ins (store callee_regs reg_ptr) in
      let^ _ := ins (jump callee_block) in
      e_ret (RegisterMap.clear registers)
    end
  end.

(** [jit/compiler.rs] [emit_return] *)
Definition emit_return (ctx : EmitContext) (registers : RegisterMap.t) (return_reg pc : Z)
  : E RegisterMap.t :=
  let^ depth := ins_val (fun v => load v I32 (ec_call_depth_ptr ctx)) in
  let^ zero := ins_val (fun v => iconst v I32 0) in
  let^ is_outer := ins_val (fun v => icmp v Equal depth zero) in
  let^ outer := create_block in
  let^ inner := create_block in
  let^ _ := ins (brif is_outer outer inner) in
  let^ _ := switch_to_block outer in
  let^ _ := write_exit (ec_frame_ptr ctx) JIT_RETURN pc return_reg in
  let^ _ := switch_to_block inner in
  let^ one := ins_val (fun v => iconst v I32 1) in
  let^ new_depth := ins_val (fun v => binary v isub depth one) in
  let^ _ := ins (store new_depth (ec_call_depth_ptr ctx)) in
  let^ record_bytes := ins_val (fun v => iconst v I32 CALL_RECORD_SIZE) in
  let^ record_off := ins_val (fun v => binary v imul new_depth record_bytes) in
  let^ record_off_ptr := ins_val (fun v => uextend v I64 record_off) in
  let^ record_addr := ins_val (fun v => binary v iadd (ec_call_stack_ptr ctx) record_off_ptr) in
  let^ return_pc := ins_val (fun v => load v I32 record_addr) in
  let^ return_fn_addr := record_field record_addr OFF_RETURN_FUNCTION in
  let^ return_fn := ins_val (fun v => load v I32 return_fn_addr) in
  let^ dest_addr := record_field record_addr OFF_DEST_REG in
  let^ dest_reg := ins_val (fun v => load v I32 dest_addr) in
  let^ caller_regs_addr := record_field record_addr OFF_CALLER_REGS in
  let^ caller_regs := ins_val (fun v => load v I32 caller_regs_addr) in
  let^ ret_offset := ins_val (fun v => iconst v I64 (return_reg * 8)) in
  let^ ret_addr := ins_val (fun v => binary v iadd (ec_slots_ptr ctx) ret_offset) in
  let^ ret_val := ins_val (fun v => load v I64 ret_addr) in
  let^ eight := ins_val (fun v => iconst v I32 8) in
  let^ dest_offset := ins_val (fun v => binary v imul dest_reg eight) in
  let^ dest_offset_ptr := ins_val (fun v => uextend v I64 dest_offset) in
  let^ dest_slot := ins_val (fun v => binary v iadd (ec_slots_ptr ctx) dest_offset_ptr) in
  let^ _ := ins (store ret_val dest_slot) in
  let^ func_ptr := field_ptr (ec_frame_ptr ctx) OFF_FUNCTION in
  let^ _ := ins (store return_fn func_ptr) in
  let^ reg_ptr := field_ptr (ec_frame_ptr ctx) OFF_REGISTER_COUNT in
  let^ _ := ins (store caller_regs reg_ptr) in
  let^ _ := write_dynamic_exit (ec_frame_ptr ctx) JIT_CONTINUE return_pc 0 in
  e_ret (RegisterMap.clear registers).

(** ** One instruction *)

Section instruction.
Context (ctx : EmitContext).

(** [jit/compiler.rs:296-313] [emit_instruction, LoadConst] *)
Definition emit_load_const (registers : RegisterMap.t) (pc : Z) (instr : Instruction.t)
  : E RegisterMap.t :=
  match Chunk.constant (ec_chunk ctx) (wrap_u 32 (Instruction.imm instr)) with
  | Some (Value.Int i) =>
    let^ x := ins_val (fun v => iconst v I64 i) in
    e_ret (RegisterMap.set registers (Instruction.a instr) x)
  | Some (Value.Bool b) =>
    let^ x := ins_val (fun v => iconst v I64 (Z.b2z b)) in
    e_ret (RegisterMap.set registers (Instruction.a instr) x)
  | _ => e_fail (UnsupportedOpcode Opcode.LoadConst pc)
  end.

(** [jit/compiler.rs:342-372] [emit_instruction, the operation of Add .. Le] *)
Definition emit_operation (op : Opcode.t) (lhs rhs : value) : E value :=
  match op with
  | Opcode.Add => ins_val (fun v => binary v iadd lhs rhs)
  | Opcode.Sub => ins_val (fun v => binary v isub lhs rhs)
  | Opcode.Mul => ins_val (fun v => binary v imul lhs rhs)
  | Opcode.Eq =>
    let^ cmp := ins_val (fun v => icmp v Equal lhs rhs) in bool_as_i64 cmp
  | Opcode.Lt =>
    let^ cmp := ins_val (fun v => icmp v SignedLessThan lhs rhs) in bool_as_i64 cmp
  | _ =>
    let^ cmp := ins_val (fun v => icmp v SignedLessThanOrEqual lhs rhs) in bool_as_i64 cmp
  end.

(** [jit/compiler.rs:325-373] [emit_instruction, Add .. Le] *)
Definition emit_arithmetic (registers : RegisterMap.t) (instr : Instruction.t)
  : E RegisterMap.t :=
  let^ (lhs, registers) := load_reg registers (ec_slots_ptr ctx) (Instruction.b instr) in
  let^ (rhs, registers) := load_reg registers (ec_slots_ptr ctx) (Instruction.c instr) in
  let^ result := emit_operation (Instruction.op instr) lhs rhs in
  e_ret (RegisterMap.set registers (Instruction.a instr) result).

(** [jit/compiler.rs:374-408] [emit_instruction, Div and Mod] *)
Definition emit_division (registers : RegisterMap.t) (instr : Instruction.t)
  : E RegisterMap.t :=
  let^ (lhs, registers) := load_reg registers (ec_slots_ptr ctx) (Instruction.b instr) in
  let^ (rhs, registers) := load_reg registers (ec_slots_ptr ctx) (Instruction.c instr) in
  let^ _ := flush_registers registers (ec_slots_ptr ctx) 0 in
  let^ zero := ins_val (fun v => iconst v I64 0) in
  let^ is_zero := ins_val (fun v => icmp v Equal rhs zero) in
  let^ ok := create_block in
  let^ _ := ins (brif is_zero (ec_trap_block ctx) ok) in
  let^ _ := switch_to_block ok in
  let^ result := ins_val (fun v =>
    match Instruction.op instr with
    | Opcode.Div => binary v sdiv lhs rhs
    | _ => binary v srem lhs rhs
    end) in
  e_ret (RegisterMap.set registers (Instruction.a instr) result).

(** [jit/compiler.rs:432-493] [emit_instruction, Branch] *)
Definition emit_branch (registers : RegisterMap.t) (pc : Z) (instr : Instruction.t)
  : E RegisterMap.t :=
  let^ (cond, registers) := load_reg registers (ec_slots_ptr ctx) (Instruction.a instr) in
  let^ _ := flush_registers registers (ec_slots_ptr ctx) 0 in
  let^ zero := ins_val (fun v => iconst v I64 0) in
  let^ is_falsy := ins_val (fun v => icmp v Equal cond zero) in
  let fall_pc := pc + 1 in
  let falsy_pc := branch_target pc (Instruction.imm instr) in
  let^ _ :=
    match ec_pc_to_block ctx !! fall_pc, ec_pc_to_block ctx !! falsy_pc with
    | Some fall, Some falsy => ins (brif is_falsy falsy fall)
    | Some fall, None =>
      let^ side := create_block in
      let^ _ := ins (brif is_falsy side fall) in
      let^ _ := switch_to_block side in
      write_exit (ec_frame_ptr ctx) JIT_CONTINUE falsy_pc 0
    | None, Some falsy =>
      let^ side := create_block in
      let^ _ := ins (brif is_falsy falsy side) in
      let^ _ := switch_to_block side in
      write_exit (ec_frame_ptr ctx) JIT_CONTINUE fall_pc 0
    | None, None => write_exit (ec_frame_ptr ctx) JIT_CONTINUE falsy_pc 0
    end in
  e_ret registers.

(** [jit/compiler.rs:494-520] [emit_instruction, Return] *)
Definition emit_return_ (registers : RegisterMap.t) (pc : Z) (instr : Instruction.t)
  : E RegisterMap.t :=
  let^ (x, registers) := load_reg registers (ec_slots_ptr ctx) (Instruction.a instr) in
  let^ _ := store_slot (ec_slots_ptr ctx) (Instruction.a instr) x in
  if ec_supports_calls ctx then emit_return ctx registers (Instruction.a instr) pc
  else
    let^ _ := write_u32_field (ec_frame_ptr ctx) OFF_PC pc in
    let^ _ := ins (jump (ec_return_block ctx)) in
    e_ret registers.

(** [jit/compiler.rs] [emit_instruction] *)
Definition emit_instruction (registers : RegisterMap.t) (pc : Z) (instr : Instruction.t)
  : E RegisterMap.t :=
  match Instruction.op instr with
  | Opcode.LoadImm =>
    let^ x := ins_val (fun v => iconst v I64 (Instruction.imm instr)) in
    e_ret (RegisterMap.set registers (Instruction.a instr) x)
  | Opcode.LoadConst => emit_load_const registers pc instr
  | Opcode.Move =>
    let^ (x, registers) := load_reg registers (ec_slots_ptr ctx) (Instruction.b instr) in
    e_ret (RegisterMap.set registers (Instruction.a instr) x)
  | Opcode.Add | Opcode.Sub | Opcode.Mul | Opcode.Eq | Opcode.Lt | Opcode.Le =>
    emit_arithmetic registers instr
  | Opcode.Div | Opcode.Mod => emit_division registers instr
  | Opcode.Neg =>
    let^ (x, registers) := load_reg registers (ec_slots_ptr ctx) (Instruction.b instr) in
    let^ zero := ins_val (fun v => iconst v I64 0) in
    let^ result := ins_val (fun v => binary v isub zero x) in
    e_ret (RegisterMap.set registers (Instruction.a instr) result)
  | Opcode.Jump =>
    let^ _ := flush_registers registers (ec_slots_ptr ctx) 0 in
    let^ _ := branch_to_pc (ec_frame_ptr ctx) (ec_pc_to_block ctx)
                (jump_target pc (Instruction.imm instr)) in
    e_ret registers
  | Opcode.Branch => emit_branch registers pc instr
  | Opcode.Return => emit_return_ registers pc instr
  | Opcode.Nop => e_ret registers
  | Opcode.Call => emit_call ctx registers pc instr
  | other => e_fail (UnsupportedOpcode other pc)
  end.

End instruction.

(** ** A trace *)

(** The instructions of a block; [None] is the index panic of [chunk.code[pc]]. *)
Definition block_code (chunk : Chunk.t) (b : TraceBlock) : option (list (Z * Instruction.t)) :=
  mapM (fun pc => (fun i => (pc, i)) <$> instr_at chunk pc) (pcs b).

Section trace.
Context (ctx : EmitContext) (budget_ptr : value).

(** [jit/compiler.rs:146-170] [compile_trace, the instructions of a block] *)
Fixpoint emit_block (registers : RegisterMap.t) (code : list (Z * Instruction.t)) {struct code}
  : E unit :=
  match code with
  | [] => e_ret tt
  | (pc, instr) :: code =>
    let^ _ := emit_budget_tick budget_ptr (ec_frame_ptr ctx) pc in
    let^ registers := emit_instruction ctx registers pc instr in
    emit_block registers code
  end.

(** [jit/compiler.rs:141-171] [compile_trace, the blocks]: each with its Cranelift block. *)
Fixpoint emit_blocks (num_registers : Z) (region : list (block * list (Z * Instruction.t)))
    {struct region} : E unit :=
  match region with
  | [] => e_ret tt
  | (clif_block, code) :: region =>
    let^ _ := switch_to_block clif_block in
    let^ _ := emit_block (RegisterMap.new num_registers) code in
    emit_blocks num_registers region
  end.

End trace.

(** [jit/compiler.rs:128-131] [compile_trace, pc_to_block] *)
Fixpoint create_blocks (region : TraceRegion) (pc_to_block : gmap Z block) : E (gmap Z block) :=
  match region with
  | [] => e_ret pc_to_block
  | b :: region =>
    let^ k := create_block in
    create_blocks region (<[start_pc b := k]> pc_to_block)
  end.

(** [jit/compiler.rs:118-123] [compile_trace, supports_calls] *)
Definition has_call (codes : list (list (Z * Instruction.t))) : bool :=
  existsb (existsb (fun p => bool_decide (Instruction.op (snd p) = Opcode.Call))) codes.

(** [jit/compiler.rs:100-200] [compile_trace, the function]: [codes] are the blocks'
    instructions. *)
Definition emit_trace (chunk : Chunk.t) (key : TraceKey.t) (def : FunctionDef.t)
    (region : TraceRegion) (codes : list (list (Z * Instruction.t))) : E unit :=
  let frame_ptr := 0%nat in
  let^ slots_ptr := ins_val (fun v => load v I64 frame_ptr) in
  let^ budget_ptr := field_ptr frame_ptr OFF_BUDGET in
  let^ call_depth_ptr := field_ptr frame_ptr OFF_CALL_DEPTH in
  let^ addr := field_ptr frame_ptr OFF_CALL_STACK in
  let^ call_stack_ptr := ins_val (fun v => load v I64 addr) in
  let^ trap_block := create_block in
  let^ return_block := create_block in
  let^ pc_to_block := create_blocks region ∅ in
  match pc_to_block !! (TraceKey.entry_pc key : Z) with
  | None => e_fail (EmptyTrace (TraceKey.function key) (TraceKey.entry_pc key))
  | Some entry_clif =>
    let^ _ := ins (jump entry_clif) in
    let ctx := mk_context_ chunk slots_ptr frame_ptr trap_block return_block pc_to_block
                 call_depth_ptr call_stack_ptr (has_call codes) in
    let^ _ := emit_blocks ctx budget_ptr (FunctionDef.num_registers def)
                (zip (map (fun b => pc_to_block !!! (start_pc b : Z)) region) codes) in
    let^ _ := switch_to_block trap_block in
    match region_max_pc region key with
    | Err e => e_fail e
    | Ok trap_pc =>
      let^ _ := write_exit frame_ptr JIT_TRAP trap_pc 0 in
      let^ _ := switch_to_block return_block in
      let '(last_pc, return_reg) :=
        match last_return_in_region chunk region with
        | Some last => last
        | None => (TraceKey.entry_pc key, 0)
        end in
      write_exit frame_ptr JIT_RETURN last_pc return_reg
    end
  end.

(** [jit/compiler.rs:63-79] [TraceCompiler::compile_trace, the region and its span]
    What [compile_trace] hands to Cranelift, with the span of the trace; [None] is a
    panic. *)
Definition lower_trace (checks : bool) (chunk : Chunk.t) (key : TraceKey.t)
  : option (result (TraceSpan * list (list inst)) CompileError) :=
  let empty := EmptyTrace (TraceKey.function key) (TraceKey.entry_pc key) in
  match Chunk.function chunk (TraceKey.function key) with
  | None => Some (Err empty)
  | Some def =>
    match collect_trace_region checks chunk key with
    | Region [] => Some (Err empty)
    | Region region =>
      match region_max_pc region key, mapM (block_code chunk) region with
      | Err e, _ => Some (Err e)
      | _, None => None
      | Ok end_pc, Some codes =>
        let span := mk_span (TraceKey.function key)
                      (TraceKey.entry_pc key, Z.min (end_pc + 1) u32_max) in
        Some (let? r := emit_trace chunk key def region codes new_function in
              Ok (span, blocks (snd r)))
      end
    | PcOverflow | OutOfFuel => None
    end
  end.

(** [jit/compiler.rs] [TraceCompiler::compile_trace]
    The code declares the function before it emits the body and defines it afterwards;
    [define_function] is both, so a module whose trace is refused is here unchanged. *)
Definition compile_trace {M C} `{Cranelift TraceKey.t M C} (checks : bool) (module : M)
    (chunk : Chunk.t) (key : TraceKey.t)
  : option (result (CompiledTrace C) CompileError * M) :=
  (fun lowered =>
     match lowered with
     | Err e => (Err e, module)
     | Ok (span, F) =>
       let (r, module) := define_function module key F in
       (match r with
        | Ok code => Ok (mk_trace span code)
        | Err e => Err (ModuleError e)
        end, module)
     end) <$> lower_trace checks chunk key.
