(* ===== verification/Quota.v ===== *)
(** Per-flow resource budgets: CPU, heap bytes and the spawn/send token buckets,
    and the directory of live quotas.  Models scheduler/quota.rs.

    Instants are nanoseconds on the monotonic clock; a function that reads the
    clock takes the instants it reads.  Each atomic operation is one step: a
    compare-exchange loop that succeeds is the update it publishes. *)

From S2P Require Import Prelude F64 Sync.

Module QuotaConfig.

(** [scheduler/quota.rs] [QuotaConfig] *)
Record t := mk {
  cpu_budget : Z;
  mem_limit : Z;
  spawn_burst : Z;
  spawn_per_sec : Z;
  send_burst : Z;
  send_per_sec : Z }.

(** [scheduler/quota.rs] [QuotaConfig::permissive] *)
Definition permissive : t :=
  mk 1000000000 (64 * 1024 * 1024) 10000 10000 50000 50000.

(** [scheduler/quota.rs] [QuotaConfig::sandbox] *)
Definition sandbox : t := mk 50000 (16 * 1024 * 1024) 32 32 256 64.

(** [scheduler/quota.rs] [QuotaConfig::default] *)
Definition default : t := permissive.

End QuotaConfig.

(** [scheduler/quota.rs] [QuotaError] *)
Inductive QuotaError :=
| CpuExhausted
| MemoryExhausted (requested limit : Z)
| SpawnRateExceeded
| SendRateExceeded.
#[export] Instance quota_error_eq_dec : EqDecision QuotaError.
Proof. solve_decision. Defined.

(** [scheduler/quota.rs] [QuotaError::fmt] *)
Definition quota_error_display (e : QuotaError) : string :=
  match e with
  | CpuExhausted => "flow CPU budget exhausted"
  | MemoryExhausted requested limit =>
    "flow memory exhausted (requested " +:+ pretty requested +:+ ", limit " +:+
      pretty limit +:+ ")"
  | SpawnRateExceeded => "spawn rate exceeded"
  | SendRateExceeded => "send rate exceeded"
  end%string.

Module TokenBucket.

(** [scheduler/quota.rs] [TokenBucket] *)
Record t := mk {
  capacity : Z;
  tokens : Z;
  refill_per_sec : Z;
  last_refill : mutex Z }.

(** [scheduler/quota.rs] [TokenBucket::new] *)
Definition new (capacity refill_per_sec now : Z) : t :=
  mk capacity capacity refill_per_sec (mutex_new now).

(** [Duration::as_secs_f64]. *)
Definition as_secs_f64 (ns : Z) : F64.t :=
  F64.add (F64.of_i64 (ns / 1000000000))
          (F64.div (F64.of_i64 (ns mod 1000000000)) (F64.of_i64 1000000000)).

(** Tokens earned in [elapsed] nanoseconds. *)
Definition earned (refill_per_sec elapsed : Z) : Z :=
  F64.to_i64 (F64.mul (as_secs_f64 elapsed) (F64.of_i64 refill_per_sec)).

Section ops.
Context (overflow_checks : bool).

(** [scheduler/quota.rs] [TokenBucket::refill]: [now] is the instant [elapsed]
    reads, [now'] the one stored. [None] is the overflow panic of [cur + add],
    raised with the guard held. *)
Definition refill (b : t) (now now' : Z) : option (result unit RuntimeError) * t :=
  match lock (last_refill b) "TokenBucket::refill" with
  | Err e => (Some (Err e), b)
  | Ok last =>
    let elapsed := Z.max 0 (now - last) in
    if 50 * 1000000 <=? elapsed then
      let add := earned (refill_per_sec b) elapsed in
      if 0 <? add then
        match checked_i overflow_checks 64 (tokens b + add) with
        | None => (None, mk (capacity b) (tokens b) (refill_per_sec b) (poison last))
        | Some sum =>
          (Some (Ok tt),
           mk (capacity b) (Z.min sum (capacity b)) (refill_per_sec b) (unlock now'))
        end
      else (Some (Ok tt), b)
    else (Some (Ok tt), b)
  end.

(** [scheduler/quota.rs] [TokenBucket::try_consume] *)
Definition try_consume (b : t) (now now' : Z) : option bool * t :=
  match refill b now now' with
  | (None, b') => (None, b')
  | (Some (Err _), b') => (Some false, b')
  | (Some (Ok _), b') =>
    if tokens b' <=? 0 then (Some false, b')
    else (Some true, mk (capacity b') (tokens b' - 1) (refill_per_sec b') (last_refill b'))
  end.
End ops.

(** [scheduler/quota.rs] [TokenBucket::credit] *)
Definition credit (b : t) (extra : Z) : t :=
  if extra <=? 0 then b
  else mk (capacity b) (wrap_i 64 (tokens b + extra)) (refill_per_sec b) (last_refill b).

End TokenBucket.

Module FlowQuota.

(** [scheduler/quota.rs] [FlowQuota] *)
Record t := mk {
  cpu_budget : Z;
  mem_limit : Z;
  mem_used : Z;
  spawn_bucket : TokenBucket.t;
  send_bucket : TokenBucket.t }.

(** [scheduler/quota.rs] [FlowQuota::new] *)
Definition new (cpu_budget mem_limit spawn_burst spawn_per_sec send_burst send_per_sec now : Z)
  : t :=
  mk cpu_budget mem_limit 0 (TokenBucket.new spawn_burst spawn_per_sec now)
     (TokenBucket.new send_burst send_per_sec now).

(** [scheduler/quota.rs] [FlowQuota::from_config] *)
Definition from_config (cfg : QuotaConfig.t) (now : Z) : t :=
  new (QuotaConfig.cpu_budget cfg) (QuotaConfig.mem_limit cfg)
      (QuotaConfig.spawn_burst cfg) (QuotaConfig.spawn_per_sec cfg)
      (QuotaConfig.send_burst cfg) (QuotaConfig.send_per_sec cfg) now.

Definition with_cpu (q : t) (c : Z) : t :=
  mk c (mem_limit q) (mem_used q) (spawn_bucket q) (send_bucket q).
Definition with_mem_limit (q : t) (m : Z) : t :=
  mk (cpu_budget q) m (mem_used q) (spawn_bucket q) (send_bucket q).
Definition with_mem_used (q : t) (m : Z) : t :=
  mk (cpu_budget q) (mem_limit q) m (spawn_bucket q) (send_bucket q).
Definition with_spawn (q : t) (b : TokenBucket.t) : t :=
  mk (cpu_budget q) (mem_limit q) (mem_used q) b (send_bucket q).
Definition with_send (q : t) (b : TokenBucket.t) : t :=
  mk (cpu_budget q) (mem_limit q) (mem_used q) (spawn_bucket q) b.

(** [scheduler/quota.rs] [FlowQuota::remaining_cpu] *)
Definition remaining_cpu (q : t) : Z := Z.max (cpu_budget q) 0.

(** [scheduler/quota.rs] [FlowQuota::charge_cpu]: [fetch_sub] and [fetch_add]
    wrap; the plain [- cost] on what [fetch_sub] returned does not. *)
Definition charge_cpu (overflow_checks : bool) (q : t) (cost : Z)
  : option (result unit QuotaError) * t :=
  let old := cpu_budget q in
  let q1 := with_cpu q (wrap_i 64 (old - cost)) in
  match checked_i overflow_checks 64 (old - cost) with
  | None => (None, q1)
  | Some remaining =>
    if remaining <? 0 then
      (Some (Err CpuExhausted), with_cpu q1 (wrap_i 64 (cpu_budget q1 + cost)))
    else (Some (Ok tt), q1)
  end.

(** [scheduler/quota.rs] [FlowQuota::alloc] *)
Definition alloc (q : t) (bytes : Z) : result unit QuotaError * t :=
  let next := sat_add_u64 (mem_used q) bytes in
  if mem_limit q <? next then (Err (MemoryExhausted bytes (mem_limit q)), q)
  else (Ok tt, with_mem_used q next).

(** [scheduler/quota.rs] [FlowQuota::free] *)
Definition free (q : t) (bytes : Z) : t :=
  with_mem_used q (sat_sub_u64 (mem_used q) bytes).

(** [scheduler/quota.rs] [FlowQuota::check_spawn] *)
Definition check_spawn (oc : bool) (q : t) (now now' : Z)
  : option (result unit QuotaError) * t :=
  let (r, b) := TokenBucket.try_consume oc (spawn_bucket q) now now' in
  ((fun ok : bool => if ok then Ok tt else Err SpawnRateExceeded) <$> r, with_spawn q b).

(** [scheduler/quota.rs] [FlowQuota::check_send] *)
Definition check_send (oc : bool) (q : t) (now now' : Z)
  : option (result unit QuotaError) * t :=
  let (r, b) := TokenBucket.try_consume oc (send_bucket q) now now' in
  ((fun ok : bool => if ok then Ok tt else Err SendRateExceeded) <$> r, with_send q b).

(** [scheduler/quota.rs] [FlowQuota::top_up_cpu] *)
Definition top_up_cpu (q : t) (extra : Z) : t :=
  with_cpu q (wrap_i 64 (cpu_budget q + extra)).

(** [scheduler/quota.rs] [FlowQuota::top_up_mem] *)
Definition top_up_mem (q : t) (extra : Z) : t :=
  with_mem_limit q (wrap_u 64 (mem_limit q + extra)).

(** [scheduler/quota.rs] [FlowQuota::top_up_send] *)
Definition top_up_send (q : t) (extra : Z) : t :=
  with_send q (TokenBucket.credit (send_bucket q) extra).

#[global] Instance inhabited : Inhabited t :=
  populate (from_config QuotaConfig.default 0).

End FlowQuota.

Module QuotaTable.

(** [scheduler/quota.rs] [QuotaTable]: flow ids to shared quotas. *)
Definition t (Q : Type) : Type := mutex (gmap Z Q).

(** [scheduler/quota.rs] [QuotaTable::new] *)
Definition new {Q} : t Q := mutex_new ∅.

(** [scheduler/quota.rs] [QuotaTable::insert] *)
Definition insert {Q} (tbl : t Q) (id : Z) (q : Q) : result unit RuntimeError * t Q :=
  with_lock tbl "QuotaTable::insert" (fun m => (tt, <[id := q]> m)).

(** [scheduler/quota.rs] [QuotaTable::get] *)
Definition get {Q} (tbl : t Q) (id : Z) : result (option Q) RuntimeError * t Q :=
  with_lock tbl "QuotaTable::get" (fun m => (m !! id, m)).

(** [scheduler/quota.rs] [QuotaTable::remove] *)
Definition remove {Q} (tbl : t Q) (id : Z) : result unit RuntimeError * t Q :=
  with_lock tbl "QuotaTable::remove" (fun m => (tt, delete id m)).

End QuotaTable.

(** ** Memory and CPU ledgers *)

Inductive mem_op := Alloc (bytes : Z) | Free (bytes : Z).

Definition mem_step (q : FlowQuota.t) (o : mem_op) : FlowQuota.t :=
  match o with
  | Alloc n => snd (FlowQuota.alloc q n)
  | Free n => FlowQuota.free q n
  end.

Definition mem_op_ok (o : mem_op) : Prop :=
  match o with Alloc n | Free n => in_u 64 n end.

(** The charge is within a limit below [usize::MAX] (at [usize::MAX] the
    saturating sum always fits: that limit means no limit). *)
Definition mem_wf (q : FlowQuota.t) : Prop :=
  0 <= FlowQuota.mem_used q <= FlowQuota.mem_limit q /\ FlowQuota.mem_limit q < u64_max.

Lemma alloc_spec q n :
  mem_wf q -> in_u 64 n ->
  FlowQuota.alloc q n =
  if decide (FlowQuota.mem_used q + n <= FlowQuota.mem_limit q) then
    (Ok tt, FlowQuota.with_mem_used q (FlowQuota.mem_used q + n))
  else (Err (MemoryExhausted n (FlowQuota.mem_limit q)), q).
Proof.
  intros [Hu Hl] Hn. unfold FlowQuota.alloc, sat_add_u64. unfold in_u, u64_max in *.
  destruct (Z.ltb_spec (FlowQuota.mem_limit q) (Z.min (FlowQuota.mem_used q + n) (2 ^ 64 - 1)));
    destruct (decide _); try lia; [done|].
  rewrite Z.min_l by lia. done.
Qed.

(** An allocation of any size keeps the charge within the limit. *)
Lemma alloc_wf q n : 0 <= n -> mem_wf q -> mem_wf (snd (FlowQuota.alloc q n)).
Proof.
  intros Hn [Hu Hl]. unfold FlowQuota.alloc, sat_add_u64. unfold u64_max in *.
  destruct (Z.ltb_spec (FlowQuota.mem_limit q) (Z.min (FlowQuota.mem_used q + n) (2 ^ 64 - 1)));
    simpl; [done|].
  unfold mem_wf, u64_max. simpl. lia.
Qed.

Lemma mem_step_wf q o :
  mem_wf q -> mem_op_ok o ->
  mem_wf (mem_step q o) /\ FlowQuota.mem_limit (mem_step q o) = FlowQuota.mem_limit q.
Proof.
  intros Hq Ho. destruct o as [n|n]; simpl.
  - simpl in Ho. rewrite alloc_spec by done. destruct (decide _); simpl; [|done].
    unfold mem_wf, in_u in *. simpl. lia.
  - simpl in Ho. unfold mem_wf, FlowQuota.free, sat_sub_u64, in_u in *. simpl. lia.
Qed.

Definition charge_step (oc : bool) (st : Z * FlowQuota.t) (cost : Z) : Z * FlowQuota.t :=
  match FlowQuota.charge_cpu oc (snd st) cost with
  | (Some (Ok _), q') => (fst st + cost, q')
  | (_, q') => (fst st, q')
  end.

(** A charge within range is all or nothing and never panics. *)
Lemma charge_cpu_spec oc q cost :
  0 <= FlowQuota.cpu_budget q <= i64_max -> 0 <= cost <= i64_max ->
  FlowQuota.charge_cpu oc q cost =
  if decide (cost <= FlowQuota.cpu_budget q) then
    (Some (Ok tt), FlowQuota.with_cpu q (FlowQuota.cpu_budget q - cost))
  else (Some (Err CpuExhausted), q).
Proof.
  unfold i64_max. intros Hq Hc. unfold FlowQuota.charge_cpu.
  assert (in_i 64 (FlowQuota.cpu_budget q - cost)) as Hin
    by (unfold in_i; change (2 ^ (64 - 1)) with (2 ^ 63); lia).
  rewrite checked_i_id, wrap_i_id by done.
  destruct (decide _) as [Hle|Hgt]; destruct (Z.ltb_spec (FlowQuota.cpu_budget q - cost) 0);
    try lia; [done|]. simpl.
  replace (FlowQuota.cpu_budget q - cost + cost) with (FlowQuota.cpu_budget q) by lia.
  rewrite wrap_i_id; [by destruct q|done|].
  unfold in_i. change (2 ^ (64 - 1)) with (2 ^ 63). lia.
Qed.

Lemma charge_all_spec oc costs acc q :
  Forall (fun c => 0 <= c <= i64_max) costs -> 0 <= FlowQuota.cpu_budget q <= i64_max ->
  let r := fold_left (charge_step oc) costs (acc, q) in
  fst r + FlowQuota.cpu_budget (snd r) = acc + FlowQuota.cpu_budget q /\
  0 <= FlowQuota.cpu_budget (snd r).
Proof.
  intros Hcosts. revert acc q.
  induction Hcosts as [|c costs Hc _ IH]; intros acc q Hq; simpl; [lia|].
  replace (charge_step oc (acc, q) c) with
    (if decide (c <= FlowQuota.cpu_budget q)
     then (acc + c, FlowQuota.with_cpu q (FlowQuota.cpu_budget q - c)) else (acc, q)).
  2: { unfold charge_step. simpl. rewrite charge_cpu_spec by done. by destruct (decide _). }
  destruct (decide _); [|by apply IH].
  destruct (IH (acc + c) (FlowQuota.with_cpu q (FlowQuota.cpu_budget q - c))) as [H1 H2];
    simpl in *; lia.
Qed.

Lemma mem_steps_wf ops q :
  Forall mem_op_ok ops -> mem_wf q ->
  mem_wf (fold_left mem_step ops q) /\
  FlowQuota.mem_limit (fold_left mem_step ops q) = FlowQuota.mem_limit q.
Proof.
  intros Hops. revert q. induction Hops as [|o ops Ho _ IH]; intros q Hq; [done|].
  simpl. destruct (mem_step_wf q o Hq Ho) as [Hwf Hl].
  destruct (IH _ Hwf) as [? ?]. split; [done|congruence].
Qed.

(** C40: budgets fail closed.  From any state within its limit, through any
    sequence of allocations and releases the heap charge stays within the limit;
    an allocation succeeds exactly when it fits and otherwise changes nothing;
    and through any sequence of CPU charges the cost of the accepted ones plus
    what is left is exactly what there was, never negative. *)
Theorem quota_fail_closed oc q ops costs :
  mem_wf q -> Forall mem_op_ok ops ->
  0 <= FlowQuota.cpu_budget q <= i64_max -> Forall (fun c => 0 <= c <= i64_max) costs ->
  let q' := fold_left mem_step ops q in
  let charged := fold_left (charge_step oc) costs (0, q) in
  (0 <= FlowQuota.mem_used q' <= FlowQuota.mem_limit q) /\
  (forall n, in_u 64 n ->
     FlowQuota.alloc q' n =
     if decide (FlowQuota.mem_used q' + n <= FlowQuota.mem_limit q) then
       (Ok tt, FlowQuota.with_mem_used q' (FlowQuota.mem_used q' + n))
     else (Err (MemoryExhausted n (FlowQuota.mem_limit q)), q')) /\
  fst charged + FlowQuota.cpu_budget (snd charged) = FlowQuota.cpu_budget q /\
  0 <= FlowQuota.cpu_budget (snd charged).
Proof.
  intros Hq Hops Hcpu Hcosts. simpl.
  destruct (mem_steps_wf ops q Hops Hq) as [Hwf Hl].
  destruct (charge_all_spec oc costs 0 q Hcosts Hcpu) as [Hsum Hnn]. split_and!.
  - apply Hwf.
  - destruct Hwf as [? ?]. lia.
  - intros n Hn. rewrite alloc_spec by done. by rewrite Hl.
  - exact Hsum.
  - exact Hnn.
Qed.

Lemma quota_fail_closed_witness :
  let q := FlowQuota.new 10 100 1 1 1 1 0 in
  let q' := fold_left mem_step [Alloc 60; Alloc 60; Free 60; Alloc 60] q in
  FlowQuota.mem_used q' = 60 /\
  fst (FlowQuota.alloc q' 50) = Err (MemoryExhausted 50 100) /\
  fst (fold_left (charge_step true) [7; 4; 3] (0, q)) = 10.
Proof.
  destruct (quota_fail_closed true (FlowQuota.new 10 100 1 1 1 1 0)
    [Alloc 60; Alloc 60; Free 60; Alloc 60] [7; 4; 3]) as (_ & Halloc & _ & _).
  - by vm_compute.
  - by repeat constructor.
  - by vm_compute.
  - by repeat constructor.
  - split_and!; [by vm_compute| |by vm_compute]. by rewrite Halloc.
Defined.

(** ** Rate limiting *)

Definition bucket_run (oc : bool) (st : Z * TokenBucket.t) (t : Z * Z) : Z * TokenBucket.t :=
  match TokenBucket.try_consume oc (snd st) (fst t) (snd t) with
  | (Some true, b') => (fst st + 1, b')
  | (_, b') => (fst st, b')
  end.

(** A monotone clock: each reading is at or after the previous one. *)
Fixpoint clock_ok (from upto : Z) (ts : list (Z * Z)) : Prop :=
  match ts with
  | [] => from <= upto
  | (now, now') :: ts' => from <= now /\ now <= now' /\ clock_ok now' upto ts'
  end.

Definition interval : Z := 50 * 1000000.

(** What a bucket has admitted ([n]) and may still admit, against the number of
    refills that fit since [t0]. *)
Definition bucket_inv (t0 now n : Z) (b : TokenBucket.t) : Prop :=
  exists refills, 0 <= refills /\
    n + Z.max 0 (TokenBucket.tokens b) <= TokenBucket.capacity b * (1 + refills) /\
    t0 + refills * interval <= guarded (TokenBucket.last_refill b) <= now /\
    0 <= TokenBucket.capacity b /\ TokenBucket.tokens b <= TokenBucket.capacity b.

Lemma refill_inv oc t0 prev n b now now' :
  bucket_inv t0 prev n b -> prev <= now <= now' ->
  bucket_inv t0 now' n (snd (TokenBucket.refill oc b now now')) /\
  TokenBucket.capacity (snd (TokenBucket.refill oc b now now')) = TokenBucket.capacity b.
Proof.
  intros (k & Hk & Hn & Ht & Hc & Htok) Hnow. unfold TokenBucket.refill, lock.
  assert (Hsame : bucket_inv t0 now' n b) by (exists k; split_and!; (done || lia)).
  destruct (poisoned (TokenBucket.last_refill b)); [done|].
  destruct (Z.leb_spec (50 * 1000000) (Z.max 0 (now - guarded (TokenBucket.last_refill b))))
    as [Hel|]; [|done].
  destruct (Z.ltb_spec 0 (TokenBucket.earned (TokenBucket.refill_per_sec b)
    (Z.max 0 (now - guarded (TokenBucket.last_refill b))))); [|done].
  destruct (checked_i _ _ _) as [sum|].
  - split; [|done]. exists (k + 1). simpl. unfold interval in *. split_and!; nia.
  - split; [|done]. exists k. simpl. split_and!; (done || lia).
Qed.

Lemma bucket_step_inv oc t0 prev n b now now' :
  bucket_inv t0 prev n b -> prev <= now <= now' ->
  let st := bucket_run oc (n, b) (now, now') in
  bucket_inv t0 now' (fst st) (snd st) /\
  TokenBucket.capacity (snd st) = TokenBucket.capacity b.
Proof.
  intros Hb Hnow. unfold bucket_run, TokenBucket.try_consume. simpl.
  destruct (refill_inv oc t0 prev n b now now' Hb Hnow) as [Hi Hc].
  destruct (TokenBucket.refill oc b now now') as [[[[]|]|] b'] eqn:E; simpl in *;
    rewrite ?E; simpl; try done.
  destruct (Z.leb_spec (TokenBucket.tokens b') 0); simpl; [done|].
  split; [|done]. destruct Hi as (k & Hk & Hn & Ht & Hcap & Htok).
  exists k. simpl. split_and!; (done || lia).
Qed.

(** The token bucket limits the rate.  A fresh bucket asked any number of
    times, at any instants of a monotone clock up to [t_end], admits at most its
    capacity once plus once more per 50 ms refill interval that has passed, in
    builds with and without overflow checks. *)
Lemma bucket_rate_limit oc cap rate t0 t_end ts :
  0 <= cap -> clock_ok t0 t_end ts ->
  fst (fold_left (bucket_run oc) ts (0, TokenBucket.new cap rate t0)) <=
  cap * (1 + (t_end - t0) / interval).
Proof.
  intros Hcap Hts.
  assert (Hgen : forall ts prev n b, bucket_inv t0 prev n b -> clock_ok prev t_end ts ->
    let st := fold_left (bucket_run oc) ts (n, b) in
    bucket_inv t0 t_end (fst st) (snd st) /\
    TokenBucket.capacity (snd st) = TokenBucket.capacity b).
  { clear ts Hts. intros ts. induction ts as [|[now now'] ts IH]; intros prev n b Hb Hclk; simpl.
    - split; [|done]. destruct Hb as (k & ?). exists k. simpl in Hclk. split_conj.
      split_and!; (done || lia).
    - destruct Hclk as (Hp & Hnn & Hclk).
      pose proof (bucket_step_inv oc t0 prev n b now now' Hb ltac:(lia)) as [Hi Hc].
      destruct (bucket_run oc (n, b) (now, now')) as [n' b'] eqn:E. simpl in Hi, Hc.
      destruct (IH now' n' b' Hi Hclk) as [? ?]. split; [done|congruence]. }
  destruct (Hgen ts t0 0 (TokenBucket.new cap rate t0)) as [(k & Hk & Hn & Ht & _) Hc];
    [exists 0; simpl; split_and!; lia|done|].
  rewrite Hc in Hn. simpl in Hn.
  assert (k <= (t_end - t0) / interval)
    by (apply Z.div_le_lower_bound; unfold interval in *; lia).
  nia.
Qed.

Lemma bucket_rate_limit_witness :
  let ts := [(0, 0); (1, 1); (2, 2); (60000000, 60000001); (60000002, 60000002)] in
  fst (fold_left (bucket_run true) ts (0, TokenBucket.new 2 1000 0)) = 4 /\
  fst (fold_left (bucket_run true) ts (0, TokenBucket.new 2 1000 0)) <=
    2 * (1 + (70000000 - 0) / interval).
Proof.
  split; [by vm_compute|].
  apply (bucket_rate_limit true 2 1000 0 70000000); [lia|simpl; lia].
Defined.
