(* ===== verification/Native.v ===== *)
(** Faults, the world a VM slice runs in, the native (FFI) function table with
    its builder, the argument helpers, the per-flow gate, and the standard
    natives.  Models vm/fault.rs, vm/native.rs and natives.rs. *)

From S2P Require Import Prelude Capability F64 Values Sync Quota.

(** ** Faults *)

Module Fault.

(** [vm/fault.rs] [Fault] *)
Inductive t :=
| DivideByZero
| RegisterOutOfRange (reg frame_size : Z)
| RegisterIndexOverflow (base offset : Z)
| BadConstant (index pool_size : Z)
| BadFunction (index table_size : Z)
| BadOpcodeByte (byte : Z)
| CallStackOverflow (depth : Z)
| TypeMismatch (expected got : string)
| BadNative (index table_size : Z)
| NativeError (msg : string)
| NativeDenied (msg : string)
| Explicit (code : Z)
| Invariant (msg : string)
| QuotaExceeded (msg : string).

#[global] Instance eq_dec : EqDecision t.
Proof. solve_decision. Defined.

(** [vm/fault.rs] [Fault::fmt] *)
Definition display (f : t) : string :=
  match f with
  | DivideByZero => "division by zero"
  | RegisterOutOfRange reg frame_size =>
    "register r" +:+ pretty reg +:+ " out of range (frame has " +:+ pretty frame_size
      +:+ " registers)"
  | BadConstant index pool_size =>
    "constant index " +:+ pretty index +:+ " out of range (pool size " +:+
      pretty pool_size +:+ ")"
  | BadFunction index table_size =>
    "function index " +:+ pretty index +:+ " out of range (table size " +:+
      pretty table_size +:+ ")"
  | RegisterIndexOverflow base offset =>
    "register index r" +:+ pretty base +:+ "+" +:+ pretty offset +:+
      " overflows the register index space (max r255)"
  | BadOpcodeByte b => "unknown opcode byte 0x" +:+ hex_byte b
  | CallStackOverflow depth => "call stack overflow at depth " +:+ pretty depth
  | TypeMismatch expected got =>
    "type mismatch: expected " +:+ expected +:+ ", got " +:+ got
  | BadNative index table_size =>
    "native function index " +:+ pretty index +:+ " out of range (table size " +:+
      pretty table_size +:+ ")"
  | NativeError msg => "native function error: " +:+ msg
  | NativeDenied msg => msg
  | Explicit code => "explicit trap (code " +:+ pretty code +:+ ")"
  | Invariant msg => "vm invariant broken: " +:+ msg
  | QuotaExceeded msg => msg
  end%string.

End Fault.

(** ** The world of a VM slice

    What a running VM shares with the rest of the runtime through [Arc]s: the
    revocation counters, the quotas, the heap of buffers (only its next fresh
    allocation matters) and the host state natives act on. *)
Record world (H : Type) := mk_world {
  cells : RevocationCell.store;
  quotas : gmap N FlowQuota.t;
  next_arc : ptr;
  host : H }.
Arguments mk_world {H} _ _ _ _.
Arguments cells {H} _.
Arguments quotas {H} _.
Arguments next_arc {H} _.
Arguments host {H} _.

Definition with_cells {H} (w : world H) (s : RevocationCell.store) : world H :=
  mk_world s (quotas w) (next_arc w) (host w).
Definition with_quotas {H} (w : world H) (q : gmap N FlowQuota.t) : world H :=
  mk_world (cells w) q (next_arc w) (host w).
Definition with_host {H} (w : world H) (h : H) : world H :=
  mk_world (cells w) (quotas w) (next_arc w) h.

(** ** The table *)

(** [vm/native.rs:17-20] [NativeResult, NativeFn]: host code, which may act on
    the world; [None] is a panic. *)
Definition NativeResult : Type := result Value.t Fault.t.
Definition NativeFn (H : Type) : Type :=
  list Value.t -> world H -> option NativeResult * world H.

Module NativeTable.

(** [vm/native.rs] [NativeTable] *)
Definition t (H : Type) : Type := list (option (string * NativeFn H)).

(** [vm/native.rs] [NativeTableError] *)
Inductive error :=
| DuplicateName (name : string)
| SlotOccupied (index : Z) (name : string).

Section table.
Context {H : Type}.
Implicit Type entries : list (option (string * NativeFn H)).

(** [vm/native.rs] [NativeTable::empty] *)
Definition empty : t H := [].

(** [vm/native.rs] [NativeTable::get] *)
Definition get entries (index : Z) : option (NativeFn H) :=
  match Prelude.get entries index with
  | Some (Some (_, f)) => Some f
  | _ => None
  end.

Definition slot_named (name : string) (slot : option (string * NativeFn H)) : bool :=
  match slot with
  | Some (n, _) => String.eqb n name
  | None => false
  end.

(** [vm/native.rs] [NativeTable::index_of] *)
Definition index_of entries (name : string) : option Z :=
  (fun i => wrap_u 32 (Z.of_nat i)) <$> position (slot_named name) entries.

(** [vm/native.rs] [NativeTable::len] *)
Definition len entries : Z := Z.of_nat (length entries).

(** [vm/native.rs] [NativeTable::is_empty] *)
Definition is_empty entries : bool := Value.is_empty entries.

(** [vm/native.rs] [NativeTable::names] *)
Definition names entries : list string := omap (fun slot => fst <$> slot) entries.

(** [resize_with(n, || None)] when [n] is beyond the end. *)
Definition pad entries (n : nat) : list (option (string * NativeFn H)) :=
  entries ++ replicate (n - length entries) None.

(** [vm/native.rs] [NativeTableBuilder::register_at] *)
Definition register_at entries (index : Z) (name : string) (f : NativeFn H)
  : result (list (option (string * NativeFn H))) error :=
  if existsb (slot_named name) entries then Err (DuplicateName name)
  else
    let i := Z.to_nat index in
    let entries := if (length entries <=? i)%nat then pad entries (S i) else entries in
    match entries !! i with
    | Some (Some _) => Err (SlotOccupied index name)
    | _ => Ok (<[i := Some (name, f)]> entries)
    end.

(** [vm/native.rs] [NativeTableBuilder::register] *)
Definition register entries (name : string) (f : NativeFn H)
  : result (list (option (string * NativeFn H))) error :=
  register_at entries (wrap_u 32 (Z.of_nat (length entries))) name f.

(** [vm/native.rs] [NativeTableBuilder::build] *)
Definition build entries : t H := entries.

End table.
End NativeTable.

(** ** Argument helpers *)

(** [vm/native.rs] [expect_arg] *)
Definition expect_arg (args : list Value.t) (index : nat) (fn_name : string)
  : result Value.t Fault.t :=
  match args !! index with
  | Some v => Ok v
  | None => Err (Fault.NativeError (fn_name +:+ ": missing argument " +:+ pretty index))
  end.

(** [vm/native.rs] [expect_int] *)
Definition expect_int (args : list Value.t) (index : nat) (fn_name : string)
  : result Z Fault.t :=
  let? v := expect_arg args index fn_name in
  match Value.as_int v with
  | Some i => Ok i
  | None =>
    Err (Fault.NativeError (fn_name +:+ ": argument " +:+ pretty index +:+ " is not an int"))
  end.

(** [vm/native.rs] [expect_bool] *)
Definition expect_bool (args : list Value.t) (index : nat) (fn_name : string)
  : result bool Fault.t :=
  let? v := expect_arg args index fn_name in
  match v with
  | Value.Bool b => Ok b
  | Value.Int i => Ok (negb (i =? 0))
  | other =>
    Err (Fault.NativeError (fn_name +:+ ": argument " +:+ pretty index +:+
      " is not a bool/int (got " +:+ Value.type_name other +:+ ")"))
  end.

(** [vm/native.rs] [expect_message] *)
Definition expect_message (args : list Value.t) (index : nat) (fn_name : string)
  : result Message Fault.t :=
  let? v := expect_arg args index fn_name in
  match Value.as_message v with
  | Some m => Ok m
  | None =>
    Err (Fault.NativeError (fn_name +:+ ": argument " +:+ pretty index +:+
      " is not a message"))
  end.

(** [vm/native.rs] [expect_u64] *)
Definition expect_u64 (args : list Value.t) (index : nat) (fn_name : string)
  : result Z Fault.t :=
  let? v := expect_arg args index fn_name in
  let wrong (other : Value.t) : result Z Fault.t :=
    Err (Fault.NativeError (fn_name +:+ ": argument " +:+ pretty index +:+
      " is not a non-negative int/pid (got " +:+ Value.type_name other +:+ ")")) in
  match v with
  | Value.Pid p => Ok p
  | Value.Int i => if 0 <=? i then Ok i else wrong v
  | Value.Bool b => Ok (Z.b2z b)
  | other => wrong other
  end.

(** ** The gate *)

Module NativeGate.

(** [vm/native.rs] [NativeGate] *)
Record t := mk {
  has_native : bool;
  mask : NativeMask.t;
  authority_epoch : Z;
  flow_cell : RevocationCell.ref;
  native_epoch : Z;
  native_cell : RevocationCell.ref }.

(** [vm/native.rs] [NativeGate::deny] *)
Definition deny (native_count : Z) (s : RevocationCell.store) : t * RevocationCell.store :=
  let (fc, s1) := RevocationCell.new s in
  let (nc, s2) := RevocationCell.new s1 in
  (mk false (NativeMask.empty native_count) 0 fc 0 nc, s2).

(** [vm/native.rs] [NativeGate::from_authority] *)
Definition from_authority (cap : Cap.t) (fc nc : RevocationCell.ref) (native_count : Z)
    (s : RevocationCell.store) : t :=
  let m := match Cap.native_mask cap with
           | Some m => m
           | None => NativeMask.empty native_count
           end in
  mk (CapRights.contains (Cap.rights cap) CapRights.NATIVE) m (Cap.epoch cap) fc
     (RevocationCell.epoch s nc) nc.

(** [vm/native.rs] [NativeGate::is_live] *)
Definition is_live (g : t) (s : RevocationCell.store) : bool :=
  (RevocationCell.epoch s (flow_cell g) =? authority_epoch g) &&
  (RevocationCell.epoch s (native_cell g) =? native_epoch g).

End NativeGate.

(** [vm/native.rs] [NativeCallError] *)
Inductive NativeCallError :=
| NoNativeRight
| IndexNotAllowlisted (idx : Z)
| IndexOutOfRange (idx : Z)
| Revoked.

(** [vm/native.rs] [NativeCallError::fmt] *)
Definition native_call_error_display (e : NativeCallError) : string :=
  match e with
  | NoNativeRight => "CALL_NATIVE: flow lacks NATIVE right"
  | IndexNotAllowlisted idx => "CALL_NATIVE: index " +:+ pretty idx +:+ " not on allowlist"
  | IndexOutOfRange idx => "CALL_NATIVE: index " +:+ pretty idx +:+ " out of range"
  | Revoked => "CALL_NATIVE: capability revoked"
  end%string.

(** [vm/native.rs] [check_native_call] *)
Definition check_native_call {H} (cap : Cap.t) (table : NativeTable.t H) (idx : Z)
  : result unit NativeCallError :=
  if NativeTable.len table <=? idx then Err (IndexOutOfRange idx)
  else if negb (CapRights.contains (Cap.rights cap) CapRights.NATIVE) then Err NoNativeRight
  else match Cap.native_mask cap with
  | Some m => if NativeMask.allows m idx then Ok tt else Err (IndexNotAllowlisted idx)
  | None => Err (IndexNotAllowlisted idx)
  end.

(** [vm/native.rs] [check_native_gate] *)
Definition check_native_gate {H} (s : RevocationCell.store) (gate : NativeGate.t)
    (table : NativeTable.t H) (idx : Z) : result unit NativeCallError :=
  if NativeTable.len table <=? idx then Err (IndexOutOfRange idx)
  else if negb (NativeGate.is_live gate s) then Err Revoked
  else if negb (NativeGate.has_native gate) then Err NoNativeRight
  else if NativeMask.allows (NativeGate.mask gate) idx then Ok tt
  else Err (IndexNotAllowlisted idx).

(** ** Standard natives *)

Module Std.

(** [natives.rs:51-60] [std_native] *)
Definition PRINT : Z := 0.
Definition NOW_MS : Z := 1.
Definition MAKE_MSG : Z := 2.
Definition MSG_SENDER : Z := 3.
Definition MSG_REQUEST_ID : Z := 4.
Definition MSG_TAG : Z := 5.
Definition MSG_PAYLOAD : Z := 6.
Definition MSG_REPLY_CAP : Z := 7.

(** [natives.rs] [std_native_map] *)
Definition std_native_map : list (string * Z) :=
  [("print", 0); ("now_ms", 1); ("make_msg", 2); ("msg_sender", 3);
   ("msg_request_id", 4); ("msg_tag", 5); ("msg_payload", 6); ("msg_reply_cap", 7)]%string.

Section std.
Context {H : Type}.
(** The sink handed to [std_native_table_with], and the wall clock: the
    milliseconds since the epoch, or the error of a clock set before it. *)
Context (write : list Value.t -> H -> H) (unix_millis : H -> result Z string).

(** A native that only computes. *)
Definition pure (f : list Value.t -> NativeResult) : NativeFn H :=
  fun args w => (Some (f args), w).

(** [natives.rs:87-93] [std_native_table_with, print] *)
Definition print : NativeFn H :=
  fun args w => (Some (Ok Value.Unit), with_host w (write args (host w))).

(** [natives.rs:94-103] [std_native_table_with, now_ms] *)
Definition now_ms : NativeFn H :=
  fun _ w =>
    (Some (match unix_millis (host w) with
           | Err e => Err (Fault.NativeError ("system clock error: " +:+ e))
           | Ok ms =>
             if in_ib 64 ms then Ok (Value.Int ms)
             else Err (Fault.NativeError "system clock value exceeds i64")
           end), w).

(** [natives.rs:104-128] [std_native_table_with, make_msg] *)
Definition make_msg (args : list Value.t) : NativeResult :=
  let first := if (4 <=? length args)%nat then 1%nat else 0%nat in
  let? rid := expect_u64 args first "make_msg" in
  let? tg := expect_u64 args (S first) "make_msg" in
  let? pl := expect_arg args (S (S first)) "make_msg" in
  if tg <=? u16_max then Ok (Value.Message (Msg.new 0 rid tg pl))
  else Err (Fault.NativeError ("make_msg: tag " +:+ pretty tg +:+ " does not fit in u16")).

(** [natives.rs:129-133] [std_native_table_with, msg_sender] *)
Definition msg_sender (args : list Value.t) : NativeResult :=
  let? m := expect_message args 0 "msg_sender" in Ok (Value.Pid (sender m)).

(** [natives.rs:134-140] [std_native_table_with, msg_request_id] *)
Definition msg_request_id (args : list Value.t) : NativeResult :=
  let? m := expect_message args 0 "msg_request_id" in
  Ok (Value.Int (wrap_i 64 (request_id m))).

(** [natives.rs:141-145] [std_native_table_with, msg_tag] *)
Definition msg_tag (args : list Value.t) : NativeResult :=
  let? m := expect_message args 0 "msg_tag" in Ok (Value.Int (tag m)).

(** [natives.rs:146-150] [std_native_table_with, msg_payload] *)
Definition msg_payload (args : list Value.t) : NativeResult :=
  let? m := expect_message args 0 "msg_payload" in Ok (payload m).

(** [natives.rs:151-157] [std_native_table_with, msg_reply_cap] *)
Definition msg_reply_cap (args : list Value.t) : NativeResult :=
  let? m := expect_message args 0 "msg_reply_cap" in Ok (Value.Cap (reply_cap m)).

(** [natives.rs] [std_native_table_with] *)
Definition std_native_table_with : NativeTable.t H :=
  let built :=
    let? b := NativeTable.register [] "print" print in
    let? b := NativeTable.register b "now_ms" now_ms in
    let? b := NativeTable.register b "make_msg" (pure make_msg) in
    let? b := NativeTable.register b "msg_sender" (pure msg_sender) in
    let? b := NativeTable.register b "msg_request_id" (pure msg_request_id) in
    let? b := NativeTable.register b "msg_tag" (pure msg_tag) in
    let? b := NativeTable.register b "msg_payload" (pure msg_payload) in
    NativeTable.register b "msg_reply_cap" (pure msg_reply_cap) in
  match built with
  | Ok b => NativeTable.build b
  | Err _ => NativeTable.empty
  end.

(** [natives.rs] [std_natives] *)
Definition std_natives : NativeTable.t H * list (string * Z) :=
  let table := std_native_table_with in
  (table, omap (fun n => (fun i => (n, i)) <$> NativeTable.index_of table n)
            (NativeTable.names table)).
End std.

End Std.

(** ** The gate decides the authority it was built from *)

Lemma empty_mask_allows n idx : 0 <= idx -> NativeMask.allows (NativeMask.empty n) idx = false.
Proof.
  intros Hi. rewrite allows_bit by done. unfold NativeMask.empty.
  rewrite lookup_replicate_decide. destruct (decide _); [|done]. apply Z.bits_0.
Qed.

Lemma gate_mask_allows cap fc nc n s idx :
  0 <= idx ->
  NativeMask.allows (NativeGate.mask (NativeGate.from_authority cap fc nc n s)) idx =
  mask_allows (Cap.native_mask cap) idx.
Proof.
  intros Hi. unfold NativeGate.from_authority. simpl.
  destruct (Cap.native_mask cap); simpl; [done|]. by apply empty_mask_allows.
Qed.

Lemma check_native_gate_Ok {H} s gate (table : NativeTable.t H) idx :
  check_native_gate s gate table idx = Ok tt <->
  idx < NativeTable.len table /\ NativeGate.is_live gate s = true /\
  NativeGate.has_native gate = true /\ NativeMask.allows (NativeGate.mask gate) idx = true.
Proof.
  unfold check_native_gate. destruct (Z.leb_spec (NativeTable.len table) idx).
  { split; [done|lia]. }
  destruct (NativeGate.is_live gate s); simpl; [|naive_solver].
  destruct (NativeGate.has_native gate); simpl; [|naive_solver].
  destruct (NativeMask.allows _ idx); naive_solver.
Qed.

(** C30: the native gate.  A gate built from a flow's authority lets an index
    through exactly when it is inside the table, the authority is still valid
    (no revocation of the flow's counter, and none of the native table's since
    the gate was built), carries [NATIVE] and its mask lists the index; a gate
    of a derived authority lets nothing more through than its parent's; and
    after a revocation of either counter every index is refused. *)
Theorem native_gate_exact {H} cap fc nc n s s' (table : NativeTable.t H) idx r m :
  0 <= idx ->
  let gate := NativeGate.from_authority cap fc nc n s in
  (check_native_gate s' gate table idx = Ok tt <->
   idx < NativeTable.len table /\ Cap.is_valid cap s' fc = true /\
   RevocationCell.epoch s' nc = RevocationCell.epoch s nc /\
   CapRights.contains (Cap.rights cap) CapRights.NATIVE = true /\
   mask_allows (Cap.native_mask cap) idx = true) /\
  (check_native_gate s' (NativeGate.from_authority (Cap.attenuate cap r m) fc nc n s)
     table idx = Ok tt -> check_native_gate s' gate table idx = Ok tt) /\
  (Cap.is_valid cap s fc = true ->
   check_native_gate (RevocationCell.revoke s fc) gate table idx <> Ok tt /\
   check_native_gate (RevocationCell.revoke s nc) gate table idx <> Ok tt).
Proof.
  intros Hi gate.
  assert (Hiff : forall cap s', let gate := NativeGate.from_authority cap fc nc n s in
    check_native_gate s' gate table idx = Ok tt <->
    idx < NativeTable.len table /\ Cap.is_valid cap s' fc = true /\
    RevocationCell.epoch s' nc = RevocationCell.epoch s nc /\
    CapRights.contains (Cap.rights cap) CapRights.NATIVE = true /\
    mask_allows (Cap.native_mask cap) idx = true).
  { intros cap0 s0. simpl. rewrite check_native_gate_Ok, gate_mask_allows by done.
    unfold NativeGate.is_live, Cap.is_valid. simpl.
    rewrite andb_true_iff, !Z.eqb_eq. naive_solver. }
  split_and!; [apply Hiff| |].
  - rewrite !Hiff. intros (? & ? & ? & Hr & Hm).
    rewrite attenuate_rights, andb_true_iff in Hr.
    rewrite attenuate_mask, andb_true_iff in Hm by done. naive_solver.
  - unfold gate. rewrite !Hiff. unfold Cap.is_valid. rewrite !Z.eqb_eq. intros Hv. split.
    + rewrite epoch_revoke, Hv. intros (_ & He & _).
      by apply (wrap_succ_ne (RevocationCell.epoch s fc)).
    + rewrite epoch_revoke. intros (_ & _ & He & _).
      by apply (wrap_succ_ne (RevocationCell.epoch s nc)).
Qed.

Lemma native_gate_exact_witness :
  let s := snd (RevocationCell.new (snd (RevocationCell.new RevocationCell.empty_store))) in
  let cap := Cap.root (CapTarget.Flow 1) CapRights.ROOT
               (Some (NativeMask.from_indices 8 [2; 4])) s 0%N in
  let table := Std.std_native_table_with (fun _ (h : unit) => h) (fun _ => Ok 0) in
  let gate := NativeGate.from_authority cap 0%N 1%N 8 s in
  check_native_gate s gate table 2 = Ok tt /\ check_native_gate s gate table 3 <> Ok tt /\
  check_native_gate (RevocationCell.revoke s 0%N) gate table 2 <> Ok tt.
Proof.
  intros s cap table gate.
  destruct (native_gate_exact cap 0%N 1%N 8 s s table 2 0 None) as (H1 & _ & H3); [lia|].
  split_and!.
  - apply H1. by vm_compute.
  - by vm_compute.
  - by apply H3; vm_compute.
Defined.

(** ** The builder *)

Section builder.
Context {H : Type}.
Implicit Type entries : list (option (string * NativeFn H)).

Lemma slot_named_true name (slot : option (string * NativeFn H)) :
  NativeTable.slot_named name slot = true <-> exists f, slot = Some (name, f).
Proof.
  destruct slot as [[n f]|]; simpl; [|naive_solver].
  destruct (String.eqb_spec n name) as [->|]; naive_solver.
Qed.

(** No two slots share a name. *)
Definition names_unique entries : Prop :=
  forall i j n f g, entries !! i = Some (Some (n, f)) ->
    entries !! j = Some (Some (n, g)) -> i = j.

Lemma pad_lookup entries n i (x : string * NativeFn H) :
  NativeTable.pad entries n !! i = Some (Some x) <-> entries !! i = Some (Some x).
Proof.
  unfold NativeTable.pad. rewrite lookup_app. destruct (entries !! i) eqn:E; [done|].
  rewrite lookup_replicate_decide. by destruct (decide _).
Qed.

Lemma pad_length entries n : (length entries <= n)%nat -> length (NativeTable.pad entries n) = n.
Proof. intros. unfold NativeTable.pad. rewrite length_app, length_replicate. lia. Qed.

Lemma register_at_lookup entries index name f entries' :
  NativeTable.register_at entries index name f = Ok entries' ->
  existsb (NativeTable.slot_named name) entries = false /\
  (forall x, entries !! Z.to_nat index <> Some (Some x)) /\
  forall i x, entries' !! i = Some (Some x) <->
    if decide (i = Z.to_nat index) then x = (name, f) else entries !! i = Some (Some x).
Proof.
  unfold NativeTable.register_at.
  destruct (existsb _ entries) eqn:Hex; [done|].
  set (ix := Z.to_nat index). set (e2 := if (_ <=? _)%nat then _ else _).
  assert (Hlen : (ix < length e2)%nat).
  { unfold e2. destruct (Nat.leb_spec (length entries) ix); [|done].
    rewrite pad_length by lia. lia. }
  assert (He2 : forall i x, e2 !! i = Some (Some x) <-> entries !! i = Some (Some x)).
  { intros i x. unfold e2. destruct (_ <=? _)%nat; [apply pad_lookup|done]. }
  intros Hr. split; [done|]. destruct (e2 !! ix) as [[?|]|] eqn:Ee; [done| |].
  2: { apply lookup_ge_None in Ee. lia. }
  injection Hr as <-. split.
  - intros x Hx. apply He2 in Hx. congruence.
  - intros i x. destruct (decide (i = ix)) as [->|Hne].
    + rewrite list_lookup_insert_eq by done. naive_solver.
    + rewrite list_lookup_insert_ne by done. apply He2.
Qed.

Lemma position_unique entries name i f :
  names_unique entries -> entries !! i = Some (Some (name, f)) ->
  position (NativeTable.slot_named name) entries = Some i.
Proof.
  intros Hu Hi. destruct (position _ entries) as [j|] eqn:Ep.
  - apply position_Some in Ep as (x & Hj & Hx & _).
    apply slot_named_true in Hx as [g ->]. by rewrite (Hu i j name f g).
  - apply position_None in Ep. rewrite Forall_lookup in Ep.
    specialize (Ep _ _ Hi). simpl in Ep. by rewrite String.eqb_refl in Ep.
Qed.

Lemma register_at_names_unique entries index name f entries' :
  names_unique entries -> NativeTable.register_at entries index name f = Ok entries' ->
  names_unique entries' /\ entries' !! Z.to_nat index = Some (Some (name, f)).
Proof.
  intros Hu E. apply register_at_lookup in E as (Hno & Hempty & Hl).
  assert (Hfresh : forall i g, entries !! i <> Some (Some (name, g))).
  { intros i g Hi. enough (existsb (NativeTable.slot_named name) entries = true) by congruence.
    apply existsb_exists. exists (Some (name, g)). rewrite slot_named_true.
    split; [|eauto]. apply list_elem_of_In. by eapply list_elem_of_lookup_2. }
  split; [|apply Hl; by destruct (decide _)].
  intros i j n g h Hi Hj. apply Hl in Hi, Hj.
  repeat destruct (decide _) as [->|]; simplify_eq; naive_solver.
Qed.

Lemma register_at_get_ne entries index name f entries' i :
  NativeTable.register_at entries index name f = Ok entries' ->
  0 <= index -> 0 <= i -> i <> index -> NativeTable.get entries' i = NativeTable.get entries i.
Proof.
  intros E Hix Hi Hne. apply register_at_lookup in E as (_ & _ & Hl).
  unfold NativeTable.get. rewrite !get_eq.
  assert (Heq : forall x, entries' !! Z.to_nat i = Some (Some x) <->
                          entries !! Z.to_nat i = Some (Some x))
    by (intros x; rewrite Hl; destruct (decide _); [lia|done]).
  destruct (entries' !! Z.to_nat i) as [[[]|]|], (entries !! Z.to_nat i) as [[[]|]|];
    naive_solver.
Qed.

Lemma register_at_index_of_ne entries index name f entries' n :
  names_unique entries -> NativeTable.register_at entries index name f = Ok entries' ->
  n <> name -> NativeTable.index_of entries' n = NativeTable.index_of entries n.
Proof.
  intros Hu E Hne. destruct (register_at_names_unique _ _ _ _ _ Hu E) as [Hu' _].
  apply register_at_lookup in E as (_ & Hempty & Hl).
  unfold NativeTable.index_of. f_equal.
  destruct (position _ entries) as [k|] eqn:Ek.
  - apply position_Some in Ek as (x & Hk & Hx & _). apply slot_named_true in Hx as [g ->].
    apply (position_unique _ _ _ g Hu'). apply Hl. destruct (decide _) as [->|]; [|done].
    by destruct (Hempty (n, g)).
  - apply position_None. apply position_None in Ek. rewrite Forall_lookup in Ek.
    apply Forall_lookup. intros i x Hi. destruct (NativeTable.slot_named n x) eqn:En; [|done].
    apply slot_named_true in En as [g ->]. apply Hl in Hi.
    destruct (decide _); [by simplify_eq|]. specialize (Ek _ _ Hi). simpl in Ek.
    by rewrite String.eqb_refl in Ek.
Qed.

(** the native table builder.  A registration that succeeds found the
    name unused and the slot empty; it fills that slot, changes no other, keeps
    names unique, and makes [index_of] answer the slot for the name; one that
    fails names a duplicate or an occupied slot that is really there. *)
Lemma register_at_correct entries index name f :
  names_unique entries -> in_u 32 index ->
  match NativeTable.register_at entries index name f with
  | Ok entries' =>
    names_unique entries' /\
    NativeTable.get entries' index = Some f /\
    NativeTable.index_of entries' name = Some index /\
    (forall i, 0 <= i -> i <> index ->
       NativeTable.get entries' i = NativeTable.get entries i) /\
    (forall n, n <> name -> NativeTable.index_of entries' n = NativeTable.index_of entries n)
  | Err (NativeTable.DuplicateName n) =>
    n = name /\ exists i g, entries !! i = Some (Some (name, g))
  | Err (NativeTable.SlotOccupied ix n) =>
    ix = index /\ n = name /\ exists g, NativeTable.get entries index = Some g
  end.
Proof.
  intros Hu Hix.
  destruct (NativeTable.register_at entries index name f) as [entries'|[n|ix n]] eqn:E.
  - destruct (register_at_names_unique _ _ _ _ _ Hu E) as [Hu' Hnew]. destruct Hix as [Hix0 ?].
    split_and!; [done| | |eauto using register_at_get_ne|eauto using register_at_index_of_ne].
    + unfold NativeTable.get. by rewrite get_eq, Hnew.
    + unfold NativeTable.index_of. rewrite (position_unique _ _ _ _ Hu' Hnew). simpl.
      by rewrite Z2Nat.id, wrap_u_id.
  - unfold NativeTable.register_at in E. destruct (existsb _ entries) eqn:Hex.
    + injection E as <-. split; [done|]. apply existsb_exists in Hex as (x & Hx & Hs).
      apply slot_named_true in Hs as [g ->]. apply list_elem_of_In in Hx.
      apply list_elem_of_lookup_1 in Hx as [i Hi]. eauto.
    + by destruct (_ !! Z.to_nat index) as [[|]|].
  - unfold NativeTable.register_at in E. destruct (existsb _ entries); [done|].
    destruct (_ !! Z.to_nat index) as [[[n0 g]|]|] eqn:Hi; [|done..].
    injection E as <- <-. split_and!; [done..|]. exists g.
    unfold NativeTable.get. rewrite !get_eq.
    assert (entries !! Z.to_nat index = Some (Some (n0, g))) as ->; [|done].
    destruct (_ <=? _)%nat in Hi; [by apply pad_lookup in Hi|done].
Qed.
End builder.

Lemma register_at_correct_witness :
  let f : NativeFn unit := Std.pure (fun _ => Ok (Value.Int 42)) in
  match NativeTable.register_at [] 10 "answer" f with
  | Ok entries => NativeTable.index_of entries "answer" = Some 10 /\
      NativeTable.len entries = 11 /\ NativeTable.get entries 2 = None
  | Err _ => False
  end.
Proof.
  intros f.
  pose proof (register_at_correct [] 10 "answer" f) as Hspec.
  destruct (NativeTable.register_at [] 10 "answer" f) as [entries|] eqn:E;
    [|vm_compute in E; discriminate].
  destruct Hspec as (_ & _ & Hix & _); [by intros i j|by split|].
  split_and!; [exact Hix| |]; vm_compute in E; injection E as <-; by vm_compute.
Defined.

(** ** Authority through natives *)

(** What the VM relies on: a native hands back only tokens it was given, or
    tokens of [S], those the host may mint. *)
Class NativesConfined {H} (S : CapId.t -> Prop) (natives : NativeTable.t H) : Prop :=
  natives_confined idx f args w v w' :
    NativeTable.get natives idx = Some f -> Forall (caps_within S) args ->
    f args w = (Some (Ok v), w') -> caps_within S v.

Section std_facts.
Context {H : Type} (write : list Value.t -> H -> H) (unix_millis : H -> result Z string).
Abbreviation table := (Std.std_native_table_with write unix_millis).

Lemma expect_arg_Ok args i name v : expect_arg args i name = Ok v -> args !! i = Some v.
Proof. unfold expect_arg. destruct (args !! i); congruence. Qed.

Lemma expect_message_Ok args i name m :
  expect_message args i name = Ok m -> args !! i = Some (Value.Message m).
Proof.
  unfold expect_message. destruct (expect_arg _ _ _) as [v|] eqn:E; [|done].
  apply expect_arg_Ok in E. rewrite E. destruct v; simpl; congruence.
Qed.

Lemma std_table_eq :
  table = [Some ("print", Std.print write); Some ("now_ms", Std.now_ms unix_millis);
    Some ("make_msg", Std.pure Std.make_msg); Some ("msg_sender", Std.pure Std.msg_sender);
    Some ("msg_request_id", Std.pure Std.msg_request_id);
    Some ("msg_tag", Std.pure Std.msg_tag); Some ("msg_payload", Std.pure Std.msg_payload);
    Some ("msg_reply_cap", Std.pure Std.msg_reply_cap)]%string.
Proof. reflexivity. Qed.

Lemma make_msg_result args v :
  Std.make_msg args = Ok v ->
  exists rid tg pl, v = Value.Message (Msg.new 0 rid tg pl) /\ pl ∈ args /\ tg <= u16_max.
Proof.
  unfold Std.make_msg. intros E.
  destruct (expect_u64 _ _ _) as [rid|]; [|done].
  destruct (expect_u64 _ _ _) as [tg|]; [|done].
  destruct (expect_arg _ _ _) as [pl|] eqn:Ep; [|done].
  destruct (Z.leb_spec tg u16_max); simplify_eq.
  exists rid, tg, pl. split_and!; [done| |done].
  apply expect_arg_Ok in Ep. by eapply list_elem_of_lookup_2.
Qed.

#[export] Instance std_natives_confined S : NativesConfined S table.
Proof.
  intros idx f args w v w' Hf Hargs Hcall. rewrite std_table_eq in Hf.
  unfold NativeTable.get in Hf. rewrite get_eq in Hf.
  destruct (Z.to_nat idx) as [|[|[|[|[|[|[|[|n]]]]]]]]; simpl in Hf; simplify_eq;
    unfold Std.pure, Std.print, Std.now_ms in Hcall; injection Hcall as Hv _;
    try solve [revert Hv; unfold Std.msg_sender, Std.msg_request_id, Std.msg_tag;
               repeat case_match; intros; simplify_eq; by apply caps_within_nil].
  - destruct (make_msg_result _ _ Hv) as (rid & tg & pl & -> & Hpl & _).
    apply caps_within_message. simpl. split; [by left|].
    rewrite Forall_forall in Hargs. auto.
  - unfold Std.msg_payload in Hv. destruct (expect_message _ _ _) as [m|] eqn:E; simplify_eq.
    apply expect_message_Ok in E. apply (Forall_lookup_1 _ _ _ _ Hargs) in E.
    by apply caps_within_message in E as [_ ?].
  - unfold Std.msg_reply_cap in Hv. destruct (expect_message _ _ _) as [m|] eqn:E; simplify_eq.
    apply expect_message_Ok in E. apply (Forall_lookup_1 _ _ _ _ Hargs) in E.
    apply caps_within_message in E as [? _]. by apply caps_within_cap.
Qed.

(** the standard natives.  The table has the eight documented slots at the
    indices of the published map, each once; [make_msg] builds an envelope whose
    sender and reply capability are unset whatever it is given (even in its
    four-argument form), and the unpackers give back what it was built from. *)
Lemma std_natives_correct rid tg pl :
  0 <= rid <= i64_max -> 0 <= tg <= u16_max ->
  snd (Std.std_natives write unix_millis) = Std.std_native_map /\
  (forall args v, Std.make_msg args = Ok v ->
     exists m, v = Value.Message m /\ sender m = 0 /\ reply_cap m = CapId.NONE /\
       tag m <= u16_max) /\
  (forall prefix, (length prefix <= 1)%nat ->
     exists m, Std.make_msg (prefix ++ [Value.Int rid; Value.Int tg; pl]) = Ok m /\
       Std.msg_request_id [m] = Ok (Value.Int rid) /\ Std.msg_tag [m] = Ok (Value.Int tg) /\
       Std.msg_payload [m] = Ok pl /\ Std.msg_sender [m] = Ok (Value.Pid 0)).
Proof.
  intros Hrid Htg. split_and!.
  - reflexivity.
  - intros args v Hv. destruct (make_msg_result _ _ Hv) as (r & t & p & -> & _ & Ht). eauto.
  - intros prefix Hp. unfold i64_max in Hrid.
    assert (Hmake : Std.make_msg (prefix ++ [Value.Int rid; Value.Int tg; pl]) =
      Ok (Value.Message (Msg.new 0 rid tg pl))).
    { unfold Std.make_msg.
      destruct prefix as [|x [|]]; simpl in Hp; [| |lia]; simpl;
        unfold expect_u64, expect_arg; simpl;
        destruct (Z.leb_spec 0 rid); try lia; destruct (Z.leb_spec 0 tg); try lia;
        destruct (Z.leb_spec tg u16_max); (lia || done). }
    rewrite Hmake. eexists. split_and!; try done.
    unfold Std.msg_request_id. simpl. rewrite wrap_i_id; [done|lia|].
    unfold in_i. change (2 ^ (64 - 1)) with (2 ^ 63). lia.
Qed.
End std_facts.

Lemma std_natives_correct_witness :
  exists m, Std.make_msg [Value.Pid 9; Value.Int 3; Value.Int 7; Value.Cap 5] = Ok m /\
    Std.msg_sender [m] = Ok (Value.Pid 0) /\ Std.msg_payload [m] = Ok (Value.Cap 5).
Proof.
  destruct (std_natives_correct (fun _ (h : unit) => h) (fun _ => Ok 0) 3 7 (Value.Cap 5))
    as (_ & _ & Hrt); [by split|by split|].
  destruct (Hrt [Value.Pid 9]) as (m & Hm & _ & _ & Hp & Hs); [simpl; lia|].
  by exists m.
Defined.
