(* ===== verification/Program.v ===== *)
(** The structured assembler: modules of functions written against named registers.
    Models bytecode/program.rs, over the builder of bytecode/builder.rs.

    A body of a function is an [Asm unit]: it threads the context [Fn.t], and [None] is a
    panic of a build with overflow checks or debug assertions. *)

From S2P Require Import Prelude Capability F64 Values Isa Verify Builder Native.

(** [bytecode/program.rs] [FuncId] *)
Definition FuncId : Type := Z.

(** [bytecode/program.rs] [Reg]: its index. *)
Definition Reg : Type := Z.

(** [bytecode/program.rs] [RegWindow] *)
Record RegWindow := mk_window { base : Reg; wlen : Z }.

(** [bytecode/program.rs] [RegWindow::at] *)
Definition at_ (checks : bool) (w : RegWindow) (i : Z) : option Reg :=
  if checks && negb (i <? wlen w) then None else Some (Z.min (base w + i) 255).

Module Fn.

(** [bytecode/program.rs] [Fn]: the builder it borrows is held. *)
Record t := mk {
  b : ChunkBuilder.t;
  function : FuncId;
  next_reg : Z;
  scratch : option Reg }.

#[global] Instance eta : Eta t := fun f => mk (b f) (function f) (next_reg f) (scratch f).

(** [bytecode/program.rs] [Fn::open_with] *)
Definition open_with (bld : ChunkBuilder.t) (name : list byte) (arity num_registers : Z) : t :=
  let (function, bld) := ChunkBuilder.begin_function bld name arity num_registers in
  mk bld function num_registers None.

(** [bytecode/program.rs] [Fn::open] *)
Definition open (bld : ChunkBuilder.t) (name : list byte) (arity : Z) : t :=
  open_with bld name arity (Z.max arity 4).

End Fn.

(** ** Bodies *)

Definition Asm (A : Type) : Type := Fn.t -> option (A * Fn.t).

Definition a_ret {A} (a : A) : Asm A := fun f => Some (a, f).
Definition a_bind {A B} (m : Asm A) (k : A -> Asm B) : Asm B := fun f =>
  match m f with Some (a, f') => k a f' | None => None end.
Definition a_opt {A} (o : option A) : Asm A := fun f => (fun a => (a, f)) <$> o.
Definition building (g : ChunkBuilder.t -> ChunkBuilder.t) : Asm unit := fun f =>
  Some (tt, f <| Fn.b ::= g |>).

Notation "'let&' x ':=' m 'in' k" := (a_bind m (fun x => k))
  (at level 10, x pattern, m at level 200, k at level 200) : rust_scope.

Section body.
Context (checks : bool).
Implicit Types (dst src lhs rhs cond target_cap msg millis tag request_id : Reg).

(** [bytecode/program.rs] [Fn::local] *)
Definition local : Asm Reg := fun f =>
  let reg := Fn.next_reg f in
  let next := Z.min (Fn.next_reg f + 1) 255 in
  Some (reg, f <| Fn.next_reg := next |>
               <| Fn.b ::= fun b => ChunkBuilder.set_num_registers b (Fn.function f) next |>).

(** [bytecode/program.rs] [Fn::reg] *)
Definition reg (index : Z) : Asm Reg := a_ret index.

(** [bytecode/program.rs] [Fn::reserve] *)
Definition reserve (count : Z) : Asm unit := fun f =>
  Some (tt, if Fn.next_reg f <? count then
      f <| Fn.next_reg := count |>
        <| Fn.b ::= fun b => ChunkBuilder.set_num_registers b (Fn.function f) count |>
    else f).

(** [bytecode/program.rs:174-176] [Fn::window]: the loop. *)
Fixpoint locals (count : nat) : Asm unit :=
  match count with
  | O => a_ret tt
  | S count => let& _ := local in locals count
  end.

(** [bytecode/program.rs] [Fn::window] *)
Definition window (count : Z) : Asm RegWindow := fun f =>
  let base_idx := Fn.next_reg f in
  (let& _ := locals (Z.to_nat count) in a_ret (mk_window base_idx count)) f.

(** [bytecode/program.rs] [Fn::load_i32] *)
Definition load_i32 (n : Z) : Asm Reg :=
  let& reg := local in
  let& _ := building (fun b => ChunkBuilder.emit_load_imm b reg n) in
  a_ret reg.

Definition const_ (v : Value.t) : Asm Z := fun f =>
  let (konst, bld) := ChunkBuilder.const_ (Fn.b f) v in Some (konst, f <| Fn.b := bld |>).

(** [bytecode/program.rs] [Fn::load_int] *)
Definition load_int (n : Z) : Asm Reg :=
  let& konst := const_ (Value.Int n) in
  let& reg := local in
  let& _ := building (fun b => ChunkBuilder.emit_load_const b reg konst) in
  a_ret reg.

(** [bytecode/program.rs] [Fn::set] *)
Definition set_ (r : Reg) (imm : Z) : Asm unit :=
  building (fun b => ChunkBuilder.emit_load_imm b r imm).

(** [bytecode/program.rs] [Fn::mov] *)
Definition mov dst src : Asm unit := building (fun b => ChunkBuilder.emit_move b dst src).

Definition emit_op (op : Opcode.t) dst lhs rhs : Asm unit := fun f =>
  (fun bld => (tt, f <| Fn.b := bld |>)) <$> ChunkBuilder.emit_binop checks (Fn.b f) op dst lhs rhs.

(** [bytecode/program.rs] [Fn::binop] *)
Definition binop (op : Opcode.t) lhs rhs : Asm Reg :=
  let& dst := local in
  let& _ := emit_op op dst lhs rhs in
  a_ret dst.

(** [bytecode/program.rs] [Fn::temp] *)
Definition temp : Asm Reg := fun f =>
  match Fn.scratch f with
  | Some scratch => Some (scratch, f)
  | None =>
    (let& scratch := local in
     fun f => Some (scratch, f <| Fn.scratch := Some scratch |>)) f
  end.

(** [bytecode/program.rs] [Fn::binop_imm] *)
Definition binop_imm (op : Opcode.t) lhs (imm : Z) : Asm Reg :=
  let& rhs := temp in
  let& _ := building (fun b => ChunkBuilder.emit_load_imm b rhs imm) in
  binop op lhs rhs.

(** [bytecode/program.rs] [Fn::add] *)
Definition add lhs rhs : Asm Reg := binop Opcode.Add lhs rhs.

(** [bytecode/program.rs] [Fn::add_imm] *)
Definition add_imm dst (imm : Z) : Asm unit :=
  let& tmp := temp in
  let& _ := building (fun b => ChunkBuilder.emit_load_imm b tmp imm) in
  emit_op Opcode.Add dst dst tmp.

(** [bytecode/program.rs] [Fn::sub] *)
Definition sub lhs rhs : Asm Reg := binop Opcode.Sub lhs rhs.

(** [bytecode/program.rs] [Fn::mul] *)
Definition mul lhs rhs : Asm Reg := binop Opcode.Mul lhs rhs.

(** [bytecode/program.rs] [Fn::div] *)
Definition div lhs rhs : Asm Reg := binop Opcode.Div lhs rhs.

(** [bytecode/program.rs] [Fn::modulo] *)
Definition modulo lhs rhs : Asm Reg := binop Opcode.Mod lhs rhs.

(** [bytecode/program.rs] [Fn::eq] *)
Definition eq_ lhs rhs : Asm Reg := binop Opcode.Eq lhs rhs.

(** [bytecode/program.rs] [Fn::eq_imm] *)
Definition eq_imm lhs (imm : Z) : Asm Reg := binop_imm Opcode.Eq lhs imm.

(** [bytecode/program.rs] [Fn::lt] *)
Definition lt lhs rhs : Asm Reg := binop Opcode.Lt lhs rhs.

(** [bytecode/program.rs] [Fn::le] *)
Definition le lhs rhs : Asm Reg := binop Opcode.Le lhs rhs.

(** [bytecode/program.rs] [Fn::label] *)
Definition label : Asm ChunkBuilder.Label := fun f =>
  (fun x => (fst x, f <| Fn.b := snd x |>)) <$> ChunkBuilder.new_label checks (Fn.b f).

(** [bytecode/program.rs] [Fn::bind] *)
Definition bind_ (l : ChunkBuilder.Label) : Asm unit :=
  building (fun b => ChunkBuilder.bind_label b l).

(** [bytecode/program.rs] [Fn::jump] *)
Definition jump (l : ChunkBuilder.Label) : Asm unit :=
  building (fun b => ChunkBuilder.emit_jump b l).

(** [bytecode/program.rs] [Fn::branch_if_falsy] *)
Definition branch_if_falsy cond (target : ChunkBuilder.Label) : Asm unit :=
  building (fun b => ChunkBuilder.emit_branch b cond target).

(** [bytecode/program.rs] [Fn::while_lt] *)
Definition while_lt (counter limit : Reg) (body : Asm unit) : Asm unit :=
  let& head := label in
  let& done := label in
  let& cond := local in
  let& _ := bind_ head in
  let& _ := emit_op Opcode.Lt cond counter limit in
  let& _ := branch_if_falsy cond done in
  let& _ := body in
  let& _ := jump head in
  bind_ done.

(** [bytecode/program.rs] [Fn::return_] *)
Definition return_ (value : Reg) : Asm unit := building (fun b => ChunkBuilder.emit_return b value).

(** [bytecode/program.rs] [Fn::neg] *)
Definition neg src : Asm Reg :=
  let& dst := local in
  let& _ := building (fun b => ChunkBuilder.emit_neg b dst src) in
  a_ret dst.

(** [bytecode/program.rs] [Fn::call] *)
Definition call (function : FuncId) (argc : Z) : Asm Reg :=
  let& dst := local in
  let& _ := building (fun b => ChunkBuilder.emit_call b dst function argc) in
  a_ret dst.

(** [bytecode/program.rs] [Fn::halt] *)
Definition halt : Asm unit := building (fun b => ChunkBuilder.emit_halt b).

(** [bytecode/program.rs] [Fn::yield_] *)
Definition yield_ : Asm unit := building (fun b => ChunkBuilder.emit_yield b).

(** [bytecode/program.rs] [Fn::sleep] *)
Definition sleep millis : Asm unit := building (fun b => ChunkBuilder.emit_sleep b millis).

(** [bytecode/program.rs] [Fn::exit] *)
Definition exit_ (r : Reg) : Asm unit := building (fun b => ChunkBuilder.emit_exit b r).

(** [bytecode/program.rs] [Fn::self_cap] *)
Definition self_cap : Asm Reg :=
  let& dst := local in
  let& _ := building (fun b => ChunkBuilder.emit_self_pid b dst) in
  a_ret dst.

(** [bytecode/program.rs] [Fn::self_address] *)
Definition self_address : Asm Reg := self_cap.

(** [bytecode/program.rs] [Fn::spawn_with_rights] *)
Definition spawn_with_rights (function : FuncId) (argc : Z) (rights : CapRights.t) : Asm Reg :=
  let& dst := local in
  let& _ := building (fun b => ChunkBuilder.emit_spawn_with_rights b dst function argc rights) in
  a_ret dst.

(** [bytecode/program.rs] [Fn::spawn] *)
Definition spawn (function : FuncId) (argc : Z) : Asm Reg :=
  spawn_with_rights function argc CapRights.FLOW.

(** [bytecode/program.rs] [Fn::spawn_confined] *)
Definition spawn_confined (function : FuncId) (argc : Z) : Asm Reg :=
  spawn_with_rights function argc CapRights.NONE.

(** [bytecode/program.rs] [Fn::spawn_at] *)
Definition spawn_at dst (function : FuncId) (argc : Z) : Asm unit := building (fun b => ChunkBuilder.emit_spawn b dst function argc).

(** [bytecode/program.rs] [Fn::delegate] *)
Definition delegate src (rights : CapRights.t) : Asm Reg :=
  let& dst := local in
  let& _ := building (fun b => ChunkBuilder.emit_delegate b dst src rights) in
  a_ret dst.

(** [bytecode/program.rs] [Fn::send] *)
Definition send target_cap msg : Asm unit := building (fun b => ChunkBuilder.emit_send b target_cap msg).

(** [bytecode/program.rs] [Fn::receive] *)
Definition receive : Asm Reg :=
  let& dst := local in
  let& _ := building (fun b => ChunkBuilder.emit_receive b dst) in
  a_ret dst.

(** [bytecode/program.rs] [Fn::receive_timeout] *)
Definition receive_timeout millis : Asm Reg :=
  let& dst := local in
  let& _ := building (fun b => ChunkBuilder.emit_receive_timeout b dst millis) in
  a_ret dst.

(** [bytecode/program.rs] [Fn::receive_match] *)
Definition receive_match tag : Asm Reg :=
  let& dst := local in
  let& _ := building (fun b => ChunkBuilder.emit_receive_match b dst tag) in
  a_ret dst.

(** [bytecode/program.rs] [Fn::receive_match_imm] *)
Definition receive_match_imm (tag_imm : Z) : Asm Reg :=
  let& dst := local in
  let& _ := building (fun b => ChunkBuilder.emit_receive_match_imm b dst tag_imm) in
  a_ret dst.

(** [bytecode/program.rs] [Fn::fresh_request_id] *)
Definition fresh_request_id : Asm Reg :=
  let& dst := local in
  let& _ := building (fun b => ChunkBuilder.emit_fresh_request_id b dst) in
  a_ret dst.

(** [bytecode/program.rs] [Fn::receive_match_corr] *)
Definition receive_match_corr tag request_id : Asm Reg :=
  let& dst := local in
  let& _ := building (fun b => ChunkBuilder.emit_receive_match_corr b dst tag request_id) in
  a_ret dst.

(** [bytecode/program.rs] [Fn::receive_match_corr_imm] *)
Definition receive_match_corr_imm (tag_imm : Z) request_id : Asm Reg :=
  let& dst := local in
  let& _ := building (fun b => ChunkBuilder.emit_receive_match_corr_imm b dst tag_imm request_id) in
  a_ret dst.

(** [bytecode/program.rs] [Fn::ask] *)
Definition ask target_cap msg : Asm Reg :=
  let& dst := local in
  let& _ := building (fun b => ChunkBuilder.emit_ask b dst target_cap msg) in
  a_ret dst.

(** [bytecode/program.rs] [Fn::ask_timeout] *)
Definition ask_timeout target_cap msg millis : Asm Reg :=
  let& dst := local in
  let& _ := building (fun b => ChunkBuilder.emit_ask_timeout b dst target_cap msg millis) in
  a_ret dst.

(** [bytecode/program.rs] [Fn::monitor] *)
Definition monitor target_cap : Asm Reg :=
  let& dst := local in
  let& _ := building (fun b => ChunkBuilder.emit_monitor b dst target_cap) in
  a_ret dst.

(** [bytecode/program.rs] [Fn::demonitor] *)
Definition demonitor (monitor : Reg) : Asm unit := building (fun b => ChunkBuilder.emit_demonitor b monitor).

(** [bytecode/program.rs] [Fn::link] *)
Definition link target_cap : Asm Reg :=
  let& dst := local in
  let& _ := building (fun b => ChunkBuilder.emit_link b dst target_cap) in
  a_ret dst.

(** [bytecode/program.rs] [Fn::unlink] *)
Definition unlink (link : Reg) : Asm unit := building (fun b => ChunkBuilder.emit_unlink b link).

(** [bytecode/program.rs] [Fn::load_str]: [fresh] is the new buffer. *)
Definition load_str (fresh : ptr) (s : list byte) : Asm Reg :=
  let& konst := const_ (Value.str fresh s) in
  let& reg := local in
  let& _ := building (fun b => ChunkBuilder.emit_load_const b reg konst) in
  a_ret reg.

(** [bytecode/program.rs] [Fn::register_name] *)
Definition register_name (name : Reg) : Asm unit := building (fun b => ChunkBuilder.emit_register_name b name).

(** [bytecode/program.rs] [Fn::whereis] *)
Definition whereis (name : Reg) : Asm Reg :=
  let& dst := local in
  let& _ := building (fun b => ChunkBuilder.emit_whereis b dst name) in
  a_ret dst.

(** [bytecode/program.rs] [Fn::trap] *)
Definition trap (code : Z) : Asm unit := building (fun b => ChunkBuilder.emit_trap b code).

(** [bytecode/program.rs] [Fn::native1_from] *)
Definition native1_from src (native : Z) : Asm Reg :=
  let& dst := local in
  let& _ := building (fun b => ChunkBuilder.emit_native1_from b dst src native) in
  a_ret dst.

(** [bytecode/program.rs] [Fn::native1_on] *)
Definition native1_on src (native : Z) : Asm unit :=
  let& tmp := local in
  building (fun b => ChunkBuilder.emit_native1_from b tmp src native).

(** [bytecode/program.rs] [Fn::native_n] *)
Definition native_n (base : Reg) (native argc : Z) : Asm unit := building (fun b => ChunkBuilder.emit_native_n b base native argc).

(** [bytecode/program.rs] [Fn::call_native] *)
Definition call_native (base : Reg) (native argc : Z) : Asm unit := native_n base native argc.

(** [bytecode/program.rs] [Fn::call_native0] *)
Definition call_native0 (native : Z) : Asm Reg :=
  let& dst := local in
  let& _ := building (fun b => ChunkBuilder.emit_call_native b dst native 0) in
  a_ret dst.

(** [bytecode/program.rs] [Fn::make_msg] *)
Definition make_msg (native_index : Z) request_id (tag_imm : Z) (payload : Reg) : Asm Reg :=
  let& w := window 3 in
  let& r0 := a_opt (at_ checks w 0) in
  let& _ := mov r0 request_id in
  let& r1 := a_opt (at_ checks w 1) in
  let& _ := set_ r1 tag_imm in
  let& r2 := a_opt (at_ checks w 2) in
  let& _ := mov r2 payload in
  let& _ := native_n (base w) native_index 3 in
  a_ret (base w).

(** [bytecode/program.rs] [Fn::make_msg_legacy_sender] *)
Definition make_msg_legacy_sender (native_index : Z) (sender : Reg) request_id (tag_imm : Z)
    (payload : Reg) : Asm Reg :=
  let& w := window 4 in
  let& r0 := a_opt (at_ checks w 0) in
  let& _ := mov r0 sender in
  let& r1 := a_opt (at_ checks w 1) in
  let& _ := mov r1 request_id in
  let& r2 := a_opt (at_ checks w 2) in
  let& _ := set_ r2 tag_imm in
  let& r3 := a_opt (at_ checks w 3) in
  let& _ := mov r3 payload in
  let& _ := native_n (base w) native_index 4 in
  a_ret (base w).

(** [bytecode/program.rs] [Fn::hop] *)
Definition hop request_id (tag_imm : Z) (payload : Reg) : Asm Reg :=
  make_msg Std.MAKE_MSG request_id tag_imm payload.

(** [bytecode/program.rs] [Fn::hop_fresh] *)
Definition hop_fresh (tag_imm : Z) (payload : Reg) : Asm Reg :=
  let& req_id := fresh_request_id in
  hop req_id tag_imm payload.

(** [bytecode/program.rs] [Fn::hop_sender] *)
Definition hop_sender msg : Asm Reg := native1_from msg Std.MSG_SENDER.

(** [bytecode/program.rs] [Fn::hop_request_id] *)
Definition hop_request_id msg : Asm Reg := native1_from msg Std.MSG_REQUEST_ID.

(** [bytecode/program.rs] [Fn::hop_tag] *)
Definition hop_tag msg : Asm Reg := native1_from msg Std.MSG_TAG.

(** [bytecode/program.rs] [Fn::hop_payload] *)
Definition hop_payload msg : Asm Reg := native1_from msg Std.MSG_PAYLOAD.

(** [bytecode/program.rs] [Fn::hop_reply_cap] *)
Definition hop_reply_cap msg : Asm Reg := native1_from msg Std.MSG_REPLY_CAP.

(** [bytecode/program.rs] [Fn::reply_to] *)
Definition reply_to (req : Reg) (tag_imm : Z) (payload : Reg) : Asm Reg :=
  let& req_id := hop_request_id req in
  hop req_id tag_imm payload.

(** [bytecode/program.rs] [Fn::send_reply] *)
Definition send_reply (req : Reg) (tag_imm : Z) (payload : Reg) : Asm unit :=
  let& reply_cap := hop_reply_cap req in
  let& reply := reply_to req tag_imm payload in
  send reply_cap reply.

End body.

(** ** Modules *)

Module Program.

(** [bytecode/program.rs] [Program] *)
Record t := mk { inner : ChunkBuilder.t }.

(** [bytecode/program.rs] [Program::new] *)
Definition new (name : list byte) : t := mk (ChunkBuilder.new name).

Definition run_body (f : Fn.t) (body : Asm unit) : option (FuncId * t) :=
  match body f with
  | Some (_, f') => Some (Fn.function f, mk (Fn.b f'))
  | None => None
  end.

(** [bytecode/program.rs] [Program::function] *)
Definition function (p : t) (name : list byte) (arity : Z) (body : Asm unit)
  : option (FuncId * t) := run_body (Fn.open (inner p) name arity) body.

(** [bytecode/program.rs] [Program::function_raw] *)
Definition function_raw (p : t) (name : list byte) (arity num_registers : Z) (body : Asm unit)
  : option (FuncId * t) := run_body (Fn.open_with (inner p) name arity num_registers) body.

(** [bytecode/program.rs] [Program::function_index] *)
Definition function_index (p : t) (name : list byte) : option FuncId :=
  ChunkBuilder.function_index (inner p) name.

(** [bytecode/program.rs] [Program::build] *)
Definition build (p : t) : Chunk.t := ChunkBuilder.finish (inner p).

End Program.
