(* ===== verification/ProgramTheory.v ===== *)
(** What the structured assembler guarantees of the chunks it builds: only three of the
    verifier's errors are left to its caller, a local is a fresh register while there
    are any, and the loop it writes is the loop the machine runs. *)

From S2P Require Import Prelude Capability F64 Values Isa Verify Builder Sync Quota Native.
From S2P Require Import Program.

Import ChunkBuilder.

(** ** Well-formed contexts *)

(** Constants that [load_int] and [load_str] add. *)
Definition data_constant (v : Value.t) : Prop :=
  match v with Value.Int _ | Value.Str _ _ => True | _ => False end.

(** What the verifier leaves to the caller of the assembler. *)
Definition emit_wf (nconst : nat) (i : Instruction.t) : Prop :=
  Instruction.op i = Opcode.LoadConst ->
  wrap_u 32 (Instruction.imm i) < Z.of_nat nconst.

Definition fits (b : ChunkBuilder.t) : Prop :=
  Z.of_nat (length (code b)) < 2 ^ 31 /\ Z.of_nat (length (constants b)) < 2 ^ 31 /\
  Z.of_nat (length (functions b)) < 2 ^ 31.

(** Sizes only grow. *)
Definition grows (b b' : ChunkBuilder.t) : Prop :=
  (length (code b) <= length (code b'))%nat /\
  (length (constants b) <= length (constants b'))%nat /\
  (length (functions b) <= length (functions b'))%nat.

#[global] Instance grows_preorder : PreOrder grows.
Proof. split; [intros b|intros b b1 b2]; unfold grows; lia. Qed.

Lemma grows_fits b b' : grows b b' -> fits b' -> fits b.
Proof. unfold grows, fits. lia. Qed.

(** The builder of a module under construction. *)
Record module_wf (b : ChunkBuilder.t) : Prop := {
  mw_builder : builder_wf b;
  mw_const : Forall data_constant (constants b);
  mw_code : Forall (emit_wf (length (constants b))) (code b);
  mw_functions : Forall (fun def => FunctionDef.arity def <= FunctionDef.num_registers def)
    (functions b) }.

(** The context of a body: its registers are those declared for its function. *)
Record fn_wf (f : Fn.t) : Prop := {
  fw_module : module_wf (Fn.b f);
  fw_next : Fn.next_reg f <= 255;
  fw_function : exists def, functions (Fn.b f) !! Z.to_nat (Fn.function f) = Some def /\
    FunctionDef.num_registers def = Fn.next_reg f }.

(** A step of a body. *)
Record advances (f f' : Fn.t) : Prop := {
  ad_grows : grows (Fn.b f) (Fn.b f');
  ad_function : Fn.function f' = Fn.function f;
  ad_wf : fits (Fn.b f') -> fn_wf f -> fn_wf f' }.

#[global] Instance advances_preorder : PreOrder advances.
Proof.
  split.
  - by constructor.
  - intros f f1 f2 [G1 F1 W1] [G2 F2 W2]. constructor; [by etrans|congruence|].
    eauto using grows_fits.
Qed.

(** ** Bodies made of the assembler's methods *)

Inductive written (checks : bool) : forall {A}, Asm A -> Prop :=
| written_ret {A} (a : A) : written checks (a_ret a)
| written_opt {A} (o : option A) : written checks (a_opt o)
| written_bind {A B} (m : Asm A) (k : A -> Asm B) :
    written checks m -> (forall a, written checks (k a)) -> written checks (a_bind m k)
| written_local : written checks local
| written_temp : written checks temp
| written_reserve n : n <= 255 -> written checks (reserve n)
| written_window n : written checks (window n)
| written_load_int n : written checks (load_int n)
| written_load_str p s : written checks (load_str p s)
| written_label : written checks (label checks)
| written_bind_label l : written checks (bind_ l)
| written_jump l : written checks (jump l)
| written_branch c l : written checks (branch_if_falsy c l)
| written_op op dst lhs rhs :
    is_binop op = true -> written checks (emit_op checks op dst lhs rhs)
| written_emit g i :
    (forall b, g b = emit_ b i) -> is_jump (Instruction.op i) = false ->
    Instruction.op i <> Opcode.LoadConst -> written checks (building g)
| written_emit2 g i j :
    (forall b, g b = emit_ (emit_ b i) j) -> is_jump (Instruction.op i) = false ->
    is_jump (Instruction.op j) = false -> Instruction.op i <> Opcode.LoadConst ->
    Instruction.op j <> Opcode.LoadConst -> written checks (building g).

Create HintDb asm.
#[export] Hint Constructors written : asm.
#[export] Hint Extern 4 (written _ (building _)) =>
  (eapply written_emit; [intros; reflexivity|done|done]) : asm.
#[export] Hint Extern 5 (written _ (building _)) =>
  (eapply written_emit2; [intros; reflexivity|done..]) : asm.

Ltac methods := repeat match goal with
  | |- forall _, _ => intro
  | |- _ /\ _ => split
  | |- written _ (a_bind _ _) => apply written_bind
  end; eauto with asm.

Section methods.
Context (checks : bool).

Lemma binop_written op lhs rhs : is_binop op = true -> written checks (binop checks op lhs rhs).
Proof. intros. unfold binop. methods. Qed.

Lemma binop_imm_written op lhs imm :
  is_binop op = true -> written checks (binop_imm checks op lhs imm).
Proof. intros. unfold binop_imm. methods. Qed.

#[local] Hint Resolve binop_written binop_imm_written : asm.
#[local] Hint Unfold reg load_i32 set_ mov add add_imm sub mul div modulo eq_ eq_imm lt le
  return_ neg call halt yield_ sleep exit_ self_cap self_address spawn_with_rights spawn
  spawn_confined spawn_at delegate send receive receive_timeout receive_match
  receive_match_imm fresh_request_id receive_match_corr receive_match_corr_imm ask
  ask_timeout monitor demonitor link unlink register_name whereis trap native1_from
  native1_on native_n call_native call_native0 make_msg make_msg_legacy_sender hop hop_fresh
  hop_sender hop_request_id hop_tag hop_payload hop_reply_cap reply_to send_reply while_lt : asm.

Ltac method := intros; autounfold with asm; methods.

(** The arithmetic, the control and the flow methods are [written]. *)
Lemma arithmetic_written r n dst src lhs rhs :
  written checks (reg r) /\ written checks (load_i32 n) /\ written checks (set_ r n) /\
  written checks (mov dst src) /\ written checks (add checks lhs rhs) /\
  written checks (add_imm checks dst n) /\ written checks (sub checks lhs rhs) /\
  written checks (mul checks lhs rhs) /\ written checks (div checks lhs rhs) /\
  written checks (modulo checks lhs rhs) /\ written checks (eq_ checks lhs rhs) /\
  written checks (eq_imm checks lhs n) /\ written checks (lt checks lhs rhs) /\
  written checks (le checks lhs rhs) /\ written checks (neg src).
Proof. method. Qed.

Lemma control_written counter limit body v fn argc code :
  written checks body ->
  written checks (while_lt checks counter limit body) /\ written checks (return_ v) /\
  written checks (call fn argc) /\ written checks halt /\ written checks yield_ /\
  written checks (sleep v) /\ written checks (exit_ v) /\ written checks (trap code).
Proof. method. Qed.

Lemma flow_written fn argc rights r src name :
  written checks self_cap /\ written checks self_address /\
  written checks (spawn_with_rights fn argc rights) /\ written checks (spawn fn argc) /\
  written checks (spawn_confined fn argc) /\ written checks (spawn_at r fn argc) /\
  written checks (delegate src rights) /\ written checks (monitor src) /\
  written checks (demonitor r) /\ written checks (link src) /\ written checks (unlink r) /\
  written checks (register_name name) /\ written checks (whereis name).
Proof. method. Qed.

Lemma message_written target msg millis tag req imm :
  written checks (send target msg) /\ written checks receive /\
  written checks (receive_timeout millis) /\ written checks (receive_match tag) /\
  written checks (receive_match_imm imm) /\ written checks fresh_request_id /\
  written checks (receive_match_corr tag req) /\
  written checks (receive_match_corr_imm imm req) /\ written checks (ask target msg) /\
  written checks (ask_timeout target msg millis).
Proof. method. Qed.

Lemma native_written src native base argc req imm payload sender msg :
  written checks (native1_from src native) /\ written checks (native1_on src native) /\
  written checks (native_n base native argc) /\ written checks (call_native base native argc) /\
  written checks (call_native0 native) /\ written checks (make_msg checks native req imm payload) /\
  written checks (make_msg_legacy_sender checks native sender req imm payload) /\
  written checks (hop checks req imm payload) /\ written checks (hop_fresh checks imm payload) /\
  written checks (hop_sender msg) /\ written checks (hop_request_id msg) /\
  written checks (hop_tag msg) /\ written checks (hop_payload msg) /\
  written checks (hop_reply_cap msg) /\ written checks (reply_to checks req imm payload) /\
  written checks (send_reply checks req imm payload).
Proof. method. Qed.

End methods.

(** ** Every step keeps the context well-formed *)

Lemma module_wf_emit b i :
  module_wf b -> is_jump (Instruction.op i) = false -> emit_wf (length (constants b)) i ->
  module_wf (emit_ b i).
Proof.
  intros [Hb Hc Hi Hf] Hj He. constructor; simpl; try done.
  - by apply builder_wf_emit.
  - apply Forall_app. by split; [|apply Forall_singleton].
Qed.

Lemma module_wf_pending b i l :
  module_wf b -> is_jump (Instruction.op i) = true ->
  module_wf (let (idx, b') := emit b i in push_pending b' idx l).
Proof.
  intros [Hb Hc Hi Hf] Hj. constructor; simpl; try done.
  - by apply (builder_wf_pending b i l).
  - apply Forall_app. split; [done|]. apply Forall_singleton. intros Ho. by rewrite Ho in Hj.
Qed.

Lemma module_wf_registers b fn n :
  module_wf b ->
  (forall def, functions b !! Z.to_nat fn = Some def -> FunctionDef.arity def <= n) ->
  module_wf (set_num_registers b fn n).
Proof.
  intros [Hb Hc Hi Hf] Hn. constructor; simpl; try done.
  - by destruct Hb.
  - apply Forall_alter; [done|]. intros def Hd _. simpl. eauto.
Qed.

(** Keeping the functions, and with them the registers. *)
Lemma advances_builder f (g : ChunkBuilder.t -> ChunkBuilder.t) :
  grows (Fn.b f) (g (Fn.b f)) -> functions (g (Fn.b f)) = functions (Fn.b f) ->
  (fits (g (Fn.b f)) -> module_wf (Fn.b f) -> module_wf (g (Fn.b f))) ->
  advances f (f <| Fn.b ::= g |>).
Proof.
  intros Hg Hf Hw. constructor; simpl; [done..|]. intros Hfit [Hm Hn Hd].
  constructor; simpl; [by apply Hw|done|]. by rewrite Hf.
Qed.

Lemma grows_emit b i : grows b (emit_ b i).
Proof. unfold grows. simpl. rewrite length_app. lia. Qed.

Lemma advances_emit f g i :
  (forall b, g b = emit_ b i) -> is_jump (Instruction.op i) = false ->
  Instruction.op i <> Opcode.LoadConst -> advances f (f <| Fn.b ::= g |>).
Proof.
  intros Hg Hj Hc. apply advances_builder; rewrite ?Hg; [apply grows_emit|done|].
  intros _ Hm. apply module_wf_emit; [done..|]. by intros ?.
Qed.

Lemma advances_pending f i l :
  is_jump (Instruction.op i) = true ->
  advances f (f <| Fn.b ::= fun b => let (idx, b') := emit b i in push_pending b' idx l |>).
Proof.
  intros Hj. apply advances_builder; simpl.
  - unfold grows. simpl. rewrite length_app. lia.
  - done.
  - intros _ Hm. by apply (module_wf_pending (Fn.b f) i l).
Qed.

(** Raising the registers of the function. *)
Lemma advances_registers f n :
  n <= 255 -> (Fn.next_reg f <= 255 -> Fn.next_reg f <= n) ->
  advances f (f <| Fn.next_reg := n |>
                <| Fn.b ::= fun b => set_num_registers b (Fn.function f) n |>).
Proof.
  intros H255 Hn. constructor; simpl; [|done|].
  - unfold grows. simpl. rewrite length_alter. lia.
  - intros _ [Hm Hn' (def & Hd & Hr)]. specialize (Hn Hn'). constructor; simpl; [|done|].
    + apply module_wf_registers; [done|]. intros def' Hd'. simplify_eq.
      destruct Hm as [_ _ _ Hf]. apply (Forall_lookup_1 _ _ _ _ Hf) in Hd. lia.
    + exists (with_num_registers n def). by rewrite list_lookup_alter_eq, Hd.
Qed.

Definition stepwise {A} (m : Asm A) : Prop :=
  forall f a f', m f = Some (a, f') -> advances f f'.

Lemma stepwise_bind {A B} (m : Asm A) (k : A -> Asm B) :
  stepwise m -> (forall a, stepwise (k a)) -> stepwise (a_bind m k).
Proof.
  intros Hm Hk f b f'. unfold a_bind. destruct (m f) as [[a f1]|] eqn:E; [|done].
  intros Hf'. etrans; [by eapply Hm|by eapply Hk].
Qed.

Lemma stepwise_building g :
  (forall f, advances f (f <| Fn.b ::= g |>)) -> stepwise (building g).
Proof. intros Hg f [] f' [= <-]. apply Hg. Qed.

Lemma stepwise_local : stepwise local.
Proof. intros f a f' [= <- <-]. apply (advances_registers f); lia. Qed.

Lemma stepwise_locals n : stepwise (locals n).
Proof.
  induction n as [|n IH]; [by intros f a f' [= <- <-]|].
  by apply stepwise_bind; [apply stepwise_local|].
Qed.

Lemma stepwise_temp : stepwise temp.
Proof.
  intros f r f'. unfold temp. destruct (Fn.scratch f); [by intros [= <- <-]|].
  unfold a_bind. destruct (local f) as [[r' f1]|] eqn:E; [|done]. intros [= <- <-].
  etrans; [by eapply stepwise_local|]. constructor; simpl; [done..|].
  by intros _ [? ? ?].
Qed.

(** A constant is in the pool when it is loaded. *)
Lemma const_index b v :
  fits (snd (const_ b v)) ->
  0 <= fst (const_ b v) < Z.of_nat (length (constants (snd (const_ b v)))) /\
  fst (const_ b v) < 2 ^ 31.
Proof.
  unfold const_, fits. destruct (position _ _) as [pos|] eqn:E; simpl.
  - intros (_ & Hc & _). apply position_Some in E as (x & Hx & _).
    apply lookup_lt_Some in Hx. rewrite wrap_u_id by (unfold in_u; lia). lia.
  - rewrite length_app. simpl. intros (_ & Hc & _).
    rewrite wrap_u_id by (unfold in_u; lia). lia.
Qed.

Lemma module_wf_const b v : data_constant v -> module_wf b -> module_wf (snd (const_ b v)).
Proof.
  intros Hv [Hb Hc Hi Hf]. unfold const_. destruct (position _ _); [done|].
  constructor; simpl; [by destruct Hb| | |done].
  - apply Forall_app. by split; [|apply Forall_singleton].
  - eapply Forall_impl; [done|]. intros i He Ho. rewrite length_app. specialize (He Ho). lia.
Qed.

Lemma advances_const f v :
  data_constant v ->
  advances f (f <| Fn.b := snd (const_ (Fn.b f) v) |>).
Proof.
  intros Hv. apply (advances_builder f (fun b => snd (const_ b v))).
  - unfold grows, const_. destruct (position _ _); simpl; rewrite ?length_app; lia.
  - unfold const_. by destruct (position _ _).
  - intros _. by apply module_wf_const.
Qed.

Lemma stepwise_load v :
  data_constant v ->
  stepwise (let& konst := Program.const_ v in
            let& reg := local in
            let& _ := building (fun b => emit_load_const b reg konst) in a_ret reg).
Proof.
  intros Hv f r f'. unfold a_bind, Program.const_.
  pose proof (advances_const f v Hv) as H1. pose proof (const_index (Fn.b f) v) as Hk.
  destruct (ChunkBuilder.const_ (Fn.b f) v) as [k b1]. simpl in H1, Hk.
  intros [= <- <-].
  etrans; [exact H1|]. etrans; [eapply stepwise_local; reflexivity|].
  match goal with |- advances ?f2 _ =>
    apply (advances_builder f2 (fun b => emit_load_const b (Fn.next_reg f) k)) end;
    [apply grows_emit|done|].
  intros Hfit Hm. apply module_wf_emit; [done..|]. intros _.
  assert (Hf1 : fits b1).
  { revert Hfit. unfold fits. simpl. rewrite length_app, length_alter. lia. }
  destruct (Hk Hf1) as [Hr1 Hr2]. simpl.
  rewrite wrap_i_id by (unfold in_i; lia). rewrite wrap_u_id by (unfold in_u; lia). lia.
Qed.

Lemma written_stepwise checks {A} (m : Asm A) : written checks m -> stepwise m.
Proof.
  induction 1 as [A a|A o|A B m k _ IHm _ IHk| | |n Hn|n|n|p s| |l|l|c l|op dst lhs rhs Hop
                 |g i Hg Hj Hc|g i j Hg Hi Hj Hci Hcj].
  - by intros f a' f' [= <- <-].
  - intros f a f'. unfold a_opt. destruct o; [|done]. by intros [= <- <-].
  - by apply stepwise_bind.
  - apply stepwise_local.
  - apply stepwise_temp.
  - intros f a f' [= <- <-]. destruct (Z.ltb_spec (Fn.next_reg f) n); [|done].
    apply (advances_registers f n); lia.
  - intros f w f'. unfold window.
    apply (stepwise_bind (locals (Z.to_nat n)) _ (stepwise_locals _)).
    by intros _ f1 w' f2 [= <- <-].
  - by apply (stepwise_load (Value.Int n)).
  - by apply (stepwise_load (Value.str p s)).
  - intros f l f'. unfold label, new_label. destruct (checked_u _ _ _) as [n|]; [|done].
    intros [= <- <-].
    apply (advances_builder f (fun b => mk _ _ _ _ n _ _ _)); [done..|].
    intros _ [[] ? ? ?]. by constructor.
  - apply stepwise_building. intros f. apply advances_builder; [done..|].
    intros _ [[? ? ? Ht] ? ? ?]. constructor; [constructor; simpl|..]; try done.
    intros l' t. rewrite lookup_insert_Some. intros [[_ <-]|[_ Hl]]; [apply len_u32_le|eauto].
  - apply stepwise_building. intros f.
    by apply (advances_pending f (Instruction.only_imm Opcode.Jump 0)).
  - apply stepwise_building. intros f.
    by apply (advances_pending f (Instruction.a_imm Opcode.Branch c 0)).
  - intros f [] f'. unfold emit_op, emit_binop. rewrite Hop, andb_false_r. intros [= <-].
    eapply (advances_emit f (fun b => emit_ b _)); [done|..]; by destruct op.
  - apply stepwise_building. intros f. by eapply advances_emit.
  - apply stepwise_building. intros f. etrans.
    + by apply (advances_emit f (fun b => emit_ b i) i).
    + pose proof (advances_emit (f <| Fn.b ::= fun b => emit_ b i |>) (fun b => emit_ b j) j
        (fun _ => eq_refl) Hj Hcj) as H.
      replace (f <| Fn.b ::= g |>) with (f <| Fn.b ::= fun b => emit_ (emit_ b i) j |>); [done|].
      destruct f. simpl. by rewrite Hg.
Qed.

(** ** Modules *)

(** A module assembled by [function] (or by [function_raw] with enough registers). *)
Inductive assembled (checks : bool) : Program.t -> Prop :=
| assembled_new name : assembled checks (Program.new name)
| assembled_function p name arity body id p' :
    assembled checks p -> arity <= 255 -> written checks body ->
    Program.function p name arity body = Some (id, p') -> assembled checks p'
| assembled_function_raw p name arity num_registers body id p' :
    assembled checks p -> arity <= num_registers <= 255 -> written checks body ->
    Program.function_raw p name arity num_registers body = Some (id, p') ->
    assembled checks p'.

Lemma open_wf b name arity n :
  fits b -> module_wf b -> arity <= n <= 255 -> fn_wf (Fn.open_with b name arity n).
Proof.
  intros Hfit [Hb Hc Hi Hf] Hn. constructor; simpl; [|lia|].
  - constructor; simpl; [by destruct Hb|done|done|].
    apply Forall_app. split; [done|]. apply Forall_singleton. simpl. lia.
  - exists (FunctionDef.mk name (len_u32 (code b)) arity n). split; [|done].
    unfold len_u32. destruct Hfit as (_ & _ & Hl). rewrite wrap_u_id by (unfold in_u; lia).
    rewrite Nat2Z.id. by rewrite lookup_app_r, Nat.sub_diag.
Qed.

Lemma assembled_wf checks p :
  assembled checks p -> fits (Program.inner p) -> module_wf (Program.inner p).
Proof.
  assert (Hrun : forall checks b name arity n body id p',
    arity <= n <= 255 -> written checks body -> (fits b -> module_wf b) ->
    Program.run_body (Fn.open_with b name arity n) body = Some (id, p') ->
    fits (Program.inner p') -> module_wf (Program.inner p')).
  { clear. intros checks b name arity n body id p' Hn Hw Hb. unfold Program.run_body.
    destruct (body _) as [[[] f']|] eqn:E; [|done]. intros [= <- <-] Hfit. simpl in *.
    apply (written_stepwise checks body Hw) in E as [Hg _ Hwf].
    assert (fits b) as Hfb.
    { assert (Hf1 := grows_fits _ _ Hg Hfit). revert Hf1. unfold fits. simpl.
      rewrite length_app. lia. }
    apply Hwf; [done|]. apply open_wf; auto. }
  induction 1 as [name|p name arity body id p' Hp IH Ha Hw E
                 |p name arity nr body id p' Hp IH Ha Hw E]; intros Hfit.
  - constructor; simpl; [apply built_wf, built_new|done..].
  - eapply (Hrun checks _ _ _ _ body id p'); [..|exact E|done]; [lia|done|done].
  - eapply (Hrun checks _ _ _ _ body id p'); [..|exact E|done]; [lia|done|done].
Qed.

Definition callee_known (nfun : nat) (i : Instruction.t) : Prop :=
  match Instruction.op i with
  | Opcode.Call | Opcode.Spawn => wrap_u 32 (Instruction.imm i) < Z.of_nat nfun
  | _ => True
  end.

#[global] Instance callee_known_dec nfun i : Decision (callee_known nfun i).
Proof. unfold callee_known. destruct (Instruction.op i); apply _. Defined.

(** What is left for the caller to get right: at least one function, no function that
    begins past the end of the code, and calls and spawns of functions that exist. *)
Definition caller_wf (ch : Chunk.t) : Prop :=
  Chunk.functions ch <> [] /\
  Forall (fun def => FunctionDef.entry def < Z.of_nat (length (Chunk.code ch)))
    (Chunk.functions ch) /\
  Forall (callee_known (length (Chunk.functions ch))) (Chunk.code ch).

#[global] Instance caller_wf_dec ch : Decision (caller_wf ch).
Proof. unfold caller_wf. apply _. Defined.

Lemma program_chunk_wf b :
  module_wf b -> Z.of_nat (length (code b)) < 2 ^ 31 ->
  caller_wf (finish b) <-> chunk_wf Untrusted (finish b).
Proof.
  intros [Hb Hc Hi Hf] Hlen. split.
  - intros (Hne & He & Hcall). split; [split_and!; [done|..]|].
    + apply Forall_lookup. intros k def Hk. split.
      * exact (Forall_lookup_1 _ _ _ _ He Hk).
      * exact (Forall_lookup_1 _ _ _ _ Hf Hk).
    + intros idx i Hidx. pose proof (finish_instr b idx i Hb Hlen Hidx) as Hw.
      apply (Forall_lookup_1 _ _ _ _ Hcall) in Hidx. unfold callee_known in Hidx. unfold instr_wf.
      destruct (Instruction.op i) eqn:Ho; try done.
      apply (Forall_lookup_1 _ _ _ _ Hi) in Hw. by apply Hw.
    + intros _. eapply Forall_impl; [exact Hc|]. by intros [].
  - intros [(Hne & Hw & Hins) _]. split_and!; [done| |].
    + eapply Forall_impl; [exact Hw|]. by intros def [? _].
    + apply Forall_lookup. intros idx i Hidx. specialize (Hins idx i Hidx).
      unfold instr_wf in Hins. unfold callee_known. by destruct (Instruction.op i).
Qed.

(** C34: a module assembled through the structured API leaves the verifier only three
    objections.  Take any module built by [new] and [function] (or by [function_raw] with
    arity within the declared registers) whose bodies use the methods of [Fn], small
    enough for its 32-bit indices.  It verifies as untrusted exactly when it has a
    function, no function begins past the end of the code, and every call and spawn
    names a function of the table; and when it is rejected the error is one of those
    three: never a constant or jump out of range, an arity above the registers, an
    unknown opcode or a constant with authority. *)
Theorem program_verifies checks p :
  assembled checks p -> fits (Program.inner p) ->
  (verify (Program.build p) = Ok tt <-> caller_wf (Program.build p)) /\
  (forall e, verify (Program.build p) = Err e ->
     match e with
     | EmptyFunctionTable | EntryOutOfRange _ _ _ | FunctionOutOfRange _ _ _ => True
     | _ => False
     end).
Proof.
  intros Hp Hfit. pose proof (assembled_wf checks p Hp Hfit) as Hm.
  destruct Hfit as (Hlen & _). split.
  - unfold verify. rewrite verify_with_Ok. simpl.
    symmetry. by apply program_chunk_wf.
  - intros e He. apply verify_with_Err in He. destruct Hm as [Hb Hc Hi Hf].
    destruct e as [| | | | | |fn ar nr|idx kind]; try done; simpl in He.
    + destruct He as (Hl & Hbad & i & Hidx & Ho & ->).
      pose proof (finish_instr _ _ i Hb Hlen Hidx) as Hw. rewrite Ho in Hw.
      apply (Forall_lookup_1 _ _ _ _ Hi) in Hw. specialize (Hw Ho). simpl in Hbad. lia.
    + destruct He as (-> & Hbad & i & Hidx & Ho & ->).
      pose proof (finish_instr _ _ i Hb Hlen Hidx) as Hw. apply Hbad.
      by destruct Ho as [Ho|Ho]; rewrite Ho in Hw.
    + destruct He as (Hlt & def & Hd & <- & <-).
      apply (Forall_lookup_1 _ _ _ _ Hf) in Hd. lia.
    + destruct He as (_ & v & Hv & Ht). apply (Forall_lookup_1 _ _ _ _ Hc) in Hv.
      by destruct v, kind.
Qed.

(** A program of two functions: [main] calls [count], which counts up to its argument. *)
Definition count_body (checks : bool) (limit : Asm Reg) : Asm unit :=
  let& limit := limit in
  let& counter := load_i32 0 in
  let& _ := while_lt checks counter limit (add_imm checks counter 1) in
  return_ counter.

Definition calling_program (checks : bool) : option Program.t :=
  p1 ← Program.function (Program.new (ascii_bytes "loop")) (ascii_bytes "main") 0
         (let& r := call 1 0 in return_ r);
  p2 ← Program.function (snd p1) (ascii_bytes "count") 1 (count_body checks (reg 0));
  Some (snd p2).

Definition sample_program : Program.t := default (Program.new []) (calling_program true).

Lemma count_body_written checks limit :
  written checks limit -> written checks (count_body checks limit).
Proof.
  intros Hl. unfold count_body. apply written_bind; [done|intros l].
  apply written_bind; [apply (arithmetic_written checks 0 0 0 0 0 0)|intros c].
  apply written_bind; [|intros _; apply (control_written checks 0 0 (a_ret tt)); eauto with asm].
  apply (control_written checks c l _ 0 0 0 0). apply (arithmetic_written checks 0 1 c 0 0 0).
Qed.

Lemma sample_assembled : assembled true sample_program.
Proof.
  eapply (assembled_function true _ (ascii_bytes "count") 1 (count_body true (reg 0)) 1).
  - eapply (assembled_function true _ (ascii_bytes "main") 0
      (let& r := call 1 0 in return_ r) 0).
    + apply assembled_new.
    + done.
    + apply written_bind; [apply (control_written true 0 0 (a_ret tt) 0 1 0 0); eauto with asm|].
      intros r. apply (control_written true 0 0 (a_ret tt) r 0 0 0). eauto with asm.
    + reflexivity.
  - done.
  - apply count_body_written. apply (arithmetic_written true 0 0 0 0 0 0).
  - vm_compute. reflexivity.
Qed.

Lemma program_verifies_witness :
  assembled true sample_program /\ verify (Program.build sample_program) = Ok tt.
Proof.
  pose proof sample_assembled as Ha. split; [exact Ha|].
  apply (program_verifies true sample_program Ha); [by vm_compute|].
  apply (bool_decide_unpack _). by vm_compute.
Defined.

(** ** Registers *)

(** A local is a new register, above all the declared ones, and inside the file it
    declares, for as long as fewer than 255 are in use. *)
Lemma local_fresh f r f' :
  local f = Some (r, f') -> fn_wf f -> Fn.next_reg f < 255 ->
  r = Fn.next_reg f /\ Fn.next_reg f' = r + 1 /\
  exists def, functions (Fn.b f') !! Z.to_nat (Fn.function f') = Some def /\
    FunctionDef.num_registers def = r + 1.
Proof.
  intros [= <- <-] [_ _ (def & Hd & Hr)] Hlt. simpl.
  rewrite Z.min_l by lia. split_and!; [done..|].
  exists (with_num_registers (Fn.next_reg f + 1) def). by rewrite list_lookup_alter_eq, Hd.
Qed.

(** The 256th register is handed out for ever, and is outside the file: a function that
    takes two more locals once 255 are in use has both in one register, which the
    machine refuses to touch, and the verifier accepts it. *)
Definition crowded_body (checks : bool) : Asm unit :=
  let& _ := reserve 255 in
  let& x := load_i32 1 in
  let& y := load_i32 2 in
  let& z := add checks x y in
  return_ z.

Definition crowded : Chunk.t :=
  match Program.function (Program.new []) [] 0 (crowded_body true) with
  | Some (_, p) => Program.build p
  | None => Program.build (Program.new [])
  end.

Lemma locals_collide :
  verify crowded = Ok tt /\
  Chunk.code crowded = [Instruction.a_imm Opcode.LoadImm 255 1;
    Instruction.a_imm Opcode.LoadImm 255 2; Instruction.abc Opcode.Add 255 255 255;
    Instruction.abc Opcode.Return 255 0 0] /\
  FunctionDef.num_registers <$> Chunk.functions crowded = [255].
Proof. by vm_compute. Qed.
