(* ===== verification/Samples.v ===== *)
(** The demonstration modules of samples.rs, written with the structured assembler as the
    source writes them.  [None] is a panic of the assembler. *)

From S2P Require Import Prelude Capability F64 Values Isa Verify Builder Native Program.

(** [samples.rs:31-32] [N_PRINT and N_MAKE_MSG] *)
Definition N_PRINT : Z := Std.PRINT.
Definition N_MAKE_MSG : Z := Std.MAKE_MSG.

(** [samples.rs:35-40] [TAG_REQ .. TAG_JUNK] *)
Definition TAG_REQ : Z := 1.
Definition TAG_REP : Z := 2.
Definition TAG_PING : Z := 10.
Definition TAG_PONG : Z := 11.
Definition TAG_JUNK : Z := 99.

Section samples.
Context (checks : bool).

(** [samples.rs] [add_forty_two] *)
Definition add_forty_two : option Chunk.t :=
  let p := Program.new (ascii_bytes "add-forty-two") in
  '(_, p) ← Program.function p (ascii_bytes "main") 0 (
    let& a := load_i32 41 in
    let& b := load_i32 1 in
    let& sum := add checks a b in
    return_ sum);
  Some (Program.build p).

(** [samples.rs] [ping_pong] *)
Definition ping_pong : option Chunk.t :=
  let p := Program.new (ascii_bytes "ping-pong") in
  '(pong, p) ← Program.function p (ascii_bytes "pong") 0 (
    let& msg := receive in
    let& payload := hop_payload msg in
    let& _ := add_imm checks payload 1 in
    let& _ := send_reply checks msg TAG_PONG payload in
    exit_ payload);
  '(_, p) ← Program.function p (ascii_bytes "main") 0 (
    let& child := spawn pong 0 in
    let& payload := load_i32 1 in
    let& req := hop_fresh checks TAG_PING payload in
    let& rid := hop_request_id req in
    let& _ := send child req in
    let& reply := receive_match_corr_imm TAG_PONG rid in
    let& out := hop_payload reply in
    return_ out);
  Some (Program.build p).

(** [samples.rs] [atomic_request_reply] *)
Definition atomic_request_reply : option Chunk.t :=
  let p := Program.new (ascii_bytes "atomic-request-reply") in
  '(server, p) ← Program.function p (ascii_bytes "server") 0 (
    let& msg := receive in
    let& _ := native1_on msg N_PRINT in
    let& payload := hop_payload msg in
    let& _ := add_imm checks payload 1 in
    let& _ := send_reply checks msg TAG_REP payload in
    exit_ payload);
  '(_, p) ← Program.function p (ascii_bytes "main") 0 (
    let& server_cap := spawn server 0 in
    let& payload := load_i32 41 in
    let& req := hop_fresh checks TAG_REQ payload in
    let& rid := hop_request_id req in
    let& _ := native1_on req N_PRINT in
    let& _ := send server_cap req in
    let& reply := receive_match_corr_imm TAG_REP rid in
    let& _ := native1_on reply N_PRINT in
    let& out := hop_payload reply in
    return_ out);
  Some (Program.build p).

(** [samples.rs] [selective_receive] *)
Definition selective_receive : option Chunk.t :=
  let p := Program.new (ascii_bytes "selective-receive") in
  '(server, p) ← Program.function p (ascii_bytes "server") 0 (
    let& msg := receive_match_imm TAG_REQ in
    let& payload := hop_payload msg in
    let& _ := add_imm checks payload 1 in
    let& _ := send_reply checks msg TAG_REP payload in
    let& junk := receive in
    let& tag := hop_tag junk in
    let& is_junk := eq_imm checks tag TAG_JUNK in
    let& trap_lbl := label checks in
    let& _ := branch_if_falsy is_junk trap_lbl in
    let& _ := exit_ payload in
    let& _ := bind_ trap_lbl in
    trap 2);
  '(_, p) ← Program.function p (ascii_bytes "main") 0 (
    let& server_cap := spawn server 0 in
    let& req_id := load_i32 1 in
    let& zero := load_i32 0 in
    let& junk := hop checks req_id TAG_JUNK zero in
    let& _ := send server_cap junk in
    let& payload := load_i32 41 in
    let& req := hop checks req_id TAG_REQ payload in
    let& _ := send server_cap req in
    let& reply := receive_match_imm TAG_REP in
    let& out := hop_payload reply in
    return_ out);
  Some (Program.build p).

(** [samples.rs] [ask_reply] *)
Definition ask_reply : option Chunk.t :=
  let p := Program.new (ascii_bytes "ask-reply") in
  '(server, p) ← Program.function p (ascii_bytes "server") 0 (
    let& msg := receive_match_imm TAG_REQ in
    let& payload := hop_payload msg in
    let& _ := add_imm checks payload 1 in
    let& _ := send_reply checks msg TAG_REP payload in
    exit_ payload);
  '(_, p) ← Program.function p (ascii_bytes "main") 0 (
    let& server_cap := spawn server 0 in
    let& payload := load_i32 41 in
    let& req := hop_fresh checks TAG_REQ payload in
    let& reply := ask server_cap req in
    let& out := hop_payload reply in
    return_ out);
  Some (Program.build p).

(** [samples.rs] [ask_timeout_expires] *)
Definition ask_timeout_expires : option Chunk.t :=
  let p := Program.new (ascii_bytes "ask-timeout") in
  '(server, p) ← Program.function p (ascii_bytes "server") 0 (
    let& _ := receive in
    let& ms := load_i32 10000 in
    let& _ := sleep ms in
    let& zero := load_i32 0 in
    return_ zero);
  '(_, p) ← Program.function p (ascii_bytes "main") 0 (
    let& server_cap := spawn server 0 in
    let& req_id := load_i32 1 in
    let& payload := load_i32 0 in
    let& req := hop checks req_id TAG_REQ payload in
    let& ms := load_i32 40 in
    let& reply := ask_timeout server_cap req ms in
    return_ reply);
  Some (Program.build p).

(** [samples.rs] [ask_target_exits] *)
Definition ask_target_exits : option Chunk.t :=
  let p := Program.new (ascii_bytes "ask-target-exits") in
  '(server, p) ← Program.function p (ascii_bytes "server") 0 (
    let& _ := receive in
    let& z := load_i32 0 in
    return_ z);
  '(_, p) ← Program.function p (ascii_bytes "main") 0 (
    let& server_cap := spawn server 0 in
    let& req_id := load_i32 1 in
    let& payload := load_i32 0 in
    let& req := hop checks req_id TAG_REQ payload in
    let& reply := ask server_cap req in
    let& tag := hop_tag reply in
    return_ tag);
  Some (Program.build p).

(** [samples.rs] [server_loop] *)
Definition server_loop : option Chunk.t :=
  let p := Program.new (ascii_bytes "server-loop") in
  '(server, p) ← Program.function p (ascii_bytes "server") 0 (
    let& loop_lbl := label checks in
    let& _ := bind_ loop_lbl in
    let& req := receive_match_imm TAG_REQ in
    let& payload := hop_payload req in
    let& _ := add_imm checks payload 1 in
    let& _ := send_reply checks req TAG_REP payload in
    jump loop_lbl);
  '(_, p) ← Program.function p (ascii_bytes "main") 0 (
    let& server_cap := spawn server 0 in
    let& payload := load_i32 41 in
    let& req := hop_fresh checks TAG_REQ payload in
    let& _ := send server_cap req in
    let& reply := receive_match_imm TAG_REP in
    let& out := hop_payload reply in
    return_ out);
  Some (Program.build p).

(** [samples.rs] [named_service] *)
Definition named_service (fresh1 fresh2 : ptr) : option Chunk.t :=
  let p := Program.new (ascii_bytes "named-service") in
  '(server, p) ← Program.function p (ascii_bytes "server") 0 (
    let& name := load_str fresh1 (ascii_bytes "svc") in
    let& _ := register_name name in
    let& loop_lbl := label checks in
    let& _ := bind_ loop_lbl in
    let& req := receive_match_imm TAG_REQ in
    let& payload := hop_payload req in
    let& _ := add_imm checks payload 1 in
    let& _ := send_reply checks req TAG_REP payload in
    jump loop_lbl);
  '(_, p) ← Program.function p (ascii_bytes "main") 0 (
    let& _ := spawn server 0 in
    let& name := load_str fresh2 (ascii_bytes "svc") in
    let& retry := label checks in
    let& miss := label checks in
    let& _ := bind_ retry in
    let& cap := whereis name in
    let& _ := branch_if_falsy cap miss in
    let& payload := load_i32 41 in
    let& req := hop_fresh checks TAG_REQ payload in
    let& _ := send cap req in
    let& reply := receive_match_imm TAG_REP in
    let& out := hop_payload reply in
    let& _ := return_ out in
    let& _ := bind_ miss in
    let& ms := load_i32 1 in
    let& _ := sleep ms in
    jump retry);
  Some (Program.build p).

(** [samples.rs] [atomic_actors] *)
Definition atomic_actors : option Chunk.t :=
  let N := 8 in
  let p := Program.new (ascii_bytes "atomic-actors") in
  '(server, p) ← Program.function p (ascii_bytes "server") 0 (
    let& loop_lbl := label checks in
    let& _ := bind_ loop_lbl in
    let& req := receive_match_imm TAG_REQ in
    let& payload := hop_payload req in
    let& _ := add_imm checks payload 1 in
    let& _ := send_reply checks req TAG_REP payload in
    jump loop_lbl);
  '(client, p) ← Program.function p (ascii_bytes "client") 2 (
    let& server_cap := reg 0 in
    let& parent_cap := reg 1 in
    let& acc := load_i32 0 in
    let& i := load_i32 0 in
    let& n := load_i32 N in
    let& _ := while_lt checks i n (
      let& req := hop_fresh checks TAG_REQ i in
      let& reply := ask server_cap req in
      let& got := hop_payload reply in
      let& sum := add checks acc got in
      let& _ := mov acc sum in
      add_imm checks i 1) in
    let& done := hop_fresh checks TAG_REP acc in
    let& _ := send parent_cap done in
    return_ acc);
  '(_, p) ← Program.function p (ascii_bytes "main") 0 (
    let& server_cap := spawn server 0 in
    let& me := self_cap in
    let& w1 := window 3 in
    let& w1_1 := a_opt (at_ checks w1 1) in
    let& _ := mov w1_1 server_cap in
    let& w1_2 := a_opt (at_ checks w1 2) in
    let& _ := mov w1_2 me in
    let& w1_0 := a_opt (at_ checks w1 0) in
    let& _ := spawn_at w1_0 client 2 in
    let& w2 := window 3 in
    let& w2_1 := a_opt (at_ checks w2 1) in
    let& _ := mov w2_1 server_cap in
    let& w2_2 := a_opt (at_ checks w2 2) in
    let& _ := mov w2_2 me in
    let& w2_0 := a_opt (at_ checks w2 0) in
    let& _ := spawn_at w2_0 client 2 in
    let& a := receive_match_imm TAG_REP in
    let& b := receive_match_imm TAG_REP in
    let& pa := hop_payload a in
    let& pb := hop_payload b in
    let& out := add checks pa pb in
    return_ out);
  Some (Program.build p).

(** [samples.rs] [cap_in_payload] *)
Definition cap_in_payload : option Chunk.t :=
  let p := Program.new (ascii_bytes "cap-in-payload") in
  '(server, p) ← Program.function p (ascii_bytes "server") 0 (
    let& msg := receive in
    let& dest := hop_payload msg in
    let& payload := load_i32 42 in
    let& reply := hop_fresh checks TAG_REP payload in
    let& _ := send dest reply in
    exit_ payload);
  '(_, p) ← Program.function p (ascii_bytes "main") 0 (
    let& server_cap := spawn server 0 in
    let& me := self_cap in
    let& req := hop_fresh checks TAG_REQ me in
    let& _ := send server_cap req in
    let& reply := receive_match_imm TAG_REP in
    let& out := hop_payload reply in
    return_ out);
  Some (Program.build p).

(** [samples.rs] [forged_sender_send] *)
Definition forged_sender_send : option Chunk.t :=
  let p := Program.new (ascii_bytes "forged-sender-send") in
  '(server, p) ← Program.function p (ascii_bytes "server") 0 (
    let& msg := receive in
    let& sender := hop_sender msg in
    let& _ := send_reply checks msg TAG_REP sender in
    exit_ sender);
  '(_, p) ← Program.function p (ascii_bytes "main") 0 (
    let& server_cap := spawn server 0 in
    let& forged := load_i32 999 in
    let& req_id := load_i32 1 in
    let& zero := load_i32 0 in
    let& req := make_msg_legacy_sender checks N_MAKE_MSG forged req_id TAG_REQ zero in
    let& _ := send server_cap req in
    let& reply := receive in
    let& out := hop_payload reply in
    return_ out);
  Some (Program.build p).

(** [samples.rs] [forged_sender_ask] *)
Definition forged_sender_ask : option Chunk.t :=
  let p := Program.new (ascii_bytes "forged-sender-ask") in
  '(server, p) ← Program.function p (ascii_bytes "server") 0 (
    let& msg := receive_match_imm TAG_REQ in
    let& sender := hop_sender msg in
    let& _ := send_reply checks msg TAG_REP sender in
    exit_ sender);
  '(_, p) ← Program.function p (ascii_bytes "main") 0 (
    let& server_cap := spawn server 0 in
    let& forged := load_i32 999 in
    let& req_id := load_i32 1 in
    let& zero := load_i32 0 in
    let& req := make_msg_legacy_sender checks N_MAKE_MSG forged req_id TAG_REQ zero in
    let& reply := ask server_cap req in
    let& out := hop_payload reply in
    return_ out);
  Some (Program.build p).

(** [samples.rs] [monitor_down] *)
Definition monitor_down : option Chunk.t :=
  let p := Program.new (ascii_bytes "monitor-down") in
  '(child, p) ← Program.function p (ascii_bytes "child") 0 (
    let& ms := load_i32 40 in
    let& _ := sleep ms in
    let& z := load_i32 0 in
    return_ z);
  '(_, p) ← Program.function p (ascii_bytes "main") 0 (
    let& cap := spawn child 0 in
    let& mon := monitor cap in
    let& msg := receive_match_imm TAG_SYS_DOWN in
    let& id := hop_request_id msg in
    let& ok := eq_ checks id mon in
    let& trap_ := label checks in
    let& _ := branch_if_falsy ok trap_ in
    let& out := hop_payload msg in
    let& _ := return_ out in
    let& _ := bind_ trap_ in
    trap 3);
  Some (Program.build p).

(** [samples.rs] [waiting_send] *)
Definition waiting_send : option Chunk.t :=
  let p := Program.new (ascii_bytes "waiting-send") in
  '(_, p) ← Program.function p (ascii_bytes "server") 0 (
    let& ms := load_i32 50 in
    let& _ := sleep ms in
    let& _ := receive in
    let& second := receive in
    let& out := hop_payload second in
    return_ out);
  '(_, p) ← Program.function p (ascii_bytes "client") 1 (
    let& server := reg 0 in
    let& req_id := load_i32 1 in
    let& one := load_i32 1 in
    let& first := hop checks req_id TAG_REQ one in
    let& _ := send server first in
    let& forty_two := load_i32 42 in
    let& second := hop checks req_id TAG_REQ forty_two in
    let& _ := send server second in
    exit_ second);
  Some (Program.build p).

(** [samples.rs] [boom] *)
Definition boom : option Chunk.t :=
  let p := Program.new (ascii_bytes "boom") in
  '(_, p) ← Program.function p (ascii_bytes "boom") 0 (
    trap 1);
  Some (Program.build p).

End samples.
