(* ===== verification/Vm.v ===== *)
(** The bytecode virtual machine: frames, results, every instruction handler and
    the budgeted run loop.  Models vm/frame.rs, vm/result.rs and vm/machine.rs.

    A method that returns [Result<A, Fault>] is a [R A]: it threads the state of
    the VM and of the world it shares, and may panic ([None]).  An instruction
    handler is a [M A]: it continues, returns a [VmResult] from [run], or panics.
    [checks] says whether the build has overflow checks and debug assertions. *)

From S2P Require Import Prelude Capability F64 Values Isa Sync Quota Native.

Module Frame.

(** [vm/frame.rs] [Frame] *)
Record t := mk {
  function : Z;
  pc : Z;
  registers : list Value.t;
  dest_reg : option Z }.

(** [vm/frame.rs] [Frame::new] *)
Definition new (function num_registers : Z) (dest_reg : option Z) : t :=
  mk function 0 (replicate (Z.to_nat num_registers) Value.Unit) dest_reg.

Definition with_pc (f : t) (p : Z) : t := mk (function f) p (registers f) (dest_reg f).
Definition with_registers (f : t) (r : list Value.t) : t :=
  mk (function f) (pc f) r (dest_reg f).

End Frame.

(** [Duration], in milliseconds: the VM only builds durations from them. *)
Definition duration : Type := Z.

Module VmResult.

(** [vm/result.rs] [VmResult] *)
Inductive t :=
| Complete (v : Value.t)
| Yield
| Sleep (d : duration)
| Spawn (function : Z) (args : list Value.t) (dest_reg : Z) (requested_rights : CapRights.t)
| SelfPid (dest_reg : Z)
| Send (target_cap : CapId.t) (message : Value.t)
| Receive (dest_reg : Z) (timeout : option duration) (match_tag match_request_id : option Z)
| Ask (dest_reg : Z) (target_cap : CapId.t) (request : Value.t) (timeout : option duration)
| Monitor (dest_reg : Z) (target_cap : CapId.t)
| Demonitor (monitor_reg : Z)
| Link (dest_reg : Z) (target_cap : CapId.t)
| Unlink (link_reg : Z)
| RegisterName (name : ptr * list byte)
| Whereis (dest_reg : Z) (name : ptr * list byte)
| Delegate (dest_reg : Z) (src_cap : CapId.t) (want_rights : CapRights.t)
    (want_native_cap : option CapId.t)
| Trap (f : Fault.t).

End VmResult.

(** [vm/machine.rs] [MAX_CALL_DEPTH] *)
Definition MAX_CALL_DEPTH : Z := 4096.

(** [vm/machine.rs] [Vm]: the head of [frames] is the top of the stack; [quota]
    refers to a quota of the world. *)
Record Vm (H : Type) := mk_vm {
  chunk : Chunk.t;
  natives : NativeTable.t H;
  native_gate : NativeGate.t;
  frames : list Frame.t;
  instructions_executed : Z;
  next_request_id : Z;
  quota : option N }.
Arguments mk_vm {H} _ _ _ _ _ _ _.
Arguments chunk {H} _.
Arguments natives {H} _.
Arguments native_gate {H} _.
Arguments frames {H} _.
Arguments instructions_executed {H} _.
Arguments next_request_id {H} _.
Arguments quota {H} _.

Section vm_updates.
Context {H : Type}.
Implicit Type vm : Vm H.
Definition with_frames vm (fs : list Frame.t) : Vm H :=
  mk_vm (chunk vm) (natives vm) (native_gate vm) fs (instructions_executed vm)
    (next_request_id vm) (quota vm).
Definition with_executed vm (n : Z) : Vm H :=
  mk_vm (chunk vm) (natives vm) (native_gate vm) (frames vm) n (next_request_id vm) (quota vm).
Definition with_next_request_id vm (n : Z) : Vm H :=
  mk_vm (chunk vm) (natives vm) (native_gate vm) (frames vm) (instructions_executed vm) n
    (quota vm).
Definition with_quota vm (q : option N) : Vm H :=
  mk_vm (chunk vm) (natives vm) (native_gate vm) (frames vm) (instructions_executed vm)
    (next_request_id vm) q.
End vm_updates.

Record state (H : Type) := mk_state { vm : Vm H; wld : world H }.
Arguments mk_state {H} _ _.
Arguments vm {H} _.
Arguments wld {H} _.

Definition R (H A : Type) : Type := state H -> option (result A Fault.t) * state H.

Inductive ctl (A : Type) := Next (a : A) | Return (r : VmResult.t) | Panic.
Arguments Next {A} a.
Arguments Return {A} r.
Arguments Panic {A}.

Definition M (H A : Type) : Type := state H -> ctl A * state H.

Section machine.
Context {H : Type} (checks : bool).
Implicit Type s : state H.

Definition ok_ {A} (a : A) : R H A := fun s => (Some (Ok a), s).
Definition fail {A} (f : Fault.t) : R H A := fun s => (Some (Err f), s).
Definition r_bind {A B} (m : R H A) (f : A -> R H B) : R H B := fun s =>
  match m s with
  | (Some (Ok a), s') => f a s'
  | (Some (Err e), s') => (Some (Err e), s')
  | (None, s') => (None, s')
  end.
Definition ret_ {A} (a : A) : M H A := fun s => (Next a, s).
Definition exit_ {A} (r : VmResult.t) : M H A := fun s => (Return r, s).
Definition m_bind {A B} (m : M H A) (f : A -> M H B) : M H B := fun s =>
  match m s with
  | (Next a, s') => f a s'
  | (Return r, s') => (Return r, s')
  | (Panic, s') => (Panic, s')
  end.

(** The [trap!] macro of [run]. *)
Definition trap {A} (m : R H A) : M H A := fun s =>
  match m s with
  | (Some (Ok v), s') => (Next v, s')
  | (Some (Err fault), s') => (Return (VmResult.Trap fault), s')
  | (None, s') => (Panic, s')
  end.

Notation "'let#' x ':=' m 'in' k" := (r_bind m (fun x => k))
  (at level 10, x pattern, m at level 200, k at level 200).
Notation "'let!' x ':=' m 'in' k" := (m_bind m (fun x => k))
  (at level 10, x pattern, m at level 200, k at level 200).

(** A check that only reads the VM. *)
Definition pure_r {A} (r : result A Fault.t) : R H A := fun s => (Some r, s).
Definition get_state {A} (f : state H -> R H A) : R H A := fun s => f s s.
Definition reading {A} (f : Vm H -> M H A) : M H A := fun s => f (vm s) s.

Definition set_frames (fs : list Frame.t) : R H unit := fun s =>
  (Some (Ok tt), mk_state (with_frames (vm s) fs) (wld s)).

(** [registers.len() as u8]. *)
Definition frame_size (f : Frame.t) : Z := wrap_u 8 (Z.of_nat (length (Frame.registers f))).

Definition empty_stack : Fault.t := Fault.Invariant "empty frame stack while running".

(** [vm/machine.rs] [charge_heap_value] *)
Definition charge_heap_value (q : N) (value : Value.t) : R H unit := fun s =>
  match (match value with
         | Value.Str _ b | Value.Bytes _ b => Some (Z.of_nat (length b))
         | _ => None
         end) with
  | None | Some 0 => (Some (Ok tt), s)
  | Some bytes =>
    let (r, q') := FlowQuota.alloc (quotas (wld s) !!! q) bytes in
    let s' := mk_state (vm s) (with_quotas (wld s) (<[q := q']> (quotas (wld s)))) in
    (Some (match r with
           | Ok _ => Ok tt
           | Err e => Err (Fault.QuotaExceeded (quota_error_display e))
           end), s')
  end.

(** [vm/machine.rs] [Vm::current]: the top frame; [f] is what is done with the
    [&mut Frame]. *)
Definition current {A} (f : Frame.t -> Frame.t * A) : R H A := fun s =>
  match frames (vm s) with
  | [] => (if checks then None else Some (Err empty_stack), s)
  | top :: rest =>
    let (top', a) := f top in
    (Some (Ok a), mk_state (with_frames (vm s) (top' :: rest)) (wld s))
  end.

(** [vm/machine.rs] [Vm::get_reg] *)
Definition get_reg (reg : Z) : R H Value.t := fun s =>
  match frames (vm s) with
  | [] => (Some (Err empty_stack), s)
  | frame :: _ =>
    match get (Frame.registers frame) reg with
    | Some v => (Some (Ok v), s)
    | None => (Some (Err (Fault.RegisterOutOfRange reg (frame_size frame))), s)
    end
  end.

(** [vm/machine.rs] [Vm::peek_reg] *)
Definition peek_reg (s : state H) (reg : Z) : option Value.t :=
  match frames (vm s) with
  | [] => None
  | frame :: _ => get (Frame.registers frame) reg
  end.

(** [vm/machine.rs] [Vm::charge_register_store] *)
Definition charge_register_store (reg : Z) (value : Value.t) : R H unit := fun s =>
  match quota (vm s) with
  | None => (Some (Ok tt), s)
  | Some q =>
    match value, peek_reg s reg with
    | Value.Str p _, Some (Value.Str old _) =>
      if ptr_eq p old then (Some (Ok tt), s) else charge_heap_value q value s
    | Value.Bytes p _, Some (Value.Bytes old _) =>
      if ptr_eq p old then (Some (Ok tt), s) else charge_heap_value q value s
    | Value.Str _ _, _ | Value.Bytes _ _, _ => charge_heap_value q value s
    | _, _ => (Some (Ok tt), s)
    end
  end.

(** [vm/machine.rs] [Vm::set_reg] *)
Definition set_reg (reg : Z) (value : Value.t) : R H unit :=
  let# _ := charge_register_store reg value in
  let# r := current (fun frame =>
    match get (Frame.registers frame) reg with
    | Some _ =>
      (Frame.with_registers frame (<[Z.to_nat reg := value]> (Frame.registers frame)), Ok tt)
    | None => (frame, Err (Fault.RegisterOutOfRange reg (frame_size frame)))
    end) in
  pure_r r.

(** [vm/machine.rs] [Vm::fetch] *)
Definition fetch : R H (option Instruction.t) :=
  let# pc := current (fun frame => (frame, Frame.pc frame)) in
  get_state (fun s =>
    match get (Chunk.code (chunk (vm s))) pc with
    | Some instr =>
      let# _ := current (fun frame => (Frame.with_pc frame (pc + 1), tt)) in
      ok_ (Some instr)
    | None => ok_ None
    end).

(** [vm/machine.rs] [as_f64] *)
Definition as_f64 (v : Value.t) : result F64.t Fault.t :=
  match v with
  | Value.Int i => Ok (F64.of_i64 i)
  | Value.Float f => Ok f
  | other => Err (Fault.TypeMismatch "int or float" (Value.type_name other))
  end.

(** [a op b] on floats, converting [a] first. *)
Definition float_binop (f : F64.t -> F64.t -> Value.t) (a b : Value.t)
  : result Value.t Fault.t :=
  let? x := as_f64 a in let? y := as_f64 b in Ok (f x y).

(** [vm/machine.rs:276-309] [Vm::numeric_binop, the operation] *)
Definition binop_value (op : Opcode.t) (a b : Value.t) : result Value.t Fault.t :=
  match op, a, b with
  | Opcode.Add, Value.Int x, Value.Int y => Ok (Value.Int (wrap_i 64 (x + y)))
  | Opcode.Add, _, _ => float_binop (fun x y => Value.Float (F64.add x y)) a b
  | Opcode.Sub, Value.Int x, Value.Int y => Ok (Value.Int (wrap_i 64 (x - y)))
  | Opcode.Sub, _, _ => float_binop (fun x y => Value.Float (F64.sub x y)) a b
  | Opcode.Mul, Value.Int x, Value.Int y => Ok (Value.Int (wrap_i 64 (x * y)))
  | Opcode.Mul, _, _ => float_binop (fun x y => Value.Float (F64.mul x y)) a b
  | Opcode.Div, Value.Int x, Value.Int y =>
    if y =? 0 then Err Fault.DivideByZero else Ok (Value.Int (wrap_i 64 (Z.quot x y)))
  | Opcode.Div, _, _ =>
    let? denom := as_f64 b in
    let? num := as_f64 a in
    Ok (Value.Float (F64.div num denom))
  | Opcode.Mod, Value.Int x, Value.Int y =>
    if y =? 0 then Err Fault.DivideByZero else Ok (Value.Int (Z.rem x y))
  | Opcode.Eq, _, _ => Ok (Value.Bool (Value.eqb a b))
  | Opcode.Lt, Value.Int x, Value.Int y => Ok (Value.Bool (x <? y))
  | Opcode.Lt, _, _ => float_binop (fun x y => Value.Bool (F64.ltb x y)) a b
  | Opcode.Le, Value.Int x, Value.Int y => Ok (Value.Bool (x <=? y))
  | Opcode.Le, _, _ => float_binop (fun x y => Value.Bool (F64.leb x y)) a b
  | _, _, _ => Err (Fault.Invariant "numeric_binop called with a non-arithmetic opcode")
  end.

(** [vm/machine.rs] [Vm::numeric_binop] *)
Definition numeric_binop (op : Opcode.t) (dst lhs rhs : Z) : R H unit :=
  let# a := get_reg lhs in
  let# b := get_reg rhs in
  let# result := pure_r (binop_value op a b) in
  set_reg dst result.

(** [vm/machine.rs] [reg_at] *)
Definition reg_at (base offset : Z) : result Z Fault.t :=
  if base + offset <=? u8_max then Ok (base + offset)
  else Err (Fault.RegisterIndexOverflow base (if offset <=? u8_max then offset else u8_max)).

(** [vm/machine.rs] [tag_from_value] *)
Definition tag_from_value (v : Value.t) : result Z Fault.t :=
  match Value.as_int v with
  | Some i =>
    if (0 <=? i) && (i <=? u16_max) then Ok i
    else Err (Fault.TypeMismatch "tag u16" "int-out-of-range")
  | None => Err (Fault.TypeMismatch "int" (Value.type_name v))
  end.

(** [vm/machine.rs] [request_id_from_value] *)
Definition request_id_from_value (v : Value.t) : result Z Fault.t :=
  match Value.as_int v with
  | Some i =>
    if 0 <=? i then Ok i else Err (Fault.TypeMismatch "request_id u64" "negative-int")
  | None => Err (Fault.TypeMismatch "int" (Value.type_name v))
  end.

(** [vm/machine.rs] [Vm::pop_frame] *)
Definition pop_frame (value : Value.t) : R H (option VmResult.t) := fun s =>
  match frames (vm s) with
  | [] => (Some (Err (Fault.Invariant "pop_frame on empty stack")), s)
  | finished :: rest =>
    let s1 := mk_state (with_frames (vm s) rest) (wld s) in
    match Frame.dest_reg finished with
    | Some dest =>
      match set_reg dest value s1 with
      | (None, s2) => (None, s2)
      | (Some (Err _), s2) =>
        let size := match frames (vm s2) with f :: _ => frame_size f | [] => 0 end in
        (Some (Ok (Some (VmResult.Trap (Fault.RegisterOutOfRange dest size)))), s2)
      | (Some (Ok _), s2) => (Some (Ok None), s2)
      end
    | None => (Some (Ok (Some (VmResult.Complete value))), s1)
    end
  end.

(** One draw of the counter in [fresh_request_id]. *)
Definition draw_request_id : R H Z := fun s =>
  let id := next_request_id (vm s) in
  (Some (Ok id), mk_state (with_next_request_id (vm s) (sat_add_u64 id 1)) (wld s)).

(** [vm/machine.rs] [Vm::fresh_request_id]: after a draw of 0 the counter is at
    1, so the recursive call does not recurse. *)
Definition fresh_request_id : R H Z :=
  let# id := draw_request_id in
  if id =? 0 then draw_request_id else ok_ id.

(** [vm/machine.rs:66-76] [Vm::with_native_gate, the argument loop]: copies the
    first [arity] arguments into a new frame's registers, from argument [i] on. *)
Fixpoint load_args (num_registers arity : Z) (i : Z) (args : list Value.t)
    (regs : list Value.t) : result (list Value.t) Fault.t :=
  match args with
  | [] => Ok regs
  | arg :: args' =>
    if arity <=? i then Ok regs
    else match get regs i with
    | Some _ => load_args num_registers arity (i + 1) args' (<[Z.to_nat i := arg]> regs)
    | None => Err (Fault.RegisterOutOfRange (wrap_u 8 i) num_registers)
    end
  end.

(** [vm/machine.rs:419-422] [Vm::run, the argument gathering of Call]:
    [for i in 0..argc { args.push(self.get_reg(reg_at(base, i + offset)?)?) }],
    from [i] on. *)
Fixpoint gather (argc : nat) (base offset i : Z) : R H (list Value.t) :=
  match argc with
  | O => ok_ []
  | S argc' =>
    let# reg := pure_r (reg_at base (i + offset)) in
    let# v := get_reg reg in
    let# vs := gather argc' base offset (i + 1) in
    ok_ (v :: vs)
  end.

End machine.

Notation "'let#' x ':=' m 'in' k" := (r_bind m (fun x => k))
  (at level 10, x pattern, m at level 200, k at level 200) : rust_scope.
Notation "'let!' x ':=' m 'in' k" := (m_bind m (fun x => k))
  (at level 10, x pattern, m at level 200, k at level 200) : rust_scope.

(** ** Construction and the interface to the scheduler and the JIT *)

Section interface.
Context {H : Type} (checks : bool).

(** [vm/machine.rs] [Vm::with_native_gate] *)
Definition with_native_gate (ch : Chunk.t) (nat : NativeTable.t H) (gate : NativeGate.t)
    (function : Z) (args : list Value.t) : result (Vm H) Fault.t :=
  match Chunk.function ch function with
  | None => Err (Fault.BadFunction function (len_u32 (Chunk.functions ch)))
  | Some def =>
    let frame := Frame.new function (FunctionDef.num_registers def) None in
    let frame := Frame.with_pc frame (FunctionDef.entry def) in
    let? regs := load_args (FunctionDef.num_registers def) (FunctionDef.arity def) 0 args
                   (Frame.registers frame) in
    Ok (mk_vm ch nat gate [Frame.with_registers frame regs] 0 1 None)
  end.

(** [vm/machine.rs] [Vm::new] *)
Definition new (ch : Chunk.t) (nat : NativeTable.t H) (function : Z) (args : list Value.t)
    (w : world H) : result (Vm H) Fault.t * world H :=
  let (gate, cs) := NativeGate.deny (NativeTable.len nat) (cells w) in
  (with_native_gate ch nat gate function args, with_cells w cs).

(** The loop over the slots of the frames in [set_quota]. *)
Fixpoint charge_slots (q : N) (slots : list Value.t) : R H unit :=
  match slots with
  | [] => ok_ tt
  | slot :: slots' => let# _ := charge_heap_value q slot in charge_slots q slots'
  end.

(** [vm/machine.rs] [Vm::set_quota]: the frames are charged bottom first. *)
Definition set_quota (q : N) : R H unit := fun s =>
  (let# _ := charge_slots q (concat (map Frame.registers (rev (frames (vm s))))) in
   fun s' => (Some (Ok tt), mk_state (with_quota (vm s') (Some q)) (wld s'))) s.

(** [vm/machine.rs] [Vm::current_function]: asserts a non-empty stack. *)
Definition current_function (v : Vm H) : option Z :=
  match frames v with
  | frame :: _ => Some (Frame.function frame)
  | [] => if checks then None else Some 0
  end.

(** [vm/machine.rs] [Vm::chunk_arc] *)
Definition chunk_arc (v : Vm H) : Chunk.t := chunk v.

(** [vm/machine.rs] [Vm::natives_arc] *)
Definition natives_arc (v : Vm H) : NativeTable.t H := natives v.

(** [vm/machine.rs] [Vm::resume_with] *)
Definition resume_with (dest_reg : Z) (value : Value.t) : R H unit :=
  set_reg checks dest_reg value.

(** [vm/machine.rs] [Vm::current_pc] *)
Definition current_pc (v : Vm H) : option Z := Frame.pc <$> head (frames v).

(** [vm/machine.rs] [Vm::current_num_registers] *)
Definition current_num_registers (v : Vm H) : option Z := frame_size <$> head (frames v).

(** [vm/machine.rs] [Vm::top_registers] *)
Definition top_registers (v : Vm H) : option (list Value.t) :=
  Frame.registers <$> head (frames v).

(** [vm/machine.rs] [Vm::set_pc] *)
Definition set_pc (v : Vm H) (p : Z) : Vm H :=
  match frames v with
  | frame :: rest => with_frames v (Frame.with_pc frame p :: rest)
  | [] => v
  end.

(** [vm/machine.rs] [Vm::set_register] *)
Definition set_register (reg : Z) (value : Value.t) : R H unit := set_reg checks reg value.

(** [vm/machine.rs] [Vm::return_value] *)
Definition return_value (value : Value.t) : R H (option VmResult.t) := pop_frame checks value.

End interface.

(** ** Instruction handlers *)

Section handlers.
Context {H : Type} (checks : bool).
Implicit Type i : Instruction.t.

Abbreviation op_a := Instruction.a.
Abbreviation op_b := Instruction.b.
Abbreviation op_c := Instruction.c.
Abbreviation op_imm := Instruction.imm.

Definition mismatch {A} (expected got : string) : M H A :=
  exit_ (VmResult.Trap (Fault.TypeMismatch expected got)).

(** [vm/machine.rs:346-349] [Vm::run, Halt] *)
Definition op_halt : M H unit :=
  let! v := trap (get_reg 0) in exit_ (VmResult.Complete v).

(** [vm/machine.rs:351-363] [Vm::run, LoadConst] *)
Definition op_load_const i : M H unit :=
  let idx := wrap_u 32 (op_imm i) in
  reading (fun vm =>
    match Chunk.constant (chunk vm) idx with
    | Some konst => trap (set_reg checks (op_a i) konst)
    | None =>
      exit_ (VmResult.Trap (Fault.BadConstant idx (len_u32 (Chunk.constants (chunk vm)))))
    end).

(** [vm/machine.rs:364-366] [Vm::run, LoadImm] *)
Definition op_load_imm i : M H unit :=
  trap (set_reg checks (op_a i) (Value.Int (op_imm i))).

(** [vm/machine.rs:367-370] [Vm::run, Move] *)
Definition op_move i : M H unit :=
  let! v := trap (get_reg (op_b i)) in trap (set_reg checks (op_a i) v).

(** [vm/machine.rs:371-374] [Vm::run, Add .. Le] *)
Definition op_binop i : M H unit :=
  trap (numeric_binop checks (Instruction.op i) (op_a i) (op_b i) (op_c i)).

(** [vm/machine.rs:375-388] [Vm::run, Neg]: [-x] of an [i64] is unadorned. *)
Definition op_neg i : M H unit :=
  let! v := trap (get_reg (op_b i)) in
  match v with
  | Value.Int x =>
    match checked_i checks 64 (- x) with
    | Some y => trap (set_reg checks (op_a i) (Value.Int y))
    | None => fun s => (Panic, s)
    end
  | Value.Float x => trap (set_reg checks (op_a i) (Value.Float (F64.neg x)))
  | other => mismatch "int or float" (Value.type_name other)
  end.

(** [frame.pc as i64 + imm as i64], stored back [as usize]; [None] is the
    overflow panic. *)
Definition jump_target (pc imm : Z) : option Z :=
  wrap_u 64 <$> checked_i checks 64 (wrap_i 64 pc + imm).

(** [vm/machine.rs:389-393] [Vm::run, Jump] *)
Definition op_jump i : M H unit :=
  let! pc := trap (current checks (fun frame => (frame, Frame.pc frame))) in
  match jump_target pc (op_imm i) with
  | Some target => trap (current checks (fun frame => (Frame.with_pc frame target, tt)))
  | None => fun s => (Panic, s)
  end.

(** [vm/machine.rs:394-401] [Vm::run, Branch] *)
Definition op_branch i : M H unit :=
  let! cond := trap (get_reg (op_a i)) in
  if Value.is_truthy cond then ret_ tt else op_jump i.

(** [vm/machine.rs:402-437] [Vm::run, Call] *)
Definition op_call i : M H unit :=
  let function := wrap_u 32 (op_imm i) in
  let argc := op_b i in
  let dst := op_a i in
  reading (fun v =>
    if MAX_CALL_DEPTH <=? Z.of_nat (length (frames v)) then
      exit_ (VmResult.Trap (Fault.CallStackOverflow (Z.of_nat (length (frames v)))))
    else match Chunk.function (chunk v) function with
    | None =>
      exit_ (VmResult.Trap (Fault.BadFunction function (len_u32 (Chunk.functions (chunk v)))))
    | Some def =>
      let! args := trap (gather (Z.to_nat argc) dst 0 0) in
      let new_frame := Frame.new function (FunctionDef.num_registers def) (Some dst) in
      let new_frame := Frame.with_pc new_frame (FunctionDef.entry def) in
      let! regs := trap (pure_r (load_args (FunctionDef.num_registers def)
                     (FunctionDef.arity def) 0 args (Frame.registers new_frame))) in
      fun s => (Next tt,
        mk_state (with_frames (vm s) (Frame.with_registers new_frame regs :: frames (vm s)))
          (wld s))
    end).

(** A native call itself: the function acts on the world. *)
Definition invoke (f : NativeFn H) (args : list Value.t) : R H Value.t := fun s =>
  let (r, w) := f args (wld s) in (r, mk_state (vm s) w).

(** [vm/machine.rs:438-478] [Vm::run, CallNative] *)
Definition op_call_native i : M H unit :=
  let native_index := wrap_u 32 (op_imm i) in
  let argc := op_b i in
  let dst := op_a i in
  fun s0 => reading (fun v =>
    let bad_native := Fault.BadNative native_index (wrap_u 32 (NativeTable.len (natives v))) in
    match check_native_gate (cells (wld s0)) (native_gate v) (natives v) native_index with
    | Err (IndexOutOfRange index) =>
      exit_ (VmResult.Trap (Fault.BadNative index (wrap_u 32 (NativeTable.len (natives v)))))
    | Err other => exit_ (VmResult.Trap (Fault.NativeDenied (native_call_error_display other)))
    | Ok _ =>
      match NativeTable.get (natives v) native_index with
      | None => exit_ (VmResult.Trap bad_native)
      | Some native_fn =>
        let! args := trap (gather (Z.to_nat argc) dst 0 0) in
        let! value := trap (invoke native_fn args) in
        trap (set_reg checks dst value)
      end
    end) s0.

(** What [run] does with the answer of [pop_frame]. *)
Definition finish_pop (r : option VmResult.t) : M H unit :=
  match r with Some result => exit_ result | None => ret_ tt end.

(** [vm/machine.rs:479-486] [Vm::run, Return] *)
Definition op_return i : M H unit :=
  let! v := trap (get_reg (op_a i)) in
  let! r := trap (pop_frame checks v) in
  finish_pop r.

(** [vm/machine.rs:487-509] [Vm::run, Spawn] *)
Definition op_spawn i : M H unit :=
  let! args := trap (gather (Z.to_nat (op_b i)) (op_a i) 1 0) in
  exit_ (VmResult.Spawn (wrap_u 32 (op_imm i)) args (op_a i) (CapRights.from_u8 (op_c i))).

(** [vm/machine.rs:511-523] [Vm::run, Sleep] *)
Definition op_sleep i : M H unit :=
  let! millis := trap (get_reg (op_a i)) in
  match Value.as_int millis with
  | Some ms =>
    if 0 <=? ms then exit_ (VmResult.Sleep ms)
    else mismatch "non-negative int" (Value.type_name millis)
  | None => mismatch "non-negative int" (Value.type_name millis)
  end.

(** [vm/machine.rs:524-527] [Vm::run, Exit] *)
Definition op_exit i : M H unit :=
  let! v := trap (get_reg (op_a i)) in exit_ (VmResult.Complete v).

(** [vm/machine.rs:531-553] [Vm::run, Send] *)
Definition op_send i : M H unit :=
  let! target := trap (get_reg (op_a i)) in
  let! message := trap (get_reg (op_b i)) in
  match Value.as_cap target with
  | None => mismatch "cap" (Value.type_name target)
  | Some cap =>
    match Value.as_message message with
    | None => mismatch "message" (Value.type_name message)
    | Some _ => exit_ (VmResult.Send cap message)
    end
  end.

(** [vm/machine.rs:554-561] [Vm::run, Receive] *)
Definition op_receive i : M H unit := exit_ (VmResult.Receive (op_a i) None None None).

(** A timeout operand: negative and non-integer values mean 0. *)
Definition millis_or_zero (v : Value.t) : Z :=
  match Value.as_int v with
  | Some n => if 0 <=? n then n else 0
  | None => 0
  end.

(** [vm/machine.rs:562-574] [Vm::run, ReceiveTimeout] *)
Definition op_receive_timeout i : M H unit :=
  let! millis := trap (get_reg (op_b i)) in
  exit_ (VmResult.Receive (op_a i) (Some (millis_or_zero millis)) None None).

(** [vm/machine.rs:575-587] [Vm::run, ReceiveMatch] *)
Definition op_receive_match i : M H unit :=
  let! tag_v := trap (get_reg (op_b i)) in
  let! tag := trap (pure_r (tag_from_value tag_v)) in
  exit_ (VmResult.Receive (op_a i) None (Some tag) None).

(** [u16::try_from(imm)] with its guard. *)
Definition imm_tag (imm : Z) : option Z :=
  if (0 <=? imm) && (imm <=? u16_max) then Some imm else None.

(** [vm/machine.rs:588-604] [Vm::run, ReceiveMatchImm] *)
Definition op_receive_match_imm i : M H unit :=
  match imm_tag (op_imm i) with
  | Some tag => exit_ (VmResult.Receive (op_a i) None (Some tag) None)
  | None => mismatch "tag u16" "imm-out-of-range"
  end.

(** [vm/machine.rs:605-608] [Vm::run, FreshRequestId] *)
Definition op_fresh_request_id i : M H unit :=
  let! id := trap fresh_request_id in
  trap (set_reg checks (op_a i) (Value.Int (wrap_i 64 id))).

(** [vm/machine.rs:609-626] [Vm::run, ReceiveMatchCorr] *)
Definition op_receive_match_corr i : M H unit :=
  let! tag_v := trap (get_reg (op_b i)) in
  let! tag := trap (pure_r (tag_from_value tag_v)) in
  let! id_v := trap (get_reg (op_c i)) in
  let! rid := trap (pure_r (request_id_from_value id_v)) in
  exit_ (VmResult.Receive (op_a i) None (Some tag) (Some rid)).

(** [vm/machine.rs:627-648] [Vm::run, ReceiveMatchCorrImm] *)
Definition op_receive_match_corr_imm i : M H unit :=
  match imm_tag (op_imm i) with
  | None => mismatch "tag u16" "imm-out-of-range"
  | Some tag =>
    let! id_v := trap (get_reg (op_b i)) in
    let! rid := trap (pure_r (request_id_from_value id_v)) in
    exit_ (VmResult.Receive (op_a i) None (Some tag) (Some rid))
  end.

(** [vm/machine.rs:649-673] [Vm::run, Ask] *)
Definition op_ask i : M H unit :=
  let! target := trap (get_reg (op_b i)) in
  let! request := trap (get_reg (op_c i)) in
  match Value.as_cap target with
  | None => mismatch "cap" (Value.type_name target)
  | Some cap =>
    match Value.as_message request with
    | None => mismatch "message" (Value.type_name request)
    | Some _ => exit_ (VmResult.Ask (op_a i) cap request None)
    end
  end.

(** [vm/machine.rs:674-712] [Vm::run, AskTimeout] *)
Definition op_ask_timeout i : M H unit :=
  let! target := trap (get_reg (op_b i)) in
  let! request := trap (get_reg (op_c i)) in
  if negb (in_ub 8 (op_imm i)) then mismatch "millis register" "imm-out-of-range"
  else
    let! millis := trap (get_reg (op_imm i)) in
    let ms := millis_or_zero millis in
    match Value.as_cap target with
    | None => mismatch "cap" (Value.type_name target)
    | Some cap =>
      match Value.as_message request with
      | None => mismatch "message" (Value.type_name request)
      | Some _ => exit_ (VmResult.Ask (op_a i) cap request (Some ms))
      end
    end.

(** [vm/machine.rs:713-728] [Vm::run, Monitor] *)
Definition op_monitor i : M H unit :=
  let! target := trap (get_reg (op_b i)) in
  match Value.as_cap target with
  | None => mismatch "cap" (Value.type_name target)
  | Some cap => exit_ (VmResult.Monitor (op_a i) cap)
  end.

(** [vm/machine.rs:734-749] [Vm::run, Link] *)
Definition op_link i : M H unit :=
  let! target := trap (get_reg (op_b i)) in
  match Value.as_cap target with
  | None => mismatch "cap" (Value.type_name target)
  | Some cap => exit_ (VmResult.Link (op_a i) cap)
  end.

(** [vm/machine.rs:755-768] [Vm::run, RegisterName] *)
Definition op_register_name i : M H unit :=
  let! name := trap (get_reg (op_a i)) in
  match name with
  | Value.Str p b => exit_ (VmResult.RegisterName (p, b))
  | other => mismatch "str" (Value.type_name other)
  end.

(** [vm/machine.rs:769-785] [Vm::run, Whereis] *)
Definition op_whereis i : M H unit :=
  let! name := trap (get_reg (op_b i)) in
  match name with
  | Value.Str p b => exit_ (VmResult.Whereis (op_a i) (p, b))
  | other => mismatch "str" (Value.type_name other)
  end.

(** [vm/machine.rs:786-817] [Vm::run, Delegate] *)
Definition op_delegate i : M H unit :=
  let! src := trap (get_reg (op_b i)) in
  match Value.as_cap src with
  | None => mismatch "cap" (Value.type_name src)
  | Some src_cap =>
    let! want_native_cap :=
      (if op_c i =? 255 then ret_ None
       else
         let! v := trap (get_reg (op_c i)) in
         match Value.as_cap v with
         | Some c => ret_ (Some c)
         | None => mismatch "cap" (Value.type_name v)
         end) in
    exit_ (VmResult.Delegate (op_a i) src_cap
             (CapRights.from_bits (wrap_u 32 (op_imm i))) want_native_cap)
  end.

(** [vm/machine.rs:345-820] [Vm::run, match instr.op] *)
Definition dispatch i : M H unit :=
  match Instruction.op i with
  | Opcode.Halt => op_halt
  | Opcode.Nop => ret_ tt
  | Opcode.LoadConst => op_load_const i
  | Opcode.LoadImm => op_load_imm i
  | Opcode.Move => op_move i
  | Opcode.Add | Opcode.Sub | Opcode.Mul | Opcode.Div | Opcode.Mod
  | Opcode.Eq | Opcode.Lt | Opcode.Le => op_binop i
  | Opcode.Neg => op_neg i
  | Opcode.Jump => op_jump i
  | Opcode.Branch => op_branch i
  | Opcode.Call => op_call i
  | Opcode.CallNative => op_call_native i
  | Opcode.Return => op_return i
  | Opcode.Spawn => op_spawn i
  | Opcode.Yield => exit_ VmResult.Yield
  | Opcode.Sleep => op_sleep i
  | Opcode.Exit => op_exit i
  | Opcode.SelfPid => exit_ (VmResult.SelfPid (op_a i))
  | Opcode.Send => op_send i
  | Opcode.Receive => op_receive i
  | Opcode.ReceiveTimeout => op_receive_timeout i
  | Opcode.ReceiveMatch => op_receive_match i
  | Opcode.ReceiveMatchImm => op_receive_match_imm i
  | Opcode.FreshRequestId => op_fresh_request_id i
  | Opcode.ReceiveMatchCorr => op_receive_match_corr i
  | Opcode.ReceiveMatchCorrImm => op_receive_match_corr_imm i
  | Opcode.Ask => op_ask i
  | Opcode.AskTimeout => op_ask_timeout i
  | Opcode.Monitor => op_monitor i
  | Opcode.Demonitor => exit_ (VmResult.Demonitor (op_a i))
  | Opcode.Link => op_link i
  | Opcode.Unlink => exit_ (VmResult.Unlink (op_a i))
  | Opcode.RegisterName => op_register_name i
  | Opcode.Whereis => op_whereis i
  | Opcode.Delegate => op_delegate i
  | Opcode.Trap => exit_ (VmResult.Trap (Fault.Explicit (op_imm i)))
  end.

(** [self.instructions_executed += 1]. *)
Definition count_instruction : M H unit := fun s =>
  match checked_u checks 64 (instructions_executed (vm s) + 1) with
  | Some n => (Next tt, mk_state (with_executed (vm s) n) (wld s))
  | None => (Panic, s)
  end.

(** [vm/machine.rs:322-343] [Vm::run, one iteration] *)
Definition step : M H unit :=
  let! _ := count_instruction in
  let! fetched := trap (fetch checks) in
  match fetched with
  | Some instr => dispatch instr
  | None =>
    let! r := trap (pop_frame checks Value.Unit) in
    finish_pop r
  end.

(** [vm/machine.rs] [Vm::run]: [None] is a panic. *)
Fixpoint run (budget : nat) (s : state H) : option VmResult.t * state H :=
  match budget with
  | O => (Some VmResult.Yield, s)
  | S budget' =>
    match step s with
    | (Next _, s') => run budget' s'
    | (Return r, s') => (Some r, s')
    | (Panic, s') => (None, s')
    end
  end.

End handlers.
