(* ===== verification/VmSafety.v ===== *)
(** Safety of the virtual machine on verified chunks: the state invariant every
    step preserves, the faults that cannot happen, the two ways a checked build
    can panic, and the confinement of capability tokens. *)

From S2P Require Import Prelude Capability F64 Values Isa Verify Sync Quota Native Vm.

(** ** What the code relies on of the natives it is given *)

Section natives.
Context {H : Type}.

(** A value of the right Rust type that carries only tokens of [S]. *)
Definition good (S : CapId.t -> Prop) (v : Value.t) : Prop := value_ok v /\ caps_within S v.

(** A native given good values answers a good value or a native error, does not
    panic, and leaves every quota within its limit. *)
Class NativesSafe (S : CapId.t -> Prop) (natives : NativeTable.t H) : Prop :=
  natives_safe idx f args w :
    NativeTable.get natives idx = Some f -> Forall (good S) args ->
    (forall q, mem_wf (quotas w !!! q) -> mem_wf (quotas (snd (f args w)) !!! q)) /\
    match fst (f args w) with
    | Some (Ok v) => good S v
    | Some (Err (Fault.NativeError _)) => True
    | _ => False
    end.
End natives.

(** ** The invariant *)

Section invariant.
Context {H : Type} (checks : bool) (S : CapId.t -> Prop).
Implicit Type s : state H.

Definition cap_held (c : CapId.t) : Prop := c = CapId.NONE \/ S c.

Record frame_ok (ch : Chunk.t) (f : Frame.t) : Prop := {
  frame_function : exists def, Chunk.function ch (Frame.function f) = Some def /\
    Z.of_nat (length (Frame.registers f)) = FunctionDef.num_registers def;
  frame_pc : 0 <= Frame.pc f <= Z.of_nat (length (Chunk.code ch));
  frame_registers : Forall (good S) (Frame.registers f) }.

(** The bottom frame completes the flow; each other one returns into a register
    of the frame below it. *)
Fixpoint stack_ok (fs : list Frame.t) : Prop :=
  match fs with
  | [] => False
  | [f] => Frame.dest_reg f = None
  | f :: fs' => (exists d, Frame.dest_reg f = Some d /\ in_u 8 d) /\ stack_ok fs'
  end.

Record chunk_inv (ch : Chunk.t) : Prop := {
  ci_wf : code_wf ch;
  ci_ok : chunk_ok ch;
  ci_len : Z.of_nat (length (Chunk.code ch)) < 2 ^ 60;
  ci_consts : Forall (good S) (Chunk.constants ch) }.

Record vm_inv (s : state H) : Prop := {
  inv_chunk : chunk_inv (chunk (vm s));
  inv_natives : NativesSafe S (natives (vm s));
  inv_frames : Forall (frame_ok (chunk (vm s))) (frames (vm s));
  inv_stack : stack_ok (frames (vm s));
  inv_depth : Z.of_nat (length (frames (vm s))) <= MAX_CALL_DEPTH;
  inv_executed : in_u 64 (instructions_executed (vm s));
  inv_request_id : 1 <= next_request_id (vm s) <= u64_max;
  inv_quota : forall q, quota (vm s) = Some q -> mem_wf (quotas (wld s) !!! q) }.

(** The faults that remain possible for a verified chunk.  [Mod] of operands
    that are not both [Int] is the one that reports a broken invariant. *)
Definition fault_ok (f : Fault.t) : Prop :=
  match f with
  | Fault.BadConstant _ _ | Fault.BadFunction _ _ | Fault.BadOpcodeByte _ => False
  | Fault.Invariant msg => msg = "numeric_binop called with a non-arithmetic opcode"%string
  | Fault.CallStackOverflow depth => depth = MAX_CALL_DEPTH
  | _ => True
  end.

Definition is_message (v : Value.t) : Prop :=
  match v with Value.Message _ => True | _ => False end.

(** What the scheduler may rely on of a result. *)
Definition result_ok (ch : Chunk.t) (r : VmResult.t) : Prop :=
  match r with
  | VmResult.Complete v => good S v
  | VmResult.Yield => True
  | VmResult.Sleep d => 0 <= d <= i64_max
  | VmResult.Spawn f args d rights =>
    (exists def, Chunk.function ch f = Some def) /\ Forall (good S) args /\ in_u 8 d /\
    in_u 8 rights
  | VmResult.SelfPid d | VmResult.Demonitor d | VmResult.Unlink d => in_u 8 d
  | VmResult.Send c m => cap_held c /\ is_message m /\ good S m
  | VmResult.Receive d timeout tg rid =>
    in_u 8 d /\ (forall t, timeout = Some t -> 0 <= t <= i64_max) /\
    (forall t, tg = Some t -> in_u 16 t) /\ (forall r, rid = Some r -> 0 <= r <= i64_max)
  | VmResult.Ask d c m timeout =>
    in_u 8 d /\ cap_held c /\ is_message m /\ good S m /\
    (forall t, timeout = Some t -> 0 <= t <= i64_max)
  | VmResult.Monitor d c | VmResult.Link d c => in_u 8 d /\ cap_held c
  | VmResult.RegisterName n => utf8_valid (snd n) = true
  | VmResult.Whereis d n => in_u 8 d /\ utf8_valid (snd n) = true
  | VmResult.Delegate d c r n =>
    in_u 8 d /\ cap_held c /\ in_u 32 r /\ (forall x, n = Some x -> cap_held x)
  | VmResult.Trap f => fault_ok f
  end.

(** The two panics a build with checks can raise. *)
Definition panic_cause (s : state H) : Prop :=
  checks = true /\
  (instructions_executed (vm s) = u64_max \/
   exists f rest at_ i, frames (vm s) = f :: rest /\ Frame.pc f = Z.of_nat at_ + 1 /\
     Chunk.code (chunk (vm s)) !! at_ = Some i /\ Instruction.op i = Opcode.Neg /\
     get (Frame.registers f) (Instruction.b i) = Some (Value.Int i64_min)).

(** A result leaves a state that can be resumed, unless the flow is over. *)
Definition after (r : VmResult.t) (s : state H) : Prop :=
  result_ok (chunk (vm s)) r /\
  match r with VmResult.Complete _ => True | _ => vm_inv s end.

(** ** Specifications of methods and handlers *)

Definition r_spec {A} (J : state H -> Prop) (m : R H A) (P : A -> Prop)
    (J' : state H -> Prop) : Prop :=
  forall s, J s ->
  match m s with
  | (Some (Ok a), s') => P a /\ J' s'
  | (Some (Err f), s') => fault_ok f /\ vm_inv s'
  | (None, _) => False
  end.

Definition m_spec {A} (J : state H -> Prop) (m : M H A) (P : A -> Prop)
    (J' : state H -> Prop) : Prop :=
  forall s, J s ->
  match m s with
  | (Next a, s') => P a /\ J' s'
  | (Return r, s') => after r s'
  | (Panic, s') => panic_cause s'
  end.

Lemma r_spec_ok {A} J (a : A) (P : A -> Prop) : P a -> r_spec J (ok_ a) P J.
Proof. intros HP s HJ. done. Qed.

Lemma r_spec_bind {A B} J J1 J2 (m : R H A) (f : A -> R H B) P Q :
  r_spec J m P J1 -> (forall a, P a -> r_spec J1 (f a) Q J2) -> r_spec J (r_bind m f) Q J2.
Proof.
  intros Hm Hf s HJ. specialize (Hm s HJ). unfold r_bind.
  destruct (m s) as [[[a|e]|] s']; [|done..]. destruct Hm as [HP HJ1]. by apply Hf.
Qed.

Lemma r_spec_pure {A} (J : state H -> Prop) (r : result A Fault.t) (P : A -> Prop) :
  (forall s, J s -> vm_inv s) ->
  match r with Ok a => P a | Err f => fault_ok f end -> r_spec J (pure_r r) P J.
Proof. intros HJ Hr s Hs. unfold pure_r. destruct r; auto. Qed.

Lemma r_spec_weaken {A} (J J' : state H -> Prop) (m : R H A) (P P' : A -> Prop) :
  r_spec J m P J' -> (forall a, P a -> P' a) -> r_spec J m P' J'.
Proof.
  intros Hm HP s Hs. specialize (Hm s Hs). destruct (m s) as [[[a|e]|] s']; naive_solver.
Qed.

Lemma m_spec_ret {A} (J : state H -> Prop) (a : A) (P : A -> Prop) :
  P a -> m_spec J (ret_ a) P J.
Proof. intros HP s HJ. done. Qed.

Lemma m_spec_bind {A B} J J1 J2 (m : M H A) (f : A -> M H B) P Q :
  m_spec J m P J1 -> (forall a, P a -> m_spec J1 (f a) Q J2) -> m_spec J (m_bind m f) Q J2.
Proof.
  intros Hm Hf s HJ. specialize (Hm s HJ). unfold m_bind.
  destruct (m s) as [[a|r|] s']; [|done..]. destruct Hm as [HP HJ1]. by apply Hf.
Qed.

Lemma m_spec_trap {A} J J' (m : R H A) P : r_spec J m P J' -> m_spec J (trap m) P J'.
Proof.
  intros Hm s HJ. specialize (Hm s HJ). unfold trap.
  destruct (m s) as [[[a|e]|] s']; [done| |done]. destruct Hm. by split.
Qed.

Lemma m_spec_exit {A} (J : state H -> Prop) r (P : A -> Prop) J' :
  (forall s, J s -> vm_inv s) -> (forall s, J s -> result_ok (chunk (vm s)) r) ->
  m_spec J (exit_ r) P J'.
Proof. intros HJ Hr s Hs. split; [by apply Hr|]. destruct r; auto. Qed.

Lemma m_spec_weaken {A} (J J' J'' : state H -> Prop) (m : M H A) (P P' : A -> Prop) :
  m_spec J m P J' -> (forall a, P a -> P' a) -> (forall s, J' s -> J'' s) ->
  m_spec J m P' J''.
Proof.
  intros Hm HP HJ s Hs. specialize (Hm s Hs). destruct (m s) as [[a|r|] s']; naive_solver.
Qed.

(** ** The methods on registers *)

(** The invariant with a fact about the code and the top [pc], which the register
    methods leave alone. *)
Definition inv_with (K : Chunk.t -> option Z -> Prop) (s : state H) : Prop :=
  vm_inv s /\ K (chunk (vm s)) (current_pc (vm s)).

(** While instruction [at_] of [ch] runs, [pc] is already past it. *)
Definition at_instr (ch : Chunk.t) (at_ : nat) (c : Chunk.t) (pc : option Z) : Prop :=
  c = ch /\ pc = Some (Z.of_nat at_ + 1).

Lemma inv_with_inv K s : inv_with K s -> vm_inv s.
Proof. by intros [? _]. Qed.

Lemma top_frame s : vm_inv s -> exists f rest, frames (vm s) = f :: rest.
Proof.
  intros Hs. pose proof (inv_stack s Hs) as Hst. destruct (frames (vm s)); [done|eauto].
Qed.

Lemma get_good s f rest reg v :
  vm_inv s -> frames (vm s) = f :: rest -> get (Frame.registers f) reg = Some v -> good S v.
Proof.
  intros Hs Hf Hv. pose proof (inv_frames s Hs) as Hfr. rewrite Hf, Forall_cons in Hfr.
  destruct Hfr as [[_ _ Hr] _]. rewrite get_eq in Hv. by eapply Forall_lookup_1.
Qed.

Lemma get_reg_spec K reg : r_spec (inv_with K) (get_reg reg) (good S) (inv_with K).
Proof.
  intros s Hs. unfold get_reg. pose proof (inv_with_inv K s Hs) as Hinv.
  destruct (top_frame s Hinv) as (f & rest & Hf). rewrite Hf.
  destruct (get (Frame.registers f) reg) eqn:Eg; [|done].
  split; [|done]. by eapply get_good.
Qed.

Lemma vm_inv_quota s qs :
  vm_inv s -> (forall q, mem_wf (quotas (wld s) !!! q) -> mem_wf (qs !!! q)) ->
  vm_inv (mk_state (vm s) (with_quotas (wld s) qs)).
Proof. intros [] Hqs. constructor; simpl; auto. Qed.

Lemma quota_insert_wf (m : gmap N FlowQuota.t) q q' :
  (mem_wf (m !!! q) -> mem_wf q') ->
  forall k, mem_wf (m !!! k) -> mem_wf (<[q := q']> m !!! k).
Proof.
  intros Hq k Hk. destruct (decide (k = q)) as [->|].
  - rewrite lookup_total_insert_eq. auto.
  - by rewrite lookup_total_insert_ne by congruence.
Qed.

Lemma charge_heap_value_spec K q v :
  r_spec (inv_with K) (charge_heap_value q v) (fun _ => True) (inv_with K).
Proof.
  intros s [Hs HK].
  assert (Hcharge : forall n, 0 <= n ->
    let a := FlowQuota.alloc (quotas (wld s) !!! q) n in
    vm_inv (mk_state (vm s) (with_quotas (wld s) (<[q := snd a]> (quotas (wld s)))))).
  { intros n Hn. apply vm_inv_quota; [done|]. apply quota_insert_wf.
    by apply alloc_wf. }
  unfold charge_heap_value. destruct v; try (by split);
    (destruct (length _) as [|n]; [by split|]); cbv [Z.of_nat];
    specialize (Hcharge (Z.pos (Pos.of_succ_nat n)) ltac:(lia)); simpl in Hcharge;
    destruct (FlowQuota.alloc _ _) as [[[]|e] q']; by split.
Qed.

Lemma charge_register_store_spec K reg v :
  r_spec (inv_with K) (charge_register_store reg v) (fun _ => True) (inv_with K).
Proof.
  intros s Hs. unfold charge_register_store.
  destruct (quota (vm s)) as [q|]; [|by split].
  pose proof (charge_heap_value_spec K q v s Hs) as Hc.
  destruct v; try (by split);
    destruct (peek_reg s reg) as [[]|]; try exact Hc; by destruct (ptr_eq _ _).
Qed.

(** An update of the top frame that keeps its function, destination and size. *)
Lemma vm_inv_top s f f' rest :
  vm_inv s -> frames (vm s) = f :: rest ->
  Frame.function f' = Frame.function f -> Frame.dest_reg f' = Frame.dest_reg f ->
  length (Frame.registers f') = length (Frame.registers f) ->
  0 <= Frame.pc f' <= Z.of_nat (length (Chunk.code (chunk (vm s)))) ->
  Forall (good S) (Frame.registers f') ->
  vm_inv (mk_state (with_frames (vm s) (f' :: rest)) (wld s)).
Proof.
  intros [] Hf Hfn Hd Hl Hpc Hr. rewrite Hf in *. constructor; simpl; try done.
  - apply Forall_cons in inv_frames0 as [[Hdef _ _] Hrest]. apply Forall_cons. split; [|done].
    constructor; [by rewrite Hfn, Hl|done..].
  - simpl in inv_stack0. by rewrite Hd.
Qed.

Lemma set_reg_spec K reg v :
  good S v -> r_spec (inv_with K) (set_reg checks reg v) (fun _ => True) (inv_with K).
Proof.
  intros Hv. unfold set_reg. eapply r_spec_bind; [apply charge_register_store_spec|].
  intros _ _ s [Hs HK]. destruct (top_frame s Hs) as (f & rest & Hf).
  unfold r_bind, current, pure_r. rewrite Hf.
  pose proof (inv_frames s Hs) as Hfr. rewrite Hf, Forall_cons in Hfr.
  destruct Hfr as [[_ Hpc Hregs] _].
  assert (Hcur : current_pc (vm s) = Some (Frame.pc f))
    by (unfold current_pc; by rewrite Hf).
  rewrite Hcur in HK.
  destruct (get (Frame.registers f) reg) eqn:Eg; split; try done.
  - split; [|done]. eapply vm_inv_top; simpl; try done.
    + by rewrite length_insert.
    + by apply Forall_insert.
  - eapply vm_inv_top; done.
Qed.

(** Fetching either finds an instruction and steps past it, or falls off the end. *)
Lemma fetch_spec s :
  vm_inv s ->
  match fetch checks s with
  | (Some (Ok (Some i)), s') =>
    exists at_, Chunk.code (chunk (vm s')) !! at_ = Some i /\
      inv_with (at_instr (chunk (vm s')) at_) s'
  | (Some (Ok None), s') => vm_inv s'
  | _ => False
  end.
Proof.
  intros Hs. destruct (top_frame s Hs) as (f & rest & Hf).
  unfold fetch, r_bind, current, get_state. rewrite Hf. simpl.
  pose proof (inv_frames s Hs) as Hfr. rewrite Hf, Forall_cons in Hfr.
  destruct Hfr as [[_ [Hpc0 Hpc] Hregs] _].
  destruct (get (Chunk.code (chunk (vm s))) (Frame.pc f)) as [i|] eqn:Eg; simpl.
  - rewrite get_eq in Eg. exists (Z.to_nat (Frame.pc f)). split; [done|].
    pose proof (lookup_lt_Some _ _ _ Eg). split.
    2: { split; [done|]. unfold current_pc. simpl. f_equal. lia. }
    apply (vm_inv_top s f (Frame.with_pc f (Frame.pc f + 1)) rest); simpl; try done. lia.
  - by apply (vm_inv_top s f f rest).
Qed.

Lemma as_f64_spec v : match as_f64 v with Ok _ => True | Err f => fault_ok f end.
Proof. by destruct v. Qed.

Lemma good_plain v : value_ok v -> caps_of v = [] -> good S v.
Proof. intros. split; [done|]. by apply caps_within_nil. Qed.

Lemma float_binop_spec f a b :
  (forall x y, good S (f x y)) ->
  match float_binop f a b with Ok v => good S v | Err e => fault_ok e end.
Proof.
  intros Hf. unfold float_binop.
  pose proof (as_f64_spec a). destruct (as_f64 a); [|done].
  pose proof (as_f64_spec b). by destruct (as_f64 b).
Qed.

Lemma rem_range x y : in_i 64 x -> in_i 64 (Z.rem x y).
Proof.
  unfold in_i. change (2 ^ (64 - 1)) with (2 ^ 63). intros Hx.
  destruct (Z.eq_dec y 0) as [->|Hy]; [by rewrite Z.rem_0_r_ext|].
  pose proof (Z.rem_le (Z.abs x) (Z.abs y) ltac:(lia) ltac:(lia)) as Hle.
  rewrite Z.rem_abs in Hle by done.
  destruct (Z.le_gt_cases 0 x).
  - lia.
  - pose proof (Z.rem_nonpos x y Hy ltac:(lia)). lia.
Qed.

Lemma binop_value_spec op a b :
  good S a -> good S b ->
  match binop_value op a b with Ok v => good S v | Err f => fault_ok f end.
Proof.
  intros [Ha _] [Hb _].
  assert (Hint : forall z, good S (Value.Int (wrap_i 64 z)))
    by (intros; apply good_plain; [apply wrap_i_range; lia|done]).
  assert (Hbool : forall z, good S (Value.Bool z)) by (intros; by apply good_plain).
  assert (Hfloat : forall z, good S (Value.Float (F64.of_sf z)))
    by (intros; apply good_plain; [apply f64_of_sf_range|done]).
  assert (Hf : forall f, (forall x y, good S (f x y)) ->
    match float_binop f a b with Ok v => good S v | Err e => fault_ok e end)
    by (intros; by apply float_binop_spec).
  unfold binop_value. destruct op; try done; try apply Hbool.
  all: try (destruct a, b; first [apply Hf; intros; first [apply Hfloat | apply Hbool]
            | apply Hint | apply Hbool | done]).
  - assert (Hdiv : match (let? denom := as_f64 b in let? num := as_f64 a in
                          Ok (Value.Float (F64.div num denom))) with
                   | Ok v => good S v | Err f => fault_ok f end).
    { pose proof (as_f64_spec b). destruct (as_f64 b); [|done].
      pose proof (as_f64_spec a). destruct (as_f64 a); [apply Hfloat|done]. }
    destruct a, b; try exact Hdiv. destruct (_ =? 0); [done|apply Hint].
  - destruct a, b; try done. destruct (_ =? 0); [done|].
    apply good_plain; [by apply rem_range|done].
Qed.

Lemma numeric_binop_spec K op dst lhs rhs :
  r_spec (inv_with K) (numeric_binop checks op dst lhs rhs) (fun _ => True) (inv_with K).
Proof.
  unfold numeric_binop. eapply r_spec_bind; [apply get_reg_spec|]. intros a Ha.
  eapply r_spec_bind; [apply get_reg_spec|]. intros b Hb.
  eapply r_spec_bind; [apply r_spec_pure; [apply inv_with_inv|]|].
  - by apply (binop_value_spec op a b).
  - intros v Hv. by apply set_reg_spec.
Qed.

Lemma gather_spec K n base offset i :
  r_spec (inv_with K) (gather n base offset i)
    (fun vs => length vs = n /\ Forall (good S) vs) (inv_with K).
Proof.
  revert i. induction n as [|n IH]; intros i; simpl; [by apply r_spec_ok|].
  eapply r_spec_bind.
  { apply (r_spec_pure _ _ (fun _ => True)); [apply inv_with_inv|].
    unfold reg_at. by destruct (_ <=? _). }
  intros reg _. eapply r_spec_bind; [apply get_reg_spec|]. intros v Hv.
  eapply r_spec_bind; [apply IH|]. intros vs [Hl Hvs]. apply r_spec_ok.
  split; [simpl; lia|by constructor].
Qed.

(** The invariant survives popping a frame that returns into another. *)
Lemma vm_inv_pop s f rest d :
  vm_inv s -> frames (vm s) = f :: rest -> Frame.dest_reg f = Some d ->
  vm_inv (mk_state (with_frames (vm s) rest) (wld s)).
Proof.
  intros [] Hf Hd. rewrite Hf in *. constructor; simpl; try done.
  - by apply Forall_cons in inv_frames0 as [_ ?].
  - simpl in inv_stack0. destruct rest; [congruence|by destruct inv_stack0].
  - simpl in inv_depth0. lia.
Qed.

Lemma pop_frame_spec s v :
  vm_inv s -> good S v ->
  match pop_frame checks v s with
  | (Some (Ok (Some r)), s') => after r s'
  | (Some (Ok None), s') => vm_inv s'
  | _ => False
  end.
Proof.
  intros Hs Hv. destruct (top_frame s Hs) as (f & rest & Hf).
  unfold pop_frame. rewrite Hf. destruct (Frame.dest_reg f) as [d|] eqn:Hd; [|split; [exact Hv|exact I]].
  pose proof (vm_inv_pop s f rest d Hs Hf Hd) as Hpop.
  pose proof (set_reg_spec (fun _ _ => True) d v Hv _ (conj Hpop I)) as Hset.
  destruct (set_reg _ _ _ _) as [[[[]|e]|] s']; [by destruct Hset as [_ []]| |done].
  destruct Hset as [_ Hinv]. by split.
Qed.

(** ** The handlers *)

Implicit Type i : Instruction.t.

(** What every handler promises. *)
Definition handler_ok (m : M H unit) (K : Chunk.t -> option Z -> Prop) : Prop :=
  m_spec (inv_with K) m (fun _ => True) vm_inv.

Lemma handler_done K (m : M H unit) :
  m_spec (inv_with K) m (fun _ => True) (inv_with K) -> handler_ok m K.
Proof. intros Hm. eapply m_spec_weaken; [exact Hm|done|apply inv_with_inv]. Qed.

Lemma set_reg_handler K reg v :
  good S v -> handler_ok (trap (set_reg checks reg v)) K.
Proof. intros. by apply handler_done, m_spec_trap, set_reg_spec. Qed.

Lemma trap_fault_handler {A} K f (P : A -> Prop) J' :
  fault_ok f -> m_spec (inv_with K) (exit_ (VmResult.Trap f)) P J'.
Proof. intros Hf. apply m_spec_exit; [apply inv_with_inv|done]. Qed.

Lemma mismatch_spec {A} K e g (P : A -> Prop) J' : m_spec (inv_with K) (mismatch e g) P J'.
Proof. by apply trap_fault_handler. Qed.

Lemma get_reg_handler {A} K reg (f : Value.t -> M H A) (P : A -> Prop) J' :
  (forall v, good S v -> m_spec (inv_with K) (f v) P J') ->
  m_spec (inv_with K) (m_bind (trap (get_reg reg)) f) P J'.
Proof. intros Hf. eapply m_spec_bind; [apply m_spec_trap, get_reg_spec|exact Hf]. Qed.

(** A pure conversion of an operand. *)
Lemma pure_handler {A B} K (r : result A Fault.t) (Q : A -> Prop) (f : A -> M H B) (P : B -> Prop) J' :
  match r with Ok a => Q a | Err e => fault_ok e end ->
  (forall a, Q a -> m_spec (inv_with K) (f a) P J') ->
  m_spec (inv_with K) (m_bind (trap (pure_r r)) f) P J'.
Proof.
  intros Hr Hf. eapply m_spec_bind; [apply m_spec_trap, r_spec_pure|exact Hf];
    [apply inv_with_inv|done].
Qed.

(** A result that depends on nothing but the operands. *)
Lemma exit_spec {A} K r (P : A -> Prop) J' :
  (forall ch, result_ok ch r) -> m_spec (inv_with K) (exit_ r) P J'.
Proof. intros Hr. apply m_spec_exit; [apply inv_with_inv|done]. Qed.

Lemma tag_from_value_spec v :
  match tag_from_value v with Ok t => in_u 16 t | Err e => fault_ok e end.
Proof.
  unfold tag_from_value. destruct (Value.as_int v); [|done].
  destruct (Z.leb_spec 0 z), (Z.leb_spec z u16_max); simpl; try done.
  unfold u16_max, in_u in *. lia.
Qed.

Lemma as_int_range v z : value_ok v -> Value.as_int v = Some z -> in_i 64 z.
Proof. destruct v; simpl; intros; simplify_eq; [|done]. by destruct b. Qed.

Lemma request_id_from_value_spec v :
  value_ok v ->
  match request_id_from_value v with Ok t => 0 <= t <= i64_max | Err e => fault_ok e end.
Proof.
  intros Hv. unfold request_id_from_value. destruct (Value.as_int v) eqn:E; [|done].
  apply as_int_range in E; [|done]. destruct (Z.leb_spec 0 z); [|done].
  unfold i64_max, in_i in *. change (2 ^ (64 - 1)) with (2 ^ 63) in E. lia.
Qed.

Lemma millis_or_zero_range v : value_ok v -> 0 <= millis_or_zero v <= i64_max.
Proof.
  intros Hv. unfold millis_or_zero. destruct (Value.as_int v) eqn:E; [|done].
  apply as_int_range in E; [|done]. unfold i64_max, in_i in *.
  change (2 ^ (64 - 1)) with (2 ^ 63) in E. destruct (Z.leb_spec 0 z); lia.
Qed.

Lemma imm_tag_range imm t : imm_tag imm = Some t -> in_u 16 t.
Proof.
  unfold imm_tag. destruct (Z.leb_spec 0 imm), (Z.leb_spec imm u16_max); simpl; try done.
  intros [= <-]. unfold in_u, u16_max in *. lia.
Qed.

Lemma good_cap v c : good S v -> Value.as_cap v = Some c -> cap_held c.
Proof.
  intros [_ Hv]. destruct v; simpl; intros; simplify_eq. by apply caps_within_cap in Hv.
Qed.

Lemma as_message_is v m : Value.as_message v = Some m -> is_message v.
Proof. by destruct v. Qed.

(** Gathering arguments leaves the state alone. *)
Lemma gather_state n base offset (i : Z) s : snd (gather n base offset i s) = s.
Proof.
  revert i. induction n as [|n IH]; intros i; [done|]. simpl. unfold r_bind, pure_r, ok_.
  destruct (reg_at _ _) as [reg|]; [|done].
  assert (Hget : snd (get_reg reg s) = s)
    by (unfold get_reg; destruct (frames (vm s)); [done|]; by destruct (get _ _)).
  destruct (get_reg reg s) as [[[v|]|] s1]; simpl in Hget; subst; try done.
  specialize (IH (i + 1)).
  by destruct (gather n base offset (i + 1) s) as [[[]|] ?].
Qed.

Lemma gather_result s n base offset :
  vm_inv s ->
  (exists vs, gather n base offset 0 s = (Some (Ok vs), s) /\ length vs = n /\
     Forall (good S) vs) \/
  (exists f, gather n base offset 0 s = (Some (Err f), s) /\ fault_ok f).
Proof.
  intros Hs. pose proof (gather_spec (fun _ _ => True) n base offset 0 s (conj Hs I)) as Hg.
  pose proof (gather_state n base offset 0 s) as Hst.
  destruct (gather n base offset 0 s) as [[[vs|f]|] s']; simpl in Hst; subst; [| |done].
  - left. destruct Hg as [[? ?] _]. eauto.
  - right. destruct Hg as [? _]. eauto.
Qed.

(** A function whose arity fits its registers can be entered with any arguments. *)
Lemma load_args_ok nregs arity args regs (i : Z) :
  0 <= i -> arity <= Z.of_nat (length regs) -> Forall (good S) args -> Forall (good S) regs ->
  exists regs', load_args nregs arity i args regs = Ok regs' /\
    length regs' = length regs /\ Forall (good S) regs'.
Proof.
  revert i regs. induction args as [|a args IH]; intros i regs Hi Har Hargs Hregs; simpl.
  { by exists regs. }
  apply Forall_cons in Hargs as [Ha Hargs].
  destruct (Z.leb_spec arity i); [by exists regs|].
  destruct (lookup_lt_is_Some_2 regs (Z.to_nat i)) as [x Hx]; [lia|].
  rewrite get_eq, Hx.
  destruct (IH (i + 1) (<[Z.to_nat i := a]> regs)) as (regs' & E & Hl & Hg);
    [lia|by rewrite length_insert|done|by apply Forall_insert|].
  exists regs'. rewrite length_insert in Hl. done.
Qed.

Lemma good_unit : good S Value.Unit.
Proof. by apply good_plain. Qed.

Lemma op_jump_ok ch at_ i :
  chunk_inv ch -> 0 <= Z.of_nat at_ + 1 + Instruction.imm i <= Z.of_nat (length (Chunk.code ch)) ->
  Z.of_nat at_ < Z.of_nat (length (Chunk.code ch)) ->
  handler_ok (op_jump checks i) (at_instr ch at_).
Proof.
  intros Hch Ht Hat s [Hs [Hc Hpc]]. destruct (top_frame s Hs) as (f & rest & Hf).
  assert (Hfpc : Frame.pc f = Z.of_nat at_ + 1)
    by (unfold current_pc in Hpc; rewrite Hf in Hpc; simpl in Hpc; congruence).
  pose proof (ci_len ch Hch) as Hlen.
  assert (Hj : jump_target checks (Z.of_nat at_ + 1) (Instruction.imm i) =
               Some (Z.of_nat at_ + 1 + Instruction.imm i)).
  { unfold jump_target. rewrite wrap_i_id, checked_i_id; [simpl; rewrite wrap_u_id|..];
      unfold in_i, in_u; try done; change (2 ^ (64 - 1)) with (2 ^ 63); lia. }
  unfold op_jump, m_bind, trap, current. rewrite Hf. cbv beta iota. rewrite Hfpc, Hj. simpl.
  split; [done|]. pose proof (inv_frames s Hs) as Hfr. rewrite Hf, Forall_cons in Hfr.
  destruct Hfr as [[_ _ Hregs] _].
  apply (vm_inv_top s f (Frame.with_pc f (Z.of_nat at_ + 1 + Instruction.imm i)) rest);
    simpl; try done. by rewrite Hc.
Qed.

Lemma op_branch_ok ch at_ i :
  chunk_inv ch -> 0 <= Z.of_nat at_ + 1 + Instruction.imm i <= Z.of_nat (length (Chunk.code ch)) ->
  Z.of_nat at_ < Z.of_nat (length (Chunk.code ch)) ->
  handler_ok (op_branch checks i) (at_instr ch at_).
Proof.
  intros Hch Ht Hat. unfold op_branch. apply get_reg_handler. intros v _.
  destruct (Value.is_truthy v); [by apply handler_done, m_spec_ret|by apply op_jump_ok].
Qed.

(** Entering a verified function. *)
Lemma vm_inv_push s def fn dst regs :
  vm_inv s -> Chunk.function (chunk (vm s)) fn = Some def -> in_u 8 dst ->
  Z.of_nat (length (frames (vm s))) < MAX_CALL_DEPTH ->
  Z.of_nat (length regs) = FunctionDef.num_registers def -> Forall (good S) regs ->
  vm_inv (mk_state (with_frames (vm s)
    (Frame.mk fn (FunctionDef.entry def) regs (Some dst) :: frames (vm s))) (wld s)).
Proof.
  intros Hs Hdef Hdst Hdepth Hl Hregs. pose proof (top_frame s Hs) as (f & rest & Hf).
  destruct Hs. constructor; simpl; try done.
  - apply Forall_cons. split; [|done]. constructor; simpl; [by exists def| |done].
    unfold Chunk.function in Hdef. rewrite get_eq in Hdef.
    destruct inv_chunk0 as [(_ & Hwf & _) (_ & _ & _ & Hok) _ _].
    apply (Forall_lookup_1 _ _ _ _ Hwf) in Hdef as He.
    apply (Forall_lookup_1 _ _ _ _ Hok) in Hdef as (_ & Hu & _).
    destruct He. unfold in_u in Hu. lia.
  - rewrite Hf in *. split; [by exists dst|done].
  - lia.
Qed.

Lemma op_call_ok ch at_ i :
  instruction_ok i -> wrap_u 32 (Instruction.imm i) < Z.of_nat (length (Chunk.functions ch)) ->
  handler_ok (op_call i) (at_instr ch at_).
Proof.
  intros (Ha & _) Hfn s [Hs [Hc Hpc]]. unfold op_call, reading.
  pose proof (wrap_u_range 32 (Instruction.imm i) ltac:(lia)) as [Hfn0 _].
  set (fn := wrap_u 32 (Instruction.imm i)) in *.
  pose proof (inv_depth s Hs) as Hd.
  destruct (Z.leb_spec MAX_CALL_DEPTH (Z.of_nat (length (frames (vm s))))) as [Hd'|Hd'].
  { split; [|done]. simpl. lia. }
  destruct (Chunk.function (chunk (vm s)) fn) as [def|] eqn:Hdef.
  2: { unfold Chunk.function in Hdef. rewrite get_eq, Hc in Hdef.
       apply lookup_ge_None in Hdef. lia. }
  destruct (gather_result s (Z.to_nat (Instruction.b i)) (Instruction.a i) 0 Hs)
    as [(vs & Hg & _ & Hvs)|(e & Hg & He)];
    unfold m_bind, trap, pure_r; rewrite Hg; [|by split].
  pose proof Hdef as Hd2. unfold Chunk.function in Hd2. rewrite get_eq in Hd2.
  pose proof Hd2 as Hd3.
  destruct (inv_chunk s Hs) as [(_ & Hwf & _) (_ & _ & _ & Hok) _ _].
  apply (Forall_lookup_1 _ _ _ _ Hwf) in Hd2 as [_ Har].
  apply (Forall_lookup_1 _ _ _ _ Hok) in Hd3 as (_ & _ & _ & Hnr).
  set (regs0 := Frame.registers _).
  assert (Hl0 : Z.of_nat (length regs0) = FunctionDef.num_registers def)
    by (unfold regs0; simpl; rewrite length_replicate; unfold in_u in Hnr; lia).
  destruct (load_args_ok (FunctionDef.num_registers def) (FunctionDef.arity def) vs regs0 0)
    as (regs & E & Hl & Hg'); [lia|lia|done|apply Forall_replicate, good_unit|].
  rewrite E. simpl. split; [done|]. apply (vm_inv_push s def); try done. congruence.
Qed.

Lemma invoke_spec s f args idx :
  vm_inv s -> NativeTable.get (natives (vm s)) idx = Some f -> Forall (good S) args ->
  match invoke f args s with
  | (Some (Ok v), s') => good S v /\ vm_inv s'
  | (Some (Err e), s') => fault_ok e /\ vm_inv s'
  | (None, _) => False
  end.
Proof.
  intros Hs Hget Hargs. unfold invoke.
  destruct (@natives_safe _ S _ (inv_natives s Hs) idx f args (wld s) Hget Hargs) as [Hq Hr].
  destruct (f args (wld s)) as [r w]. simpl in *.
  assert (vm_inv (mk_state (vm s) w)) by (destruct Hs; constructor; simpl; auto).
  destruct r as [[v|[]]|]; try done.
Qed.

Lemma op_call_native_ok K i : handler_ok (op_call_native checks i) K.
Proof.
  intros s [Hs _]. unfold op_call_native, reading.
  destruct (check_native_gate _ _ _ _) as [[]|[]]; try by split.
  destruct (NativeTable.get _ _) as [f|] eqn:Hget; [|by split].
  destruct (gather_result s (Z.to_nat (Instruction.b i)) (Instruction.a i) 0 Hs)
    as [(vs & Hg & _ & Hvs)|(e & Hg & He)];
    unfold m_bind, trap; rewrite Hg; [|by split].
  pose proof (invoke_spec s f vs _ Hs Hget Hvs) as Hi.
  destruct (invoke f vs s) as [[[v|e]|] s1]; [|by destruct Hi|done].
  destruct Hi as [Hv Hs1].
  apply (set_reg_handler (fun _ _ => True) (Instruction.a i) v Hv s1). by split.
Qed.

Lemma pop_handler K v : good S v ->
  handler_ok (let! r := trap (pop_frame checks v) in finish_pop r) K.
Proof.
  intros Hv s [Hs _]. pose proof (pop_frame_spec s v Hs Hv) as Hp.
  unfold m_bind, trap. destruct (pop_frame checks v s) as [[[[r|]|e]|] s']; try done.
Qed.

Lemma op_return_ok K i : handler_ok (op_return checks i) K.
Proof. apply get_reg_handler. intros v Hv. by apply pop_handler. Qed.

Lemma op_load_const_ok ch at_ i :
  wrap_u 32 (Instruction.imm i) < Z.of_nat (length (Chunk.constants ch)) ->
  handler_ok (op_load_const checks i) (at_instr ch at_).
Proof.
  intros Hk s [Hs [Hc Hpc]]. unfold op_load_const, reading.
  pose proof (wrap_u_range 32 (Instruction.imm i) ltac:(lia)) as [Hk0 _].
  unfold Chunk.constant. rewrite get_eq, Hc.
  destruct (Chunk.constants ch !! _) as [v|] eqn:Hv.
  2: { apply lookup_ge_None in Hv. lia. }
  pose proof (ci_consts _ (inv_chunk s Hs)) as Hcs. rewrite Hc in Hcs.
  apply (Forall_lookup_1 _ _ _ _ Hcs) in Hv.
  by apply (set_reg_handler (at_instr ch at_) (Instruction.a i) v Hv s).
Qed.

Lemma op_neg_ok ch at_ i :
  Chunk.code ch !! at_ = Some i -> Instruction.op i = Opcode.Neg ->
  handler_ok (op_neg checks i) (at_instr ch at_).
Proof.
  intros Hi Hop s [Hs [Hc Hpc]]. destruct (top_frame s Hs) as (f & rest & Hf).
  unfold op_neg, m_bind, trap, get_reg. rewrite Hf.
  destruct (get (Frame.registers f) (Instruction.b i)) as [v|] eqn:Hg; [|by split].
  pose proof (get_good s f rest _ v Hs Hf Hg) as Hv.
  destruct v; try by split.
  - destruct (checked_i checks 64 (- i0)) as [y|] eqn:Ey.
    + apply (set_reg_handler (at_instr ch at_)); [|by split].
      apply good_plain; [|done]. unfold checked_i in Ey. simpl.
      destruct (in_ib 64 (- i0)) eqn:Eb; [apply in_ib_spec in Eb; congruence|].
      destruct checks; [done|]. injection Ey as <-. apply wrap_i_range. lia.
    + unfold checked_i in Ey. destruct (in_ib 64 (- i0)) eqn:Eb; [done|].
      unfold panic_cause. destruct checks; [|done]. split; [done|]. right.
      destruct Hv as [Hv _]. simpl in Hv.
      assert (i0 = i64_min) as ->.
      { apply not_true_iff_false in Eb. rewrite in_ib_spec in Eb.
        unfold in_i, i64_min in *. change (2 ^ (64 - 1)) with (2 ^ 63) in *. lia. }
      exists f, rest, at_, i. split_and!; try done; [|by rewrite Hc].
      unfold current_pc in Hpc. rewrite Hf in Hpc. simpl in Hpc. congruence.
  - apply (set_reg_handler (at_instr ch at_)); [|by split].
    destruct Hv. apply good_plain; [by apply f64_neg_range|done].
Qed.

(** A capability operand. *)
Lemma cap_handler {A} K v (f : CapId.t -> M H A) (P : A -> Prop) J' :
  good S v -> (forall c, cap_held c -> m_spec (inv_with K) (f c) P J') ->
  m_spec (inv_with K)
    (match Value.as_cap v with
     | None => mismatch "cap" (Value.type_name v) | Some c => f c end) P J'.
Proof.
  intros Hv Hf. destruct (Value.as_cap v) as [c|] eqn:E; [|apply mismatch_spec].
  apply Hf. by eapply good_cap.
Qed.

(** A message operand. *)
Lemma message_handler {A} K v (m : M H A) (P : A -> Prop) J' :
  (is_message v -> m_spec (inv_with K) m P J') ->
  m_spec (inv_with K)
    (match Value.as_message v with
     | None => mismatch "message" (Value.type_name v) | Some _ => m end) P J'.
Proof.
  intros Hm. destruct (Value.as_message v) eqn:E; [|apply mismatch_spec].
  apply Hm. by eapply as_message_is.
Qed.

Lemma op_send_ok K i : handler_ok (op_send i) K.
Proof.
  apply get_reg_handler. intros t Ht. apply get_reg_handler. intros m Hm.
  apply cap_handler; [done|]. intros c Hc. apply message_handler. intros His.
  by apply exit_spec.
Qed.

Lemma op_ask_ok K i : instruction_ok i -> handler_ok (op_ask i) K.
Proof.
  intros (Ha & _). apply get_reg_handler. intros t Ht. apply get_reg_handler. intros m Hm.
  apply cap_handler; [done|]. intros c Hc. apply message_handler. intros His.
  by apply exit_spec.
Qed.

Lemma op_ask_timeout_ok K i : instruction_ok i -> handler_ok (op_ask_timeout i) K.
Proof.
  intros (Ha & _). apply get_reg_handler. intros t Ht. apply get_reg_handler. intros m Hm.
  destruct (negb _); [apply mismatch_spec|]. apply get_reg_handler. intros ms [Hms _].
  apply cap_handler; [done|]. intros c Hc. apply message_handler. intros His.
  apply exit_spec. intros ch. refine (conj Ha (conj Hc (conj His (conj Hm _)))).
  intros x [= <-]. by apply millis_or_zero_range.
Qed.

Lemma op_delegate_ok K i : instruction_ok i -> handler_ok (op_delegate i) K.
Proof.
  intros (Ha & _). apply get_reg_handler. intros src Hsrc.
  apply cap_handler; [done|]. intros c Hc.
  apply (m_spec_bind _ (inv_with K) _ _ _ (fun n => forall x, n = Some x -> cap_held x)).
  - destruct (_ =? _); [by apply m_spec_ret|]. apply get_reg_handler. intros v Hv.
    apply cap_handler; [done|]. intros n Hn. apply m_spec_ret. by intros x [= <-].
  - intros n Hn. apply exit_spec. intros ch.
    refine (conj Ha (conj Hc (conj _ Hn))). by apply wrap_u_range.
Qed.

Lemma op_receive_ok K i :
  instruction_ok i ->
  handler_ok (op_receive_timeout i) K /\ handler_ok (op_receive_match i) K /\
  handler_ok (op_receive_match_imm i) K /\ handler_ok (op_receive_match_corr i) K /\
  handler_ok (op_receive_match_corr_imm i) K.
Proof.
  intros (Ha & _). split_and!.
  - apply get_reg_handler. intros v [Hv _]. apply exit_spec. intros ch. simpl.
    split; [exact Ha|]. split_and!; try done. intros t [= <-]. by apply millis_or_zero_range.
  - apply get_reg_handler. intros v Hv.
    apply (pure_handler K _ (in_u 16)); [apply tag_from_value_spec|]. intros t Ht.
    apply exit_spec. intros ch. simpl. naive_solver.
  - unfold op_receive_match_imm. destruct (imm_tag _) eqn:E; [|apply mismatch_spec].
    apply imm_tag_range in E. apply exit_spec. intros ch. simpl. naive_solver.
  - apply get_reg_handler. intros v Hv.
    apply (pure_handler K _ (in_u 16)); [apply tag_from_value_spec|]. intros t Ht.
    apply get_reg_handler. intros v' [Hv' _].
    apply (pure_handler K _ (fun r => 0 <= r <= i64_max)); [by apply request_id_from_value_spec|].
    intros r Hr. apply exit_spec. intros ch. simpl. split; [exact Ha|]. naive_solver.
  - unfold op_receive_match_corr_imm. destruct (imm_tag _) eqn:E; [|apply mismatch_spec].
    apply imm_tag_range in E. apply get_reg_handler. intros v' [Hv' _].
    apply (pure_handler K _ (fun r => 0 <= r <= i64_max)); [by apply request_id_from_value_spec|].
    intros r Hr. apply exit_spec. intros ch. simpl. split; [exact Ha|]. naive_solver.
Qed.

Lemma name_handler K v (f : ptr -> list byte -> M H unit) :
  good S v -> (forall p b, utf8_valid b = true -> handler_ok (f p b) K) ->
  handler_ok (match v with
              | Value.Str p b => f p b
              | other => mismatch "str" (Value.type_name other) end) K.
Proof.
  intros [Hv _] Hf. destruct v; try apply mismatch_spec. by apply Hf.
Qed.

Lemma op_fresh_request_id_ok K i : handler_ok (op_fresh_request_id checks i) K.
Proof.
  apply (m_spec_bind _ (inv_with K) _ _ _ (fun _ => True)).
  - apply m_spec_trap. unfold fresh_request_id, draw_request_id, r_bind.
    intros s [Hs HK]. pose proof (inv_request_id s Hs) as Hr.
    destruct (Z.eqb_spec (next_request_id (vm s)) 0); [lia|]. split; [done|]. split; [|done].
    destruct Hs. constructor; simpl; try done. unfold sat_add_u64. lia.
  - intros id _. apply set_reg_handler, good_plain; [apply wrap_i_range; lia|done].
Qed.

Lemma op_sleep_ok K i : handler_ok (op_sleep i) K.
Proof.
  apply get_reg_handler. intros v [Hv _].
  destruct (Value.as_int v) as [ms|] eqn:E; [|apply mismatch_spec].
  destruct (Z.leb_spec 0 ms); [|apply mismatch_spec].
  apply as_int_range in E; [|done]. apply exit_spec. intros ch. simpl.
  unfold in_i, i64_max in *. change (2 ^ (64 - 1)) with (2 ^ 63) in E. lia.
Qed.

Lemma op_spawn_ok ch at_ i :
  instruction_ok i -> wrap_u 32 (Instruction.imm i) < Z.of_nat (length (Chunk.functions ch)) ->
  handler_ok (op_spawn i) (at_instr ch at_).
Proof.
  intros (Ha & Hb & Hcc & Hi) Hfn.
  eapply m_spec_bind; [apply m_spec_trap, gather_spec|]. intros vs [_ Hvs].
  apply m_spec_exit; [apply inv_with_inv|]. intros s [_ [Hc _]]. simpl. split_and!; try done.
  pose proof (wrap_u_range 32 (Instruction.imm i) ltac:(lia)) as [Hfn0 _].
  unfold Chunk.function. rewrite get_eq, Hc. apply lookup_lt_is_Some_2. lia.
Qed.

Lemma op_imm_value i : instruction_ok i -> good S (Value.Int (Instruction.imm i)).
Proof.
  intros (_ & _ & _ & Hi). apply good_plain; [|done]. simpl. unfold in_i in *.
  change (2 ^ (64 - 1)) with (2 ^ 63). change (2 ^ (32 - 1)) with (2 ^ 31) in Hi. lia.
Qed.

Lemma dispatch_ok ch at_ i :
  chunk_inv ch -> Chunk.code ch !! at_ = Some i ->
  handler_ok (dispatch checks i) (at_instr ch at_).
Proof.
  intros Hch Hi. pose proof (lookup_lt_Some _ _ _ Hi) as Hlt.
  destruct (ci_wf ch Hch) as (_ & _ & Hwf). specialize (Hwf _ _ Hi).
  destruct (ci_ok ch Hch) as (_ & _ & Hins & _).
  pose proof (Forall_lookup_1 _ _ _ _ Hins Hi) as Hok.
  pose proof Hok as (Ha & _).
  unfold instr_wf in Hwf. unfold dispatch.
  destruct (Instruction.op i) eqn:Eop; try (by apply exit_spec);
    try (apply handler_done, m_spec_trap, numeric_binop_spec).
  - apply get_reg_handler. intros v Hv. by apply exit_spec.
  - by apply op_load_const_ok.
  - apply get_reg_handler. intros v Hv. by apply set_reg_handler.
  - by apply set_reg_handler, op_imm_value.
  - by apply op_neg_ok.
  - apply op_jump_ok; [done..|lia].
  - apply op_branch_ok; [done..|lia].
  - by apply op_call_ok.
  - apply op_return_ok.
  - apply op_call_native_ok.
  - by apply op_spawn_ok.
  - apply op_sleep_ok.
  - apply get_reg_handler. intros v Hv. by apply exit_spec.
  - apply op_send_ok.
  - by apply op_receive_ok.
  - by apply op_receive_ok.
  - by apply op_receive_ok.
  - by apply op_ask_ok.
  - apply get_reg_handler. intros v Hv. apply cap_handler; [done|]. intros c Hc. by apply exit_spec.
  - apply get_reg_handler. intros v Hv. apply cap_handler; [done|]. intros c Hc. by apply exit_spec.
  - by apply op_ask_timeout_ok.
  - by apply op_delegate_ok.
  - apply op_fresh_request_id_ok.
  - by apply op_receive_ok.
  - by apply op_receive_ok.
  - apply get_reg_handler. intros v Hv. apply name_handler; [done|]. intros. by apply exit_spec.
  - apply get_reg_handler. intros v Hv. apply name_handler; [done|]. intros. by apply exit_spec.
  - by apply handler_done, m_spec_ret.
Qed.

(** One iteration of [run]. *)
Lemma step_ok : m_spec vm_inv (step checks) (fun _ => True) vm_inv.
Proof.
  intros s Hs. unfold step, m_bind at 1, count_instruction.
  destruct (checked_u checks 64 (instructions_executed (vm s) + 1)) as [n|] eqn:En.
  2: { pose proof (inv_executed s Hs) as He. unfold checked_u in En.
       destruct (in_ub _ _) eqn:Eb; [done|]. unfold panic_cause. destruct checks; [|done].
       split; [done|left]. apply not_true_iff_false in Eb. rewrite in_ub_spec in Eb.
       unfold in_u, u64_max in *. lia. }
  set (s1 := mk_state _ _).
  assert (Hs1 : vm_inv s1).
  { destruct Hs. constructor; simpl; try done. unfold checked_u in En.
    destruct (in_ub _ _) eqn:Eb; [apply in_ub_spec in Eb; congruence|].
    destruct checks; [done|]. injection En as <-. apply wrap_u_range. lia. }
  pose proof (fetch_spec s1 Hs1) as Hf. unfold m_bind at 1, trap at 1.
  destruct (fetch checks s1) as [[[[i|]|e]|] s2]; try done.
  - destruct Hf as (at_ & Hi & Hs2).
    by apply (dispatch_ok _ at_ i (inv_chunk _ (inv_with_inv _ _ Hs2)) Hi s2).
  - by apply (pop_handler (fun _ _ => True) Value.Unit good_unit).
Qed.

(** A whole slice, by induction on the budget. *)
Lemma run_ok budget s :
  vm_inv s ->
  match run checks budget s with
  | (Some r, s') => after r s'
  | (None, s') => panic_cause s'
  end.
Proof.
  revert s. induction budget as [|n IH]; intros s Hs; simpl; [by split|].
  pose proof (step_ok s Hs) as Hst. destruct (step checks s) as [[[]|r|] s']; try done.
  destruct Hst as [_ Hs']. by apply IH.
Qed.

End invariant.

(** ** The standard natives are safe *)

Section std_safe.
Context {H : Type} (write : list Value.t -> H -> H) (unix_millis : H -> result Z string).

Definition native_result_ok (S : CapId.t -> Prop) (r : NativeResult) : Prop :=
  match r with
  | Ok v => good S v
  | Err (Fault.NativeError _) => True
  | Err _ => False
  end.

Lemma expect_arg_ok S args i name :
  Forall (good S) args ->
  match expect_arg args i name with
  | Ok v => good S v
  | Err e => exists m, e = Fault.NativeError m
  end.
Proof.
  intros Hargs. unfold expect_arg. destruct (args !! i) eqn:E; [|eauto].
  by eapply Forall_lookup_1.
Qed.

Lemma expect_u64_ok S args i name :
  Forall (good S) args ->
  match expect_u64 args i name with
  | Ok z => in_u 64 z
  | Err e => exists m, e = Fault.NativeError m
  end.
Proof.
  intros Hargs. unfold expect_u64. pose proof (expect_arg_ok S args i name Hargs) as Ha.
  destruct (expect_arg _ _ _) as [v|e]; [|done].
  destruct v; try (by eexists); destruct Ha as [Ha _]; simpl in Ha; try done.
  - by destruct b.
  - destruct (Z.leb_spec 0 i0); [|by eexists]. unfold in_u, in_i in *.
    change (2 ^ (64 - 1)) with (2 ^ 63) in Ha. lia.
Qed.

Lemma make_msg_ok S args : Forall (good S) args -> native_result_ok S (Std.make_msg args).
Proof.
  intros Hargs. unfold Std.make_msg. set (first := if _ : bool then _ else _).
  pose proof (expect_u64_ok S args first "make_msg" Hargs) as H1.
  destruct (expect_u64 _ first _) as [rid|]; [|by destruct H1 as [? ->]].
  pose proof (expect_u64_ok S args (Datatypes.S first) "make_msg" Hargs) as H2.
  destruct (expect_u64 _ (Datatypes.S first) _) as [tg|]; [|by destruct H2 as [? ->]].
  pose proof (expect_arg_ok S args (Datatypes.S (Datatypes.S first)) "make_msg" Hargs) as H3.
  destruct (expect_arg _ _ _) as [pl|]; [|by destruct H3 as [? ->]].
  destruct (Z.leb_spec tg u16_max); [|done]. destruct H3 as [H3 H4]. split.
  - simpl. split; [by split|]. split; [by split|]. split; [done|]. split; [|done].
    unfold u16_max, in_u in *. lia.
  - apply caps_within_message. simpl. split; [by left|done].
Qed.

(** A message unpacker. *)
Lemma unpack_ok S args i name (f : Message -> Value.t) :
  Forall (good S) args -> (forall m, good S (Value.Message m) -> good S (f m)) ->
  native_result_ok S (let? m := expect_message args i name in Ok (f m)).
Proof.
  intros Hargs Hf. unfold expect_message.
  pose proof (expect_arg_ok S args i name Hargs) as Ha.
  destruct (expect_arg _ _ _) as [v|e]; [|by destruct Ha as [? ->]].
  destruct v; simpl; try done. by apply Hf.
Qed.

#[export] Instance std_natives_safe S :
  NativesSafe S (Std.std_native_table_with write unix_millis).
Proof.
  intros idx f args w Hf Hargs. rewrite std_table_eq in Hf.
  enough ((forall q, mem_wf (quotas w !!! q) -> mem_wf (quotas (snd (f args w)) !!! q)) /\
    exists r, fst (f args w) = Some r /\ native_result_ok S r) as (Hq & r & Hr & Hok).
  { split; [done|]. rewrite Hr. unfold native_result_ok in Hok. by destruct r as [|[]]. }
  unfold NativeTable.get in Hf. rewrite get_eq in Hf.
  destruct (Z.to_nat idx) as [|[|[|[|[|[|[|[|n]]]]]]]]; simpl in Hf; simplify_eq;
    (split; [done|]); eexists; (split; [reflexivity|]).
  - by apply good_plain.
  - destruct (unix_millis (host w)) as [ms|]; [|done].
    destruct (in_ib 64 ms) eqn:E; [|done]. apply in_ib_spec in E. by apply good_plain.
  - by apply make_msg_ok.
  - apply unpack_ok; [done|]. intros m [Hm _]. apply good_plain; [exact (proj1 Hm)|done].
  - apply unpack_ok; [done|]. intros m _. apply good_plain; [apply wrap_i_range; lia|done].
  - apply unpack_ok; [done|]. intros m [Hm _]. apply good_plain; [|done]. simpl in *.
    split_conj. unfold in_i, in_u in *. change (2 ^ (64 - 1)) with (2 ^ 63). lia.
  - apply unpack_ok; [done|]. intros m [Hm Hc]. apply caps_within_message in Hc.
    simpl in Hm. split_conj. by split.
  - apply unpack_ok; [done|]. intros m [Hm Hc]. apply caps_within_message in Hc.
    simpl in Hm. split_conj. split; [done|]. by apply caps_within_cap.
Qed.
End std_safe.
