(* ===== verification/VmFrame.v ===== *)
(** Framing for the virtual machine: a relation between machine states that every
    primitive of a handler respects is respected by dispatching any instruction. *)

From S2P Require Import Prelude Capability Values Isa Sync Quota Native Vm VmSafety.

Create HintDb vmframe.

Section frame.
Context {H : Type} (checks : bool).
Implicit Type s : state H.

(** A preorder that allows the stack to change, quotas to be charged with heap and request
    ids to be drawn; and one that allows the natives of the table to run. *)
Record vm_frame (P : state H -> state H -> Prop) : Prop := {
  vf_refl s : P s s;
  vf_trans s1 s2 s3 : P s1 s2 -> P s2 s3 -> P s1 s3;
  vf_frames s fs : P s (mk_state (with_frames (vm s) fs) (wld s));
  vf_request_id s n : P s (mk_state (with_next_request_id (vm s) n) (wld s));
  vf_alloc s q n : P s (mk_state (vm s) (with_quotas (wld s)
    (<[q := snd (FlowQuota.alloc (quotas (wld s) !!! q) n)]> (quotas (wld s))))) }.

Definition native_frame (P : state H -> state H -> Prop) : Prop :=
  forall s idx f args, NativeTable.get (natives (vm s)) idx = Some f ->
    P s (mk_state (vm s) (snd (f args (wld s)))).

Context (P : state H -> state H -> Prop) (HP : vm_frame P).

Definition framed {A} (m : M H A) : Prop := forall s, P s (snd (m s)).
Definition r_framed {A} (m : R H A) : Prop := forall s, P s (snd (m s)).

Lemma framed_ret {A} (a : A) : framed (ret_ a).
Proof. intros s. apply HP. Qed.

Lemma framed_exit {A} r : framed (exit_ (A := A) r).
Proof. intros s. apply HP. Qed.

Lemma framed_bind {A B} (m : M H A) (f : A -> M H B) :
  framed m -> (forall a, framed (f a)) -> framed (m_bind m f).
Proof.
  intros Hm Hf s. unfold m_bind. specialize (Hm s). destruct (m s) as [[a|r|] s']; try done.
  eapply (vf_trans P HP); [exact Hm|apply Hf].
Qed.

Lemma r_framed_bind {A B} (m : R H A) (f : A -> R H B) :
  r_framed m -> (forall a, r_framed (f a)) -> r_framed (r_bind m f).
Proof.
  intros Hm Hf s. unfold r_bind. specialize (Hm s). destruct (m s) as [[[a|e]|] s']; try done.
  eapply (vf_trans P HP); [exact Hm|apply Hf].
Qed.

Lemma framed_trap {A} (m : R H A) : r_framed m -> framed (trap m).
Proof. intros Hm s. unfold trap. specialize (Hm s). by destruct (m s) as [[[a|e]|] s']. Qed.

Lemma framed_current {A} (f : Frame.t -> Frame.t * A) : r_framed (current checks f).
Proof.
  intros s. unfold current. destruct (frames (vm s)); [apply HP|].
  destruct (f _). apply (vf_frames P HP).
Qed.

Lemma framed_set_frames fs : r_framed (set_frames fs).
Proof. intros s. apply (vf_frames P HP). Qed.

Lemma framed_get_reg reg : r_framed (get_reg reg).
Proof.
  intros s. unfold get_reg. destruct (frames (vm s)); [apply HP|]. destruct (get _ _); apply HP.
Qed.

Lemma framed_charge q v : r_framed (charge_heap_value q v).
Proof.
  intros s. unfold charge_heap_value. destruct v; try apply HP;
    destruct (Z.of_nat (length _)) as [|n|n]; try apply HP;
    pose proof (fun n => vf_alloc P HP s q n) as Ha.
  all: match goal with |- context [FlowQuota.alloc ?x ?n] => specialize (Ha n);
    destruct (FlowQuota.alloc x n); exact Ha end.
Qed.

Lemma framed_charge_store reg v : r_framed (charge_register_store reg v).
Proof.
  intros s. unfold charge_register_store. pose proof (fun q => framed_charge q v s) as Hc.
  destruct (quota (vm s)) as [q|]; [|apply HP].
  destruct v; try apply HP; destruct (peek_reg s reg) as [[]|]; try apply Hc;
    destruct (ptr_eq _ _); try apply HP; apply Hc.
Qed.

Lemma framed_pure {A} (r : result A Fault.t) : r_framed (pure_r r).
Proof. intros s. apply HP. Qed.

Lemma framed_set_reg reg v : r_framed (set_reg checks reg v).
Proof.
  apply r_framed_bind; [apply framed_charge_store|].
  intros _. apply r_framed_bind; [apply framed_current|]. intros r. apply framed_pure.
Qed.

Lemma framed_gather n base offset i : r_framed (gather n base offset i).
Proof. intros s. rewrite gather_state. apply HP. Qed.

Lemma framed_pop v : r_framed (pop_frame checks v).
Proof.
  intros s. unfold pop_frame. destruct (frames (vm s)) as [|f rest]; [apply HP|].
  destruct (Frame.dest_reg f) as [d|]; [|apply (vf_frames P HP)].
  pose proof (framed_set_reg d v (mk_state (with_frames (vm s) rest) (wld s))) as Hset.
  pose proof (vf_trans P HP _ _ _ (vf_frames P HP s rest) Hset) as Ht.
  by destruct (set_reg checks d v _) as [[[]|] s'].
Qed.

Lemma framed_reading {A} (f : Vm H -> M H A) : (forall v, framed (f v)) -> framed (reading f).
Proof. intros Hf s. apply Hf. Qed.

Lemma framed_binop op dst l r : r_framed (numeric_binop checks op dst l r).
Proof.
  unfold numeric_binop.
  do 3 (apply r_framed_bind; [auto using framed_get_reg, framed_pure|intros ?]).
  apply framed_set_reg.
Qed.

Lemma framed_fresh : r_framed (fresh_request_id (H := H)).
Proof.
  assert (r_framed (draw_request_id (H := H))) as Hd by (intros s; apply (vf_request_id P HP)).
  apply r_framed_bind; [exact Hd|]. intros id. destruct (_ =? _); [exact Hd|intros s; apply HP].
Qed.

Lemma framed_charge_slots q l : r_framed (charge_slots q l).
Proof.
  induction l as [|v l IH]; simpl; [intros s; apply HP|].
  apply r_framed_bind; [apply framed_charge|done].
Qed.
End frame.

#[export] Hint Resolve framed_ret framed_exit framed_trap framed_get_reg framed_set_reg
  framed_pure framed_gather framed_pop framed_current framed_set_frames framed_binop
  framed_fresh : vmframe.

Ltac framing := repeat first
  [ progress intros | eapply framed_bind; [eassumption| |] | apply framed_reading
  | solve [eauto with vmframe] | solve [intros ?; eapply vf_refl; eassumption]
  | solve [intros ?; eapply vf_frames; eassumption]
  | match goal with |- framed _ (match ?x with _ => _ end) => destruct x end
  | match goal with |- framed _ (if ?x then _ else _) => destruct x end ].

Section dispatch.
Context {H : Type} (checks : bool) (P : state H -> state H -> Prop) (HP : vm_frame P).
Context (HN : native_frame P).
Implicit Type s : state H.

Lemma framed_jump i : framed P (op_jump checks i).
Proof. unfold op_jump. framing. Qed.
#[local] Hint Resolve framed_jump : vmframe.

(** The native runs in the state the gathering of its arguments left alone. *)
Lemma framed_native_call f idx n dst base s :
  NativeTable.get (natives (vm s)) idx = Some f ->
  P s (snd (m_bind (trap (gather n base 0 0)) (fun args =>
    m_bind (trap (invoke f args)) (fun value => trap (set_reg checks dst value))) s)).
Proof.
  intros Hf. unfold m_bind at 1, trap at 1. pose proof (gather_state n base 0 0 s) as Hg.
  destruct (gather n base 0 0 s) as [[[args|e]|] s1]; simpl in Hg; subst s1; try apply HP.
  pose proof (HN s idx f args Hf) as Hn.
  unfold m_bind, trap at 1, invoke. destruct (f args (wld s)) as [[[v|e]|] w]; try exact Hn.
  eapply (vf_trans P HP); [exact Hn|].
  exact (framed_trap P _ (framed_set_reg checks P HP dst v) _).
Qed.

Lemma framed_call_native i : framed P (op_call_native checks i).
Proof.
  intros s. unfold op_call_native, reading.
  destruct (check_native_gate _ _ _ _) as [[]|[]]; try apply HP.
  destruct (NativeTable.get _ _) as [f|] eqn:Hf; [|apply HP].
  by eapply framed_native_call.
Qed.

Lemma framed_dispatch i : framed P (dispatch checks i).
Proof.
  unfold dispatch.
  destruct (Instruction.op i); try (intros s; apply HP);
    try apply framed_jump; try apply framed_call_native;
    unfold op_halt, op_load_const, op_load_imm, op_move, op_binop, op_neg, op_branch, op_call,
      op_return, finish_pop, op_spawn, op_sleep, op_exit, op_send, op_receive,
      op_receive_timeout, op_receive_match, op_receive_match_imm, op_fresh_request_id,
      op_receive_match_corr, op_receive_match_corr_imm, op_ask, op_ask_timeout, op_monitor,
      op_link, op_register_name, op_whereis, op_delegate, mismatch; framing.
Qed.

(** What follows the count in [step]. *)
Lemma framed_rest : framed P (m_bind (trap (fetch checks)) (fun fetched =>
  match fetched with
  | Some instr => dispatch checks instr
  | None => m_bind (trap (pop_frame checks Value.Unit)) finish_pop
  end)).
Proof.
  eapply framed_bind; [eassumption| |].
  - apply framed_trap, r_framed_bind; [done|by apply framed_current|].
    intros pc s. unfold get_state. destruct (get _ pc); [|apply HP].
    apply r_framed_bind; [done|by apply framed_current|intros ? s1; apply HP].
  - intros [i|]; [apply framed_dispatch|]. unfold finish_pop. framing.
Qed.

End dispatch.

(** ** A machine that asks for something still has a frame *)

Create HintDb alive.

Section alive.
Context {H : Type} (checks : bool).
Implicit Type s : state H.

Definition alive s : Prop := frames (vm s) <> [].
Definition ends (r : VmResult.t) : Prop :=
  match r with VmResult.Complete _ | VmResult.Trap _ => True | _ => False end.

Definition m_alive {A} (m : M H A) : Prop := forall s, alive s ->
  match m s with
  | (Next _, s') => alive s'
  | (Return r, s') => ends r \/ alive s'
  | (Panic, _) => True
  end.
Definition r_alive {A} (m : R H A) : Prop := forall s, alive s ->
  match m s with (Some (Ok _), s') => alive s' | _ => True end.

Lemma alive_ret {A} (a : A) : m_alive (ret_ a).
Proof. by intros s Hs. Qed.

Lemma alive_exit {A} r : m_alive (exit_ (A := A) r).
Proof. intros s Hs. by right. Qed.

Lemma alive_bind {A B} (m : M H A) (f : A -> M H B) :
  m_alive m -> (forall a, m_alive (f a)) -> m_alive (m_bind m f).
Proof.
  intros Hm Hf s Hs. unfold m_bind. specialize (Hm s Hs). destruct (m s) as [[a|r|] s']; try done.
  by apply Hf.
Qed.

Lemma r_alive_bind {A B} (m : R H A) (f : A -> R H B) :
  r_alive m -> (forall a, r_alive (f a)) -> r_alive (r_bind m f).
Proof.
  intros Hm Hf s Hs. unfold r_bind. specialize (Hm s Hs). destruct (m s) as [[[a|e]|] s']; try done.
  by apply Hf.
Qed.

Lemma alive_trap {A} (m : R H A) : r_alive m -> m_alive (trap m).
Proof.
  intros Hm s Hs. unfold trap. specialize (Hm s Hs). destruct (m s) as [[[a|e]|] s']; try done.
  by left.
Qed.

Lemma alive_fault {A} e : m_alive (A := A) (trap (fail e)).
Proof. intros s Hs. by left. Qed.

Lemma alive_current {A} (f : Frame.t -> Frame.t * A) : r_alive (current checks f).
Proof.
  intros s Hs. unfold current. destruct (frames (vm s)); [by destruct checks|]. by destruct (f _).
Qed.

(** What keeps the stack as it is. *)
Definition same_frames s s' : Prop := frames (vm s') = frames (vm s).

Lemma alive_same {A} (m : R H A) :
  (forall s, same_frames s (snd (m s))) -> r_alive m.
Proof.
  intros Hm s Hs. specialize (Hm s). destruct (m s) as [[[a|e]|] s']; try done.
  unfold alive, same_frames in *. simpl in Hm. by rewrite Hm.
Qed.

Lemma charge_same q v s : same_frames s (snd (charge_heap_value q v s)).
Proof.
  unfold charge_heap_value. destruct v; try done;
    destruct (Z.of_nat (length _)); try done; by destruct (FlowQuota.alloc _ _).
Qed.

Lemma charge_slots_same q l s : same_frames s (snd (charge_slots q l s)).
Proof.
  revert s. induction l as [|v l IH]; intros s; simpl; [done|]. unfold r_bind.
  pose proof (charge_same q v s) as Hv. unfold same_frames in *.
  destruct (charge_heap_value q v s) as [[[u|e]|] s1]; simpl in *; try done. by rewrite IH.
Qed.

Lemma charge_store_same reg v s : same_frames s (snd (charge_register_store reg v s)).
Proof.
  unfold charge_register_store. pose proof (fun q => charge_same q v s) as Hc.
  destruct (quota (vm s)) as [q|]; [|done].
  destruct v; try done; destruct (peek_reg s reg) as [[]|]; try apply Hc;
    destruct (ptr_eq _ _); try done; apply Hc.
Qed.

Lemma alive_get_reg reg : r_alive (get_reg reg).
Proof.
  apply alive_same. intros s. unfold get_reg. destruct (frames (vm s)) eqn:E; [done|].
  by destruct (get _ _).
Qed.

Lemma alive_pure {A} (r : result A Fault.t) : r_alive (pure_r r).
Proof. apply alive_same. done. Qed.

Lemma alive_set_reg reg v : r_alive (set_reg checks reg v).
Proof.
  apply r_alive_bind; [apply alive_same, charge_store_same|].
  intros _. apply r_alive_bind; [apply alive_current|]. intros r. apply alive_pure.
Qed.

Lemma alive_gather n base offset i : r_alive (gather n base offset i).
Proof. apply alive_same. intros s. by rewrite gather_state. Qed.

Lemma current_alive {A} (f : Frame.t -> Frame.t * A) s a s' :
  current checks f s = (Some (Ok a), s') -> alive s'.
Proof.
  unfold current. destruct (frames (vm s)) as [|top rest]; [by destruct checks|].
  destruct (f top). by intros [= _ <-].
Qed.

Lemma set_reg_alive reg v s s' : set_reg checks reg v s = (Some (Ok tt), s') -> alive s'.
Proof.
  unfold set_reg, r_bind. destruct (charge_register_store reg v s) as [[[u|e]|] s1]; try done.
  match goal with |- context [current checks ?f s1] =>
    destruct (current checks f s1) as [[[r|e]|] s2] eqn:E; try done; pose proof (current_alive f _ _ _ E)
  end. by intros [= _ <-].
Qed.

Lemma alive_pop v : m_alive (m_bind (trap (pop_frame checks v)) finish_pop).
Proof.
  intros s Hs. unfold m_bind, trap, pop_frame, finish_pop.
  destruct (frames (vm s)) as [|f rest]; [by left|]. destruct (Frame.dest_reg f) as [d|]; [|by left].
  destruct (set_reg checks d v _) as [[[[]|e]|] s2] eqn:E; [|by left|done].
  by apply set_reg_alive in E.
Qed.

Lemma alive_reading {A} (f : Vm H -> M H A) : (forall v, m_alive (f v)) -> m_alive (reading f).
Proof. intros Hf s. apply Hf. Qed.

Lemma alive_binop op dst l r : r_alive (numeric_binop checks op dst l r).
Proof.
  unfold numeric_binop.
  do 3 (apply r_alive_bind; [auto using alive_get_reg, alive_pure|intros ?]).
  apply alive_set_reg.
Qed.

Lemma alive_fresh : r_alive (fresh_request_id (H := H)).
Proof.
  apply alive_same. intros s. unfold fresh_request_id, r_bind. simpl. by destruct (_ =? 0).
Qed.

Lemma alive_invoke (f : NativeFn H) args : r_alive (invoke f args).
Proof. apply alive_same. intros s. unfold invoke. by destruct (f args (wld s)). Qed.
End alive.

#[export] Hint Resolve alive_ret alive_exit alive_trap alive_fault alive_current alive_get_reg
  alive_pure alive_set_reg alive_gather alive_pop alive_binop alive_fresh alive_invoke : alive.

Ltac living := repeat first
  [ progress intros | solve [eauto with alive] | apply alive_bind | apply alive_reading
  | solve [by intros ?]
  | match goal with |- m_alive (match ?x with _ => _ end) => destruct x end
  | match goal with |- m_alive (if ?x then _ else _) => destruct x end ].

Section run.
Context {H : Type} (checks : bool).
Implicit Type s : state H.

Lemma alive_jump i : m_alive (H := H) (op_jump checks i).
Proof. unfold op_jump. living. Qed.
#[local] Hint Resolve alive_jump : alive.

Lemma alive_call_native i : m_alive (H := H) (op_call_native checks i).
Proof.
  intros s Hs. unfold op_call_native, reading.
  destruct (check_native_gate _ _ _ _) as [[]|[]]; try by left.
  destruct (NativeTable.get _ _) as [f|]; [|by left].
  match goal with |- context [m_bind ?m ?k s] =>
    assert (m_alive (m_bind m k)) as Hc by living end.
  by apply Hc.
Qed.

Lemma alive_dispatch i : m_alive (H := H) (dispatch checks i).
Proof.
  unfold dispatch.
  destruct (Instruction.op i); try apply alive_jump; try apply alive_call_native;
    unfold op_halt, op_load_const, op_load_imm, op_move, op_binop, op_neg, op_branch, op_call,
      op_return, op_spawn, op_sleep, op_exit, op_send, op_receive,
      op_receive_timeout, op_receive_match, op_receive_match_imm, op_fresh_request_id,
      op_receive_match_corr, op_receive_match_corr_imm, op_ask, op_ask_timeout, op_monitor,
      op_link, op_register_name, op_whereis, op_delegate, mismatch; living.
Qed.

Lemma alive_step : m_alive (H := H) (step checks).
Proof.
  apply alive_bind; [|intros _; apply alive_bind].
  - intros s Hs. unfold count_instruction. by destruct (checked_u _ _ _).
  - apply alive_trap, r_alive_bind; [apply alive_current|].
    intros pc s Hs. unfold get_state. destruct (get _ pc); [|done].
    apply r_alive_bind; [apply alive_current|by intros ? ?|done].
  - intros [i|]; [apply alive_dispatch|apply alive_pop].
Qed.

Lemma run_alive n s r s' :
  alive s -> run checks n s = (Some r, s') -> ends r \/ alive s'.
Proof.
  revert s. induction n as [|n IH]; intros s Hs; simpl; [intros [= <- <-]; by right|].
  pose proof (alive_step s Hs) as Hst. destruct (step checks s) as [[[]|r0|] s1]; [by apply IH| |done].
  by intros [= <- <-].
Qed.
End run.
