(* ===== verification/VmTheory.v ===== *)
(** The theorems about the virtual machine: verified chunks run safely, tokens
    cannot be forged, slicing is invisible, the budget is exact, the calling
    convention, argument gathering, register stores against the heap quota, and
    integer arithmetic; with the three places where a fault or a panic is not
    what the comments promise. *)

From S2P Require Import Prelude Capability F64 Values Isa Verify Sync Quota Native Vm VmSafety.
From S2P Require Import VmFrame.

(** ** From the verifier to the invariant *)

Section start.
Context {H : Type} (checks : bool) (S : CapId.t -> Prop).

Lemma untrusted_constants_good ch :
  chunk_ok ch -> Forall carries_no_authority (Chunk.constants ch) ->
  Forall (good S) (Chunk.constants ch).
Proof.
  intros (_ & Hok & _) Hno. rewrite Forall_forall in Hok, Hno |- *. intros v Hv.
  specialize (Hok v Hv). specialize (Hno v Hv).
  apply good_plain; [done|]. by destruct v.
Qed.

Lemma verified_chunk_inv ch :
  verify ch = Ok tt -> chunk_ok ch -> Z.of_nat (length (Chunk.code ch)) < 2 ^ 60 ->
  chunk_inv S ch.
Proof.
  intros Hv Hok Hlen. apply verify_with_Ok in Hv as [Hwf Hno].
  constructor; [done..|]. apply untrusted_constants_good; [done|]. by apply Hno.
Qed.

(** The state a fresh VM starts from. *)
Definition start (v : Vm H) (w : world H) : state H := mk_state v w.

Lemma start_inv ch nat gate fn args v w :
  chunk_inv S ch -> NativesSafe S nat -> Forall (good S) args -> 0 <= fn ->
  with_native_gate ch nat gate fn args = Ok v -> vm_inv S (start v w).
Proof.
  intros Hch Hnat Hargs Hfn. unfold with_native_gate.
  destruct (Chunk.function ch fn) as [def|] eqn:Hdef; [|done].
  pose proof Hdef as Hd. unfold Chunk.function in Hd. rewrite get_eq in Hd.
  destruct Hch as [(Hne & Hwf & Hins) (Hcn & Hcc & Hci & Hcf) Hlen Hcs].
  apply (Forall_lookup_1 _ _ _ _ Hwf) in Hd as [He Har].
  unfold Chunk.function in Hdef. rewrite get_eq in Hdef.
  pose proof (Forall_lookup_1 _ _ _ _ Hcf Hdef) as (_ & Hu & _ & Hnr).
  set (regs0 := Frame.registers _).
  assert (Hl0 : Z.of_nat (length regs0) = FunctionDef.num_registers def)
    by (unfold regs0; simpl; rewrite length_replicate; unfold in_u in Hnr; lia).
  destruct (load_args_ok S (FunctionDef.num_registers def) (FunctionDef.arity def) args regs0 0)
    as (regs & E & Hl & Hg); [lia|lia|done|apply Forall_replicate, good_unit|].
  rewrite E. intros [= <-]. constructor; simpl; try done.
  - apply Forall_cons. split; [|done]. constructor; simpl.
    + exists def. unfold Chunk.function. rewrite get_eq. split; [done|lia].
    + unfold in_u in Hu. lia.
    + done.
Qed.
End start.

(** C3: a verified chunk runs safely.  Take any chunk the verifier accepts as
    untrusted, with safe natives and well-typed arguments.  Building the VM fails
    only for a function index outside the table; otherwise one slice of any
    budget ends in a well-formed result: it never traps with a bad constant,
    function or opcode nor with an empty frame stack, never nests deeper than
    4096 frames, and (unless the flow completed) leaves a state from which the
    next slice is as safe.  It panics only in a build with checks, on [Neg] of
    [i64::MIN] or when the 64-bit instruction counter is exhausted. *)
Theorem verified_chunk_runs_safely {H} checks S ch (nat : NativeTable.t H) gate fn args w budget :
  verify ch = Ok tt -> chunk_ok ch -> Z.of_nat (length (Chunk.code ch)) < 2 ^ 60 ->
  NativesSafe S nat -> Forall (good S) args -> 0 <= fn ->
  match with_native_gate ch nat gate fn args with
  | Err f => Chunk.function ch fn = None /\
      f = Fault.BadFunction fn (len_u32 (Chunk.functions ch))
  | Ok v =>
    vm_inv S (start v w) /\
    match run checks budget (start v w) with
    | (Some r, s') => result_ok S (chunk (vm s')) r /\
        match r with VmResult.Complete _ => True | _ => vm_inv S s' end
    | (None, s') => panic_cause checks s'
    end
  end.
Proof.
  intros Hv Hok Hlen Hnat Hargs Hfn.
  pose proof (verified_chunk_inv S ch Hv Hok Hlen) as Hch.
  destruct (with_native_gate ch nat gate fn args) as [v|f] eqn:E.
  - pose proof (start_inv S ch nat gate fn args v w Hch Hnat Hargs Hfn E) as Hs.
    split; [done|]. pose proof (run_ok checks S budget _ Hs) as Hr.
    by destruct (run checks budget (start v w)) as [[r|] s'].
  - unfold with_native_gate in E. destruct (Chunk.function ch fn) as [def|] eqn:Hdef.
    + exfalso. unfold Chunk.function in Hdef. rewrite get_eq in Hdef.
      destruct Hch as [(_ & Hwf & _) (_ & _ & _ & Hcf) _ _].
      apply (Forall_lookup_1 _ _ _ _ Hwf) in Hdef as Har.
      apply (Forall_lookup_1 _ _ _ _ Hcf) in Hdef as (_ & _ & _ & Hnr).
      destruct Har as [_ Har].
      destruct (load_args_ok S (FunctionDef.num_registers def) (FunctionDef.arity def) args
        (replicate (Z.to_nat (FunctionDef.num_registers def)) Value.Unit) 0)
        as (regs & E2 & _); [lia| |done|apply Forall_replicate, good_unit|].
      { rewrite length_replicate. unfold in_u in Hnr. lia. }
      simpl in E. rewrite E2 in E. done.
    + by injection E as <-.
Qed.

(** The world and the gate of an embedder without natives. *)
Definition no_world : world unit := mk_world RevocationCell.empty_store ∅ 0%N tt.
Definition no_gate : NativeGate.t := NativeGate.mk false [] 0 0%N 0 0%N.
#[export] Instance empty_natives_safe {H} S : NativesSafe S (@NativeTable.empty H).
Proof.
  intros idx f args w Hf. unfold NativeTable.get, NativeTable.empty in Hf.
  by rewrite get_eq in Hf.
Qed.

(** Counts down from 3 with a recursive call per step. *)
Definition countdown : Chunk.t := Chunk.mk (ascii_bytes "countdown") [Value.Int 3]
  [ (* main *)
    Instruction.a_imm Opcode.LoadConst 0 0; Instruction.new Opcode.Call 0 1 0 1;
    Instruction.abc Opcode.Return 0 0 0;
    (* down *)
    Instruction.a_imm Opcode.Branch 0 4; Instruction.a_imm Opcode.LoadImm 1 1;
    Instruction.abc Opcode.Sub 1 0 1; Instruction.new Opcode.Call 1 1 0 1;
    Instruction.abc Opcode.Return 1 0 0; Instruction.abc Opcode.Return 0 0 0]
  [FunctionDef.mk (ascii_bytes "main") 0 0 1; FunctionDef.mk (ascii_bytes "down") 3 1 2].

Lemma verified_chunk_runs_safely_witness :
  match with_native_gate countdown NativeTable.empty no_gate 0 [] with
  | Ok v => fst (run true 100 (start v no_world)) = Some (VmResult.Complete (Value.Int 0)) /\
      vm_inv (fun _ => False) (start v no_world)
  | Err _ => False
  end.
Proof.
  pose proof (verified_chunk_runs_safely true (fun _ => False) countdown NativeTable.empty no_gate 0 []
    no_world 100) as Hsafe.
  destruct (with_native_gate countdown NativeTable.empty no_gate 0 []) as [v|f] eqn:E;
    [|vm_compute in E; discriminate].
  split; [vm_compute in E; injection E as <-; by vm_compute|].
  apply Hsafe; try done; try apply empty_natives_safe.
  split_and!; repeat constructor; vm_compute; congruence.
Defined.

(** ** Confinement of tokens *)

(** Every token a result hands to the scheduler. *)
Definition result_tokens (r : VmResult.t) : list CapId.t :=
  match r with
  | VmResult.Complete v => caps_of v
  | VmResult.Spawn _ args _ _ => concat (map caps_of args)
  | VmResult.Send c m | VmResult.Ask _ c m _ => c :: caps_of m
  | VmResult.Monitor _ c | VmResult.Link _ c => [c]
  | VmResult.Delegate _ c _ n => c :: option_list n
  | _ => []
  end.

Lemma result_ok_tokens S ch r :
  result_ok S ch r -> Forall (cap_held S) (result_tokens r).
Proof.
  destruct r; simpl; try done.
  - by intros [_ Hv].
  - intros (_ & Hargs & _). induction Hargs as [|v vs [_ Hv] _ IH]; simpl; [done|].
    by apply Forall_app.
  - intros (Hc & _ & _ & Hm). by apply Forall_cons.
  - intros (_ & Hc & _ & [_ Hm] & _). by apply Forall_cons.
  - intros [_ Hc]. by apply Forall_singleton.
  - intros [_ Hc]. by apply Forall_singleton.
  - intros (_ & Hc & _ & Hn). apply Forall_cons. split; [done|].
    destruct want_native_cap; simpl; [|done]. apply Forall_singleton. auto.
Qed.

Section session.
Context {H : Type} (checks : bool).

(** What the scheduler does with a flow: run a slice, then perhaps deliver a value
    into a register, and so on until the flow completes or panics. *)
Fixpoint session (script : list (nat * option (Z * Value.t))) (s : state H)
  : list VmResult.t :=
  match script with
  | [] => []
  | (budget, delivery) :: script' =>
    match run checks budget s with
    | (None, _) => []
    | (Some (VmResult.Complete v), _) => [VmResult.Complete v]
    | (Some r, s1) =>
      r :: match delivery with
           | None => session script' s1
           | Some (reg, v) =>
             match resume_with checks reg v s1 with
             | (Some (Ok _), s2) => session script' s2
             | _ => []
             end
           end
    end
  end.

Definition deliveries_within (S : CapId.t -> Prop) (script : list (nat * option (Z * Value.t))) : Prop :=
  Forall (fun e : nat * option (Z * Value.t) =>
            match snd e with Some (_, v) => good S v | None => True end) script.

Lemma session_ok S script s :
  vm_inv S s -> deliveries_within S script ->
  Forall (fun r => Forall (cap_held S) (result_tokens r)) (session script s).
Proof.
  intros Hs Hd. revert s Hs. induction Hd as [|[budget delivery] script Hv _ IH]; intros s Hs;
    simpl; [constructor|].
  pose proof (run_ok checks S budget s Hs) as Hr.
  destruct (run checks budget s) as [[r|] s1]; [|constructor].
  destruct Hr as [Hr Hs1]. pose proof (result_ok_tokens S _ r Hr) as Ht.
  assert (Hrest : vm_inv S s1 -> Forall (fun r => Forall (cap_held S) (result_tokens r))
    (match delivery with
     | None => session script s1
     | Some (reg, v) => match resume_with checks reg v s1 with
                        | (Some (Ok _), s2) => session script s2 | _ => [] end
     end)).
  { intros Hs1'. destruct delivery as [[reg v]|]; [|by apply IH].
    pose proof (set_reg_spec checks S (fun _ _ => True) reg v Hv s1 (conj Hs1' I)) as Hset.
    unfold resume_with. destruct (set_reg checks reg v s1) as [[[[]|]|] s2]; try constructor.
    apply IH, Hset. }
  destruct r; constructor; try done; try (by apply Hrest).
Qed.
End session.

(** C4: capability tokens cannot be forged.  Let [S] be the tokens a flow is
    given: those in its arguments and in every value ever delivered to it.  For a
    chunk verified as untrusted and natives that only pass on tokens they hold,
    every token the flow ever presents to the scheduler (as the target of a send,
    ask, monitor, link or delegation, inside a message, among the arguments of a
    spawn, or in its final value) is in [S] or is the null token, through any
    number of slices of any length. *)
Theorem tokens_not_forged {H} checks S ch (nat : NativeTable.t H) gate fn args v w script :
  verify ch = Ok tt -> chunk_ok ch -> Z.of_nat (length (Chunk.code ch)) < 2 ^ 60 ->
  NativesSafe S nat -> Forall (good S) args -> 0 <= fn ->
  with_native_gate ch nat gate fn args = Ok v -> deliveries_within S script ->
  Forall (fun r => Forall (cap_held S) (result_tokens r))
    (session checks script (start v w)).
Proof.
  intros Hv Hok Hlen Hnat Hargs Hfn Hnew Hd. apply session_ok; [|done].
  eapply start_inv; [|done..]. by apply verified_chunk_inv.
Qed.

(** Sends its argument's token a message, then what it is delivered. *)
Definition forwarder : Chunk.t := Chunk.mk (ascii_bytes "forwarder") []
  [Instruction.abc Opcode.Send 0 1 0; Instruction.abc Opcode.Monitor 0 2 0;
   Instruction.abc Opcode.Exit 2 0 0]
  [FunctionDef.mk (ascii_bytes "main") 0 2 3].

Lemma tokens_not_forged_witness :
  exists v, with_native_gate forwarder NativeTable.empty no_gate 0
      [Value.Cap 7; Value.Message (Msg.new 0 1 2 (Value.Cap 7))] = Ok v /\
    session true [(5%nat, Some (2, Value.Cap 9)); (5%nat, None); (5%nat, None)]
      (start v no_world) =
      [VmResult.Send 7 (Value.Message (Msg.new 0 1 2 (Value.Cap 7))); VmResult.Monitor 0 9;
       VmResult.Complete (Value.Cap 9)] /\
    Forall (fun r => Forall (cap_held (fun c => c ∈ [7; 9])) (result_tokens r))
      (session true [(5%nat, Some (2, Value.Cap 9)); (5%nat, None); (5%nat, None)]
        (start v no_world)).
Proof.
  destruct (with_native_gate forwarder NativeTable.empty no_gate 0
      [Value.Cap 7; Value.Message (Msg.new 0 1 2 (Value.Cap 7))]) as [v|] eqn:E;
    [|vm_compute in E; discriminate].
  exists v. split; [done|]. split; [vm_compute in E; injection E as <-; by vm_compute|].
  apply (tokens_not_forged true (fun c => c ∈ [7; 9]) forwarder NativeTable.empty no_gate 0
    [Value.Cap 7; Value.Message (Msg.new 0 1 2 (Value.Cap 7))]); try done.
  - split_and!; repeat constructor; vm_compute; congruence.
  - apply empty_natives_safe.
  - repeat constructor; try (vm_compute; congruence); right; set_solver.
  - repeat constructor; try (vm_compute; congruence); right; set_solver.
Defined.

(** ** Slices *)

Section slices.
Context {H : Type} (checks : bool).
Implicit Type s : state H.

Lemma run_plus n m s :
  run checks (n + m) s = run checks n s \/
  (fst (run checks n s) = Some VmResult.Yield /\
   run checks (n + m) s = run checks m (snd (run checks n s))).
Proof.
  revert s. induction n as [|n IH]; intros s; simpl; [by right|].
  destruct (step checks s) as [[[]|r|] s']; [apply IH|by left..].
Qed.

End slices.

(** Dispatching an instruction counts nothing: only the loop does. *)
Definition same_count {H} (s s' : state H) : Prop :=
  instructions_executed (vm s') = instructions_executed (vm s).

Lemma count_frame {H} : vm_frame (@same_count H).
Proof. split; unfold same_count; try done. intros s1 s2 s3 E1 E2. congruence. Qed.

Section budget.
Context {H : Type} (checks : bool).
Implicit Type s : state H.

Lemma step_counts s :
  0 <= instructions_executed (vm s) < u64_max ->
  instructions_executed (vm (snd (step checks s))) = instructions_executed (vm s) + 1.
Proof.
  intros Hs. unfold step, m_bind at 1, count_instruction.
  rewrite checked_u_id by (unfold in_u, u64_max in *; lia).
  match goal with |- context [m_bind ?m ?k ?s1] =>
    pose proof (framed_rest checks same_count count_frame (fun _ _ _ _ _ => eq_refl) s1) as Hc end.
  etransitivity; [exact Hc|done].
Qed.

(** The iterations of a slice: all of the budget, unless the slice ends first. *)
Lemma run_iterations n s :
  0 <= instructions_executed (vm s) -> instructions_executed (vm s) + Z.of_nat n <= u64_max ->
  exists k, (k <= n)%nat /\
    instructions_executed (vm (snd (run checks n s))) =
      instructions_executed (vm s) + Z.of_nat k /\
    (k < n -> forall m, run checks (k + m) s = run checks n s)%nat /\
    (forall j, (j < k)%nat -> fst (run checks j s) = Some VmResult.Yield).
Proof.
  revert s. induction n as [|n IH]; intros s H0 Hn; simpl.
  { exists 0%nat. split_and!; lia. }
  pose proof (step_counts s ltac:(lia)) as Hst.
  destruct (step checks s) as [[[]|r|] s'] eqn:E; simpl in Hst.
  - destruct (IH s') as (k & Hk & He & Hend & Hy); [lia..|].
    exists (S k). split_and!; [lia|lia| |].
    + intros Hlt m. simpl. rewrite E. apply Hend. lia.
    + intros [|j] Hj; simpl; [done|]. rewrite E. apply Hy. lia.
  - exists 1%nat. simpl. split_and!; [lia|lia| |].
    + intros _ m. by rewrite E.
    + intros j Hj. by replace j with 0%nat by lia.
  - exists 1%nat. simpl. split_and!; [lia|lia| |].
    + intros _ m. by rewrite E.
    + intros j Hj. by replace j with 0%nat by lia.
Qed.
End budget.

(** Time slicing is invisible and the budget exact.  Running with budget
    [n + m] gives what running [n] gives, or, when that yields, what running [m]
    more from there gives.  A slice of budget [n] executes [k <= n] instructions,
    counts exactly [k] of them, and if [k < n] every larger budget ends the same
    way; with any smaller budget than [k] it yields. *)
Lemma slices_compose {H} checks (s : state H) n m :
  0 <= instructions_executed (vm s) -> instructions_executed (vm s) + Z.of_nat n <= u64_max ->
  (run checks (n + m) s = run checks n s \/
   fst (run checks n s) = Some VmResult.Yield /\
   run checks (n + m) s = run checks m (snd (run checks n s))) /\
  exists k, (k <= n)%nat /\
    instructions_executed (vm (snd (run checks n s))) =
      instructions_executed (vm s) + Z.of_nat k /\
    (k < n -> forall m, run checks (k + m) s = run checks n s)%nat /\
    (forall j, (j < k)%nat -> fst (run checks j s) = Some VmResult.Yield).
Proof. intros H0 Hn. split; [apply run_plus|by apply run_iterations]. Qed.

Lemma slices_compose_witness :
  match with_native_gate countdown NativeTable.empty no_gate 0 [] with
  | Ok v =>
    run true (7 + 40) (start v no_world) =
      run true 40 (snd (run true 7 (start v no_world))) /\
    instructions_executed (vm (snd (run true 7 (start v no_world)))) = 7
  | Err _ => False
  end.
Proof.
  destruct (with_native_gate countdown NativeTable.empty no_gate 0 []) as [v|] eqn:E;
    [|vm_compute in E; discriminate].
  vm_compute in E. injection E as <-.
  match goal with |- _ = run true 40 (snd (run true 7 (start ?v _))) /\ _ =>
    pose proof (slices_compose true (start v no_world) 7 40) as Hx end.
  destruct Hx as [[Hsame|[_ Hrest]] _]; [by vm_compute|by vm_compute| |].
  - apply (f_equal fst) in Hsame. vm_compute in Hsame. discriminate.
  - split; [exact Hrest|by vm_compute].
Defined.

(** ** Argument gathering *)

Section registers.
Context {H : Type} (checks : bool).
Implicit Type s : state H.

(** The answer of a gather that starts at register [a]. *)
Definition gather_answer (base : Z) (n : nat) (a : Z) (regs : list Value.t)
  : result (list Value.t) Fault.t :=
  let L := Z.of_nat (length regs) in
  if decide (n = 0%nat \/ a + Z.of_nat n <= L) then Ok (firstn n (skipn (Z.to_nat a) regs))
  else
    let bad := Z.max a L in
    if decide (bad <= u8_max) then Err (Fault.RegisterOutOfRange bad L)
    else Err (Fault.RegisterIndexOverflow base (Z.min (bad - base) u8_max)).

Lemma frame_size_small f :
  Z.of_nat (length (Frame.registers f)) <= u8_max ->
  frame_size f = Z.of_nat (length (Frame.registers f)).
Proof. intros Hl. apply wrap_u_id. unfold in_u, u8_max in *. lia. Qed.

Lemma gather_eq n base offset i s f rest :
  frames (vm s) = f :: rest -> Z.of_nat (length (Frame.registers f)) <= u8_max ->
  0 <= base + offset + i ->
  gather n base offset i s =
  (Some (gather_answer base n (base + offset + i) (Frame.registers f)), s).
Proof.
  intros Hf HL. revert i. induction n as [|n IH]; intros i Ha; simpl.
  { unfold gather_answer. by rewrite decide_True by auto. }
  unfold r_bind at 1, pure_r, reg_at.
  replace (base + (i + offset)) with (base + offset + i) by lia.
  set (a := base + offset + i) in *. set (L := Z.of_nat (length (Frame.registers f))) in *.
  destruct (Z.leb_spec a u8_max) as [Hle|Hgt].
  2: { unfold gather_answer. fold L. rewrite decide_False by lia.
       rewrite Z.max_l, decide_False by lia. do 4 f_equal.
       destruct (Z.leb_spec (i + offset) u8_max); lia. }
  unfold r_bind at 1, get_reg. rewrite Hf, get_eq.
  destruct (Frame.registers f !! Z.to_nat a) as [v|] eqn:Hv.
  - pose proof (lookup_lt_Some _ _ _ Hv) as Hlt.
    unfold r_bind, ok_. rewrite IH by lia.
    replace (base + offset + (i + 1)) with (a + 1) by lia.
    unfold gather_answer. fold L.
    destruct (decide (n = 0%nat \/ a + 1 + Z.of_nat n <= L)) as [Hin|Hout].
    + rewrite decide_True by lia. do 3 f_equal.
      rewrite (drop_S _ _ _ Hv). replace (Z.to_nat (a + 1)) with (S (Z.to_nat a)) by lia. done.
    + destruct (decide (S n = 0%nat \/ a + Z.of_nat (S n) <= L)); [lia|].
      rewrite !Z.max_r by lia. by destruct (decide (L <= u8_max)).
  - apply lookup_ge_None in Hv. unfold gather_answer. fold L.
    rewrite decide_False, Z.max_l, decide_True by lia. by rewrite frame_size_small.
Qed.

(** ** Register stores *)

(** What a store charges to the heap quota: the length of a buffer that is not
    already the one in the register. *)
Definition store_cost s (reg : Z) (v : Value.t) : Z :=
  match quota (vm s) with
  | None => 0
  | Some _ =>
    match v, peek_reg s reg with
    | Value.Str p b, Some (Value.Str old _) => if ptr_eq p old then 0 else Z.of_nat (length b)
    | Value.Bytes p b, Some (Value.Bytes old _) =>
      if ptr_eq p old then 0 else Z.of_nat (length b)
    | Value.Str _ b, _ | Value.Bytes _ b, _ => Z.of_nat (length b)
    | _, _ => 0
    end
  end.

Definition charged s (n : Z) : state H :=
  match quota (vm s) with
  | Some q =>
    if n =? 0 then s
    else mk_state (vm s) (with_quotas (wld s)
      (<[q := FlowQuota.with_mem_used (quotas (wld s) !!! q)
                (FlowQuota.mem_used (quotas (wld s) !!! q) + n)]> (quotas (wld s))))
  | None => s
  end.

Definition fits s (n : Z) : Prop :=
  match quota (vm s) with
  | Some q => n = 0 \/ FlowQuota.mem_used (quotas (wld s) !!! q) + n <=
                       FlowQuota.mem_limit (quotas (wld s) !!! q)
  | None => True
  end.

Definition updated s (f : Frame.t) (rest : list Frame.t) (reg : Z) (v : Value.t) : state H :=
  mk_state (with_frames (vm s)
    (Frame.with_registers f (<[Z.to_nat reg := v]> (Frame.registers f)) :: rest)) (wld s).

(** The quota a VM refers to exists and is within its limit. *)
Definition quota_live s : Prop :=
  forall q, quota (vm s) = Some q ->
  exists Q, quotas (wld s) !! q = Some Q /\ mem_wf Q.

Lemma charge_heap_value_eq q v s n :
  quota_live s -> quota (vm s) = Some q ->
  match v with Value.Str _ b | Value.Bytes _ b => n = Z.of_nat (length b) | _ => n = 0 end ->
  n < u64_max ->
  (fits s n -> charge_heap_value q v s = (Some (Ok tt), charged s n)) /\
  (~ fits s n -> exists m, charge_heap_value q v s = (Some (Err (Fault.QuotaExceeded m)), s)).
Proof.
  intros Hlive Hq Hv Hn. destruct (Hlive q Hq) as (Q & HQ & Hwf).
  unfold fits, charged, charge_heap_value. rewrite Hq, (lookup_total_correct _ _ _ HQ).
  destruct v; try (subst n; split; [done|intros []; auto]);
    (destruct (Z.of_nat (length _)) as [|zp|zp] eqn:El; subst n;
     [split; [done|intros []; auto]| |lia];
     rewrite alloc_spec by (done || unfold in_u, u64_max in *; lia);
     split; intros Hfit; [rewrite decide_True by (destruct Hfit; [done|lia]); done|];
     rewrite decide_False by (intros ?; apply Hfit; by right);
     eexists; rewrite insert_id by done; by destruct s as [? []]).
Qed.

(** The store proper, after the charge. *)
Lemma set_reg_write s f rest reg v s' :
  frames (vm s') = f :: rest -> Z.of_nat (length (Frame.registers f)) <= u8_max ->
  charge_register_store reg v s = (Some (Ok tt), s') ->
  set_reg checks reg v s =
  match get (Frame.registers f) reg with
  | Some _ => (Some (Ok tt), updated s' f rest reg v)
  | None =>
    (Some (Err (Fault.RegisterOutOfRange reg (Z.of_nat (length (Frame.registers f))))),
     mk_state (with_frames (vm s') (f :: rest)) (wld s'))
  end.
Proof.
  intros Hf HL Hc. unfold set_reg, r_bind. rewrite Hc. unfold current, pure_r. rewrite Hf.
  destruct (get (Frame.registers f) reg); [done|]. by rewrite frame_size_small.
Qed.

Lemma charge_register_store_eq s reg v :
  quota_live s -> store_cost s reg v < u64_max ->
  (fits s (store_cost s reg v) ->
   charge_register_store reg v s = (Some (Ok tt), charged s (store_cost s reg v))) /\
  (~ fits s (store_cost s reg v) ->
   exists m, charge_register_store reg v s = (Some (Err (Fault.QuotaExceeded m)), s)).
Proof.
  intros Hlive Hn. unfold charge_register_store, store_cost in *.
  destruct (quota (vm s)) as [q|] eqn:Hq.
  2: { unfold fits, charged. rewrite Hq. split; [done|]. intros []; done. }
  assert (Hfree : (fits s 0 -> (Some (Ok tt), s) = (Some (@Ok unit Fault.t tt), charged s 0)) /\
    (~ fits s 0 -> exists m, (Some (Ok tt), s) = (Some (Err (Fault.QuotaExceeded m)), s))).
  { unfold fits, charged. rewrite Hq. split; [done|intros []; auto]. }
  pose proof (fun n => charge_heap_value_eq q v s n Hlive Hq) as Hc.
  destruct v; try exact Hfree; destruct (peek_reg s reg) as [[]|];
    try (by apply Hc); destruct (ptr_eq _ _); try exact Hfree; by apply Hc.
Qed.
End registers.

(** argument gathering never wraps.  Reading [n] consecutive registers from
    [base + offset] answers exactly those registers when they all exist;
    otherwise it faults with the first one that does not, as out of range of the
    frame, or as an overflow of the register index space when it is past r255;
    and it changes nothing. *)
Lemma gather_exact {H} n base offset (s : state H) f rest :
  frames (vm s) = f :: rest -> Z.of_nat (length (Frame.registers f)) <= u8_max ->
  0 <= base + offset ->
  gather n base offset 0 s =
  (Some (gather_answer base n (base + offset) (Frame.registers f)), s).
Proof.
  intros Hf HL Ha. rewrite (gather_eq n base offset 0 s f rest) by (done || lia).
  by rewrite Z.add_0_r.
Qed.

(** A machine with one frame of three registers. *)
Definition three_registers : state unit :=
  mk_state (mk_vm countdown NativeTable.empty no_gate
    [Frame.mk 0 0 [Value.Int 1; Value.Int 2; Value.Int 3] None] 0 1 None) no_world.

Lemma gather_exact_witness :
  fst (gather 2 0 1 0 three_registers) = Some (Ok [Value.Int 2; Value.Int 3]) /\
  fst (gather 2 2 0 0 three_registers) = Some (Err (Fault.RegisterOutOfRange 3 3)) /\
  fst (gather 1 255 1 0 three_registers) = Some (Err (Fault.RegisterIndexOverflow 255 1)).
Proof.
  split_and!.
  - rewrite (gather_exact 2 0 1 three_registers
      (Frame.mk 0 0 [Value.Int 1; Value.Int 2; Value.Int 3] None) []); by vm_compute.
  - by vm_compute.
  - by vm_compute.
Defined.

(** Register stores fail closed.  A store first charges the heap quota with
    the length of a [Str] or [Bytes] that is not already the buffer in that
    register; if the charge does not fit, the fault is [QuotaExceeded] and
    neither registers nor quota change; if it fits, the quota grows by exactly
    that amount and either the one register changes or, when it does not exist,
    the fault names it. *)
Lemma store_exact {H} checks (s : state H) f rest reg v :
  frames (vm s) = f :: rest -> Z.of_nat (length (Frame.registers f)) <= u8_max ->
  quota_live s -> store_cost s reg v < u64_max ->
  (~ fits s (store_cost s reg v) ->
   exists m, set_reg checks reg v s = (Some (Err (Fault.QuotaExceeded m)), s)) /\
  (fits s (store_cost s reg v) ->
   let s' := charged s (store_cost s reg v) in
   set_reg checks reg v s =
   match get (Frame.registers f) reg with
   | Some _ => (Some (Ok tt), updated s' f rest reg v)
   | None =>
     (Some (Err (Fault.RegisterOutOfRange reg (Z.of_nat (length (Frame.registers f))))),
      mk_state (with_frames (vm s') (f :: rest)) (wld s'))
   end).
Proof.
  intros Hf HL Hlive Hn.
  destruct (charge_register_store_eq s reg v Hlive Hn) as [Hok Herr]. split.
  - intros Hfit. destruct (Herr Hfit) as [m Hm]. exists m. unfold set_reg, r_bind. by rewrite Hm.
  - intros Hfit. simpl. apply (set_reg_write checks s f rest); [|done|by apply Hok].
    unfold charged. destruct (quota (vm s)); [|done]. by destruct (_ =? 0).
Qed.

Definition quota_world : world unit :=
  mk_world RevocationCell.empty_store {[ 5%N := FlowQuota.new 100 4 1 1 1 1 0 ]} 0%N tt.
Definition quota_state : state unit :=
  mk_state (with_quota (vm three_registers) (Some 5%N)) quota_world.

Lemma store_exact_witness :
  (exists m, set_reg true 0 (Value.Str 1%N (ascii_bytes "hello")) quota_state =
     (Some (Err (Fault.QuotaExceeded m)), quota_state)) /\
  FlowQuota.mem_used (quotas (wld (snd (set_reg true 0 (Value.Str 1%N (ascii_bytes "hey"))
    quota_state))) !!! 5%N) = 3.
Proof.
  pose proof (store_exact true quota_state
    (Frame.mk 0 0 [Value.Int 1; Value.Int 2; Value.Int 3] None) []) as Hx.
  assert (Hlive : quota_live quota_state).
  { intros q [= <-]. eexists. split; [by vm_compute|]. split; vm_compute; [split|]; congruence. }
  split.
  - apply Hx; [done|by vm_compute|done|by vm_compute|]. intros [?|Hfit]; [done|].
    by vm_compute in Hfit.
  - by vm_compute.
Defined.

(** ** The calling convention *)

Lemma load_args_split nregs arity args pre suf :
  arity <= Z.of_nat (length (pre ++ suf)) ->
  let taken := firstn (Z.to_nat arity - length pre) args in
  load_args nregs arity (Z.of_nat (length pre)) args (pre ++ suf) =
  Ok (pre ++ taken ++ skipn (length taken) suf).
Proof.
  revert pre suf. induction args as [|a args IH]; intros pre suf Har; simpl.
  { by rewrite firstn_nil. }
  destruct (Z.leb_spec arity (Z.of_nat (length pre))) as [Hle|Hlt].
  { replace (Z.to_nat arity - length pre)%nat with 0%nat by lia. done. }
  rewrite length_app in Har. destruct suf as [|x suf]; [simpl in Har; lia|].
  rewrite get_eq, Nat2Z.id, list_lookup_middle by done.
  replace (<[length pre:=a]> (pre ++ x :: suf)) with ((pre ++ [a]) ++ suf).
  2: { rewrite insert_app_r_alt, Nat.sub_diag by lia. by rewrite <- app_assoc. }
  replace (Z.of_nat (length pre) + 1) with (Z.of_nat (length (pre ++ [a])))
    by (rewrite length_app; simpl; lia).
  rewrite IH by (rewrite !length_app in *; simpl in *; lia).
  rewrite length_app. simpl length.
  replace (Z.to_nat arity - length pre)%nat
    with (S (Z.to_nat arity - (length pre + 1)))%nat by lia.
  simpl. by rewrite <- app_assoc.
Qed.

(** The registers a callee starts with. *)
Definition callee_registers (def : FunctionDef.t) (args : list Value.t) : list Value.t :=
  let taken := firstn (Z.to_nat (FunctionDef.arity def)) args in
  taken ++ replicate (Z.to_nat (FunctionDef.num_registers def) - length taken) Value.Unit.

Lemma load_args_callee def args :
  0 <= FunctionDef.arity def <= FunctionDef.num_registers def ->
  load_args (FunctionDef.num_registers def) (FunctionDef.arity def) 0 args
    (replicate (Z.to_nat (FunctionDef.num_registers def)) Value.Unit) =
  Ok (callee_registers def args).
Proof.
  intros Har.
  pose proof (load_args_split (FunctionDef.num_registers def) (FunctionDef.arity def) args []
    (replicate (Z.to_nat (FunctionDef.num_registers def)) Value.Unit)) as Hl.
  rewrite !app_nil_l in Hl. change (length (@nil Value.t)) with 0%nat in Hl.
  change (Z.of_nat 0) with 0 in Hl.
  rewrite Hl by (rewrite length_replicate; lia).
  rewrite Nat.sub_0_r, drop_replicate. done.
Qed.

(** The calling convention.  A call within the depth limit pushes one frame:
    the callee starts at its entry with its first [arity] arguments in [r0..],
    every other register [Unit], and remembers the destination.  When that frame
    (whatever it has done since) is popped with a value, the caller is back as it
    was, its program counter past the call, with exactly its destination register
    replaced by the value. *)
Lemma call_return {H} checks (s : state H) i f rest def :
  let fn := wrap_u 32 (Instruction.imm i) in
  let a := Instruction.a i in
  let args := firstn (Z.to_nat (Instruction.b i)) (skipn (Z.to_nat a) (Frame.registers f)) in
  frames (vm s) = f :: rest -> Z.of_nat (length (frames (vm s))) < MAX_CALL_DEPTH ->
  Chunk.function (chunk (vm s)) fn = Some def ->
  0 <= FunctionDef.arity def <= FunctionDef.num_registers def ->
  0 <= a < Z.of_nat (length (Frame.registers f)) -> 0 <= Instruction.b i ->
  a + Instruction.b i <= Z.of_nat (length (Frame.registers f)) <= u8_max ->
  op_call i s =
    (Next tt, mk_state (with_frames (vm s)
      (Frame.mk fn (FunctionDef.entry def) (callee_registers def args) (Some a) :: f :: rest))
      (wld s)) /\
  (forall v (s2 : state H) callee, frames (vm s2) = callee :: f :: rest ->
     Frame.dest_reg callee = Some a -> quota (vm s2) = None ->
     pop_frame checks v s2 =
       (Some (Ok None), mk_state (with_frames (vm s2)
         (Frame.with_registers f (<[Z.to_nat a := v]> (Frame.registers f)) :: rest)) (wld s2))).
Proof.
  intros fn a args Hf Hdepth Hdef Har Ha Hb Hregs. split.
  - unfold op_call, reading. fold fn.
    destruct (Z.leb_spec MAX_CALL_DEPTH (Z.of_nat (length (frames (vm s))))); [lia|].
    rewrite Hdef. unfold m_bind, trap.
    rewrite (gather_eq (Z.to_nat (Instruction.b i)) (Instruction.a i) 0 0 s f rest)
      by (done || lia).
    replace (Instruction.a i + 0 + 0) with a by (unfold a; lia).
    unfold gather_answer. rewrite decide_True by lia. fold args.
    unfold pure_r. simpl Frame.registers. rewrite load_args_callee by done. by rewrite Hf.
  - intros v s2 callee Hs2 Hd Hq. unfold pop_frame. rewrite Hs2, Hd.
    rewrite (set_reg_write checks _ f rest a v
      (mk_state (with_frames (vm s2) (f :: rest)) (wld s2))); [|done|lia|].
    + destruct (lookup_lt_is_Some_2 (Frame.registers f) (Z.to_nat a)) as [x Hx]; [lia|].
      by rewrite get_eq, Hx.
    + unfold charge_register_store. simpl. by rewrite Hq.
Qed.

Definition call_state : state unit :=
  mk_state (mk_vm countdown NativeTable.empty no_gate
    [Frame.mk 0 2 [Value.Int 3] None] 2 1 None) no_world.

Lemma call_return_witness :
  op_call (Instruction.new Opcode.Call 0 1 0 1) call_state =
    (Next tt, mk_state (with_frames (vm call_state)
      [Frame.mk 1 3 [Value.Int 3; Value.Unit] (Some 0); Frame.mk 0 2 [Value.Int 3] None])
      no_world) /\
  pop_frame true (Value.Int 9) (mk_state (with_frames (vm call_state)
      [Frame.mk 1 5 [] (Some 0); Frame.mk 0 2 [Value.Int 3] None]) no_world) =
    (Some (Ok None), mk_state (with_frames (vm call_state)
      [Frame.mk 0 2 [Value.Int 9] None]) no_world).
Proof.
  destruct (call_return true call_state (Instruction.new Opcode.Call 0 1 0 1)
    (Frame.mk 0 2 [Value.Int 3] None) [] (FunctionDef.mk (ascii_bytes "down") 3 1 2))
    as [Hcall Hret]; [done|by vm_compute|by vm_compute|by vm_compute|by vm_compute|done|by vm_compute|].
  split; [exact Hcall|].
  exact (Hret (Value.Int 9) (mk_state (with_frames (vm call_state)
      [Frame.mk 1 5 [] (Some 0); Frame.mk 0 2 [Value.Int 3] None]) no_world)
      (Frame.mk 1 5 [] (Some 0)) eq_refl eq_refl eq_refl).
Defined.

(** ** Integer arithmetic *)

(** integer arithmetic wraps and never panics.  On two [i64] operands [Add],
    [Sub] and [Mul] give the representative of the exact result modulo 2^64;
    [Div] and [Mod] fault on a zero divisor and otherwise give the truncated
    quotient and remainder, which recompose to the dividend, the quotient of
    [i64::MIN] by -1 being the one that wraps; every result is an [i64], and the
    comparisons are those of the integers. *)
Lemma int_arithmetic x y :
  in_i 64 x -> in_i 64 y ->
  (forall op exact, (op, exact) ∈ [(Opcode.Add, x + y); (Opcode.Sub, x - y); (Opcode.Mul, x * y)] ->
     exists z, binop_value op (Value.Int x) (Value.Int y) = Ok (Value.Int z) /\ in_i 64 z /\
       z mod 2 ^ 64 = exact mod 2 ^ 64) /\
  (y = 0 ->
     binop_value Opcode.Div (Value.Int x) (Value.Int y) = Err Fault.DivideByZero /\
     binop_value Opcode.Mod (Value.Int x) (Value.Int y) = Err Fault.DivideByZero) /\
  (y <> 0 -> exists q r,
     binop_value Opcode.Div (Value.Int x) (Value.Int y) = Ok (Value.Int q) /\
     binop_value Opcode.Mod (Value.Int x) (Value.Int y) = Ok (Value.Int r) /\
     in_i 64 q /\ in_i 64 r /\ Z.abs r < Z.abs y /\ 0 <= r * x /\
     ((x = i64_min /\ y = -1 /\ q = i64_min) \/ x = y * q + r)) /\
  binop_value Opcode.Lt (Value.Int x) (Value.Int y) = Ok (Value.Bool (x <? y)) /\
  binop_value Opcode.Le (Value.Int x) (Value.Int y) = Ok (Value.Bool (x <=? y)) /\
  binop_value Opcode.Eq (Value.Int x) (Value.Int y) = Ok (Value.Bool (x =? y)).
Proof.
  intros Hx Hy.
  assert (Hwrap : forall z, in_i 64 (wrap_i 64 z) /\ wrap_i 64 z mod 2 ^ 64 = z mod 2 ^ 64).
  { intros z. split; [apply wrap_i_range; lia|]. unfold wrap_i.
    rewrite Zminus_mod_idemp_l. f_equal. lia. }
  split; [|split; [|split]].
  - intros op exact Hin. rewrite !elem_of_cons in Hin.
    destruct Hin as [[= -> ->]|[[= -> ->]|[[= -> ->]|Hin]]];
      [eexists; split; [reflexivity|apply Hwrap]..|by apply elem_of_nil in Hin].
  - by intros ->.
  - intros Hy0. exists (wrap_i 64 (Z.quot x y)), (Z.rem x y). simpl.
    destruct (Z.eqb_spec y 0); [done|].
    pose proof (Z.quot_rem x y Hy0). pose proof (Z.rem_bound_abs x y Hy0).
    pose proof (Z.rem_sign_mul x y Hy0).
    do 2 (split; [done|]). split; [apply Hwrap|]. split; [by apply rem_range|].
    do 2 (split; [done|]).
    destruct (decide (x = i64_min /\ y = -1)) as [[-> ->]|Hno].
    + left. by vm_compute.
    + right. rewrite wrap_i_id; [done|lia|].
      unfold in_i, i64_min in *. change (2 ^ (64 - 1)) with (2 ^ 63) in *.
      pose proof (Z.quot_abs x y Hy0) as Habs.
      rewrite Z.quot_div_nonneg in Habs by lia.
      pose proof (Z.mul_div_le (Z.abs x) (Z.abs y) ltac:(lia)) as Hle.
      pose proof (Z.div_pos (Z.abs x) (Z.abs y) ltac:(lia) ltac:(lia)).
      destruct (Z.eq_dec y (-1)) as [->|]; [lia|].
      destruct (Z.eq_dec y 1) as [->|]; [lia|].
      assert (2 * (Z.abs x / Z.abs y) <= Z.abs x) by nia. lia.
  - done.
Qed.

Lemma int_arithmetic_witness :
  exists q r,
    binop_value Opcode.Div (Value.Int (-7)) (Value.Int 2) = Ok (Value.Int q) /\
    binop_value Opcode.Mod (Value.Int (-7)) (Value.Int 2) = Ok (Value.Int r) /\
    q = -3 /\ r = -1.
Proof.
  destruct (int_arithmetic (-7) 2) as (_ & _ & Hdiv & _); [by split|by split|].
  destruct Hdiv as (q & r & Hq & Hr & _); [done|].
  exists q, r. split_and!; [done|done| |]; vm_compute in Hq, Hr; congruence.
Defined.

(** ** Where a fault or a panic is not what the comments promise *)

Definition one_frame (consts : list Value.t) (code : list Instruction.t)
    (regs : list Value.t) : state unit :=
  mk_state (mk_vm (Chunk.mk [] consts code [FunctionDef.mk [] 0 0 2]) NativeTable.empty
    no_gate [Frame.mk 0 0 regs None] 0 1 None) no_world.

(** three errors the machine reports wrongly. [Neg] of [i64::MIN] panics inside [run]
    in a build with overflow checks, where [Add], [Sub] and [Mul] wrap in every build;
    [Mod] of two floats traps with a broken invariant of the machine instead of a type
    error; and returning a [Str] that does not fit the heap quota reports the caller's
    destination register as out of range, though the frame has it. *)
Lemma machine_misreports :
  (let s := one_frame [] [Instruction.abc Opcode.Neg 1 0 0] [Value.Int i64_min; Value.Unit] in
   fst (run true 1 s) = None /\
   peek_reg (snd (run false 1 s)) 1 = Some (Value.Int i64_min)) /\
  fst (run true 1 (one_frame [] [Instruction.abc Opcode.Mod 0 0 1]
    [Value.Float (F64.of_i64 5); Value.Float (F64.of_i64 3)])) =
  Some (VmResult.Trap (Fault.Invariant "numeric_binop called with a non-arithmetic opcode")) /\
  (let s := mk_state (with_frames (vm quota_state)
     [Frame.mk 0 0 [Value.Str 1%N (ascii_bytes "hello")] (Some 2);
      Frame.mk 0 1 [Value.Unit; Value.Unit; Value.Unit] None]) quota_world in
   fst (pop_frame true (Value.Str 1%N (ascii_bytes "hello")) s) =
     Some (Ok (Some (VmResult.Trap (Fault.RegisterOutOfRange 2 3))))).
Proof. split; [split; by vm_compute|]. split; by vm_compute. Qed.
