(* ===== verification/DisplayTheory.v ===== *)
(** What the printed texts say: numbers read back, the text of an instruction determines
    what the machine does with it, and so does a listing whose names have no line feeds. *)

From Stdlib Require Import SpecFloat.
From S2P Require Import Prelude F64 Capability Values Isa Verify Display Quota Native Vm.
Import Fmt.

(** ** Numbers are self-delimiting *)

Definition digit_value (d : byte) : Z :=
  if u8_of d <? 58 then u8_of d - 48 else u8_of d - 87.

Definition hex_digit (d : byte) : bool := in_range 48 57 d || in_range 97 102 d.

(** The number a text of digits denotes. *)
Definition read (b : Z) (s : text) : Z := fold_left (fun acc d => acc * b + digit_value d) s 0.

(** A text that does not start with a digit. *)
Definition no_digit (s : text) : bool :=
  match s with [] => true | d :: _ => negb (hex_digit d) end.

Lemma digit_ok z : 0 <= z < 16 -> digit_value (digit z) = z /\ hex_digit (digit z) = true.
Proof.
  intros Hz.
  assert (Hall : forallb (fun z => (digit_value (digit z) =? z) && hex_digit (digit z))
                   (seqZ 0 16) = true) by by vm_compute.
  rewrite forallb_forall in Hall. specialize (Hall z).
  rewrite <- list_elem_of_In, elem_of_seqZ in Hall.
  apply andb_true_iff in Hall as [Hv%Z.eqb_eq Hd]; [done|lia].
Qed.

Section base.
Context (b : Z) (Hb : 2 <= b <= 16).

Lemma digits_rest fuel z rest : digits fuel b z rest = digits fuel b z [] ++ rest.
Proof.
  revert z rest. induction fuel as [|fuel IH]; intros z rest; simpl; [done|].
  destruct (z <? b); [done|]. rewrite IH. rewrite (IH _ [_]), <- app_assoc. done.
Qed.

Lemma digits_hex fuel z : Forall hex_digit (digits fuel b z []).
Proof.
  revert z. induction fuel as [|fuel IH]; intros z; simpl; [done|].
  pose proof (Z.mod_pos_bound z b ltac:(lia)) as Hm.
  destruct (digit_ok (z mod b) ltac:(lia)) as [_ Hd].
  assert (Hlast : Forall hex_digit [digit (z mod b)]) by (repeat constructor; by rewrite Hd).
  destruct (z <? b); [done|]. rewrite digits_rest. by apply Forall_app.
Qed.

Lemma digits_read fuel z : 0 <= z < b ^ Z.of_nat fuel -> read b (digits fuel b z []) = z.
Proof.
  revert z. induction fuel as [|fuel IH]; intros z Hz; simpl.
  - rewrite Z.pow_0_r in Hz. by replace z with 0 by lia.
  - pose proof (Z.mod_pos_bound z b ltac:(lia)) as Hm.
    destruct (digit_ok (z mod b) ltac:(lia)) as [Hv _].
    destruct (Z.ltb_spec z b) as [Hlt|Hge].
    + rewrite Z.mod_small in * by lia. unfold read. simpl. rewrite Hv. lia.
    + rewrite Nat2Z.inj_succ, Z.pow_succ_r in Hz by lia.
      assert (Hr : read b (digits fuel b (z / b) []) = z / b).
      { apply IH. split; [apply Z.div_pos; lia|]. apply Z.div_lt_upper_bound; lia. }
      rewrite digits_rest. unfold read in *. rewrite fold_left_app, Hr. simpl. rewrite Hv.
      pose proof (Z.div_mod z b). lia.
Qed.

Lemma width_enough z : 0 <= z -> z < b ^ Z.of_nat (width z).
Proof.
  intros Hz. unfold width. rewrite Nat2Z.inj_succ, Z2Nat.id by apply Z.log2_nonneg.
  destruct (Z.eq_dec z 0) as [->|Hz0]; [by apply Z.pow_pos_nonneg; simpl; lia|].
  apply Z.lt_le_trans with (2 ^ Z.succ (Z.log2 z)); [apply Z.log2_spec; lia|].
  apply Z.pow_le_mono_l. lia.
Qed.

Lemma digits_nonempty fuel z : digits (S fuel) b z [] <> [].
Proof. simpl. destruct (z <? b); [done|]. rewrite digits_rest. by destruct (digits fuel b _ []). Qed.

End base.

Lemma digits_split ds ds' s s' :
  Forall hex_digit ds -> Forall hex_digit ds' -> no_digit s = true -> no_digit s' = true ->
  ds ++ s = ds' ++ s' -> ds = ds' /\ s = s'.
Proof.
  intros Hds. revert ds'. induction Hds as [|d ds Hd Hds IH]; intros ds' Hds' Hs Hs' E.
  - destruct Hds' as [|d' ds' Hd' _]; [done|]. simpl in E. subst s. simpl in Hs.
    apply Is_true_true in Hd'. by rewrite Hd' in Hs.
  - destruct Hds' as [|d' ds' Hd' Hds'].
    + simpl in E. subst s'. simpl in Hs'. apply Is_true_true in Hd. by rewrite Hd in Hs'.
    + injection E as -> E. destruct (IH ds' Hds' Hs Hs' E) as [-> ->]. done.
Qed.

Lemma number_split b x y s s' : 2 <= b <= 16 -> 0 <= x -> 0 <= y ->
  no_digit s = true -> no_digit s' = true ->
  digits (width x) b x [] ++ s = digits (width y) b y [] ++ s' -> x = y /\ s = s'.
Proof.
  intros Hb Hx Hy Hs Hs' E.
  apply digits_split in E as [Ed ->]; try done; [|by apply digits_hex..].
  split; [|done].
  rewrite <- (digits_read b Hb (width x) x) by (split; [done|by apply width_enough]).
  rewrite Ed. apply digits_read; [done|]. split; [done|by apply width_enough].
Qed.

(** ** Texts of a format *)

(** Arguments that a format may have in the same place: numbers, and equal literals. *)
Definition alike (p q : piece) : bool :=
  match p, q with
  | Lit s, Lit s' => bool_decide (s = s')
  | Dec _, Dec _ | Plus _, Plus _ => true
  | Hex x, Hex y => (0 <=? x) && (0 <=? y)
  | _, _ => false
  end.

(** Every number is followed by the end or by a literal that does not start with a digit. *)
Fixpoint delimited (ps : list piece) : bool :=
  match ps with
  | [] => true
  | Lit _ :: ps => delimited ps
  | Text _ :: _ => false
  | (Dec _ | Plus _ | Hex _) :: ps =>
    match ps with
    | [] => true
    | Lit (String c s) :: _ => no_digit (ascii_bytes (String c s)) && delimited ps
    | _ => false
    end
  end.

Lemma write_cons p ps : write (p :: ps) = render p ++ write ps.
Proof. done. Qed.

Lemma delimited_tail p ps : delimited (p :: ps) = true -> delimited ps = true.
Proof.
  destruct p; simpl; try done; destruct ps as [|[[|c s]| | | |] ps]; try done;
    by intros [_ ?]%andb_true_iff.
Qed.

Lemma delimited_next p ps : delimited (p :: ps) = true ->
  match p with Dec _ | Plus _ | Hex _ => no_digit (write ps) = true | _ => True end.
Proof.
  destruct p; simpl; try done; destruct ps as [|[[|c s]| | | |] ps]; try done;
    by intros [? _]%andb_true_iff.
Qed.

Lemma sign_no_digit s x : hex_digit s = false ->
  forall t t', s :: t = unsigned x ++ t' -> False.
Proof.
  intros Hs t t' E.
  pose proof (digits_hex 10 ltac:(lia) (width x) x) as D.
  unfold unsigned in E. pose proof (digits_nonempty 10 (Z.to_nat (Z.log2 x)) x) as Hne.
  fold (width x) in Hne. destruct D as [|d ds Hd _]; [done|]. injection E as -> _.
  by rewrite Hs in Hd.
Qed.

Lemma render_split p q s s' : alike p q = true ->
  match p with Dec _ | Plus _ | Hex _ => no_digit s = true /\ no_digit s' = true | _ => True end ->
  render p ++ s = render q ++ s' -> p = q /\ s = s'.
Proof.
  destruct p as [l| |x|x|x], q as [l'| |y|y|y]; try done; simpl alike.
  - intros ->%bool_decide_eq_true _ E%app_inv_head. done.
  - intros _ [Hs Hs'] E. simpl in E. unfold signed in E.
    destruct (Z.ltb_spec x 0), (Z.ltb_spec y 0).
    + injection E as E. apply number_split in E as [? ->]; try done; try lia.
      split; [f_equal; lia|done].
    + simpl in E. by apply sign_no_digit in E.
    + simpl in E. symmetry in E. by apply sign_no_digit in E.
    + apply number_split in E as [-> ->]; try done; lia.
  - intros _ [Hs Hs'] E. simpl in E. unfold explicit_sign in E.
    destruct (Z.ltb_spec x 0), (Z.ltb_spec y 0); try done; injection E as E;
      apply number_split in E as [? ->]; try done; try lia; (split; [f_equal; lia|done]).
  - intros [?%Z.leb_le ?%Z.leb_le]%andb_true_iff [Hs Hs'] E.
    injection E as E. by apply number_split in E as [-> ->].
Qed.

(** A text of a delimited format determines the arguments. *)
Lemma write_inj ps qs : Forall2 (fun p q => alike p q = true) ps qs ->
  delimited ps = true -> delimited qs = true -> write ps = write qs -> ps = qs.
Proof.
  intros Hal. induction Hal as [|p q ps qs Hpq Hal IH]; intros Hp Hq E; [done|].
  pose proof (delimited_next p ps Hp) as Np. pose proof (delimited_next q qs Hq) as Nq.
  rewrite !write_cons in E. apply render_split in E as [-> E]; [|done|].
  - f_equal. apply IH; [by eapply delimited_tail..|done].
  - destruct p, q; by try discriminate.
Qed.

(** ** Instructions *)

(** The characters up to the first space. *)
Fixpoint first_word (s : text) : text :=
  match s with
  | [] => []
  | c :: s => if u8_of c =? 32 then [] else c :: first_word s
  end.

Lemma first_word_app w s : forallb (fun c => negb (u8_of c =? 32)) w = true ->
  match s with [] => True | c :: _ => u8_of c = 32 end -> first_word (w ++ s) = w.
Proof.
  induction w as [|c w IH]; simpl.
  - intros _. destruct s as [|c s]; [done|]. simpl. by intros ->.
  - intros [Hc Hw]%andb_true_iff Hs. apply negb_true_iff in Hc. rewrite Hc. f_equal. by apply IH.
Qed.

Lemma name_no_space op :
  forallb (fun c => negb (u8_of c =? 32)) (ascii_bytes (Opcode.name op)) = true.
Proof. by destruct op. Qed.

Lemma name_inj op op' : ascii_bytes (Opcode.name op) = ascii_bytes (Opcode.name op') -> op = op'.
Proof.
  intros E.
  assert (Hall : forallb (fun op => forallb (fun op' =>
    bool_decide (ascii_bytes (Opcode.name op) = ascii_bytes (Opcode.name op') -> op = op'))
    Opcode.all) Opcode.all = true) by by vm_compute.
  rewrite forallb_forall in Hall. specialize (Hall op).
  rewrite forallb_forall, <- list_elem_of_In in Hall. specialize (Hall (opcode_in_all op) op').
  rewrite <- list_elem_of_In in Hall.
  by apply (bool_decide_eq_true_1 _ (Hall (opcode_in_all op'))).
Qed.

Lemma instruction_first_word i :
  first_word (write (instruction i)) = ascii_bytes (Opcode.name (Instruction.op i)).
Proof.
  destruct i as [op a b c imm]. unfold instruction. simpl Instruction.op.
  assert (Hw : forall ps, match write ps with [] => True | c :: _ => u8_of c = 32 end ->
    first_word (write (Lit (Opcode.name op) :: ps)) = ascii_bytes (Opcode.name op)).
  { intros ps Hps. rewrite write_cons. by apply first_word_app; [apply name_no_space|]. }
  by destruct op; apply Hw.
Qed.

Lemma instruction_delimited i : delimited (instruction i) = true.
Proof. by destruct i as [[] a b c imm]. Qed.

Lemma instruction_alike i j : instruction_ok i -> instruction_ok j ->
  Instruction.op i = Instruction.op j ->
  Forall2 (fun p q => alike p q = true) (instruction i) (instruction j).
Proof.
  destruct i as [op a b c imm], j as [op' a' b' c' imm'].
  intros (_ & _ & Hc & _) (_ & _ & Hc' & _). simpl. intros <-. simpl in Hc, Hc'.
  assert (Hw : forall z, 0 <= wrap_u 32 z) by (intros z; apply wrap_u_range; lia).
  unfold in_u in *.
  destruct op; repeat constructor; simpl alike;
    apply andb_true_iff; split; apply Z.leb_le; try apply Hw; lia.
Qed.

(** The text determines the opcode and every operand it shows. *)
Lemma instruction_shown i j : instruction_ok i -> instruction_ok j ->
  write (instruction i) = write (instruction j) ->
  Instruction.op i = Instruction.op j /\ instruction i = instruction j.
Proof.
  intros Hi Hj E.
  assert (Hop : Instruction.op i = Instruction.op j).
  { apply name_inj. by rewrite <- !instruction_first_word, E. }
  split; [done|]. apply write_inj; try done; [by apply instruction_alike|..];
    apply instruction_delimited.
Qed.

Lemma wrap_u_inj_i32 x y : in_i 32 x -> in_i 32 y -> wrap_u 32 x = wrap_u 32 y -> x = y.
Proof. unfold in_i, wrap_u. intros Hx Hy E. Z.div_mod_to_equations. lia. Qed.

(** And the operands it does not show, neither the machine nor the verifier reads. *)
Lemma instruction_behaves {H} `{ValueLayout} checks i j :
  instruction_ok i -> instruction_ok j -> Instruction.op i = Instruction.op j ->
  instruction i = instruction j ->
  (forall s : state H, dispatch checks i s = dispatch checks j s) /\
  (forall chunk pc, check_instruction chunk pc i = check_instruction chunk pc j).
Proof.
  destruct i as [op a b c imm], j as [op' a' b' c' imm'].
  intros (_ & _ & _ & Hm) (_ & _ & _ & Hm'). simpl in *. intros <- E.
  destruct op; try injection E; intros; subst; try done.
  match goal with Hw : wrap_u 32 _ = _ |- _ => apply wrap_u_inj_i32 in Hw; by subst end.
Qed.

(** ** Listings *)

Definition is_newline (c : byte) : bool := u8_of c =? 10.
Definition is_semicolon (c : byte) : bool := u8_of c =? 59.

(** A text without a character of a kind. *)
Definition without (f : byte -> bool) (s : text) : bool := forallb (fun c => negb (f c)) s.

Lemma without_app f s t : without f (s ++ t) = without f s && without f t.
Proof. apply forallb_app. Qed.

(** The lines of a text whose every line ends with a line feed. *)
Fixpoint lines (line s : text) : list text :=
  match s with
  | [] => []
  | c :: s => if is_newline c then line :: lines [] s else lines (line ++ [c]) s
  end.

Lemma lines_app l line s : without is_newline l = true ->
  lines line (l ++ newline :: s) = (line ++ l) :: lines [] s.
Proof.
  revert line. induction l as [|c l IH]; intros line; simpl.
  - by rewrite app_nil_r.
  - intros [Hc Hl]%andb_true_iff. apply negb_true_iff in Hc. rewrite Hc, IH by done.
    by rewrite <- app_assoc.
Qed.

Lemma lines_concat (ls : list text) s : forallb (without is_newline) ls = true ->
  lines [] (concat (map (fun l => l ++ [newline]) ls) ++ s) = ls ++ lines [] s.
Proof.
  induction ls as [|l ls IH]; simpl; [done|]. intros [Hl Hls]%andb_true_iff.
  rewrite <- !app_assoc. simpl. by rewrite lines_app, IH.
Qed.

(** The lines of a listing that are not comments. *)
Definition is_comment (l : text) : bool :=
  match l with c :: _ => is_semicolon c | [] => false end.

Definition code_lines (s : text) : list text :=
  List.filter (fun l => negb (is_comment l)) (lines [] s).

Lemma digits_without f b fuel z : 2 <= b <= 16 -> (forall c, hex_digit c = true -> f c = false) ->
  without f (digits fuel b z []) = true.
Proof.
  intros Hb Hf. pose proof (digits_hex b Hb fuel z) as D. apply forallb_forall.
  intros c Hc%list_elem_of_In. rewrite Forall_forall in D.
  rewrite Hf; [done|]. by apply Is_true_true, D.
Qed.

Lemma hex_digit_spec c : hex_digit c = true -> 48 <= u8_of c <= 57 \/ 97 <= u8_of c <= 102.
Proof. unfold hex_digit, in_range. lia. Qed.

Lemma not_special f c : f = is_newline \/ f = is_semicolon -> hex_digit c = true -> f c = false.
Proof.
  intros Hf Hc%hex_digit_spec. destruct Hf as [-> | ->]; unfold is_newline, is_semicolon; lia.
Qed.

Lemma unsigned_without f z : f = is_newline \/ f = is_semicolon ->
  without f (unsigned z) = true.
Proof.
  intros Hf. apply digits_without; [lia|by intros; apply not_special].
Qed.

Lemma render_without f p : f = is_newline \/ f = is_semicolon ->
  match p with
  | Lit s => without f (ascii_bytes s) = true
  | Text s => without f s = true
  | _ => True
  end -> without f (render p) = true.
Proof.
  intros Hf. destruct p as [s|s|z|z|z]; simpl; try done.
  - intros _. unfold signed. destruct (Z.ltb_spec z 0); [|by apply unsigned_without].
    simpl. rewrite unsigned_without by done. by destruct Hf as [-> | ->].
  - intros _. unfold explicit_sign. destruct (Z.ltb_spec z 0); simpl;
      rewrite unsigned_without by done; by destruct Hf as [-> | ->].
  - intros _. rewrite !andb_true_iff. split_and!; try by destruct Hf as [-> | ->].
    apply digits_without; [lia|by intros; apply not_special].
Qed.

Lemma write_without f ps : f = is_newline \/ f = is_semicolon ->
  Forall (fun p => match p with
    | Lit s => without f (ascii_bytes s) = true
    | Text s => without f s = true
    | _ => True
    end) ps -> without f (write ps) = true.
Proof.
  intros Hf. induction 1 as [|p ps Hp Hps IH]; [done|].
  rewrite write_cons, without_app, IH, render_without; done.
Qed.

Lemma instruction_without f i : f = is_newline \/ f = is_semicolon ->
  without f (write (instruction i)) = true.
Proof.
  intros Hf. apply write_without; [done|]. destruct i as [op a b c imm].
  destruct Hf as [-> | ->]; destruct op; unfold instruction; simpl Instruction.op; cbv iota;
    repeat (apply Forall_cons_2; [done|]); apply Forall_nil_2.
Qed.

(** ** Quoted names *)

(** A character is one ASCII byte or several bytes above ASCII. *)
Definition char_ok (c : Z * text) : Prop :=
  (exists b, c = (u8_of b, [b])) \/ Forall (fun b => 128 <= u8_of b) (snd c).

Lemma utf8_cont_high b : utf8_cont b = true -> 128 <= u8_of b.
Proof. unfold utf8_cont, in_range. lia. Qed.

Lemma in_range_high lo hi b : 128 <= lo -> in_range lo hi b = true -> 128 <= u8_of b.
Proof. unfold in_range. lia. Qed.

Lemma in_range_either lo hi b : u8_of b < lo \/ hi < u8_of b -> in_range lo hi b = false.
Proof. unfold in_range. lia. Qed.

Lemma chars_ok n s : (length s <= n)%nat -> utf8_valid s = true -> Forall char_ok (chars s).
Proof.
  revert s. induction n as [|n IH]; intros [|b0 s]; try (simpl; lia); try by constructor.
  simpl. intros Hn. pose proof (u8_of_range b0) as Hb0. unfold in_u in Hb0.
  destruct (Z.ltb_spec (u8_of b0) 128) as [Hlow|Hhigh].
  { replace (in_range 0 127 b0) with true by (unfold in_range; lia).
    intros Hs. constructor; [left; by exists b0|]. apply IH; [lia|done]. }
  rewrite in_range_either by lia.
  destruct s as [|b1 s]; [done|]. simpl in Hn.
  destruct (Z.ltb_spec (u8_of b0) 224) as [H2|H2].
  { destruct (in_range 194 223 b0).
    - intros [H1%utf8_cont_high Hs]%andb_true_iff. constructor; [right; by repeat constructor|].
      apply IH; [lia|done].
    - rewrite !in_range_either by lia. destruct s as [|b2 s]; [done|]. by destruct s. }
  rewrite (in_range_either 194 223) by lia. destruct s as [|b2 s]; [done|]. simpl in Hn.
  destruct (Z.ltb_spec (u8_of b0) 240) as [H3|H3].
  { rewrite (in_range_either 240 240), (in_range_either 241 243), (in_range_either 244 244) by lia.
    intros Hs. assert (Hall : 128 <= u8_of b1 /\ utf8_cont b2 = true /\ utf8_valid s = true).
    { repeat case_match; rewrite ?andb_true_iff in Hs; try done; destruct_and! Hs;
        split_and!; try done; (by eapply utf8_cont_high) || (eapply in_range_high; [|done]; lia). }
    destruct Hall as (? & ?%utf8_cont_high & Hv).
    constructor; [right; by repeat constructor|]. apply IH; [lia|done]. }
  rewrite (in_range_either 224 224), (in_range_either 237 237), (in_range_either 225 239) by lia.
  destruct s as [|b3 s]; [done|]. simpl in Hn.
  intros Hs. assert (Hall : 128 <= u8_of b1 /\ utf8_cont b2 = true /\ utf8_cont b3 = true /\ utf8_valid s = true).
  { repeat case_match; rewrite ?andb_true_iff in Hs; try done; destruct_and! Hs;
      split_and!; try done; (by eapply utf8_cont_high) || (eapply in_range_high; [|done]; lia). }
  destruct Hall as (? & ?%utf8_cont_high & ?%utf8_cont_high & Hv).
  constructor; [right; by repeat constructor|]. apply IH; [lia|done].
Qed.

Lemma high_plain bs : Forall (fun b => 128 <= u8_of b) bs -> without is_newline bs = true.
Proof.
  induction 1 as [|b bs Hb _ IH]; [done|]. simpl. rewrite IH. unfold is_newline. lia.
Qed.

Lemma escape_plain `{Unicode} c : char_ok c -> without is_newline (escape_char c) = true.
Proof.
  destruct c as [code bs]. intros Hc.
  assert (Hbs : code <> 10 -> without is_newline bs = true).
  { intros Hn. destruct Hc as [[b [= -> ->]]|Hc]; [|by apply high_plain].
    simpl. unfold is_newline. lia. }
  unfold escape_char. repeat case_match; try done; try (apply Hbs; lia).
  change (without is_newline (ascii_bytes "\u{" ++ hex code ++ ascii_bytes "}") = true).
  rewrite !without_app. unfold hex. rewrite digits_without; [done|lia|].
  intros; by apply not_special; [left|].
Qed.

Lemma debug_str_plain `{Unicode} s : utf8_valid s = true -> without is_newline (debug_str s) = true.
Proof.
  intros Hs. unfold debug_str. rewrite !without_app. simpl. rewrite andb_true_r.
  pose proof (chars_ok (length s) s (le_n _) Hs) as Hok.
  induction Hok as [|c cs Hc Hcs IH]; [done|]. simpl. by rewrite without_app, IH, escape_plain.
Qed.

(** ** The lines of a listing *)

(** A chunk whose names, and the texts of its constants, have no line feed. *)
Definition one_line_names (chunk : Chunk.t) : bool :=
  forallb (fun c => without is_newline (value c)) (Chunk.constants chunk) &&
  forallb (fun f => without is_newline (FunctionDef.name f)) (Chunk.functions chunk).

Definition label_line (functions : list FunctionDef.t) (i : nat) (instr : Instruction.t) : text :=
  zero_pad 4 (unsigned (Z.of_nat i)) ++ ascii_bytes "  " ++ write (instruction instr) ++
  label functions i.

(** A part of a listing that is so many comments. *)
Definition comments (s : text) : Prop :=
  exists ls, s = concat (map (fun l => l ++ [newline]) ls) /\
    forallb (without is_newline) ls = true /\ forallb is_comment ls = true.

Lemma comments_app s t : comments s -> comments t -> comments (s ++ t).
Proof.
  intros (ls & -> & Hp & Hc) (ms & -> & Hp' & Hc'). exists (ls ++ ms).
  by rewrite map_app, concat_app, !forallb_app, Hp, Hp', Hc, Hc'.
Qed.

Lemma comments_line ps : without is_newline (write ps) = true -> is_comment (write ps) = true ->
  comments (writeln ps).
Proof.
  intros Hp Hc. exists [write ps]. split_and!; [symmetry; apply app_nil_r|simpl; by rewrite Hp|].
  simpl. by rewrite Hc.
Qed.

Lemma comments_imap {A} (f : nat -> A -> text) l :
  (forall i x, x ∈ l -> comments (f i x)) -> comments (concat (imap f l)).
Proof.
  revert f. induction l as [|x l IH]; intros f Hf; [by exists []|]. simpl.
  apply comments_app; [apply Hf; by left|]. apply (IH (f ∘ S)). intros i y Hy. apply Hf. by right.
Qed.

Lemma filter_comments ls : forallb is_comment ls = true ->
  List.filter (fun l => negb (is_comment l)) ls = [].
Proof. induction ls as [|l ls IH]; [done|]. simpl. intros [-> Hl]%andb_true_iff. by apply IH. Qed.

Lemma code_lines_comments s t : comments s -> code_lines (s ++ t) = code_lines t.
Proof.
  intros (ls & -> & Hp & Hc). unfold code_lines. rewrite lines_concat by done.
  rewrite List.filter_app, filter_comments by done. done.
Qed.

Lemma dec_plain z f : f = is_newline \/ f = is_semicolon -> without f (signed z) = true.
Proof. intros Hf. by apply (render_without f (Dec z)). Qed.

Lemma comments_prefix `{Unicode} chunk : utf8_valid (Chunk.name chunk) = true ->
  one_line_names chunk = true ->
  comments (header_line chunk ++ concat (imap constant_line (Chunk.constants chunk)) ++
    concat (imap function_line (Chunk.functions chunk))).
Proof.
  intros Hn [Hc Hf]%andb_true_iff. rewrite forallb_forall in Hc, Hf.
  apply comments_app; [|apply comments_app].
  - apply comments_line; [|done]. apply write_without; [by left|].
    repeat (apply Forall_cons_2; [done || by apply debug_str_plain|]). apply Forall_nil_2.
  - apply comments_imap. intros i c Hin%list_elem_of_In. apply comments_line; [|done].
    apply write_without; [by left|].
    repeat (apply Forall_cons_2; [done || by apply Hc|]). apply Forall_nil_2.
  - apply comments_imap. intros i def Hin%list_elem_of_In. apply comments_line; [|done].
    apply write_without; [by left|].
    repeat (apply Forall_cons_2; [done || by apply Hf|]). apply Forall_nil_2.
Qed.

Lemma label_plain functions i :
  forallb (fun f => without is_newline (FunctionDef.name f)) functions = true ->
  without is_newline (label functions i) = true.
Proof.
  rewrite forallb_forall. intros Hf. unfold label.
  destruct (List.find _ functions) as [f|] eqn:E; [|done].
  apply find_some in E as [Hin _]. apply write_without; [by left|].
  repeat (apply Forall_cons_2; [done || by apply Hf|]). apply Forall_nil_2.
Qed.

Lemma code_line_eq functions i instr :
  code_line functions i instr = label_line functions i instr ++ [newline].
Proof.
  unfold code_line, label_line, writeln. do 4 rewrite write_cons. simpl render.
  by rewrite <- !app_assoc.
Qed.

Lemma label_line_plain functions i instr :
  forallb (fun f => without is_newline (FunctionDef.name f)) functions = true ->
  without is_newline (label_line functions i instr) = true.
Proof.
  intros Hf. unfold label_line. rewrite !without_app, label_plain, instruction_without by (done || by left).
  unfold zero_pad. rewrite without_app, unsigned_without by by left.
  by induction (4 - _)%nat.
Qed.

Lemma unsigned_head z rest : exists d ds, unsigned z ++ rest = d :: ds /\ hex_digit d = true.
Proof.
  pose proof (digits_hex 10 ltac:(lia) (width z) z) as D.
  pose proof (digits_nonempty 10 (Z.to_nat (Z.log2 z)) z) as Hne. fold (width z) in Hne.
  unfold unsigned. destruct D as [|d ds Hd]; [done|].
  exists d, (ds ++ rest). split; [done|by apply Is_true_true].
Qed.

Lemma label_line_code functions i instr : is_comment (label_line functions i instr) = false.
Proof.
  unfold label_line, zero_pad. destruct (4 - _)%nat; [|done]. simpl replicate. rewrite app_nil_l.
  destruct (unsigned_head (Z.of_nat i) (ascii_bytes "  " ++ write (instruction instr) ++
    label functions i)) as (d & ds & -> & Hd). simpl. by apply not_special; [right|].
Qed.

(** The code lines of a listing are its instructions. *)
Lemma code_lines_listing `{Unicode} chunk : utf8_valid (Chunk.name chunk) = true ->
  one_line_names chunk = true ->
  code_lines (disassemble chunk) = imap (label_line (Chunk.functions chunk)) (Chunk.code chunk).
Proof.
  intros Hn Ho. unfold disassemble. rewrite !app_assoc, <- (app_assoc (header_line chunk)).
  rewrite code_lines_comments by by apply comments_prefix.
  apply andb_true_iff in Ho as [_ Hf]. revert Hf. generalize (Chunk.functions chunk) as fs.
  intros fs Hf. replace (concat (imap (code_line fs) (Chunk.code chunk)))
    with (concat (map (fun l => l ++ [newline]) (imap (label_line fs) (Chunk.code chunk))) ++ []).
  2:{ rewrite app_nil_r. f_equal. change (map ?f ?l) with (f <$> l). rewrite fmap_imap.
      apply imap_ext. intros i instr _. symmetry. apply code_line_eq. }
  unfold code_lines. rewrite lines_concat; simpl lines.
  - rewrite app_nil_r. generalize (label_line_code fs).
    generalize (label_line fs) as f. induction (Chunk.code chunk) as [|instr l IH]; intros f Hnc; [done|].
    simpl. rewrite Hnc. simpl. f_equal. apply (IH (f ∘ S)). intros. apply Hnc.
  - assert (Hp : forall i instr, without is_newline (label_line fs i instr) = true)
      by (intros; by apply label_line_plain). revert Hp.
    generalize (label_line fs) as f. induction (Chunk.code chunk) as [|instr l IH]; intros f Hp; [done|].
    simpl. rewrite Hp. apply (IH (f ∘ S)). intros. apply Hp.
Qed.

(** The text of an instruction ends where its label begins. *)
Lemma before_label f (s t l m : text) : without f s = true -> without f t = true ->
  match l with c :: _ => f c = true | [] => True end ->
  match m with c :: _ => f c = true | [] => True end ->
  s ++ l = t ++ m -> s = t /\ l = m.
Proof.
  revert t. induction s as [|c s IH]; intros [|d t]; simpl; intros Hs Ht Hl Hm E; subst.
  - done.
  - apply andb_true_iff in Ht as [Hd _]. by rewrite Hl in Hd.
  - apply andb_true_iff in Hs as [Hc _]. by rewrite Hm in Hc.
  - injection E as -> E. apply andb_true_iff in Hs as [_ Hs], Ht as [_ Ht].
    by destruct (IH t Hs Ht Hl Hm E) as [-> ->].
Qed.

Lemma label_cases functions i :
  label functions i = [] \/ exists l, label functions i = ascii_bytes "  " ++ byte_of 59 :: l.
Proof. unfold label. destruct (List.find _ functions); [right; by eexists|by left]. Qed.

Lemma label_line_inj fs gs i a b : instruction_ok a -> instruction_ok b ->
  label_line fs i a = label_line gs i b -> write (instruction a) = write (instruction b).
Proof.
  intros Ha Hb E. unfold label_line in E. apply app_inv_head, app_inv_head in E.
  assert (Hw : forall i, without is_semicolon (write (instruction i)) = true)
    by (intros; apply instruction_without; by right).
  destruct (label_cases fs i) as [Hl|[l Hl]], (label_cases gs i) as [Hm|[m Hm]];
    rewrite Hl, Hm, ?app_nil_r in E.
  - done.
  - exfalso. apply (f_equal (without is_semicolon)) in E. rewrite app_assoc, !without_app, !Hw in E. done.
  - exfalso. apply (f_equal (without is_semicolon)) in E. rewrite app_assoc, !without_app, !Hw in E. done.
  - rewrite !app_assoc in E.
    apply (before_label is_semicolon) in E as [E _]; try done; [|by rewrite without_app, Hw..].
    by apply app_inv_tail in E.
Qed.

(** C8: a listing says what the code does.  Take two chunks whose instructions fit their
    words, and whose names and constants print without line feeds.  If their listings are
    the same text, then they have the same number of instructions, and the instructions at
    equal places have the same opcode, the same verdict of the verifier in any chunk, and
    the same effect on every state of the machine. *)
Theorem listing_faithful `{U : Unicode} {H} `{ValueLayout} checks (A B : Chunk.t) :
  utf8_valid (Chunk.name A) = true -> utf8_valid (Chunk.name B) = true ->
  one_line_names A = true -> one_line_names B = true ->
  Forall instruction_ok (Chunk.code A) -> Forall instruction_ok (Chunk.code B) ->
  disassemble A = disassemble B ->
  Forall2 (fun i j => Instruction.op i = Instruction.op j /\
    (forall s : state H, dispatch checks i s = dispatch checks j s) /\
    (forall chunk pc, check_instruction chunk pc i = check_instruction chunk pc j))
    (Chunk.code A) (Chunk.code B).
Proof.
  intros HnA HnB HoA HoB HA HB E. apply (f_equal code_lines) in E.
  rewrite !code_lines_listing in E by done.
  assert (Hlen : length (Chunk.code A) = length (Chunk.code B))
    by (by apply (f_equal length) in E; rewrite !length_imap in E).
  apply Forall2_same_length_lookup_2; [done|]. intros k i j Hi Hj.
  apply (f_equal (.!! k)) in E. rewrite !list_lookup_imap, Hi, Hj in E. injection E as E.
  pose proof (Forall_lookup_1 _ _ _ _ HA Hi) as Hi'. pose proof (Forall_lookup_1 _ _ _ _ HB Hj) as Hj'.
  apply label_line_inj in E; [|done..]. destruct (instruction_shown i j Hi' Hj' E) as [Hop Hs].
  split; [done|by apply instruction_behaves].
Qed.

(** Two chunks that differ in an operand no one reads. *)
Definition silent_chunk (c : Z) : Chunk.t :=
  Chunk.mk (ascii_bytes "a") [Value.Int 7]
    [Instruction.mk Opcode.Move 0 1 c 0; Instruction.abc Opcode.Return 0 0 0]
    [FunctionDef.mk (ascii_bytes "main") 0 0 2].

Lemma listing_faithful_witness : let u : Unicode := fun _ => true in
  disassemble (silent_chunk 0) = disassemble (silent_chunk 9) /\
  forall s : state nat, dispatch true (Instruction.mk Opcode.Move 0 1 0 0) s =
    dispatch true (Instruction.mk Opcode.Move 0 1 9 0) s.
Proof.
  intros u. split; [by vm_compute|].
  assert (Hok : forall c, c = 0 \/ c = 9 -> Forall instruction_ok (Chunk.code (silent_chunk c)))
    by (intros c [-> | ->]; apply (bool_decide_unpack _); by vm_compute).
  pose proof (listing_faithful true (H := nat) (silent_chunk 0) (silent_chunk 9)
    ltac:(by vm_compute) ltac:(by vm_compute) ltac:(by vm_compute) ltac:(by vm_compute)
    (Hok 0 (or_introl eq_refl)) (Hok 9 (or_intror eq_refl)) ltac:(by vm_compute)) as Hall.
  by apply Forall2_cons in Hall as [(_ & Hd & _) _].
Defined.

(** Names and constants are printed as they are, so a string constant can hold the line of
    a constant that is not there: the verifier accepts both of these chunks, their listings
    are the same, and [LoadConst r0, const[1]] loads different values. *)
Definition forging_chunk (s0 s1 : text) : Chunk.t :=
  Chunk.mk (ascii_bytes "a") [Value.Str 0%N s0; Value.Str 1%N s1]
    [Instruction.a_imm Opcode.LoadConst 0 1; Instruction.abc Opcode.Return 0 0 0]
    [FunctionDef.mk (ascii_bytes "main") 0 0 1].

Definition forged_line : text := newline :: ascii_bytes ";   const[1] = ".

Lemma listing_forged : let u : Unicode := fun _ => true in
  let A := forging_chunk (ascii_bytes "x") (ascii_bytes "y" ++ forged_line ++ ascii_bytes "z") in
  let B := forging_chunk (ascii_bytes "x" ++ forged_line ++ ascii_bytes "y") (ascii_bytes "z") in
  verify A = Ok tt /\ verify B = Ok tt /\ disassemble A = disassemble B /\
  Chunk.constant A 1 <> Chunk.constant B 1.
Proof. intros u A B. split_and!; by vm_compute. Qed.

(** ** Floating point numbers *)

(** The interval around a positive number. *)
Lemma interval_pos m e : 0 < m -> let iv := interval_of m e in
  0 < iv_d iv /\ 0 < iv_below iv <= iv_n iv /\ iv_below iv <= iv_above iv.
Proof.
  intros Hm. unfold interval_of. simpl.
  assert (0 < 2 ^ Z.max 0 (e - 2)) by (apply Z.pow_pos_nonneg; lia).
  assert (0 < 2 ^ Z.max 0 (2 - e)) by (apply Z.pow_pos_nonneg; lia).
  case_match; split_and!; nia.
Qed.

(** [d * 10 ^ k] reads back: it is in the rounding interval. *)
Definition reads_back (iv : interval) (d k : Z) : Prop :=
  let shift := 10 ^ Z.max 0 (- k) in
  let x := d * iv_d iv * 10 ^ Z.max 0 k in
  let low := (iv_n iv - iv_below iv) * shift in
  let high := (iv_n iv + iv_above iv) * shift in
  if iv_even iv then low <= x <= high else low < x < high.

Lemma at_scale_reads_back iv k d : 0 < iv_d iv -> 0 < iv_below iv -> 0 < iv_above iv ->
  at_scale iv k = Some d -> reads_back iv d k.
Proof.
  intros Hd Hb Ha. unfold at_scale, reads_back.
  set (shift := 10 ^ Z.max 0 (- k)). set (unit := iv_d iv * 10 ^ Z.max 0 k).
  assert (Hu : 0 < unit) by (unfold unit; assert (0 < 10 ^ Z.max 0 k) by (apply Z.pow_pos_nonneg; lia); nia).
  pose proof (Z.div_mod (iv_n iv * shift) unit ltac:(lia)) as Hdm.
  pose proof (Z.mod_pos_bound (iv_n iv * shift) unit Hu) as Hr.
  replace (d * iv_d iv * 10 ^ Z.max 0 k) with (d * unit) by (unfold unit; lia).
  revert Hdm Hr. generalize (iv_n iv * shift / unit) as q, (iv_n iv * shift mod unit) as r.
  intros q r Hdm Hr.
  assert (Hs : 0 < shift) by (apply Z.pow_pos_nonneg; lia).
  assert (Hbs : 0 < iv_below iv * shift) by nia. assert (Has : 0 < iv_above iv * shift) by nia.
  rewrite Z.mul_add_distr_r, Z.mul_sub_distr_r.
  set (n := iv_n iv * shift) in *. set (low := iv_below iv * shift) in *.
  set (high := iv_above iv * shift) in *. clearbody n low high unit.
  destruct (iv_even iv); intros E; repeat case_match; simplify_eq; nia.
Qed.

(** A scale whose step is shorter than the interval has a multiple in it. *)
Lemma at_scale_total iv k :
  0 < iv_d iv ->
  iv_d iv * 10 ^ Z.max 0 k < (iv_below iv + iv_above iv) * 10 ^ Z.max 0 (- k) ->
  is_Some (at_scale iv k).
Proof.
  intros Hd. unfold at_scale.
  set (shift := 10 ^ Z.max 0 (- k)). set (unit := iv_d iv * 10 ^ Z.max 0 k).
  generalize (iv_n iv * shift / unit) as q, (iv_n iv * shift mod unit) as r.
  intros q r Hu. rewrite Z.mul_add_distr_r in Hu.
  destruct (iv_even iv); repeat case_match; try done; lia.
Qed.

Lemma shortest_total fuel iv k j :
  0 <= j < Z.of_nat fuel -> is_Some (at_scale iv (k - j)) -> is_Some (shortest fuel iv k).
Proof.
  revert k j. induction fuel as [|fuel IH]; intros k j Hj Hs; [lia|]. simpl.
  destruct (at_scale iv k) eqn:E; [done|]. apply (IH _ (j - 1)).
  - destruct (Z.eq_dec j 0) as [->|]; [|lia]. rewrite Z.sub_0_r, E in Hs. by destruct Hs.
  - by replace (k - 1 - (j - 1)) with (k - j) by lia.
Qed.

Lemma shortest_reads_back fuel iv k d k' : 0 < iv_d iv -> 0 < iv_below iv -> 0 < iv_above iv ->
  shortest fuel iv k = Some (d, k') ->
  reads_back iv d k' /\ forall j, k' < j <= k -> at_scale iv j = None.
Proof.
  intros Hd Hb Ha. revert k. induction fuel as [|fuel IH]; intros k; simpl; [done|].
  destruct (at_scale iv k) eqn:E.
  - intros [= <- <-]. split; [by eapply at_scale_reads_back|lia].
  - intros Hs. destruct (IH _ Hs) as [Hr Hc]. split; [done|]. intros j Hj.
    destruct (Z.eq_dec j k) as [->|]; [done|]. apply Hc. lia.
Qed.

(** Every finite number has a text: the digits found read back as the number, and no coarser
    scale has digits that do. *)
Lemma float_digits m e : 0 < m -> -1074 <= e ->
  exists d k, shortest_digits m e = Some (d, k) /\ reads_back (interval_of m e) d k /\
    forall j, k < j <= 309 -> at_scale (interval_of m e) j = None.
Proof.
  intros Hm He. destruct (interval_pos m e Hm) as (Hd & [Hb _] & Ha).
  destruct (shortest_digits m e) as [[d k]|] eqn:E.
  - exists d, k. split; [done|]. eapply shortest_reads_back; try done. lia.
  - exfalso. assert (Hs : is_Some (shortest_digits m e)); [|by rewrite E in Hs; destruct Hs].
    apply (shortest_total _ _ _ 633); [lia|]. apply at_scale_total; [done|].
    change (Z.max 0 (309 - 633)) with 0. change (Z.max 0 (- (309 - 633))) with 324.
    unfold interval_of. simpl iv_d. simpl iv_below. simpl iv_above.
    set (up := 2 ^ Z.max 0 (e - 2)).
    assert (Hup : 1 <= up) by (assert (0 < up) by (apply Z.pow_pos_nonneg; lia); lia).
    assert (Hdn : 2 ^ Z.max 0 (2 - e) <= 2 ^ 1076) by (apply Z.pow_le_mono_r; lia).
    assert (Hten : 2 ^ 1076 < 3 * 10 ^ 324) by by vm_compute.
    case_match; nia.
Qed.
