(* ===== verification/VmExec.v ===== *)
(** Symbolic execution of the interpreter: the instructions that only read and write the
    registers of the top frame, as a function of its pc and registers, and the slices
    the interpreter makes of them. *)

From S2P Require Import Prelude Capability F64 Values Isa Verify Sync Quota Native Vm VmTheory.

Section exec.
Context {H : Type} (checks : bool).
Implicit Type s : state H.

Definition store (regs : list Value.t) (reg : Z) (v : Value.t) : option (list Value.t) :=
  match get regs reg with Some _ => Some (<[Z.to_nat reg := v]> regs) | None => None end.

(** The effect of one register instruction, when it does not fault. *)
Definition local_instr (ch : Chunk.t) (pc : Z) (regs : list Value.t) (i : Instruction.t)
  : option (Z * list Value.t) :=
  let next := fun regs' => (pc, regs') in
  match Instruction.op i with
  | Opcode.Nop => Some (pc, regs)
  | Opcode.LoadConst =>
    v ← Chunk.constant ch (wrap_u 32 (Instruction.imm i)); next <$> store regs (Instruction.a i) v
  | Opcode.LoadImm => next <$> store regs (Instruction.a i) (Value.Int (Instruction.imm i))
  | Opcode.Move => v ← get regs (Instruction.b i); next <$> store regs (Instruction.a i) v
  | Opcode.Add | Opcode.Sub | Opcode.Mul | Opcode.Div | Opcode.Mod
  | Opcode.Eq | Opcode.Lt | Opcode.Le =>
    a ← get regs (Instruction.b i); b ← get regs (Instruction.c i);
    match binop_value (Instruction.op i) a b with
    | Ok v => next <$> store regs (Instruction.a i) v
    | Err _ => None
    end
  | Opcode.Neg =>
    v ← get regs (Instruction.b i);
    match v with
    | Value.Int x =>
      y ← checked_i checks 64 (- x); next <$> store regs (Instruction.a i) (Value.Int y)
    | Value.Float x => next <$> store regs (Instruction.a i) (Value.Float (F64.neg x))
    | _ => None
    end
  | Opcode.Jump => t ← jump_target checks pc (Instruction.imm i); Some (t, regs)
  | Opcode.Branch =>
    cond ← get regs (Instruction.a i);
    if Value.is_truthy cond then Some (pc, regs)
    else t ← jump_target checks pc (Instruction.imm i); Some (t, regs)
  | _ => None
  end.

Definition local_step (ch : Chunk.t) (p : Z * list Value.t) : option (Z * list Value.t) :=
  i ← get (Chunk.code ch) (fst p); local_instr ch (fst p + 1) (snd p) i.

Fixpoint local_run (n : nat) (ch : Chunk.t) (p : Z * list Value.t) : option (Z * list Value.t) :=
  match n with
  | O => Some p
  | S n => local_step ch p ≫= local_run n ch
  end.

(** The state with the top frame at [p] and [k] more instructions counted. *)
Definition at_point s (f : Frame.t) (rest : list Frame.t) (k : Z) (p : Z * list Value.t)
  : state H :=
  mk_state (with_executed
      (with_frames (vm s) (Frame.with_registers (Frame.with_pc f (fst p)) (snd p) :: rest))
      (instructions_executed (vm s) + k)) (wld s).

Lemma at_point_id s f rest :
  frames (vm s) = f :: rest -> at_point s f rest 0 (Frame.pc f, Frame.registers f) = s.
Proof.
  intros Hf. unfold at_point. destruct s as [[] w]. simpl in *. rewrite Z.add_0_r, Hf.
  by destruct f.
Qed.

Lemma at_point_twice s f rest j p k q :
  at_point (at_point s f rest j p)
    (Frame.with_registers (Frame.with_pc f (fst p)) (snd p)) rest k q =
  at_point s f rest (j + k) q.
Proof. unfold at_point. simpl. by rewrite Z.add_assoc. Qed.

Lemma get_reg_at s f rest k p reg :
  get_reg reg (at_point s f rest k p) =
  match get (snd p) reg with
  | Some v => (Some (Ok v), at_point s f rest k p)
  | None => (Some (Err (Fault.RegisterOutOfRange reg
              (wrap_u 8 (Z.of_nat (length (snd p)))))), at_point s f rest k p)
  end.
Proof. done. Qed.

(** Storing a value that holds no heap buffer charges nothing, and without a quota nothing
    is charged. *)
Definition heapless (v : Value.t) : bool :=
  match v with Value.Str _ _ | Value.Bytes _ _ => false | _ => true end.

Definition uncharged s (v : Value.t) : Prop := quota (vm s) = None \/ heapless v = true.

Definition unmetered s (regs : list Value.t) : Prop :=
  quota (vm s) = None \/
  (Forall (fun v => heapless v = true) regs /\
   Forall (fun v => heapless v = true) (Chunk.constants (chunk (vm s)))).

Lemma unmetered_get s regs r v : unmetered s regs -> get regs r = Some v -> uncharged s v.
Proof.
  rewrite get_eq. intros [Hq|[Hr _]] Hv; [by left|right]. by apply (Forall_lookup_1 _ _ _ _ Hr Hv).
Qed.

Lemma unmetered_constant s regs r v : unmetered s regs ->
  Chunk.constant (chunk (vm s)) r = Some v -> uncharged s v.
Proof.
  unfold Chunk.constant. rewrite get_eq. intros [Hq|[_ Hc]] Hv; [by left|right].
  by apply (Forall_lookup_1 _ _ _ _ Hc Hv).
Qed.

Lemma binop_heapless op a b v : binop_value op a b = Ok v -> heapless v = true.
Proof.
  unfold binop_value, float_binop. destruct op, a, b; simpl; repeat case_match; intros; by simplify_eq.
Qed.

Lemma uncharged_store s reg v : uncharged s v -> charge_register_store reg v s = (Some (Ok tt), s).
Proof.
  unfold charge_register_store. intros [-> |Hv]; [done|].
  destruct (quota (vm s)); [|done]. by destruct v.
Qed.

Lemma set_reg_at s f rest k pc regs reg v regs' :
  uncharged s v -> store regs reg v = Some regs' ->
  set_reg checks reg v (at_point s f rest k (pc, regs)) =
  (Some (Ok tt), at_point s f rest k (pc, regs')).
Proof.
  intros Hq Hs. unfold store in Hs. destruct (get regs reg) eqn:Hg; [|done].
  injection Hs as <-. unfold set_reg, r_bind. rewrite uncharged_store by exact Hq.
  unfold current, pure_r. simpl. by rewrite Hg.
Qed.

Lemma trap_set s f rest k pc regs reg v q :
  uncharged s v -> (fun r => (pc, r)) <$> store regs reg v = Some q ->
  trap (set_reg checks reg v) (at_point s f rest k (pc, regs)) =
  (Next tt, at_point s f rest k q).
Proof.
  intros Hq Hs. destruct (store regs reg v) as [regs'|] eqn:E; [|done]. injection Hs as <-.
  unfold trap. by rewrite (set_reg_at _ _ _ _ _ _ _ _ _ Hq E).
Qed.

Lemma op_jump_at s f rest k pc regs i t :
  jump_target checks pc (Instruction.imm i) = Some t ->
  op_jump checks i (at_point s f rest k (pc, regs)) = (Next tt, at_point s f rest k (t, regs)).
Proof. intros Ht. unfold op_jump, m_bind, trap, current. simpl. by rewrite Ht. Qed.

Ltac dispatch_binop :=
  unfold op_binop, trap, numeric_binop, r_bind;
  match goal with Hop : _ = Instruction.op ?i |- context [get ?regs (Instruction.b ?i)] =>
    rewrite <- Hop, get_reg_at; simpl snd;
    destruct (get regs (Instruction.b i)) as [a|]; [|done]; rewrite get_reg_at; simpl snd;
    destruct (get regs (Instruction.c i)) as [b|]; [|done]; unfold pure_r;
    cbn [mbind option_bind];
    destruct (binop_value _ a b) as [r|] eqn:Hr; [|done];
    apply binop_heapless in Hr;
    let E := fresh "E" in let Hl := fresh "Hl" in
    destruct (store regs (Instruction.a i) _) as [regs'|] eqn:E; [|done];
    intros Hl; injection Hl as <-;
    by rewrite (set_reg_at _ _ _ _ _ _ _ _ _ (or_intror Hr) E)
  end.

Lemma dispatch_at s f rest k pc regs i q :
  unmetered s regs -> local_instr (chunk (vm s)) pc regs i = Some q ->
  dispatch checks i (at_point s f rest k (pc, regs)) = (Next tt, at_point s f rest k q).
Proof.
  intros Hq. unfold local_instr, dispatch. set (op := Instruction.op i).
  assert (Hop : op = Instruction.op i) by done. clearbody op.
  destruct op; try discriminate.
  - unfold op_load_const, reading. simpl. destruct (Chunk.constant _ _) eqn:Hv; [|done].
    apply trap_set. by eapply unmetered_constant.
  - unfold op_move, m_bind, trap at 1. rewrite get_reg_at. simpl.
    destruct (get regs (Instruction.b i)) eqn:Hv; [|done]. apply trap_set. by eapply unmetered_get.
  - apply trap_set. by right.
  - dispatch_binop.
  - dispatch_binop.
  - dispatch_binop.
  - dispatch_binop.
  - dispatch_binop.
  - unfold op_neg, m_bind, trap at 1. rewrite get_reg_at. simpl.
    destruct (get regs (Instruction.b i)) as [v|]; [|done]. simpl.
    destruct v; try discriminate; [destruct (checked_i _ _ _); [|done]|];
      (apply trap_set; by right).
  - dispatch_binop.
  - dispatch_binop.
  - dispatch_binop.
  - intros Ht. destruct (jump_target _ _ _) eqn:E; [|done]. injection Ht as <-.
    by apply op_jump_at.
  - unfold op_branch, m_bind at 1, trap at 1. rewrite get_reg_at. simpl.
    destruct (get regs (Instruction.a i)) as [c|]; [|done]. simpl.
    destruct (Value.is_truthy c); [by intros [= <-]|].
    intros Ht. destruct (jump_target _ _ _) eqn:E; [|done]. injection Ht as <-.
    by apply op_jump_at.
  - by intros [= <-].
Qed.

Lemma step_at s f rest k p q :
  unmetered s (snd p) -> in_u 64 (instructions_executed (vm s) + k + 1) ->
  local_step (chunk (vm s)) p = Some q ->
  step checks (at_point s f rest k p) = (Next tt, at_point s f rest (k + 1) q).
Proof.
  destruct p as [pc regs]. intros Hq Hk. unfold local_step. simpl fst. simpl snd.
  destruct (get (Chunk.code (chunk (vm s))) pc) as [i|] eqn:Hi; [|done]. simpl. intros Hl.
  unfold step, m_bind at 1, count_instruction. cbn [vm at_point instructions_executed with_executed].
  rewrite checked_u_id by done.
  unfold m_bind, trap, fetch, r_bind, current, get_state.
  simpl. rewrite Hi. rewrite <- Z.add_assoc.
  exact (dispatch_at s f rest (k + 1) (pc + 1) regs i q Hq Hl).
Qed.

Lemma local_run_add ch n m p q :
  local_run n ch p = Some q -> local_run (n + m) ch p = local_run m ch q.
Proof.
  revert p. induction n as [|n IH]; intros p; simpl; [by intros [= <-]|].
  destruct (local_step ch p) as [p'|]; [|done]. apply IH.
Qed.

Lemma local_run_prefix ch n m p q :
  local_run (n + m) ch p = Some q -> exists p', local_run n ch p = Some p'.
Proof.
  revert p. induction n as [|n IH]; intros p; simpl; [eauto|].
  destruct (local_step ch p) as [p'|]; [|done]. apply IH.
Qed.

(** [n] register instructions take [n] of the budget. *)
Lemma run_at s f rest n m k p q :
  quota (vm s) = None -> 0 <= instructions_executed (vm s) + k ->
  instructions_executed (vm s) + k + Z.of_nat n < 2 ^ 64 ->
  local_run n (chunk (vm s)) p = Some q ->
  run checks (n + m) (at_point s f rest k p) =
  run checks m (at_point s f rest (k + Z.of_nat n) q).
Proof.
  intros Hq. revert k p. induction n as [|n IH]; intros k p Hk Hn; simpl.
  { intros [= <-]. by rewrite Z.add_0_r. }
  destruct (local_step (chunk (vm s)) p) as [p'|] eqn:E; [|done]. simpl. intros Hr.
  rewrite (step_at s f rest k p p') by (done || (by left) || unfold in_u; lia).
  rewrite (IH (k + 1)) by (done || lia). by replace (k + 1 + Z.of_nat n) with (k + Z.of_nat (S n)) by lia.
Qed.

(** The outermost [Return] completes the flow. *)
Lemma step_return s f k p i v :
  Frame.dest_reg f = None ->
  in_u 64 (instructions_executed (vm s) + k + 1) ->
  get (Chunk.code (chunk (vm s))) (fst p) = Some i -> Instruction.op i = Opcode.Return ->
  get (snd p) (Instruction.a i) = Some v ->
  fst (step checks (at_point s f [] k p)) = Return (VmResult.Complete v).
Proof.
  destruct p as [pc regs]. simpl. intros Hd Hk Hi Ho Hv.
  unfold step, m_bind at 1, count_instruction. cbn [vm at_point instructions_executed with_executed].
  rewrite checked_u_id by done.
  unfold m_bind, trap, fetch, r_bind, current, get_state. simpl. rewrite Hi. simpl.
  unfold dispatch. rewrite Ho. unfold op_return, m_bind, trap, get_reg. simpl. rewrite Hv.
  unfold pop_frame. simpl. by rewrite Hd.
Qed.

End exec.
