(* ===== verification/ProgramRun.v ===== *)
(** From the source of a loop to its result: the module that the structured assembler
    builds for a counting loop, run by the interpreter. *)

From S2P Require Import Prelude Capability F64 Values Isa Verify Builder Sync Quota Native.
From S2P Require Import Program ProgramTheory.
From S2P Require Vm VmTheory VmExec.

(** [main] counts from 0 to [n] with [while_lt] and returns the counter. *)
Definition counting (checks : bool) (n : Z) : option Program.t :=
  snd <$> Program.function (Program.new (ascii_bytes "count")) (ascii_bytes "main") 0
            (count_body checks (load_int n)).

Definition counting_chunk (n : Z) : Chunk.t :=
  Chunk.mk (ascii_bytes "count") [Value.Int n]
    [Instruction.a_imm Opcode.LoadConst 4 0; Instruction.a_imm Opcode.LoadImm 5 0;
     Instruction.abc Opcode.Lt 6 5 4; Instruction.a_imm Opcode.Branch 6 3;
     Instruction.a_imm Opcode.LoadImm 7 1; Instruction.abc Opcode.Add 5 5 7;
     Instruction.only_imm Opcode.Jump (-5); Instruction.abc Opcode.Return 5 0 0]
    [FunctionDef.mk (ascii_bytes "main") 0 0 8].

Lemma counting_built checks n : Program.build <$> counting checks n = Some (counting_chunk n).
Proof. destruct checks; vm_compute; reflexivity. Qed.

(** The registers at the head of the loop after [k] rounds. *)
Definition head_regs (n k : Z) : list Value.t :=
  replicate 4 Value.Unit ++
  [Value.Int n; Value.Int k] ++
  (if decide (k = 0) then [Value.Unit; Value.Unit] else [Value.Bool true; Value.Int 1]).

Section loop.
Context (checks : bool) (n : Z).
Notation ch := (counting_chunk n).

Lemma enter_loop :
  VmExec.local_run checks 2 ch (0, replicate 8 Value.Unit) = Some (2, head_regs n 0).
Proof. by destruct checks. Qed.

Lemma jump_target_small pc imm :
  0 <= pc < 100 -> 0 <= pc + imm < 100 -> Vm.jump_target checks pc imm = Some (pc + imm).
Proof.
  intros Hpc Ht. unfold Vm.jump_target.
  rewrite wrap_i_id by (unfold in_i; lia). rewrite checked_i_id by (unfold in_i; lia).
  simpl. by rewrite wrap_u_id by (unfold in_u; lia).
Qed.

Lemma local_step_eq pc regs i :
  get (Chunk.code ch) pc = Some i ->
  VmExec.local_step checks ch (pc, regs) = VmExec.local_instr checks ch (pc + 1) regs i.
Proof. intros Hi. unfold VmExec.local_step. simpl fst. by rewrite Hi. Qed.

(** One instruction of the loop. *)
Ltac reduce :=
  repeat (match goal with
    | |- context [get ?l ?k] => let v := eval vm_compute in (get l k) in change (get l k) with v
    | |- context [VmExec.store ?l ?k ?v] =>
      let l' := eval lazy in (VmExec.store l k v) in change (VmExec.store l k v) with l'
    end; cbn -[Vm.binop_value Vm.jump_target VmExec.local_step get VmExec.store]).
Ltac exec pc :=
  rewrite (local_step_eq pc _ _ eq_refl); unfold VmExec.local_instr;
  cbn -[Vm.binop_value Vm.jump_target VmExec.local_step get VmExec.store]; reduce.

Lemma round_regs k k1 x y :
  Vm.binop_value Opcode.Lt (Value.Int k) (Value.Int n) = Ok (Value.Bool true) ->
  Vm.binop_value Opcode.Add (Value.Int k) (Value.Int 1) = Ok (Value.Int k1) ->
  VmExec.local_run checks 5 ch (2, replicate 4 Value.Unit ++ [Value.Int n; Value.Int k; x; y]) =
  Some (2, replicate 4 Value.Unit ++ [Value.Int n; Value.Int k1; Value.Bool true; Value.Int 1]).
Proof.
  intros Hlt Hadd. cbn [VmExec.local_run].
  exec 2. rewrite Hlt. reduce.
  exec 3. exec 4. exec 5. rewrite Hadd. reduce.
  exec 6. by rewrite jump_target_small by lia.
Qed.

Lemma leave_regs x y :
  Vm.binop_value Opcode.Lt (Value.Int n) (Value.Int n) = Ok (Value.Bool false) ->
  VmExec.local_run checks 2 ch (2, replicate 4 Value.Unit ++ [Value.Int n; Value.Int n; x; y]) =
  Some (7, replicate 4 Value.Unit ++ [Value.Int n; Value.Int n; Value.Bool false; y]).
Proof.
  intros Hlt. cbn [VmExec.local_run].
  exec 2. rewrite Hlt. reduce.
  exec 3. by rewrite jump_target_small by lia.
Qed.

Lemma round k :
  0 <= k < n -> n <= i64_max ->
  VmExec.local_run checks 5 ch (2, head_regs n k) = Some (2, head_regs n (k + 1)).
Proof.
  intros Hk Hn. unfold head_regs. rewrite (decide_False (P := k + 1 = 0)) by lia.
  destruct (decide (k = 0)); apply round_regs; simpl;
    (by rewrite (proj2 (Z.ltb_lt k n)) by lia) ||
    (by rewrite wrap_i_id by (unfold in_i, i64_max in *; lia)).
Qed.

(** The registers when the loop is left. *)
Definition exit_regs : list Value.t :=
  <[6%nat := Value.Bool false]> (head_regs n n).

Lemma leave :
  VmExec.local_run checks 2 ch (2, head_regs n n) = Some (7, exit_regs).
Proof.
  unfold exit_regs, head_regs.
  destruct (decide (n = 0)); apply leave_regs; simpl; by rewrite Z.ltb_irrefl.
Qed.

Lemma rounds j :
  0 <= n <= i64_max -> Z.of_nat j <= n ->
  VmExec.local_run checks (j * 5) ch (2, head_regs n 0) = Some (2, head_regs n (Z.of_nat j)).
Proof.
  intros Hn. induction j as [|j IH]; intros Hj; [done|].
  replace (S j * 5)%nat with (j * 5 + 5)%nat by lia.
  rewrite (VmExec.local_run_add _ _ _ _ _ _ (IH ltac:(lia))).
  rewrite round by lia. by replace (Z.of_nat j + 1) with (Z.of_nat (S j)) by lia.
Qed.

Lemma whole_loop :
  0 <= n <= i64_max ->
  VmExec.local_run checks (2 + (Z.to_nat n * 5 + 2)) ch (0, replicate 8 Value.Unit) =
  Some (7, exit_regs).
Proof.
  intros Hn. rewrite (VmExec.local_run_add _ _ _ _ _ _ enter_loop).
  rewrite (VmExec.local_run_add _ _ _ _ _ _ (rounds (Z.to_nat n) Hn ltac:(lia))).
  rewrite Z2Nat.id by lia. apply leave.
Qed.
End loop.

(** A loop written with the structured assembler runs as written.  For every [n],
    the module whose [main] counts from 0 with [while_lt] while the counter is below [n]
    and returns it assembles without a panic, is accepted by the verifier, loads, and
    run by the interpreter with any budget returns [n] when the budget is at least
    [5 n + 5] and yields when it is smaller: the loop terminates, with the right value,
    after exactly that many instructions. *)
Lemma counting_loop {H} checks n (nat : NativeTable.t H) gate w :
  0 <= n -> 5 * n + 5 < 2 ^ 64 ->
  exists p v, counting checks n = Some p /\ verify (Program.build p) = Ok tt /\
    Vm.with_native_gate (Program.build p) nat gate 0 [] = Ok v /\
    forall budget, fst (Vm.run checks budget (VmTheory.start v w)) =
      Some (if decide (5 * n + 5 <= Z.of_nat budget) then Vm.VmResult.Complete (Value.Int n)
            else Vm.VmResult.Yield).
Proof.
  intros Hn Hbig. pose proof (counting_built checks n) as Hb.
  destruct (counting checks n) as [p|]; [|done]. apply (inj Some) in Hb.
  destruct (Vm.with_native_gate (Program.build p) nat gate 0 []) as [v|] eqn:Ev; [|by rewrite Hb in Ev].
  exists p, v. rewrite Hb in Ev |- *. split_and!; [done|by vm_compute|done|].
  pose proof (whole_loop checks n ltac:(unfold i64_max; lia)) as Hloop.
  set (f := Vm.Frame.mk 0 0 (replicate 8 Value.Unit) None).
  assert (Hs : Vm.frames (Vm.vm (VmTheory.start v w)) = [f] /\ Vm.quota v = None /\
    Vm.instructions_executed v = 0 /\ Vm.chunk v = counting_chunk n) by by injection Ev as <-.
  destruct Hs as (Hf & Hq & He & Hc). intros budget.
  rewrite <- (VmExec.at_point_id _ _ _ Hf). simpl Vm.Frame.pc. simpl Vm.Frame.registers.
  set (s := VmTheory.start v w) in *.
  destruct (decide (5 * n + 5 <= Z.of_nat budget)) as [Hle|Hlt].
  - replace budget with (2 + (Z.to_nat n * 5 + 2) + S (budget - (2 + (Z.to_nat n * 5 + 2) + 1)))%nat
      by lia.
    rewrite (VmExec.run_at checks s f [] _ _ 0 _ (7, exit_regs n));
      [|done|unfold s; simpl; lia|unfold s; simpl; lia|unfold s; simpl; by rewrite Hc].
    pose proof (VmExec.step_return checks s f (0 + Z.of_nat (2 + (Z.to_nat n * 5 + 2)))
      (7, exit_regs n) (Instruction.abc Opcode.Return 5 0 0) (Value.Int n) eq_refl) as Hret.
    cbn [Vm.run]. destruct (Vm.step _ _) as [c s']. simpl in Hret. rewrite Hret; try done.
    + unfold s, in_u. simpl. lia.
    + unfold s. simpl. by rewrite Hc.
    + unfold exit_regs, head_regs. by destruct (decide (n = 0)).
  - replace (2 + (Z.to_nat n * 5 + 2))%nat
      with (budget + (2 + (Z.to_nat n * 5 + 2) - budget))%nat in Hloop by lia.
    apply VmExec.local_run_prefix in Hloop as [p' Hp'].
    replace budget with (budget + 0)%nat at 1 by lia.
    rewrite (VmExec.run_at checks s f [] _ _ 0 _ p'); [done|done| | |];
      unfold s; simpl; rewrite ?Hc; done || lia.
Qed.

Lemma counting_loop_witness :
  exists p v, counting true 1000 = Some p /\ verify (Program.build p) = Ok tt /\
    Vm.with_native_gate (Program.build p) (@NativeTable.empty unit) VmTheory.no_gate 0 [] = Ok v /\
    fst (Vm.run true 5005 (VmTheory.start v VmTheory.no_world)) =
      Some (Vm.VmResult.Complete (Value.Int 1000)).
Proof.
  destruct (counting_loop true 1000 (@NativeTable.empty unit) VmTheory.no_gate VmTheory.no_world)
    as (p & v & Hp & Hv & Hw & Hrun); [lia|lia|].
  exists p, v. split_and!; [exact Hp|exact Hv|exact Hw|].
  rewrite Hrun. by rewrite decide_True by (vm_compute; discriminate).
Defined.
