(* ===== verification/JitDispatch.v ===== *)
(** The trace JIT at run time: when a site is compiled and run, what of the VM goes into
    the slots of a trace and what comes back, and the quantum of a flow under the JIT.
    Models jit/dispatch.rs, jit/module_local.rs and scheduler/jit.rs.

    An [Arc<Chunk>] is compared by its address, which is an argument where a VM's is
    needed; [None] of a dispatch function is a panic, or a crash of native code. *)

From S2P Require Import Prelude Capability F64 Values Isa Verify Sync Quota Native.
From S2P Require Import JitTrace JitCompiler.
From S2P Require JitClif.
From S2P Require Import Vm.

(** [jit/dispatch.rs] [SyncSlotsResult] *)
Inductive SyncSlotsResult := SlotsOk | SlotsDeopt | SlotsUnavailable.
#[export] Instance sync_result_eq_dec : EqDecision SyncSlotsResult.
Proof. solve_decision. Defined.

(** [scheduler/metrics.rs:15-24] [RuntimeMetrics, the JIT counters] *)
Record JitMetrics := mk_jit_metrics {
  jit_compiles : Z;
  jit_compile_failures : Z;
  jit_executions : Z;
  jit_misses : Z;
  jit_deopts : Z }.

#[export] Instance eta_jit_metrics : Eta JitMetrics := fun m =>
  mk_jit_metrics (jit_compiles m) (jit_compile_failures m) (jit_executions m) (jit_misses m)
    (jit_deopts m).

Definition inc (counter : Z) : Z := wrap_u 64 (counter + 1).

(** ** The slots of a trace *)

(** [jit/dispatch.rs:344-349] [sync_slots_from_vm, one register] *)
Definition slot_of (v : Value.t) : option Z :=
  match v with
  | Value.Int i => Some i
  | Value.Bool b => Some (Z.b2z b)
  | Value.Unit => Some 0
  | _ => None
  end.

(** The zip of the slots and the registers: what is written before a deopt stays. *)
Fixpoint sync_registers (slots : list Z) (regs : list Value.t) : SyncSlotsResult * list Z :=
  match slots, regs with
  | slot :: slots', v :: regs =>
    match slot_of v with
    | Some i => let (r, slots'') := sync_registers slots' regs in (r, i :: slots'')
    | None => (SlotsDeopt, slots)
    end
  | _, _ => (SlotsOk, slots)
  end.

Section sync.
Context {H : Type}.
Implicit Type v : Vm H.

(** [jit/dispatch.rs] [sync_slots_from_vm] *)
Definition sync_slots_from_vm v (slots : list Z) : SyncSlotsResult * list Z :=
  match top_registers v with
  | None => (SlotsUnavailable, slots)
  | Some regs => sync_registers slots regs
  end.

Fixpoint write_slots (regs : list Value.t) (slots : list Z) : list Value.t :=
  match regs, slots with
  | _ :: regs, slot :: slots => Value.Int slot :: write_slots regs slots
  | _, _ => regs
  end.

(** [jit/dispatch.rs] [sync_slots_to_vm] *)
Definition sync_slots_to_vm (slots : list Z) : R H unit := fun s =>
  match frames (vm s) with
  | [] => (Some (Err (Fault.Invariant "empty frame stack while syncing slots")), s)
  | f :: rest =>
    (Some (Ok tt),
     mk_state (with_frames (vm s)
       (Frame.with_registers f (write_slots (Frame.registers f) slots) :: rest)) (wld s))
  end.

(** [jit/dispatch.rs] [slot_capacity] *)
Definition slot_capacity v : Z :=
  match map FunctionDef.num_registers (Chunk.functions (chunk v)), current_num_registers v with
  | n :: ns, Some current => Z.max (fold_left Z.max ns n) current
  | n :: ns, None => fold_left Z.max ns n
  | [], Some current => current
  | [], None => 0
  end.

(** ** Native calls *)

(** [jit/dispatch.rs:167-183] [run_compiled_trace, the frame] *)
Definition jit_frame (slots : list Z) (pc budget function register_count : Z) : JitClif.memory :=
  list_to_map
    ([((JitClif.Frame, 0), JitClif.Ptr JitClif.Slots 0);
      ((JitClif.Frame, OFF_REGISTER_COUNT), JitClif.int JitClif.I32 register_count);
      ((JitClif.Frame, OFF_PC), JitClif.int JitClif.I32 pc);
      ((JitClif.Frame, OFF_BUDGET), JitClif.int JitClif.I32 budget);
      ((JitClif.Frame, OFF_FUNCTION), JitClif.int JitClif.I32 function);
      ((JitClif.Frame, OFF_EXIT_KIND), JitClif.int JitClif.I32 0);
      ((JitClif.Frame, OFF_RETURN_REG), JitClif.int JitClif.I32 0);
      ((JitClif.Frame, OFF_CALL_DEPTH), JitClif.int JitClif.I32 0);
      ((JitClif.Frame, OFF_CALL_STACK), JitClif.Ptr JitClif.Stack 0)] ++
     imap (fun i x => ((JitClif.Slots, Z.of_nat i * 8), JitClif.int JitClif.I64 x)) slots ++
     imap (fun i _ => ((JitClif.Stack, Z.of_nat i * 4), JitClif.int JitClif.I32 0))
       (replicate (Z.to_nat (MAX_JIT_CALL_DEPTH * 4)) tt)).

Definition read_cell (m : JitClif.memory) (o : JitClif.object) (ofs : Z) : Z :=
  match m !! (o, ofs) with Some (JitClif.Int _ z) => z | _ => 0 end.

(** A [u32] field. *)
Definition read_field (m : JitClif.memory) (ofs : Z) : Z :=
  wrap_u 32 (read_cell m JitClif.Frame ofs).

Definition read_slots (m : JitClif.memory) (n : nat) : list Z :=
  map (fun i => read_cell m JitClif.Slots (Z.of_nat i * 8)) (seq 0 n).

Definition read_return (m : JitClif.memory) : JitReturn :=
  mk_jit_return (read_field m OFF_EXIT_KIND) (read_field m OFF_PC) (read_field m OFF_RETURN_REG).

Context {M C : Type} `{JitClif.Cranelift TraceKey.t M C}.

(** [jit/dispatch.rs] [run_compiled_trace]: with the slots the trace leaves. *)
Definition run_compiled_trace (entry : C) (slots : list Z) (pc budget function register_count : Z)
  : option (JitReturn * list Z) :=
  (fun m => (read_return m, read_slots m (length slots))) <$>
  JitClif.call_native entry (jit_frame slots pc budget function register_count).

(** [jit/dispatch.rs] [run_compiled_trace_ref] *)
Definition run_compiled_trace_ref (trace : CompiledTrace C) (slots : list Z)
    (pc budget function register_count : Z) : option (JitReturn * list Z) :=
  run_compiled_trace (entry trace) slots pc budget function register_count.

(** [jit/module_local.rs] [with_jit_module]: the thread's module, made at its first use. *)
Definition with_jit_module {A} (tls : option M)
    (f : M -> option (result A CompileError * M)) : option (result A CompileError * option M) :=
  match tls with
  | Some module => (fun r => (fst r, Some (snd r))) <$> f module
  | None =>
    match JitClif.create_module with
    | Err e => Some (Err (Backend e), None)
    | Ok module => (fun r => (fst r, Some (snd r))) <$> f module
    end
  end.

End sync.

(** ** Hot sites *)

Section dispatch.
Context {H M C : Type} `{JitClif.Cranelift TraceKey.t M C} (checks : bool).
Implicit Type s : state H.

Definition count (f : JitMetrics -> JitMetrics) (metrics : option JitMetrics) : option JitMetrics :=
  f <$> metrics.
Definition miss : option JitMetrics -> option JitMetrics := count (fun m => m <| jit_misses ::= inc |>).
Definition compiled : option JitMetrics -> option JitMetrics := count (fun m => m <| jit_compiles ::= inc |>).
Definition failed : option JitMetrics -> option JitMetrics :=
  count (fun m => m <| jit_compile_failures ::= inc |>).
Definition executed : option JitMetrics -> option JitMetrics :=
  count (fun m => m <| jit_executions ::= inc |>).
Definition deopted : option JitMetrics -> option JitMetrics := count (fun m => m <| jit_deopts ::= inc |>).

(** A [JitContext] with its module, and the metrics. *)
Record JitLocal := mk_local {
  jl_context : JitContext C;
  jl_module : M;
  jl_metrics : option JitMetrics }.

(** What one worker thread sees of the shared runtime: the runtime, its own module and the
    metrics. *)
Record JitShared := mk_shared {
  js_runtime : JitRuntime C;
  js_module : option M;
  js_metrics : option JitMetrics }.

(** The native run of a trace for its key. *)
Definition run_entry (code : C) (key : TraceKey.t) (slots : list Z) (budget register_count : Z)
  : option (ExitReason * list Z) :=
  (fun r => (into_reason (fst r), snd r)) <$>
  run_compiled_trace code slots (TraceKey.entry_pc key) budget (TraceKey.function key) register_count.

(** [jit/dispatch.rs] [try_run_hot] *)
Definition try_run_hot (l : JitLocal) (chunk : Chunk.t) (key : TraceKey.t) (slots : list Z)
    (budget register_count : Z) : option (option (ExitReason * list Z) * JitLocal) :=
  let ctx := jl_context l in
  let execute := fun (ctx : JitContext C) module metrics =>
    match ctx_cache ctx !! key with
    | None => Some (None, mk_local ctx module metrics)
    | Some trace =>
      (fun r => (Some r, mk_local ctx module (executed metrics))) <$>
      run_entry (entry trace) key slots budget register_count
    end in
  match ctx_cache ctx !! key with
  | Some _ => execute ctx (jl_module l) (jl_metrics l)
  | None =>
    let (hot_now, hot) := hit (ctx_hot ctx) key (ctx_threshold ctx) in
    let ctx := mk_context (ctx_chunk ctx) (ctx_cache ctx) hot (ctx_threshold ctx) in
    if negb hot_now then Some (None, mk_local ctx (jl_module l) (miss (jl_metrics l)))
    else match compile_trace checks (jl_module l) chunk key with
    | None => None
    | Some (Ok trace, module) =>
      execute (mk_context (ctx_chunk ctx) (<[key := trace]> (ctx_cache ctx)) (ctx_hot ctx)
        (ctx_threshold ctx)) module (compiled (jl_metrics l))
    | Some (Err _, module) => Some (None, mk_local ctx module (failed (jl_metrics l)))
    end
  end.

(** [jit/dispatch.rs] [try_run_hot_runtime]: the recursion is as deep as [fuel]. *)
Fixpoint try_run_hot_runtime (fuel : nat) (j : JitShared) (chunk : Chunk.t) (key : TraceKey.t)
    (slots : list Z) (budget register_count : Z)
  : option (option (ExitReason * list Z) * JitShared) :=
  match fuel with
  | O => None
  | S fuel =>
    match get_trace (js_runtime j) key with
    | Some code =>
      (fun r => (Some r, mk_shared (js_runtime j) (js_module j) (executed (js_metrics j)))) <$>
      run_entry code key slots budget register_count
    | None =>
      let (hot_now, rt) := record_hot_hit (js_runtime j) key in
      if negb hot_now then Some (None, mk_shared rt (js_module j) (miss (js_metrics j)))
      else if get_trace rt key then
        try_run_hot_runtime fuel (mk_shared rt (js_module j) (js_metrics j)) chunk key slots budget
          register_count
      else match with_jit_module (js_module j) (fun m => compile_trace checks m chunk key) with
      | None => None
      | Some (Err _, module) => Some (None, mk_shared rt module (failed (js_metrics j)))
      | Some (Ok trace, module) =>
        try_run_hot_runtime fuel
          (mk_shared (insert_trace rt key trace) module (compiled (js_metrics j)))
          chunk key slots budget register_count
      end
    end
  end.

(** [jit/dispatch.rs] [force_compile] *)
Definition force_compile (l : JitLocal) (chunk : Chunk.t) (key : TraceKey.t)
  : option (result unit CompileError * JitLocal) :=
  let ctx := jl_context l in
  match ctx_cache ctx !! key with
  | Some _ => Some (Ok tt, l)
  | None =>
    match compile_trace checks (jl_module l) chunk key with
    | None => None
    | Some (Ok trace, module) =>
      Some (Ok tt, mk_local (mk_context (ctx_chunk ctx) (<[key := trace]> (ctx_cache ctx))
        (ctx_hot ctx) (ctx_threshold ctx)) module (jl_metrics l))
    | Some (Err e, module) => Some (Err e, mk_local ctx module (jl_metrics l))
    end
  end.

(** ** Exits *)

Notation "'let#' x ':=' m 'in' k" := (r_bind m (fun x => k))
  (at level 10, x pattern, m at level 200, k at level 200).

Definition set_vm_pc (pc : Z) : R H unit := fun s =>
  (Some (Ok tt), mk_state (set_pc (vm s) pc) (wld s)).

(** [jit/dispatch.rs] [apply_exit_to_vm] *)
Definition apply_exit_to_vm (slots : list Z) (exit : ExitReason) : R H (option VmResult.t) :=
  match exit with
  | Return_ return_reg => fun s =>
    match get slots return_reg with
    | None => (None, s)
    | Some x =>
      let value := Value.Int x in
      (let# _ := set_register checks return_reg value in
       let# pc := get_state (fun s => pure_r
         match current_pc (vm s) with Some pc => Ok pc | None => Err empty_stack end) in
       let# _ := set_vm_pc (Z.min (pc + 1) u64_max) in
       return_value checks value) s
    end
  | Trap_ pc =>
    let# _ := set_vm_pc pc in ok_ (Some (VmResult.Trap Fault.DivideByZero))
  | Budget pc | Continue_ pc | Effect pc =>
    let# _ := set_vm_pc pc in
    let# _ := sync_slots_to_vm slots in
    ok_ None
  | Deopt pc => let# _ := set_vm_pc pc in ok_ None
  end.

(** ** Quanta *)

(** The part that [try_jit_step] and [try_jit_step_runtime] share: [hot] runs the trace of
    the site, [deopt] counts a deopt. *)
Definition jit_step {J} (hot : J -> TraceKey.t -> list Z -> Z -> option (option (ExitReason * list Z) * J))
    (deopt : J -> J) (j : J) s : option (option VmResult.t * J * state H) :=
  match current_pc (vm s), current_function checks (vm s), current_num_registers (vm s) with
  | None, _, _ => Some (None, j, s)
  | _, None, _ => None
  | _, _, None => Some (None, j, s)
  | Some pc, Some function, Some register_count =>
    match sync_slots_from_vm (vm s) (replicate (Z.to_nat (slot_capacity (vm s))) 0) with
    | (SlotsUnavailable, _) => Some (None, j, s)
    | (SlotsDeopt, _) => Some (None, deopt j, s)
    | (SlotsOk, slots) =>
      match hot j (TraceKey.mk function (wrap_u 32 pc)) slots register_count with
      | None => None
      | Some (None, j) => Some (None, j, s)
      | Some (Some (exit, slots), j) =>
        match apply_exit_to_vm slots exit s with
        | (None, _) => None
        | (Some (Ok r), s) => Some (r, j, s)
        | (Some (Err fault), s) => Some (Some (VmResult.Trap fault), j, s)
        end
      end
    end
  end.

(** [jit/dispatch.rs] [try_jit_step] *)
Definition try_jit_step (vm_arc : ptr) (l : JitLocal) s (budget : Z)
  : option (option VmResult.t * JitLocal * state H) :=
  if negb (ptr_eq (fst (ctx_chunk (jl_context l))) vm_arc) then Some (None, l, s)
  else jit_step (fun l key slots register_count =>
      try_run_hot (mk_local (jl_context l) (jl_module l) None) (chunk (vm s)) key slots budget
        register_count) (fun l => l) l s.

(** Enough for every recursion when the cache is not poisoned. *)
Definition hot_fuel : nat := 2.

(** [jit/dispatch.rs] [try_jit_step_runtime] *)
Definition try_jit_step_runtime (vm_arc : ptr) (j : JitShared) s (budget : Z)
  : option (option VmResult.t * JitShared * state H) :=
  if negb (matches_chunk (js_runtime j) vm_arc) then Some (None, j, s)
  else jit_step (fun j key slots register_count =>
      try_run_hot_runtime hot_fuel j (chunk (vm s)) key slots budget register_count)
    (fun j => mk_shared (js_runtime j) (js_module j) (deopted (js_metrics j))) j s.

(** [jit/dispatch.rs] [run_vm_with_jit_loop] *)
Fixpoint run_vm_with_jit_loop {J} (try_step : J -> state H -> Z -> option (option VmResult.t * J * state H))
    (remaining : nat) (j : J) s : option VmResult.t * J * state H :=
  match remaining with
  | O => (Some VmResult.Yield, j, s)
  | S later =>
    match try_step j s (Z.of_nat remaining) with
    | None => (None, j, s)
    | Some (Some result, j, s) => (Some result, j, s)
    | Some (None, j, s) =>
      match run checks 1 s with
      | (Some VmResult.Yield, s) => run_vm_with_jit_loop try_step later j s
      | (other, s) => (other, j, s)
      end
    end
  end.

(** [jit/dispatch.rs] [run_vm_with_jit] *)
Definition run_vm_with_jit (vm_arc : ptr) (budget : nat) (l : JitLocal) s
  : option VmResult.t * JitLocal * state H :=
  run_vm_with_jit_loop (try_jit_step vm_arc) budget l s.

(** [jit/dispatch.rs] [run_vm_with_jit_runtime] *)
Definition run_vm_with_jit_runtime (vm_arc : ptr) (budget : nat) (j : JitShared) s
  : option VmResult.t * JitShared * state H :=
  run_vm_with_jit_loop (try_jit_step_runtime vm_arc) budget j s.

(** [scheduler/jit.rs] [run_flow_quantum]: [jit] is [shared.jit], when the runtime has one. *)
Definition run_flow_quantum (vm_arc : ptr) (jit : option JitShared) (budget : nat) s
  : option VmResult.t * option JitShared * state H :=
  match jit with
  | None => let (r, s) := run checks budget s in (r, None, s)
  | Some j => let '(r, j, s) := run_vm_with_jit_runtime vm_arc budget j s in (r, Some j, s)
  end.

(** [scheduler/jit.rs] [new_runtime] *)
Definition new_runtime (chunk : ptr * Chunk.t) (hot_threshold : Z) : JitRuntime C :=
  runtime_new chunk hot_threshold.

End dispatch.
