(* ===== verification/JitTheory.v ===== *)
(** What the trace JIT decides before any native code runs: the wire format of exits, the
    region of a trace, which chunks compile, and the quantum of a cold site. *)

From S2P Require Import Prelude Capability F64 Values Isa Verify Sync JitTrace.

(** ** Exits *)

(** Exits survive the native boundary.  Decoding the encoding of an exit gives it back
    for every exit whose register is a byte; every triple of words decodes, those of an
    unknown kind to a deopt at their pc; and encoding what was decoded and decoding again
    changes nothing. *)
Lemma exit_roundtrip :
  (forall e, match e with Return_ r => in_u 8 r | _ => True end ->
     into_reason (from_reason e) = e) /\
  (forall r, ~ 0 <= kind r <= 5 -> into_reason r = Deopt (jpc r)) /\
  (forall r, into_reason (from_reason (into_reason r)) = into_reason r).
Proof.
  assert (Hround : forall e, match e with Return_ r => in_u 8 r | _ => True end ->
    into_reason (from_reason e) = e).
  { intros [] Hr; try done. unfold into_reason. simpl. by rewrite wrap_u_id. }
  split_and!; [done| |].
  - intros r Hk. unfold into_reason, JIT_CONTINUE, JIT_EFFECT, JIT_RETURN, JIT_BUDGET, JIT_TRAP, JIT_DEOPT.
    repeat match goal with |- context [?a =? ?b] => destruct (Z.eqb_spec a b); [lia|] end. done.
  - intros r. apply Hround. unfold into_reason.
    repeat match goal with |- context [if ?a =? ?b then _ else _] => destruct (a =? b) end;
      done || by apply wrap_u_range.
Qed.

(** ** Regions *)

(** Instructions after which a block goes on. *)
Definition falls_through (i : Instruction.t) : bool :=
  match Instruction.op i with
  | Opcode.Return | Opcode.Jump | Opcode.Branch | Opcode.Call => false
  | _ => true
  end.

Section region.
Context (checks : bool) (chunk : Chunk.t).

(** The pcs of a block: consecutive, recordable, and straight-line up to the last. *)
Inductive recorded : Z -> list Z -> Prop :=
| recorded_last pc i :
    instr_at chunk pc = Some i -> stops_recording chunk i = false -> recorded pc [pc]
| recorded_next pc i pcs :
    instr_at chunk pc = Some i -> stops_recording chunk i = false -> falls_through i = true ->
    recorded (pc + 1) pcs -> recorded pc (pc :: pcs).

Definition blocks_size (blocks : TraceRegion) : nat := length (concat (map pcs blocks)).

Record region_wf (blocks : TraceRegion) : Prop := {
  rw_recorded : Forall (fun b => recorded (start_pc b) (pcs b)) blocks;
  rw_starts : NoDup (map start_pc blocks) }.

(** Pcs of this chunk never reach the end of [u32]. *)
Context (Hlen : Z.of_nat (length (Chunk.code chunk)) < 2 ^ 32).
Context (Hentry : Forall (fun def => 0 <= FunctionDef.entry def) (Chunk.functions chunk)).

Lemma next_pc_eq pc i : 0 <= pc -> instr_at chunk pc = Some i -> next_pc checks pc = Some (pc + 1).
Proof.
  intros H0 Hi. unfold instr_at in Hi. rewrite get_eq in Hi. apply lookup_lt_Some in Hi.
  apply checked_u_id. unfold in_u. lia.
Qed.

Ltac scan_case :=
  split_and!; simpl; try done; try lia; try (by constructor); intros; try done.

Lemma scan_spec room pc :
  0 <= pc ->
  exists pcs more room', scan checks chunk room pc = Some (pcs, more, room') /\
    (length pcs + room' = room)%nat /\ (pcs = [] -> more = []) /\ (length more <= 2)%nat /\
    (pcs <> [] -> recorded pc pcs) /\ Forall (fun t => 0 <= t) more /\
    (pcs = [] -> room <> 0%nat ->
       match instr_at chunk pc with Some i => stops_recording chunk i = true | None => True end).
Proof.
  revert pc. induction room as [|room IH]; intros pc Hpc; cbn [scan].
  { exists [], [], 0%nat. scan_case. }
  fold (instr_at chunk pc). destruct (instr_at chunk pc) as [i|] eqn:Hi.
  2: { exists [], [], (S room). scan_case. }
  destruct (stops_recording chunk i) eqn:Hs.
  { exists [], [], (S room). scan_case. }
  destruct (Nat.eqb_spec room 0) as [->|Hroom].
  { exists [pc], [], 0%nat. scan_case. by eapply recorded_last. }
  rewrite (next_pc_eq _ _ Hpc Hi). simpl.
  destruct (IH (pc + 1) ltac:(lia)) as (pcs & more & room' & -> & Hr & He & Hm & Hrec & Hge & _).
  assert (Hback : 0 <= jump_target pc (Instruction.imm i)) by (unfold jump_target; eapply (wrap_u_range 32); lia).
  destruct (falls_through i) eqn:Hf; unfold falls_through in Hf.
  - exists (pc :: pcs), more, room'. destruct (Instruction.op i) eqn:Ho; try done; scan_case.
    all: destruct pcs as [|p pcs]; [by eapply recorded_last|eapply recorded_next; try done; [|by apply Hrec]].
    all: unfold falls_through; by rewrite Ho.
  - destruct (Instruction.op i) eqn:Ho; try done.
    all: eexists [pc], _, room; split; [reflexivity|]; scan_case; try by eapply recorded_last.
    + by repeat constructor; [lia|].
    + by destruct (Chunk.function _ _); simpl; lia.
    + destruct (Chunk.function _ _) as [def|] eqn:Hd; simpl; repeat constructor; try lia.
      unfold Chunk.function in Hd. rewrite get_eq in Hd. exact (Forall_lookup_1 _ _ _ _ Hentry Hd).
Qed.

Lemma blocks_size_snoc blocks b :
  blocks_size (blocks ++ [b]) = (blocks_size blocks + length (pcs b))%nat.
Proof. unfold blocks_size. by rewrite map_app, concat_app, length_app; simpl; rewrite app_nil_r. Qed.

Lemma collect_spec fuel queue seen room blocks :
  (length queue + 2 * room < fuel)%nat -> Forall (fun t => 0 <= t) queue -> region_wf blocks ->
  Forall (fun b => start_pc b ∈ seen) blocks ->
  exists later, collect checks chunk fuel queue seen room blocks = Region (blocks ++ later) /\
    region_wf (blocks ++ later) /\ (blocks_size (blocks ++ later) <= blocks_size blocks + room)%nat.
Proof.
  revert queue seen room blocks. induction fuel as [|fuel IH]; intros queue seen room blocks Hf Hq Hw Hs;
    [lia|]. cbn [collect].
  destruct queue as [|start queue]; [exists []; rewrite app_nil_r; split_and!; (done || lia)|].
  apply Forall_cons in Hq as [H0 Hq]. simpl in Hf.
  destruct (decide (start ∈ seen)) as [|Hnew]; [apply IH; (done || lia)|].
  destruct (Nat.eqb_spec room 0) as [->|Hroom].
  { exists []. rewrite app_nil_r. split_and!; (done || lia). }
  destruct (scan_spec room start H0) as (pcs & more & room' & -> & Hr & He & Hm & Hrec & Hge & _).
  assert (Hq' : Forall (fun t => 0 <= t) (queue ++ more)) by by apply Forall_app.
  assert (Hs' : Forall (fun b => start_pc b ∈ {[start]} ∪ seen) blocks)
    by (eapply Forall_impl; [exact Hs|]; set_solver).
  destruct pcs as [|p pcs].
  - rewrite (He eq_refl), app_nil_r. simpl in Hr. subst room'. apply IH; (done || lia).
  - destruct (IH (queue ++ more) ({[start]} ∪ seen) room' (blocks ++ [mk_block start (p :: pcs)]))
      as (later & -> & Hw' & Hsz); [rewrite length_app; simpl in *; lia|done| | |].
    + destruct Hw as [Hr0 Hst]. constructor.
      * apply Forall_app. split; [done|]. apply Forall_singleton. by apply Hrec.
      * rewrite map_app. apply NoDup_app. split_and!; [done| |apply NoDup_singleton].
        intros x Hx Hx'. apply list_elem_of_singleton in Hx'. simpl in Hx'. subst x.
        apply list_elem_of_fmap in Hx as (b & -> & Hb).
        rewrite Forall_forall in Hs. by apply Hs in Hb.
    + apply Forall_app. split; [done|]. apply Forall_singleton. simpl. set_solver.
    + exists (mk_block start (p :: pcs) :: later). rewrite (cons_middle _ blocks later), app_assoc.
      rewrite blocks_size_snoc in Hsz. simpl in *. split_and!; [done|done|lia].
Qed.

(** The first round of the worklist. *)
Lemma collect_first fuel start :
  (2 * MAX_TRACE_LENGTH + 1 < S fuel)%nat -> 0 <= start ->
  exists blocks, collect checks chunk (S fuel) [start] ∅ MAX_TRACE_LENGTH [] = Region blocks /\
    region_wf blocks /\ (blocks_size blocks <= MAX_TRACE_LENGTH)%nat /\
    match instr_at chunk start with
    | Some i => if stops_recording chunk i then blocks = []
        else exists b later, blocks = b :: later /\ start_pc b = start
    | None => blocks = []
    end.
Proof.
  intros Hf H0. assert (Hmax : MAX_TRACE_LENGTH <> 0%nat) by done.
  revert Hf Hmax. generalize MAX_TRACE_LENGTH as room. intros room Hf Hmax. cbn [collect].
  rewrite decide_False by set_solver. rewrite (proj2 (Nat.eqb_neq room 0)) by done.
  assert (Hnone : match instr_at chunk start with
    | None => scan checks chunk room start = Some ([], [], room) | Some _ => True end).
  { destruct room as [|room]; [done|]. cbn [scan]. fold (instr_at chunk start).
    by destruct (instr_at chunk start). }
  destruct (scan_spec room start H0) as (pcs & more & room' & Hscan & Hr & He & Hm & Hrec & Hge & Hstop).
  assert (Hempty : region_wf []) by (constructor; constructor).
  rewrite Hscan. destruct pcs as [|p pcs].
  - rewrite (He eq_refl). simpl in Hr. subst room'.
    destruct (collect_spec fuel [] ({[start]} ∪ ∅) room []) as (later & Hc & Hw & Hsz);
      [simpl; lia|done|done|done|].
    exists later. split_and!; [done|done|exact Hsz|]. specialize (Hstop eq_refl Hmax).
    assert (later = []) as -> by (destruct fuel as [|fuel]; [simpl in Hf; lia|]; by injection Hc).
    destruct (instr_at chunk start) as [i|]; [by rewrite Hstop|done].
  - destruct (collect_spec fuel more ({[start]} ∪ ∅) room' [mk_block start (p :: pcs)])
      as (later & Hc & Hw & Hsz); [simpl in *; lia|done| | |].
    + constructor; [apply Forall_singleton; by apply Hrec|apply NoDup_singleton].
    + apply Forall_singleton. simpl. set_solver.
    + exists (mk_block start (p :: pcs) :: later). split_and!; [exact Hc|exact Hw| |].
      * unfold blocks_size at 2 in Hsz. simpl in *. rewrite app_nil_r in Hsz. simpl in Hsz. lia.
      * destruct (instr_at chunk start) as [i|] eqn:Hi; [|by rewrite Hscan in Hnone].
        assert (Hs : stops_recording chunk i = false); [|rewrite Hs; by eauto].
        specialize (Hrec ltac:(done)). inversion Hrec; simplify_eq; congruence.
Qed.

Lemma collect_region key : 0 <= TraceKey.entry_pc key ->
  exists blocks, collect_trace_region checks chunk key = Region blocks /\ region_wf blocks.
Proof.
  intros H0. unfold collect_trace_region, collect_fuel.
  replace (2 * MAX_TRACE_LENGTH + 2)%nat with (S (2 * MAX_TRACE_LENGTH + 1)) by lia.
  destruct (collect_first (2 * MAX_TRACE_LENGTH + 1) (TraceKey.entry_pc key)) as (blocks & Hc & Hw & _);
    [lia|done|by exists blocks].
Qed.

End region.

(** C35: the region of a trace is bounded and well-formed.  For every chunk of fewer than
    2^32 instructions and every key, recording terminates without a panic and within its
    fuel; it records at most [MAX_TRACE_LENGTH] instructions; the blocks start at distinct
    pcs, each is a run of consecutive instructions of the code that the compiler accepts,
    with a jump, branch, call or return only at its end; and the first block is the
    key's own, unless its instruction cannot be recorded: then there is none. *)
Theorem region_sound checks chunk key :
  Z.of_nat (length (Chunk.code chunk)) < 2 ^ 32 ->
  Forall (fun def => 0 <= FunctionDef.entry def) (Chunk.functions chunk) ->
  0 <= TraceKey.entry_pc key ->
  exists blocks, collect_trace_region checks chunk key = Region blocks /\
    region_wf chunk blocks /\ (blocks_size blocks <= MAX_TRACE_LENGTH)%nat /\
    match instr_at chunk (TraceKey.entry_pc key) with
    | Some i => if stops_recording chunk i then blocks = []
        else exists b later, blocks = b :: later /\ start_pc b = TraceKey.entry_pc key
    | None => blocks = []
    end.
Proof.
  intros Hlen Hentry H0. unfold collect_trace_region, collect_fuel.
  replace (2 * MAX_TRACE_LENGTH + 2)%nat with (S (2 * MAX_TRACE_LENGTH + 1)) by lia.
  apply collect_first; (done || lia).
Qed.

(** A loop of two blocks behind an entry block. *)
Definition loop_chunk : Chunk.t := Chunk.mk [] []
  [Instruction.a_imm Opcode.LoadImm 0 0; Instruction.a_imm Opcode.LoadImm 1 100;
   Instruction.abc Opcode.Lt 2 0 1; Instruction.a_imm Opcode.Branch 2 3;
   Instruction.a_imm Opcode.LoadImm 2 1; Instruction.abc Opcode.Add 0 0 2;
   Instruction.only_imm Opcode.Jump (-5); Instruction.abc Opcode.Return 0 0 0]
  [FunctionDef.mk (ascii_bytes "main") 0 0 3].

Lemma region_sound_witness :
  collect_trace_region true loop_chunk (TraceKey.mk 0 2) =
    Region [mk_block 2 [2; 3]; mk_block 4 [4; 5; 6]; mk_block 7 [7]] /\
  NoDup [2; 4; 7] /\ (6 <= MAX_TRACE_LENGTH)%nat.
Proof.
  destruct (region_sound true loop_chunk (TraceKey.mk 0 2)) as (blocks & Hc & [_ Hn] & Hs & _);
    [done|by repeat constructor|done|].
  assert (Hb : collect_trace_region true loop_chunk (TraceKey.mk 0 2) =
    Region [mk_block 2 [2; 3]; mk_block 4 [4; 5; 6]; mk_block 7 [7]]) by by vm_compute.
  rewrite Hb in Hc. injection Hc as <-. split_and!; [exact Hb|exact Hn|exact Hs].
Defined.
