(* ===== verification/JitLower.v ===== *)
(** Which chunks the trace compiler can lower: emission never fails on verified code, so
    that only an entry that cannot be recorded, or Cranelift, refuses a trace. *)

From S2P Require Import Prelude Capability F64 Values Isa Verify Sync JitTrace JitClif.
From S2P Require Import JitCompiler JitTheory.

(** ** Code made of builder calls *)

(** [fallible] allows it to fail. *)
Inductive emission (fallible : bool) : forall {A}, E A -> Prop :=
| emission_ret {A} (a : A) : emission fallible (e_ret a)
| emission_fail {A} e : fallible = true -> emission fallible (@e_fail _ A e)
| emission_ins i : emission fallible (ins i)
| emission_ins_val i : emission fallible (ins_val i)
| emission_create_block : emission fallible create_block
| emission_switch k : emission fallible (switch_to_block k)
| emission_bind {A B} (m : E A) (k : A -> E B) :
    emission fallible m -> (forall a, emission fallible (k a)) -> emission fallible (e_bind m k).

Create HintDb emission.
#[export] Hint Constructors emission : emission.

(** Cases on what an emission matches on, and its binds. *)
Ltac emits := intros; repeat match goal with
  | |- emission _ (e_bind _ _) => apply emission_bind; [|intros]
  | |- emission _ (let '_ := ?p in _) => destruct p
  | |- emission _ (match ?x with _ => _ end) => destruct x
  end; auto with emission.

(** Infallible code emits. *)
Lemma emission_succeeds {A} (m : E A) b : emission false m -> exists a b', m b = Ok (a, b').
Proof.
  intros Hm. revert b. induction Hm as [A a|A e [=]|i|i| |k|A B m k _ IHm _ IHk]; intros b.
  1-5: eexists _, _; reflexivity.
  unfold e_bind. destruct (IHm b) as (a & b' & ->). by apply IHk.
Qed.

(** Blocks only grow, and so do the handles of values. *)
Definition within (b : builder) (F : list (list inst)) : Prop :=
  forall k l, blocks b !! k = Some l -> exists t, F !! k = Some (l ++ t).

Record grows (b b' : builder) : Prop := {
  gr_within : within b (blocks b');
  gr_value : (next_value b <= next_value b')%nat }.

Lemma within_trans b b' F : within b (blocks b') -> within b' F -> within b F.
Proof.
  intros H1 H2 k l Hl. destruct (H1 k l Hl) as [t Ht]. destruct (H2 _ _ Ht) as [t' Ht'].
  exists (t ++ t'). by rewrite app_assoc.
Qed.

Lemma grows_blocks b b' : grows b b' -> (length (blocks b) <= length (blocks b'))%nat.
Proof.
  intros [Hw _]. destruct (decide (length (blocks b) = 0%nat)); [lia|].
  destruct (lookup_lt_is_Some_2 (blocks b) (length (blocks b) - 1)) as [l Hl]; [lia|].
  destruct (Hw _ _ Hl) as [t Ht]. apply lookup_lt_Some in Ht. lia.
Qed.

#[global] Instance grows_preorder : PreOrder grows.
Proof.
  split.
  - intros b. split; [|done]. intros k l Hl. exists []. by rewrite app_nil_r.
  - intros b b1 b2 [W1 N1] [W2 N2]. split; [by eapply within_trans|lia].
Qed.

Lemma within_alter b l k n :
  within b (blocks (mk_builder (alter (fun code => code ++ l) k (blocks b)) (cur b) n)).
Proof.
  intros k' l' Hl. simpl. destruct (decide (k = k')) as [->|Hne].
  - rewrite list_lookup_alter_eq, Hl. by exists l.
  - rewrite list_lookup_alter_ne by done. exists []. by rewrite app_nil_r.
Qed.

Lemma emission_grows {A} f (m : E A) b a b' : emission f m -> m b = Ok (a, b') -> grows b b'.
Proof.
  intros Hm. revert b a b'.
  induction Hm as [A x|A e _|i|i| |k|A B m k _ IHm _ IHk]; intros b a b'.
  - by intros [= _ <-].
  - done.
  - intros [= _ <-]. split; [apply within_alter|done].
  - intros [= _ <-]. split; [apply within_alter|simpl; lia].
  - intros [= _ <-]. split; [|done]. intros k l Hl. exists []. simpl.
    by rewrite app_nil_r, lookup_app_l by by eapply lookup_lt_Some.
  - intros [= _ <-]. split; [|done]. intros k' l Hl. exists []. by rewrite app_nil_r.
  - unfold e_bind. destruct (m b) as [[x b1]|e] eqn:E1; [|done]. intros E2.
    etrans; [by eapply IHm|by eapply IHk].
Qed.

(** ** The compiler's functions *)

Section emissions.
Context (f : bool).

Lemma emission_field_ptr p o : emission f (field_ptr p o).
Proof. unfold field_ptr. emits. Qed.
#[local] Hint Resolve emission_field_ptr : emission.
Lemma emission_record_field p o : emission f (record_field p o).
Proof. unfold record_field. emits. Qed.
Lemma emission_store_slot p r x : emission f (store_slot p r x).
Proof. unfold store_slot. emits. Qed.
Lemma emission_write_u32 p o x : emission f (write_u32_field p o x).
Proof. unfold write_u32_field. emits. Qed.
#[local] Hint Resolve emission_record_field emission_store_slot emission_write_u32 : emission.
Lemma emission_write_exit p k pc r : emission f (write_exit p k pc r).
Proof. unfold write_exit. emits. Qed.
Lemma emission_write_dynamic_exit p k pc r : emission f (write_dynamic_exit p k pc r).
Proof. unfold write_dynamic_exit. emits. Qed.
#[local] Hint Resolve emission_write_exit emission_write_dynamic_exit : emission.
Lemma emission_budget_tick q p pc : emission f (emit_budget_tick q p pc).
Proof. unfold emit_budget_tick. emits. Qed.
Lemma emission_load_reg regs p r : emission f (load_reg regs p r).
Proof. unfold load_reg. emits. Qed.
Lemma emission_flush regs p r : emission f (flush_registers regs p r).
Proof. revert r. induction regs as [|[x|] regs IH]; simpl; emits. Qed.
Lemma emission_branch_to_pc p m t : emission f (branch_to_pc p m t).
Proof. unfold branch_to_pc. emits. Qed.
Lemma emission_copy p d i n : emission f (copy_arguments p d i n).
Proof. revert i. induction n; simpl; emits. Qed.
Lemma emission_push_record ctx d pc dst : emission f (push_record ctx d pc dst).
Proof. unfold push_record. emits. Qed.
#[local] Hint Resolve emission_budget_tick emission_load_reg emission_flush
  emission_branch_to_pc emission_copy emission_push_record : emission.
Lemma emission_return ctx regs r pc : emission f (emit_return ctx regs r pc).
Proof. unfold emit_return. emits. Qed.
Lemma emission_bool c : emission f (bool_as_i64 c).
Proof. unfold bool_as_i64. emits. Qed.
#[local] Hint Resolve emission_bool : emission.
Lemma emission_operation op l r : emission f (emit_operation op l r).
Proof. unfold emit_operation. emits. Qed.
#[local] Hint Resolve emission_return emission_operation : emission.

(** Recordable instructions whose callee exists are emitted. *)
Definition emittable (ch : Chunk.t) (i : Instruction.t) : Prop :=
  stops_recording ch i = false /\
  (Instruction.op i = Opcode.Call ->
     is_Some (Chunk.function ch (wrap_u 32 (Instruction.imm i)))).

Lemma emission_instruction ctx regs pc i :
  f = true \/ emittable (ec_chunk ctx) i -> emission f (emit_instruction ctx regs pc i).
Proof.
  unfold emit_instruction. intros [Hf|[Hs Hc]].
  - destruct (Instruction.op i); try (by constructor); unfold emit_load_const, emit_arithmetic,
      emit_division, emit_branch, emit_return_, emit_call; emits.
  - unfold stops_recording in Hs. destruct (Instruction.op i) eqn:Ho; try done.
    all: try (unfold emit_arithmetic, emit_division, emit_branch, emit_return_; emits; fail).
    + unfold emit_load_const. simpl in Hs.
      destruct (Chunk.constant _ _) as [[]|]; try discriminate Hs; emits.
    + destruct (Hc eq_refl) as [def Hdef]. unfold emit_call. rewrite Hdef. emits.
Qed.

Lemma emission_block ctx q regs code :
  f = true \/ Forall (fun p => emittable (ec_chunk ctx) (snd p)) code ->
  emission f (emit_block ctx q regs code).
Proof.
  revert regs. induction code as [|[pc i] code IH]; intros regs Hc; cbn [emit_block]; [emits|].
  rewrite Forall_cons in Hc.
  apply emission_bind; [emits|intros _].
  apply emission_bind; [apply emission_instruction; naive_solver|].
  intros regs'. apply IH. naive_solver.
Qed.

Lemma emission_blocks ctx q n region :
  f = true \/ Forall (fun b => Forall (fun p => emittable (ec_chunk ctx) (snd p)) (snd b)) region ->
  emission f (emit_blocks ctx q n region).
Proof.
  induction region as [|[k code] region IH]; intros Hc; cbn [emit_blocks]; [emits|].
  rewrite Forall_cons in Hc. apply emission_bind; [emits|intros _].
  apply emission_bind; [apply emission_block; naive_solver|intros _]. apply IH. naive_solver.
Qed.

End emissions.
#[export] Hint Resolve emission_field_ptr emission_record_field emission_store_slot
  emission_write_u32 emission_write_exit emission_write_dynamic_exit emission_budget_tick
  emission_load_reg emission_flush emission_branch_to_pc emission_bool
  emission_operation emission_return : emission.

(** ** The blocks of the function *)

Fixpoint block_map (region : TraceRegion) (k : block) (m : gmap Z block) : gmap Z block :=
  match region with
  | [] => m
  | b :: region => block_map region (S k) (<[start_pc b := k]> m)
  end.

Lemma create_blocks_eq region m b :
  create_blocks region m b =
  Ok (block_map region (length (blocks b)) m,
      mk_builder (blocks b ++ replicate (length region) []) (cur b) (next_value b)).
Proof.
  revert m b. induction region as [|x region IH]; intros m b; simpl.
  - unfold e_ret. rewrite app_nil_r. by destruct b.
  - unfold e_bind, create_block. rewrite IH. simpl. rewrite length_app, Nat.add_1_r.
    by rewrite <- app_assoc.
Qed.

Lemma block_map_other region k m pc :
  pc ∉ map start_pc region -> block_map region k m !! (pc : Z) = m !! pc.
Proof.
  revert k m. induction region as [|x region IH]; intros k m Hpc; simpl in *; [done|].
  apply not_elem_of_cons in Hpc as [Hne Hpc]. rewrite IH by done. by rewrite lookup_insert_ne.
Qed.

Lemma block_map_start region k m i b :
  NoDup (map start_pc region) -> region !! i = Some b ->
  block_map region k m !! (start_pc b : Z) = Some (k + i)%nat.
Proof.
  revert k m i. induction region as [|x region IH]; intros k m i Hnd Hi; simpl in *; [done|].
  apply NoDup_cons in Hnd as [Hx Hnd]. destruct i as [|i]; simpl in Hi.
  - injection Hi as ->. rewrite block_map_other by done. rewrite lookup_insert_eq. f_equal. lia.
  - rewrite (IH (S k) _ i Hnd Hi). f_equal. lia.
Qed.

(** ** Lowering *)

Lemma region_code chunk region :
  Forall (fun b => recorded chunk (start_pc b) (pcs b)) region ->
  exists codes, mapM (block_code chunk) region = Some codes /\
    Forall2 (fun b code => block_code chunk b = Some code) region codes /\
    Forall (Forall (fun p => instr_at chunk (fst p) = Some (snd p) /\
      stops_recording chunk (snd p) = false)) codes.
Proof.
  intros Hr.
  assert (Hb : forall b, recorded chunk (start_pc b) (pcs b) ->
    exists code, block_code chunk b = Some code /\
      Forall (fun p => instr_at chunk (fst p) = Some (snd p) /\
        stops_recording chunk (snd p) = false) code).
  { intros [st ps]. unfold block_code. simpl. generalize st as start. clear.
    induction 1 as [pc i Hi Hs|pc i ps Hi Hs _ _ (code & Hc & Hf)].
    - exists [(pc, i)]. split; [by cbn; rewrite Hi|]. by repeat constructor.
    - exists ((pc, i) :: code). split; [|by constructor]. cbn. rewrite Hi. cbn.
      cbn in Hc. by rewrite Hc. }
  induction region as [|b region IH]; [by exists []; repeat constructor|].
  apply Forall_cons in Hr as [Hb0 Hr]. destruct (IH Hr) as (codes & Hm & Hf2 & Hf).
  destruct (Hb b Hb0) as (code & Hc & Hfc). exists (code :: codes).
  split_and!; [cbn; rewrite Hc; cbn; cbn in Hm; by rewrite Hm|by constructor|by constructor].
Qed.

Lemma bind_ok {A B} (m : E A) (k : A -> E B) b :
  (exists a b', m b = Ok (a, b')) -> (forall a b', exists c b'', k a b' = Ok (c, b'')) ->
  exists c b'', e_bind m k b = Ok (c, b'').
Proof. intros (a & b' & E1) Hk. unfold e_bind. rewrite E1. apply Hk. Qed.

Lemma emit_trace_succeeds chunk key def b region codes bld :
  code_wf chunk -> NoDup (map start_pc (b :: region)) -> start_pc b = TraceKey.entry_pc key ->
  Forall (Forall (fun p => instr_at chunk (fst p) = Some (snd p) /\
    stops_recording chunk (snd p) = false)) codes ->
  (exists m, region_max_pc (b :: region) key = Ok m) ->
  exists u b', emit_trace chunk key def (b :: region) codes bld = Ok (u, b').
Proof.
  intros (_ & _ & Hwf) Hnd Hb Hcodes [m Hm]. unfold emit_trace. revert bld.
  assert (Hem : Forall (Forall (fun p => emittable chunk (snd p))) codes).
  { eapply Forall_impl; [exact Hcodes|]. intros code Hcode.
    eapply Forall_impl; [exact Hcode|]. intros [pc i] [Hi Hs]. split; [done|]. simpl in *.
    intros Ho. unfold instr_at in Hi. rewrite get_eq in Hi. specialize (Hwf _ _ Hi).
    unfold instr_wf in Hwf. rewrite Ho in Hwf. unfold Chunk.function. rewrite get_eq.
    apply lookup_lt_is_Some. pose proof (wrap_u_range 32 (Instruction.imm i) ltac:(lia)) as [? _]. lia. }
  do 7 (intros ?; apply bind_ok; [apply emission_succeeds; by auto with emission|intros ?]).
  intros bld7. unfold e_bind at 1. rewrite create_blocks_eq. rewrite <- Hb.
  rewrite (block_map_start (b :: region) _ _ 0 b) by done.
  apply emission_succeeds. apply emission_bind; [by auto with emission|intros _].
  apply emission_bind.
  { apply emission_blocks. right. cbn [ec_chunk]. apply Forall_forall. intros [k code] Hin.
    apply elem_of_zip_r in Hin. rewrite Forall_forall in Hem. by apply Hem. }
  intros _. apply emission_bind; [by auto with emission|intros _].
  rewrite Hm. apply emission_bind; [by auto with emission|intros _].
  apply emission_bind; [by auto with emission|intros _].
  destruct (match last_return_in_region _ _ with Some last => last | None => _ end).
  emits.
Qed.

(** Whether an instruction can be recorded at the pc of a key. *)
Definition recordable (chunk : Chunk.t) (key : TraceKey.t) : Prop :=
  is_Some (Chunk.function chunk (TraceKey.function key)) /\
  exists i, instr_at chunk (TraceKey.entry_pc key) = Some i /\ stops_recording chunk i = false.

(** What the trace compiler refuses.  On a chunk that passed the verifier, of fewer
    than 2^32 instructions, lowering a trace never panics, and it fails in two cases only,
    with [EmptyTrace]: the function of the key is not in the table, or the instruction at
    its pc is missing, is one of the scheduler's, or loads a constant that is neither an
    integer nor a boolean.  In every other case it hands Cranelift a function. *)
Lemma lower_complete checks chunk key :
  verify chunk = Ok tt -> Z.of_nat (length (Chunk.code chunk)) < 2 ^ 32 ->
  Forall (fun def => 0 <= FunctionDef.entry def) (Chunk.functions chunk) ->
  0 <= TraceKey.entry_pc key ->
  exists r, lower_trace checks chunk key = Some r /\
  match r with
  | Ok _ => recordable chunk key
  | Err e => ~ recordable chunk key /\ e = EmptyTrace (TraceKey.function key) (TraceKey.entry_pc key)
  end.
Proof.
  intros Hv Hlen Hentry H0. unfold recordable. apply verify_with_Ok in Hv as [Hwf _].
  unfold lower_trace.
  destruct (Chunk.function chunk (TraceKey.function key)) as [def|] eqn:Hdef.
  2: { eexists; split; [done|]. split; [|done]. intros [[? Hd] _]. congruence. }
  unfold collect_trace_region, collect_fuel.
  replace (2 * MAX_TRACE_LENGTH + 2)%nat with (S (2 * MAX_TRACE_LENGTH + 1)) by lia.
  destruct (collect_first checks chunk Hlen Hentry (2 * MAX_TRACE_LENGTH + 1)
    (TraceKey.entry_pc key)) as (region & -> & [Hrec Hnd] & _ & Hfirst); [lia|done|].
  destruct (instr_at chunk (TraceKey.entry_pc key)) as [i|] eqn:Hi.
  2: { subst region. eexists; split; [done|]. split; [|done]. intros [_ (i & Hd & _)]. congruence. }
  destruct (stops_recording chunk i) eqn:Hs.
  { subst region. eexists; split; [done|]. split; [|done]. intros [_ (i' & Hd & Hs')]. congruence. }
  destruct Hfirst as (b & later & -> & Hb).
  destruct (region_code chunk _ Hrec) as (codes & -> & _ & Hcodes).
  assert (Hmax : exists m, region_max_pc (b :: later) key = Ok m).
  { apply Forall_cons in Hrec as [Hrb _]. unfold region_max_pc. simpl.
    inversion Hrb as [pc j Hj _ Hp|pc j ps Hj _ _ _ Hp]; simpl; eauto. }
  destruct Hmax as [m Hm]. rewrite Hm.
  destruct (emit_trace_succeeds chunk key def b later codes new_function Hwf Hnd Hb Hcodes
    (ex_intro _ m Hm)) as (u & bld & ->).
  eexists; split; [done|]. split; [by eauto|by eauto].
Qed.

Lemma lower_complete_witness :
  verify loop_chunk = Ok tt /\
  (exists F, lower_trace true loop_chunk (TraceKey.mk 0 2) = Some (Ok F)) /\
  lower_trace true loop_chunk (TraceKey.mk 1 2) = Some (Err (EmptyTrace 1 2)).
Proof.
  assert (Hall : forall key, 0 <= TraceKey.entry_pc key -> _) by exact (fun key =>
    lower_complete true loop_chunk key eq_refl eq_refl ltac:(by repeat constructor)).
  split; [by vm_compute|]. split.
  - destruct (Hall (TraceKey.mk 0 2) ltac:(done)) as ([F|e] & -> & Hl); [by eauto|].
    destruct Hl as [Hr _]. destruct Hr. split; [by eexists|].
    exists (Instruction.abc Opcode.Lt 2 0 1). split; reflexivity.
  - destruct (Hall (TraceKey.mk 1 2) ltac:(done)) as ([F|e] & -> & Hl); [|by destruct Hl as [_ ->]].
    destruct Hl as [[? Hf] _]. discriminate Hf.
Defined.
