(* ===== verification/JitExec.v ===== *)
(** Executing emitted code: the effect, inside any function that contains it, of the code an
    emission appends, by composition along the emission's binds. *)

From S2P Require Import Prelude Capability F64 Values Isa Verify Sync JitTrace JitClif.
From S2P Require Import JitCompiler JitTheory JitLower.

(** Environments that agree on the values below [n]. *)
Definition agree (n : nat) (e e' : env) : Prop := forall v, (v < n)%nat -> e !! v = e' !! v.

Lemma agree_refl n e : agree n e e.
Proof. by intros v. Qed.
Lemma agree_trans n n' e e1 e2 :
  (n <= n')%nat -> agree n e e1 -> agree n' e1 e2 -> agree n e e2.
Proof. intros Hn H1 H2 v Hv. rewrite H1 by done. apply H2. lia. Qed.
Lemma agree_insert n e v c : (n <= v)%nat -> agree n e (<[v := c]> e).
Proof. intros Hn v' Hv'. rewrite lookup_insert_ne by lia. done. Qed.
Lemma agree_lookup n e e' v c : agree n e e' -> (v < n)%nat -> e !! v = Some c -> e' !! v = Some c.
Proof. intros Ha Hv He. by rewrite <- Ha. Qed.

(** How the execution of an emission can end: past its last instruction, with its answer
    and the number of values made so far; at the start of a block; or out of the
    function. *)
Inductive outcome (A : Type) :=
| Falls (a : A) (n : nat) (e : env) (m : memory)
| Jumps (k : block) (e : env) (m : memory)
| Returns (m : memory).
Arguments Falls {A} _ _ _ _.
Arguments Jumps {A} _ _ _.
Arguments Returns {A} _.

(** The point after the last instruction of the current block. *)
Definition here (b : builder) (e : env) (m : memory) : point :=
  mk_point (cur b) (length (default [] (blocks b !! cur b))) e m.

Definition live (b : builder) : Prop := is_Some (blocks b !! cur b).

Section exec.
Context (F : list (list inst)).

Definition ends {A} (b b' : builder) (a : A) (e : env) (p : point) (o : outcome A) : Prop :=
  match o with
  | Falls a' n e' m =>
    a' = a /\ n = next_value b' /\ live b' /\ agree (next_value b) e e' /\ rtc (goes F) p (here b' e' m)
  | Jumps k e' m => agree (next_value b) e e' /\ rtc (goes F) p (mk_point k 0 e' m)
  | Returns m => exists p', rtc (goes F) p p' /\ step F p' = Returned m
  end.

(** Running what [mm] appends to [b], when [F] is the function it ends up in, has an outcome
    in [Q]. *)
Definition wp {A} (mm : E A) (b : builder) (e : env) (m : memory) (Q : outcome A -> Prop) : Prop :=
  forall a b', live b -> mm b = Ok (a, b') -> within b' F ->
  exists o, Q o /\ ends b b' a e (here b e m) o.

(** What [Q] asks once the first part of a bind is done. *)
Definition after {A B} (b : builder) (k : A -> E B) (Q : outcome B -> Prop) (o : outcome A) : Prop :=
  match o with
  | Falls a n' e m =>
    forall b', n' = next_value b' -> grows b b' -> live b' -> wp (k a) b' e m Q
  | Jumps l e m => Q (Jumps l e m)
  | Returns m => Q (Returns m)
  end.

Lemma wp_bind {A B} f (mm : E A) (k : A -> E B) b e m Q :
  emission f mm -> (forall a, emission true (k a)) ->
  wp mm b e m (after b k Q) -> wp (e_bind mm k) b e m Q.
Proof.
  intros Hm Hk Hw c b2 Hl E2 HF. unfold e_bind in E2.
  destruct (mm b) as [[a b1]|] eqn:E1; [|done].
  pose proof (emission_grows f mm b a b1 Hm E1) as Hg. pose proof (gr_value _ _ Hg) as Hn.
  pose proof (emission_grows true (k a) b1 c b2 (Hk a) E2) as [Hw2 Hn2].
  destruct (Hw a b1 Hl E1 (within_trans _ _ _ Hw2 HF)) as (o & Ho & He).
  destruct o as [a' n1 e1 m1|l e1 m1|m1]; simpl in *.
  - destruct He as (-> & -> & Hl1 & Ha & Hr).
    destruct (Ho b1 eq_refl Hg Hl1 c b2 Hl1 E2 HF) as (o2 & Ho2 & He2). exists o2. split; [done|].
    destruct o2 as [c' n2 e2 m2|l e2 m2|m2]; simpl in *.
    + destruct He2 as (-> & -> & Hl2 & Ha2 & Hr2).
      split_and!; [done|done|done|by eapply agree_trans|by etrans].
    + destruct He2 as [Ha2 Hr2]. split; [by eapply agree_trans|by etrans].
    + destruct He2 as (p' & Hr2 & Hs). exists p'. split; [by etrans|done].
  - exists (Jumps l e1 m1). by split.
  - exists (Returns m1). by split.
Qed.

Lemma wp_ret {A} (a : A) b e m (Q : outcome A -> Prop) : Q (Falls a (next_value b) e m) -> wp (e_ret a) b e m Q.
Proof.
  intros HQ a' b' Hl [= <- <-] _. eexists. split; [exact HQ|]. simpl.
  split_and!; [done|done|done|apply agree_refl|reflexivity].
Qed.

Lemma wp_mono {A} (mm : E A) b e m (P Q : outcome A -> Prop) :
  (forall o, P o -> Q o) -> wp mm b e m P -> wp mm b e m Q.
Proof.
  intros HPQ Hw a b' Hl E1 HF. destruct (Hw a b' Hl E1 HF) as (o & Ho & He).
  exists o. split; [by apply HPQ|done].
Qed.

(** ** Single instructions *)

Lemma append_lookup (l : list (list inst)) k code i :
  l !! k = Some code -> alter (fun c => c ++ [i]) k l !! k = Some (code ++ [i]).
Proof. intros Hk. by rewrite list_lookup_alter_eq, Hk. Qed.

(** The instruction that has just been appended is the one that runs next. *)
Lemma fetch_appended b n i e m :
  live b -> within (mk_builder (alter (fun c => c ++ [i]) (cur b) (blocks b)) (cur b) n) F ->
  fetch F (here b e m) = Some i.
Proof.
  intros [code Hc] HF. unfold fetch, here. rewrite Hc. simpl.
  destruct (HF (cur b) (code ++ [i])) as [t Ht]; [by apply append_lookup|].
  rewrite Ht. simpl. rewrite <- app_assoc. apply list_lookup_middle. done.
Qed.

Lemma here_appended b n i e m e' m' :
  live b ->
  here (mk_builder (alter (fun c => c ++ [i]) (cur b) (blocks b)) (cur b) n) e' m' =
  mk_point (cur b) (S (pt_index (here b e m))) e' m' /\
  live (mk_builder (alter (fun c => c ++ [i]) (cur b) (blocks b)) (cur b) n).
Proof.
  intros [code Hc]. unfold here, live. simpl. rewrite (append_lookup _ _ _ _ Hc), Hc. simpl.
  rewrite length_app. simpl. split; [|by eexists]. by rewrite Nat.add_1_r.
Qed.

(** An instruction that defines its value. *)
Lemma wp_ins_val i b e m c (Q : outcome value -> Prop) :
  (forall p, fetch F p = Some (i (next_value b)) -> pt_env p = e -> pt_mem p = m ->
     step F p = define_value p (next_value b) (Some c)) ->
  Q (Falls (next_value b) (S (next_value b)) (<[next_value b := c]> e) m) ->
  wp (ins_val i) b e m Q.
Proof.
  intros Hstep HQ a b' Hl [= <- <-] HF. eexists. split; [exact HQ|]. simpl.
  destruct (here_appended b (S (next_value b)) (i (next_value b)) e m
    (<[next_value b := c]> e) m Hl) as [Hh Hl'].
  split_and!; [done|done|done|by apply agree_insert|].
  apply rtc_once. rewrite Hh. unfold goes.
  rewrite (Hstep (here b e m) (fetch_appended b _ _ e m Hl HF) eq_refl eq_refl). done.
Qed.

Lemma native_step_at p i : fetch F p = Some i -> step F p =
  match i with
  | iconst v t n => define_value p v (Some (int t n))
  | load v t addr => define_value p v (a ← pt_env p !! addr; mem_load (pt_mem p) t a)
  | store x addr =>
    match (c ← pt_env p !! x; a ← pt_env p !! addr; mem_store (pt_mem p) a c) with
    | Some m => Running (mk_point (pt_block p) (S (pt_index p)) (pt_env p) m)
    | None => Stuck
    end
  | binary v op a b => define_value p v (x ← pt_env p !! a; y ← pt_env p !! b; eval_binary op x y)
  | icmp v cc a b =>
    define_value p v
      (match pt_env p !! a, pt_env p !! b with
       | Some (Int t x), Some (Int t' y) =>
         if decide (t = t') then Some (Int I8 (Z.b2z (eval_cc cc x y))) else None
       | _, _ => None
       end)
  | select v c a b =>
    define_value p v
      (x ← pt_env p !! c; t ← truth x; if (t : bool) then pt_env p !! a else pt_env p !! b)
  | uextend v t a =>
    define_value p v
      (match pt_env p !! a with
       | Some (Int t' z) => Some (int t (wrap_u (bits t') z))
       | _ => None
       end)
  | brif c b1 b2 =>
    match pt_env p !! c ≫= truth with
    | Some true => goto b1 (pt_env p) (pt_mem p)
    | Some false => goto b2 (pt_env p) (pt_mem p)
    | None => Stuck
    end
  | jump b => goto b (pt_env p) (pt_mem p)
  | return_ => Returned (pt_mem p)
  end.
Proof. unfold step. by intros ->. Qed.

(** One rule per instruction. *)
Ltac ins_val_rule :=
  intros; eapply wp_ins_val; [|eassumption]; intros p Hp <- <-; rewrite (native_step_at p _ Hp);
  repeat match goal with H : ?x = Some _ |- context [?x] => rewrite H; simpl end.

Lemma wp_iconst t n b e m Q :
  Q (Falls (next_value b) (S (next_value b)) (<[next_value b := int t n]> e) m) ->
  wp (ins_val (fun v => iconst v t n)) b e m Q.
Proof. ins_val_rule. done. Qed.

Lemma wp_load t addr a c b e m Q :
  e !! addr = Some a -> mem_load m t a = Some c ->
  Q (Falls (next_value b) (S (next_value b)) (<[next_value b := c]> e) m) ->
  wp (ins_val (fun v => load v t addr)) b e m Q.
Proof. ins_val_rule. done. Qed.

Lemma wp_binary op x y cx cy c b e m Q :
  e !! x = Some cx -> e !! y = Some cy -> eval_binary op cx cy = Some c ->
  Q (Falls (next_value b) (S (next_value b)) (<[next_value b := c]> e) m) ->
  wp (ins_val (fun v => binary v op x y)) b e m Q.
Proof. ins_val_rule. done. Qed.

Lemma wp_icmp cc x y t zx zy b e m Q :
  e !! x = Some (Int t zx) -> e !! y = Some (Int t zy) ->
  Q (Falls (next_value b) (S (next_value b))
      (<[next_value b := Int I8 (Z.b2z (eval_cc cc zx zy))]> e) m) ->
  wp (ins_val (fun v => icmp v cc x y)) b e m Q.
Proof. ins_val_rule. by rewrite decide_True. Qed.

Lemma wp_select c x y cx cy t b e m Q :
  e !! c = Some (Int I8 (Z.b2z t)) -> e !! x = Some cx -> e !! y = Some cy ->
  Q (Falls (next_value b) (S (next_value b))
      (<[next_value b := if t then cx else cy]> e) m) ->
  wp (ins_val (fun v => select v c x y)) b e m Q.
Proof. ins_val_rule. by destruct t; simpl; simplify_option_eq. Qed.

Lemma wp_store x addr c a m' b e m Q :
  e !! x = Some c -> e !! addr = Some a -> mem_store m a c = Some m' ->
  Q (Falls tt (next_value b) e m') -> wp (ins (store x addr)) b e m Q.
Proof.
  intros Hx Ha Hm HQ u b' Hl [= <- <-] HF. eexists. split; [exact HQ|]. simpl.
  destruct (here_appended b (next_value b) (store x addr) e m e m' Hl) as [Hh Hl'].
  split_and!; [done|done|done|apply agree_refl|]. apply rtc_once. rewrite Hh. unfold goes.
  rewrite (native_step_at _ _ (fetch_appended b _ _ e m Hl HF)). simpl. by rewrite Hx, Ha; simpl; rewrite Hm.
Qed.

Lemma wp_jump k b e m (Q : outcome unit -> Prop) : Q (Jumps k e m) -> wp (ins (jump k)) b e m Q.
Proof.
  intros HQ u b' Hl [= <- <-] HF. eexists. split; [exact HQ|]. simpl.
  split; [apply agree_refl|]. apply rtc_once. unfold goes.
  by rewrite (native_step_at _ _ (fetch_appended b _ _ e m Hl HF)).
Qed.

Lemma wp_return b e m (Q : outcome unit -> Prop) : Q (Returns m) -> wp (ins return_) b e m Q.
Proof.
  intros HQ u b' Hl [= <- <-] HF. eexists. split; [exact HQ|]. simpl.
  exists (here b e m). split; [done|].
  by rewrite (native_step_at _ _ (fetch_appended b _ _ e m Hl HF)).
Qed.

(** Making a block takes no step. *)
Lemma wp_create {A} (K : block -> E A) b e m Q :
  wp (K (length (blocks b))) (mk_builder (blocks b ++ [[]]) (cur b) (next_value b)) e m Q ->
  wp (e_bind create_block K) b e m Q.
Proof.
  intros Hw a b' [code Hc] E1 HF. unfold e_bind, create_block in E1.
  assert (Hc' : (blocks b ++ [[]]) !! cur b = Some code)
    by (rewrite lookup_app_l; [done|by eapply lookup_lt_Some]).
  destruct (Hw a b' (ex_intro _ code Hc') E1 HF) as (o & Ho & He). exists o. split; [done|].
  assert (Hh : here (mk_builder (blocks b ++ [[]]) (cur b) (next_value b)) e m = here b e m)
    by (unfold here; simpl; by rewrite Hc, Hc').
  by rewrite Hh in He.
Qed.

(** ** Branches to blocks that are filled next *)

Definition fresh_block (b : builder) (k : block) : Prop := blocks b !! k = Some [].

(** The builder once a branch is emitted and the next block begun. *)
Definition switched (b b' : builder) (k : block) : Prop :=
  next_value b' = next_value b /\ cur b' = k /\
  forall k', k' <> cur b -> blocks b' !! k' = blocks b !! k'.

Lemma switched_here b b' k e m : switched b b' k -> k <> cur b -> fresh_block b k ->
  live b' /\ here b' e m = mk_point k 0 e m.
Proof.
  intros (_ & Hc & Hb) Hne Hf. unfold live, here. rewrite Hc, (Hb k Hne), Hf. split; [by eexists|done].
Qed.

Definition branch_builder (b : builder) (c ka kb ks : value) : builder :=
  mk_builder (alter (fun code => code ++ [brif c ka kb]) (cur b) (blocks b)) ks (next_value b).

Lemma branch_switched b c ka kb ks : switched b (branch_builder b c ka kb ks) ks.
Proof. split_and!; [done..|]. intros k' Hne. simpl. by rewrite list_lookup_alter_ne. Qed.

(** One step from the branch to the block it chooses. *)
Lemma branch_step b c ka kb t e m n :
  live b -> e !! c = Some (Int I8 (Z.b2z t)) ->
  within (mk_builder (alter (fun code => code ++ [brif c ka kb]) (cur b) (blocks b)) (cur b) n) F ->
  goes F (here b e m) (mk_point (if t then ka else kb) 0 e m).
Proof.
  intros Hl Hc HF. unfold goes. rewrite (native_step_at _ _ (fetch_appended b _ _ e m Hl HF)).
  cbn [pt_env here]. rewrite Hc. by destruct t.
Qed.

(** A branch one of whose targets is filled next, the other being elsewhere. *)
Lemma wp_branch {A} (X : E A) b c ka kb ks t e m (Q : outcome A -> Prop) :
  e !! c = Some (Int I8 (Z.b2z t)) -> ks <> cur b -> fresh_block b ks -> emission true X ->
  (if decide ((if t then ka else kb) = ks)
   then forall b', switched b b' ks -> wp X b' e m Q
   else Q (Jumps (if t then ka else kb) e m)) ->
  wp (let^ _ := ins (brif c ka kb) in let^ _ := switch_to_block ks in X) b e m Q.
Proof.
  intros Hc Hne Hf HX Hcase a b' Hl E1 HF. unfold e_bind, ins, switch_to_block in E1.
  pose proof (emission_grows true X _ a b' HX E1) as [Hw _].
  pose proof (branch_step b c ka kb t e m (next_value b) Hl Hc (within_trans _ _ _ Hw HF)) as Hstep.
  set (b1 := branch_builder b c ka kb ks).
  destruct (decide ((if t then ka else kb) = ks)) as [Ht|Ht].
  - destruct (switched_here b b1 ks e m (branch_switched b c ka kb ks) Hne Hf) as [Hl1 Hh].
    destruct (Hcase b1 (branch_switched b c ka kb ks) a b' Hl1 E1 HF) as (o & Ho & He).
    rewrite Hh in He. rewrite Ht in Hstep. exists o. split; [done|].
    destruct o as [a' n e' m'|l e' m'|m']; simpl in *.
    + destruct He as (-> & -> & Hl2 & Ha & Hr). split_and!; try done. by eapply rtc_l.
    + destruct He as [Ha Hr]. split; [done|by eapply rtc_l].
    + destruct He as (p' & Hr & Hs). exists p'. split; [by eapply rtc_l|done].
  - eexists. split; [exact Hcase|]. simpl. split; [apply agree_refl|by apply rtc_once].
Qed.

(** A branch between blocks that are elsewhere. *)
Lemma wp_brif b c ka kb t e m (Q : outcome unit -> Prop) :
  e !! c = Some (Int I8 (Z.b2z t)) -> Q (Jumps (if t then ka else kb) e m) ->
  wp (ins (brif c ka kb)) b e m Q.
Proof.
  intros Hc HQ a b' Hl [= <- <-] HF. eexists. split; [exact HQ|]. simpl.
  split; [apply agree_refl|]. apply rtc_once. by eapply branch_step.
Qed.

(** Code that appends to the current block only. *)
Inductive straight : forall {A}, E A -> Prop :=
| straight_ret {A} (a : A) : straight (e_ret a)
| straight_ins i : straight (ins i)
| straight_ins_val i : straight (ins_val i)
| straight_bind {A B} (mm : E A) (k : A -> E B) :
    straight mm -> (forall a, straight (k a)) -> straight (e_bind mm k).

Lemma straight_blocks {A} (mm : E A) b a b' :
  straight mm -> mm b = Ok (a, b') ->
  cur b' = cur b /\ forall k, k <> cur b -> blocks b' !! k = blocks b !! k.
Proof.
  intros Hm. revert b a b'. induction Hm as [A x|i|i|A B mm k _ IHm _ IHk]; intros b a b'.
  - by intros [= _ <-].
  - intros [= _ <-]. split; [done|]. intros k Hk. simpl. by rewrite list_lookup_alter_ne.
  - intros [= _ <-]. split; [done|]. intros k Hk. simpl. by rewrite list_lookup_alter_ne.
  - unfold e_bind. destruct (mm b) as [[x b1]|] eqn:E1; [|done]. intros E2.
    destruct (IHm b x b1 E1) as [Hc1 Hb1]. destruct (IHk x b1 a b' E2) as [Hc2 Hb2].
    split; [congruence|]. intros k' Hk'. rewrite Hb2, Hb1; [done..|congruence].
Qed.

(** A branch to a block that leaves the function and, after it, to one that goes on. *)
Lemma wp_exit_or_go {A} (X : E unit) (Y : E A) b c kx ky t e m (Q : outcome A -> Prop) :
  e !! c = Some (Int I8 (Z.b2z t)) -> kx <> cur b -> ky <> cur b -> kx <> ky ->
  fresh_block b kx -> fresh_block b ky -> straight X -> emission true X -> emission true Y ->
  (if t then forall b', switched b b' kx ->
       wp X b' e m (fun o => match o with Returns m => Q (Returns m) | _ => False end)
   else forall b', cur b' = ky -> (next_value b <= next_value b')%nat -> wp Y b' e m Q) ->
  wp (let^ _ := ins (brif c kx ky) in let^ _ := switch_to_block kx in let^ _ := X in
      let^ _ := switch_to_block ky in Y) b e m Q.
Proof.
  intros Hc Hx Hy Hxy Hfx Hfy HsX HeX HeY Hcase a b' Hl E1 HF.
  unfold e_bind, ins, switch_to_block in E1. set (b1 := branch_builder b c kx ky kx) in *.
  change (mk_builder _ kx _) with b1 in E1.
  destruct (X b1) as [[u b2]|] eqn:EX; [|done].
  pose proof (emission_grows true X b1 u b2 HeX EX) as [Hw1 Hn1].
  pose proof (emission_grows true Y _ a b' HeY E1) as [Hw2 Hn2].
  destruct (straight_blocks X b1 u b2 HsX EX) as [Hcur2 Hb2]. simpl in Hcur2, Hb2.
  assert (HF2 : within b2 F) by (eapply within_trans; [|exact HF]; exact Hw2).
  pose proof (branch_step b c kx ky t e m (next_value b) Hl Hc (within_trans b1 _ _ Hw1 HF2)) as Hstep.
  destruct t.
  - destruct (switched_here b b1 kx e m (branch_switched b c kx ky kx) Hx Hfx) as [Hl1 Hh].
    destruct (Hcase b1 (branch_switched b c kx ky kx) u b2 Hl1 EX HF2) as (o & Ho & He).
    destruct o as [| |m']; try done. eexists. split; [exact Ho|]. simpl in *.
    destruct He as (p' & Hr & Hs). rewrite Hh in Hr. exists p'. split; [by eapply rtc_l|done].
  - set (b3 := mk_builder (blocks b2) ky (next_value b2)).
    assert (Hy3 : blocks b3 !! ky = Some []).
    { simpl. rewrite Hb2 by done. by rewrite list_lookup_alter_ne. }
    assert (Hh : here b3 e m = mk_point ky 0 e m) by (unfold here; simpl; simpl in Hy3; by rewrite Hy3).
    destruct (Hcase b3 eq_refl Hn1 a b' (ex_intro _ _ Hy3) E1 HF) as (o & Ho & He).
    rewrite Hh in He. exists o. split; [done|].
    destruct o as [a' n e' m'|l e' m'|m']; simpl in *.
    + destruct He as (-> & -> & Hl2 & Ha & Hr). split_and!; try done; [|by eapply rtc_l].
      intros v Hv. apply Ha. simpl in Hn1. lia.
    + destruct He as [Ha Hr]. split; [|by eapply rtc_l]. intros v Hv. apply Ha. simpl in Hn1. lia.
    + destruct He as (p' & Hr & Hs). exists p'. split; [by eapply rtc_l|done].
Qed.

End exec.
