(* ===== verification/JitSim.v ===== *)
(** What the code of a trace does to the slots, the budget and the exit fields of its
    frame: the emitted instructions refine a machine on the list of 64-bit registers. *)

From S2P Require Import Prelude Capability F64 Values Isa Verify Sync JitTrace JitClif.
From S2P Require Import JitCompiler JitTheory JitLower JitExec.

(** ** The machine *)

(** The integer operations as the emitted instructions do them; [None] traps the host. *)
Definition native_op (op : Opcode.t) (x y : Z) : option Z :=
  match op with
  | Opcode.Add => Some (wrap_i 64 (x + y))
  | Opcode.Sub => Some (wrap_i 64 (x - y))
  | Opcode.Mul => Some (wrap_i 64 (x * y))
  | Opcode.Div =>
    if (y =? 0) || ((y =? -1) && (x =? - 2 ^ 63)) then None else Some (wrap_i 64 (Z.quot x y))
  | Opcode.Mod => if y =? 0 then None else Some (wrap_i 64 (Z.rem x y))
  | Opcode.Eq => Some (Z.b2z (x =? y))
  | Opcode.Lt => Some (Z.b2z (x <? y))
  | Opcode.Le => Some (Z.b2z (x <=? y))
  | _ => None
  end.

(** A register instruction other than a division; a register outside the map is not
    written. *)
Definition native_data (ch : Chunk.t) (i : Instruction.t) (σ : list Z) : option (list Z) :=
  let set := fun z => <[Z.to_nat (Instruction.a i) := z]> σ in
  match Instruction.op i with
  | Opcode.Nop => Some σ
  | Opcode.LoadImm => Some (set (wrap_i 64 (Instruction.imm i)))
  | Opcode.LoadConst =>
    match Chunk.constant ch (wrap_u 32 (Instruction.imm i)) with
    | Some (Value.Int z) => Some (set (wrap_i 64 z))
    | Some (Value.Bool b) => Some (set (Z.b2z b))
    | _ => None
    end
  | Opcode.Move => set <$> get σ (Instruction.b i)
  | Opcode.Neg => x ← get σ (Instruction.b i); Some (set (wrap_i 64 (0 - x)))
  | Opcode.Add | Opcode.Sub | Opcode.Mul | Opcode.Eq | Opcode.Lt | Opcode.Le =>
    x ← get σ (Instruction.b i); y ← get σ (Instruction.c i);
    set <$> native_op (Instruction.op i) x y
  | _ => None
  end.

(** How a block ends: out of budget at a pc, with the registers when no instruction of the
    block has run; at another pc; at a return; at a division by zero; or outside what the
    machine describes. *)
Inductive block_end :=
| NBudget (pc : Z) (σ : option (list Z))
| NGoto (pc : Z) (σ : list Z) (budget : Z)
| NReturn (reg z : Z)
| NTrap
| NStuck.

(** The successor a branch takes; a branch with no successor in the region always takes
    the falsy one. *)
Definition branch_goto (m : gmap Z block) (pc imm cond : Z) : Z :=
  let fall := pc + 1 in
  let falsy := branch_target pc imm in
  match m !! (fall : Z), m !! (falsy : Z) with
  | None, None => falsy
  | _, _ => if cond =? 0 then falsy else fall
  end.

Section machine.
Context (ch : Chunk.t) (m : gmap Z block).

Fixpoint native_block (first : bool) (code : list (Z * Instruction.t)) (σ : list Z) (β : Z)
  : block_end :=
  match code with
  | [] => NStuck
  | (pc, i) :: code =>
    if β =? 0 then NBudget pc (if first then Some σ else None)
    else match Instruction.op i with
    | Opcode.Jump => NGoto (jump_target pc (Instruction.imm i)) σ (β - 1)
    | Opcode.Branch =>
      match get σ (Instruction.a i) with
      | Some c => NGoto (branch_goto m pc (Instruction.imm i) c) σ (β - 1)
      | None => NStuck
      end
    | Opcode.Return =>
      match get σ (Instruction.a i) with
      | Some z => NReturn (Instruction.a i) z
      | None => NStuck
      end
    | Opcode.Div | Opcode.Mod =>
      match get σ (Instruction.b i), get σ (Instruction.c i) with
      | Some x, Some y =>
        if y =? 0 then NTrap
        else match native_op (Instruction.op i) x y with
        | Some z => native_block false code (<[Z.to_nat (Instruction.a i) := z]> σ) (β - 1)
        | None => NStuck
        end
      | _, _ => NStuck
      end
    | _ =>
      match native_data ch i σ with
      | Some σ => native_block false code σ (β - 1)
      | None => NStuck
      end
    end
  end.

End machine.

(** ** Memory *)

(** The exit fields written by [write_exit]. *)
Definition exit_fields (kind pc reg : Z) (m : memory) : memory :=
  <[(Frame, OFF_RETURN_REG) := int I32 reg]>
    (<[(Frame, OFF_PC) := int I32 pc]> (<[(Frame, OFF_EXIT_KIND) := int I32 kind]> m)).

(** A frame with its budget and its slots. *)
Record mem_ok (m : memory) (β : Z) (slots : list Z) : Prop := {
  mo_budget : m !! (Frame, OFF_BUDGET) = Some (int I32 β);
  mo_fields : forall ofs, ofs = OFF_EXIT_KIND \/ ofs = OFF_PC \/ ofs = OFF_RETURN_REG ->
    exists z, m !! (Frame, ofs) = Some (Int I32 z);
  mo_slots : forall r z, slots !! r = Some z -> m !! (Slots, Z.of_nat r * 8) = Some (Int I64 z) }.

Lemma mem_ok_field m β slots ofs x :
  ofs = OFF_EXIT_KIND \/ ofs = OFF_PC \/ ofs = OFF_RETURN_REG -> mem_ok m β slots ->
  mem_ok (<[(Frame, ofs) := int I32 x]> m) β slots.
Proof.
  intros Ho [Hb Hf Hs]. constructor.
  - rewrite lookup_insert_ne; [done|]. intros [= ->].
    by destruct Ho as [Ho|[Ho|Ho]].
  - intros o Ho'. destruct (decide (o = ofs)) as [->|Hne].
    + rewrite lookup_insert_eq. by eexists.
    + rewrite lookup_insert_ne by congruence. by apply Hf.
  - intros r z Hr. rewrite lookup_insert_ne by done. by apply Hs.
Qed.

Lemma mem_ok_exit m β slots kind pc reg :
  mem_ok m β slots -> mem_ok (exit_fields kind pc reg m) β slots.
Proof. intros Hm. unfold exit_fields. repeat apply mem_ok_field; auto. Qed.

Lemma mem_ok_budget m β β' slots :
  mem_ok m β slots -> mem_ok (<[(Frame, OFF_BUDGET) := int I32 β']> m) β' slots.
Proof.
  intros [Hb Hf Hs]. constructor.
  - by rewrite lookup_insert_eq.
  - intros o Ho. rewrite lookup_insert_ne; [by apply Hf|]. intros [= <-].
    by destruct Ho as [Ho|[Ho|Ho]].
  - intros r z Hr. rewrite lookup_insert_ne by done. by apply Hs.
Qed.

Lemma mem_ok_slot m β slots (r : nat) z :
  mem_ok m β slots ->
  mem_ok (<[(Slots, Z.of_nat r * 8) := Int I64 z]> m) β (<[r := z]> slots).
Proof.
  intros [Hb Hf Hs]. constructor.
  - by rewrite lookup_insert_ne.
  - intros o Ho. rewrite lookup_insert_ne by done. by apply Hf.
  - intros r' z'. rewrite list_lookup_insert_Some. intros [(<- & -> & _)|[Hne Hr]].
    + by rewrite lookup_insert_eq.
    + rewrite lookup_insert_ne; [by apply Hs|]. intros [= He]. lia.
Qed.

(** ** Emitted code *)

(** Find a value in an environment extended by later ones. *)
Ltac env_lookup :=
  match goal with |- _ !! _ = Some _ =>
    repeat first [rewrite lookup_insert_eq | rewrite lookup_insert_ne by lia];
    first [reflexivity | eassumption]
  end.

(** Extensions keep what was there. *)
Ltac agrees :=
  let v := fresh "v" in let Hv := fresh "Hv" in
  intros v Hv;
  repeat first
    [ rewrite lookup_insert_ne by lia
    | match goal with
      | Ha : agree ?n ?e ?e' |- context [?e' !! v] => rewrite <- (Ha v) by lia
      end ];
  done.

(** Run the first part of a bind, and go on in the builder after it. *)
Ltac first_part := apply (wp_bind _ true); [by emits|by emits|].
Tactic Notation "go" "on" ident(b) ident(Hn) :=
  cbn beta iota delta [after]; intros b Hn _ _.
Tactic Notation "go" "on" ident(b) ident(Hn) ident(Hg) :=
  cbn beta iota delta [after]; intros b Hn Hg _.
(** ... by the rule of one instruction. *)
Tactic Notation "emit" "by" uconstr(r) "as" ident(b) ident(Hn) :=
  first_part; eapply r; try env_lookup; go on b Hn.
Tactic Notation "emit" "by" uconstr(r) "as" ident(b) ident(Hn) ident(Hg) ident(Hl) :=
  first_part; eapply r; try env_lookup; cbn beta iota delta [after]; intros b Hn Hg Hl.

Section emit.
Context (F : list (list inst)) (sp bp : value).

(** The context's values, below [n]. *)
Record base (e : env) (n : nat) : Prop := {
  ba_frame : e !! 0%nat = Some (Ptr Frame 0);
  ba_slots : e !! sp = Some (Ptr Slots 0);
  ba_budget : e !! bp = Some (Ptr Frame OFF_BUDGET);
  ba_lt : (0 < n /\ sp < n /\ bp < n)%nat }.

Lemma base_agree e e' n n' : base e n -> agree n e e' -> (n <= n')%nat -> base e' n'.
Proof.
  intros [H0 Hs Hb Hlt] Ha Hn.
  constructor; [eapply agree_lookup; [exact Ha|lia|done]..|lia].
Qed.

Lemma wp_field_ptr p o ofs off b e m (Q : outcome value -> Prop) :
  e !! p = Some (Ptr o ofs) -> (p < next_value b)%nat ->
  (forall v n e', agree (next_value b) e e' -> (next_value b <= n)%nat -> (v < n)%nat ->
     e' !! v = Some (Ptr o (ofs + wrap_i 64 off)) -> Q (Falls v n e' m)) ->
  wp F (field_ptr p off) b e m Q.
Proof.
  intros Hp Hlt HQ. unfold field_ptr. emit by wp_iconst as b1 Hn1.
  eapply wp_binary; [env_lookup|env_lookup| |].
  - reflexivity.
  - apply HQ; [agrees|lia|lia|env_lookup].
Qed.

Lemma wp_write_u32 off x old b e m (Q : outcome unit -> Prop) :
  base e (next_value b) -> wrap_i 64 off = off -> m !! (Frame, off) = Some (Int I32 old) ->
  (forall n e', agree (next_value b) e e' -> (next_value b <= n)%nat ->
     Q (Falls tt n e' (<[(Frame, off) := int I32 x]> m))) ->
  wp F (write_u32_field 0 off x) b e m Q.
Proof.
  intros Hb Ho Hm HQ. unfold write_u32_field.
  first_part. eapply wp_field_ptr; [apply Hb|apply Hb|]. rewrite Ho, Z.add_0_l.
  intros v n e1 Ha Hn Hv He. go on b1 Hn1. subst n.
  emit by wp_iconst as b2 Hn2.
  eapply wp_store; [env_lookup|env_lookup| |].
  - simpl. by rewrite Hm.
  - apply HQ; [|lia]. agrees.
Qed.

Lemma wp_write_exit kind pc reg β slots b e m (Q : outcome unit -> Prop) :
  base e (next_value b) -> mem_ok m β slots ->
  Q (Returns (exit_fields kind pc reg m)) ->
  wp F (write_exit 0 kind pc reg) b e m Q.
Proof.
  intros Hb Hm HQ. unfold write_exit.
  destruct (mo_fields _ _ _ Hm OFF_EXIT_KIND ltac:(auto)) as [z1 Hz1].
  first_part. eapply wp_write_u32; [done|done|exact Hz1|]. intros n1 e1 Ha1 Hn1. go on b1 Hb1. subst n1.
  apply (mem_ok_field _ _ _ OFF_EXIT_KIND kind ltac:(auto)) in Hm as Hm1.
  destruct (mo_fields _ _ _ Hm1 OFF_PC ltac:(auto)) as [z2 Hz2].
  pose proof (base_agree _ _ _ _ Hb Ha1 Hn1) as Hbase1.
  first_part. eapply wp_write_u32; [done|done|exact Hz2|]. intros n2 e2 Ha2 Hn2. go on b2 Hb2. subst n2.
  apply (mem_ok_field _ _ _ OFF_PC pc ltac:(auto)) in Hm1 as Hm2.
  destruct (mo_fields _ _ _ Hm2 OFF_RETURN_REG ltac:(auto)) as [z3 Hz3].
  pose proof (base_agree _ _ _ _ Hbase1 Ha2 Hn2) as Hbase2.
  first_part. eapply wp_write_u32; [done|done|exact Hz3|]. intros n3 e3 Ha3 Hn3. go on b3 Hb3.
  by apply wp_return.
Qed.

Lemma straight_write_exit kind pc reg : straight (write_exit 0 kind pc reg).
Proof.
  unfold write_exit, write_u32_field, field_ptr.
  repeat (apply straight_bind; [|intros]); repeat constructor.
Qed.

(** A budget is a word: it is exhausted at zero. *)
Lemma budget_zero β : in_u 32 β -> (wrap_i 32 β =? wrap_i 32 0) = (β =? 0).
Proof.
  intros Hβ. unfold wrap_i, in_u in *. simpl in *.
  destruct (Z.eqb_spec β 0) as [->|Hne]; [done|]. apply Z.eqb_neq. intros He. apply Hne.
  Z.to_euclidean_division_equations. lia.
Qed.

Lemma budget_pred β : wrap_i 32 (wrap_i 32 β - wrap_i 32 1) = wrap_i 32 (β - 1).
Proof. unfold wrap_i. simpl. Z.to_euclidean_division_equations. lia. Qed.

Lemma wp_budget_tick pc β slots b e m (Q : outcome unit -> Prop) :
  base e (next_value b) -> mem_ok m β slots -> in_u 32 β -> live b ->
  (if β =? 0 then Q (Returns (exit_fields JIT_BUDGET pc 0 m))
   else forall n e', agree (next_value b) e e' -> (next_value b <= n)%nat ->
     Q (Falls tt n e' (<[(Frame, OFF_BUDGET) := int I32 (β - 1)]> m))) ->
  wp F (emit_budget_tick bp 0 pc) b e m Q.
Proof.
  intros Hb Hm Hβ Hl HQ. unfold emit_budget_tick. destruct (ba_lt _ _ Hb) as (H0 & Hsp & Hbp).
  first_part. eapply wp_load; [apply Hb|simpl; by rewrite (mo_budget _ _ _ Hm)|]. go on b1 Hb1.
  emit by wp_iconst as b2 Hb2.
  emit by wp_icmp as b3 Hb3 Hg3 Hl3. simpl eval_cc. rewrite (budget_zero _ Hβ).
  apply wp_create. apply wp_create. cbn [blocks cur next_value]. rewrite length_app.
  pose proof (lookup_lt_is_Some_1 _ _ Hl3) as Hcur.
  eapply wp_exit_or_go.
  - env_lookup.
  - simpl. lia.
  - simpl. lia.
  - simpl. lia.
  - unfold fresh_block. simpl. by rewrite lookup_app_r, length_app, Nat.sub_diag by (rewrite length_app; simpl; lia).
  - unfold fresh_block. simpl. rewrite lookup_app_l by (rewrite length_app; simpl; lia).
    by rewrite lookup_app_r, Nat.sub_diag by lia.
  - apply straight_write_exit.
  - auto with emission.
  - emits.
  - destruct (β =? 0).
    + intros b' (Hn' & _). apply (wp_write_exit _ _ _ β slots); [|done|done].
      simpl in Hn'. eapply base_agree; [exact Hb| |lia]. agrees.
    + simpl. intros b' Hc' Hn'.
      emit by wp_iconst as b4 Hb4.
      first_part. eapply wp_binary; [env_lookup|env_lookup|reflexivity|]. go on b5 Hb5.
      eapply wp_store; [env_lookup| | |].
      * repeat rewrite lookup_insert_ne by lia. apply Hb.
      * simpl. by rewrite (mo_budget _ _ _ Hm).
      * unfold int. simpl. rewrite (budget_pred β). apply HQ; [|lia]. agrees.
Qed.

(** *** Registers *)

(** The register file [σ] is split between values and slots. *)
Record regs_ok (RM : list (option value)) (σ slots : list Z) (e : env) (n : nat) : Prop := {
  ro_length : length RM = length σ;
  ro_slots : (length σ <= length slots)%nat;
  ro_value : forall r z, σ !! r = Some z ->
    match RM !! r with
    | Some (Some v) => (v < n)%nat /\ e !! v = Some (Int I64 z)
    | _ => slots !! r = Some z
    end }.

Lemma regs_ok_agree RM σ slots e e' n n' :
  regs_ok RM σ slots e n -> agree n e e' -> (n <= n')%nat -> regs_ok RM σ slots e' n'.
Proof.
  intros [Hl Hs Hv] Ha Hn. constructor; [done..|]. intros r z Hr. specialize (Hv r z Hr).
  destruct (RM !! r) as [[v|]|]; [|done..]. destruct Hv as [Hlt Hv].
  split; [lia|by eapply agree_lookup].
Qed.

Lemma regs_ok_new σ slots e n :
  (length σ <= length slots)%nat -> take (length σ) slots = σ ->
  regs_ok (RegisterMap.new (Z.of_nat (length σ))) σ slots e n.
Proof.
  intros Hl Ht. constructor; [by unfold RegisterMap.new; rewrite length_replicate; lia|done|].
  intros r z Hr. assert (slots !! r = Some z) as Hs.
  { rewrite <- Ht in Hr. by apply lookup_take_Some in Hr as [? _]. }
  destruct ((RegisterMap.new _ : list (option value)) !! r) as [[v|]|] eqn:E; [|done..].
  apply lookup_replicate in E as [? _]. done.
Qed.

(** Writing a register in its value. *)
Lemma regs_ok_set RM σ slots e n reg v z :
  regs_ok RM σ slots e n -> (v < n)%nat -> e !! v = Some (Int I64 z) ->
  regs_ok (RegisterMap.set RM reg v) (<[Z.to_nat reg := z]> σ) slots e n.
Proof.
  intros [Hl Hs Hv] Hlt He. unfold RegisterMap.set.
  constructor; [etrans; [apply length_insert|by rewrite length_insert]|by rewrite length_insert|].
  intros r z'. rewrite list_lookup_insert_Some. intros [(<- & -> & Hr)|[Hne Hr]].
  - rewrite list_lookup_insert_eq by lia. done.
  - rewrite list_lookup_insert_ne by done. by apply Hv.
Qed.

(** ... where a register read from its slot stays the same. *)
Lemma regs_ok_cache RM σ slots e n reg v z :
  regs_ok RM σ slots e n -> σ !! Z.to_nat reg = Some z -> (v < n)%nat ->
  e !! v = Some (Int I64 z) -> regs_ok (RegisterMap.set RM reg v) σ slots e n.
Proof.
  intros Hr Hz Hlt He. rewrite <- (list_insert_id σ (Z.to_nat reg) z) by done.
  by apply regs_ok_set.
Qed.

Lemma register_map_get (RM : list (option value)) reg :
  RegisterMap.get RM reg = match RM !! Z.to_nat reg with Some o => o | None => None end.
Proof. unfold RegisterMap.get. rewrite get_eq. by destruct (RM !! Z.to_nat reg). Qed.

(** The address of a slot: registers are bytes. *)
Lemma slot_address r : 0 <= r < 2 ^ 32 -> 0 + wrap_i 64 (r * 8) = Z.of_nat (Z.to_nat r) * 8.
Proof. intros Hr. rewrite wrap_i_id by (unfold in_i; lia). lia. Qed.

Lemma wp_load_reg (RM : list (option value)) σ slots reg z β b e m (Q : outcome (value * RegisterMap.t) -> Prop) :
  base e (next_value b) -> mem_ok m β slots -> regs_ok RM σ slots e (next_value b) ->
  get σ reg = Some z -> 0 <= reg < 2 ^ 32 ->
  (forall v RM' n e', agree (next_value b) e e' -> (next_value b <= n)%nat -> (v < n)%nat ->
     e' !! v = Some (Int I64 z) -> regs_ok RM' σ slots e' n -> Q (Falls (v, RM') n e' m)) ->
  wp F (load_reg RM sp reg) b e m Q.
Proof.
  intros Hb Hm Hr Hz Hreg HQ. rewrite get_eq in Hz. unfold load_reg. rewrite register_map_get.
  pose proof (ro_value _ _ _ _ _ Hr _ _ Hz) as Hval.
  destruct (RM !! Z.to_nat reg) as [[v|]|] eqn:Ev.
  { destruct Hval as [Hlt Hv]. apply wp_ret. by apply HQ. }
  2: { apply lookup_ge_None in Ev. apply lookup_lt_Some in Hz. rewrite (ro_length _ _ _ _ _ Hr) in Ev. lia. }
  destruct (ba_lt _ _ Hb) as (H0 & Hsp & Hbp).
  emit by wp_iconst as b1 Hb1.
  first_part. eapply wp_binary; [rewrite lookup_insert_ne by lia; apply Hb|env_lookup|reflexivity|].
  go on b2 Hb2. rewrite slot_address by done.
  first_part. eapply wp_load; [env_lookup|simpl; by rewrite (mo_slots _ _ _ Hm _ _ Hval)|].
  go on b3 Hb3. apply wp_ret. apply HQ; [agrees|lia|lia|env_lookup|].
  eapply (regs_ok_cache RM σ); [|done|lia|env_lookup].
  eapply regs_ok_agree; [done|agrees|lia].
Qed.

Lemma wp_store_slot reg x z β slots b e m (Q : outcome unit -> Prop) :
  base e (next_value b) -> mem_ok m β slots -> 0 <= reg < 2 ^ 32 -> (Z.to_nat reg < length slots)%nat ->
  (x < next_value b)%nat -> e !! x = Some (Int I64 z) ->
  (forall n e' m', agree (next_value b) e e' -> (next_value b <= n)%nat ->
     mem_ok m' β (<[Z.to_nat reg := z]> slots) -> Q (Falls tt n e' m')) ->
  wp F (store_slot sp reg x) b e m Q.
Proof.
  intros Hb Hm Hreg Hlt Hx He HQ. unfold store_slot.
  destruct (ba_lt _ _ Hb) as (H0 & Hsp & Hbp).
  emit by wp_iconst as b1 Hb1.
  first_part. eapply wp_binary; [rewrite lookup_insert_ne by lia; apply Hb|env_lookup|reflexivity|].
  go on b2 Hb2. rewrite slot_address by done.
  destruct (lookup_lt_is_Some_2 _ _ Hlt) as [old Hold].
  eapply wp_store; [env_lookup|env_lookup|simpl; by rewrite (mo_slots _ _ _ Hm _ _ Hold)|].
  apply HQ; [agrees|lia|]. by apply mem_ok_slot.
Qed.

(** Slots that hold the register file. *)
Definition holds (σ slots : list Z) : Prop := take (length σ) slots = σ.

Lemma holds_lookup σ slots :
  (length σ <= length slots)%nat ->
  (forall r z, σ !! r = Some z -> slots !! r = Some z) -> holds σ slots.
Proof.
  intros Hl Hr. unfold holds. apply list_eq. intros r.
  destruct (decide (r < length σ)%nat) as [Hlt|Hge].
  - destruct (lookup_lt_is_Some_2 _ _ Hlt) as [z Hz]. rewrite Hz.
    rewrite lookup_take_lt by done. by apply Hr.
  - rewrite lookup_take_ge by lia. symmetry. apply lookup_ge_None. lia.
Qed.

Lemma holds_Some σ slots r z : holds σ slots -> σ !! r = Some z -> slots !! r = Some z.
Proof. unfold holds. intros H Hr. rewrite <- H in Hr. by apply lookup_take_Some in Hr as [? _]. Qed.

(** The slots after a flush. *)
Record flushed (RM : list (option value)) (σ slots : list Z) (β : Z) (slots' : list Z) (e : env)
    (n : nat) (m : memory) : Prop := {
  fl_mem : mem_ok m β slots';
  fl_regs : regs_ok RM σ slots' e n;
  fl_length : length slots' = length slots;
  fl_holds : holds σ slots' }.

Lemma wp_flush_from (RMs pre : list (option value)) σ slots β b e m (Q : outcome unit -> Prop) :
  base e (next_value b) -> mem_ok m β slots -> regs_ok (pre ++ RMs) σ slots e (next_value b) ->
  (length σ <= 256)%nat -> (forall r z, (r < length pre)%nat -> σ !! r = Some z -> slots !! r = Some z) ->
  (forall n e' m' slots', agree (next_value b) e e' -> (next_value b <= n)%nat ->
     flushed (pre ++ RMs) σ slots β slots' e' n m' -> Q (Falls tt n e' m')) ->
  wp F (flush_registers RMs sp (Z.of_nat (length pre))) b e m Q.
Proof.
  revert pre slots b e m. induction RMs as [|o RMs IH]; intros pre slots b e m Hb Hm Hr H256 Hpre HQ.
  { apply wp_ret. apply (HQ _ _ _ slots); [done|done|]. constructor; [done|done|done|].
    apply holds_lookup; [apply Hr|]. intros r z Hz. apply Hpre; [|done].
    apply lookup_lt_Some in Hz. rewrite <- (ro_length _ _ _ _ _ Hr), app_nil_r in Hz. done. }
  assert (Hlt : (length pre < length σ)%nat).
  { rewrite <- (ro_length _ _ _ _ _ Hr), length_app. simpl. lia. }
  destruct (lookup_lt_is_Some_2 _ _ Hlt) as [z Hz].
  pose proof (ro_value _ _ _ _ _ Hr _ _ Hz) as Hv. rewrite (list_lookup_middle pre RMs o) in Hv by done.
  assert (Hnext : Z.of_nat (length pre) + 1 = Z.of_nat (length (pre ++ [o])))
    by (rewrite length_app; simpl; lia).
  assert (Hsplit : pre ++ o :: RMs = (pre ++ [o]) ++ RMs) by by rewrite <- app_assoc.
  destruct o as [x|]; cbn [flush_registers]; rewrite Hnext.
  - destruct Hv as [Hx He]. rewrite wrap_u_id by (unfold in_u; lia).
    first_part. eapply (wp_store_slot _ _ z β slots); try done; [lia| |].
    { rewrite Nat2Z.id. pose proof (ro_slots _ _ _ _ _ Hr). lia. }
    intros n e1 m1 Ha Hn Hm1. go on b1 Hb1. subst n. rewrite Nat2Z.id in Hm1.
    apply (IH (pre ++ [Some x]) (<[length pre := z]> slots)); try done.
    + by eapply base_agree.
    + rewrite <- Hsplit. eapply regs_ok_agree; [|exact Ha|done].
      destruct Hr as [Hl Hs Hval]. constructor; [done|by rewrite length_insert|].
      intros r z' Hr'. specialize (Hval r z' Hr'). destruct (decide (r = length pre)) as [->|Hne].
      * rewrite (list_lookup_middle pre RMs) in Hval |- * by done. done.
      * rewrite list_lookup_insert_ne by done. done.
    + intros r z' Hr' Hz'. rewrite length_app in Hr'. simpl in Hr'.
      destruct (decide (r = length pre)) as [->|Hne].
      * rewrite Hz in Hz'. injection Hz' as <-. rewrite list_lookup_insert_eq; [done|].
        pose proof (ro_slots _ _ _ _ _ Hr). lia.
      * rewrite list_lookup_insert_ne by done. apply Hpre; [lia|done].
    + intros n' e' m' slots' Ha' Hn' [Hm' Hr' Hl' Hh']. apply (HQ _ _ _ slots');
        [by eapply agree_trans|lia|]. rewrite <- Hsplit in Hr'.
      constructor; [done|done|by rewrite Hl', length_insert|done].
  - apply (IH (pre ++ [None]) slots); try done.
    + by rewrite <- Hsplit.
    + intros r z' Hr' Hz'. rewrite length_app in Hr'. simpl in Hr'.
      destruct (decide (r = length pre)) as [->|Hne]; [congruence|]. apply Hpre; [lia|done].
    + by rewrite <- Hsplit.
Qed.

Lemma wp_flush RM σ slots β b e m (Q : outcome unit -> Prop) :
  base e (next_value b) -> mem_ok m β slots -> regs_ok RM σ slots e (next_value b) ->
  (length σ <= 256)%nat ->
  (forall n e' m' slots', agree (next_value b) e e' -> (next_value b <= n)%nat ->
     flushed RM σ slots β slots' e' n m' -> Q (Falls tt n e' m')) ->
  wp F (flush_registers RM sp 0) b e m Q.
Proof.
  intros Hb Hm Hr Hl HQ. apply (wp_flush_from RM [] σ slots β); try done. intros r z Hlt. simpl in Hlt. lia.
Qed.

(** *** Instructions *)

Lemma wp_bool_as_i64 c t b e m (Q : outcome value -> Prop) :
  e !! c = Some (Int I8 (Z.b2z t)) -> (c < next_value b)%nat ->
  (forall v n e', agree (next_value b) e e' -> (next_value b <= n)%nat -> (v < n)%nat ->
     e' !! v = Some (Int I64 (Z.b2z t)) -> Q (Falls v n e' m)) ->
  wp F (bool_as_i64 c) b e m Q.
Proof.
  intros Hc Hlt HQ. unfold bool_as_i64. emit by wp_iconst as b1 Hb1. emit by wp_iconst as b2 Hb2.
  eapply wp_select; [env_lookup|env_lookup|env_lookup|].
  apply HQ; [agrees|lia|lia|]. rewrite lookup_insert_eq. by destruct t.
Qed.

Lemma wp_operation op l r x y z b e m (Q : outcome value -> Prop) :
  e !! l = Some (Int I64 x) -> e !! r = Some (Int I64 y) ->
  (l < next_value b)%nat -> (r < next_value b)%nat ->
  op ∈ [Opcode.Add; Opcode.Sub; Opcode.Mul; Opcode.Eq; Opcode.Lt; Opcode.Le] ->
  native_op op x y = Some z ->
  (forall v n e', agree (next_value b) e e' -> (next_value b <= n)%nat -> (v < n)%nat ->
     e' !! v = Some (Int I64 z) -> Q (Falls v n e' m)) ->
  wp F (emit_operation op l r) b e m Q.
Proof.
  intros Hl Hr Hln Hrn Hop Hz HQ.
  assert (Hcmp : forall cc t, eval_cc cc x y = t -> z = Z.b2z t ->
    wp F (let^ cmp := ins_val (fun v => icmp v cc l r) in bool_as_i64 cmp) b e m Q).
  { intros cc t Ht ->. emit by wp_icmp as b1 Hb1. rewrite Ht.
    eapply wp_bool_as_i64; [env_lookup|lia|]. intros v n e' Ha Hn Hv He.
    apply HQ; [agrees|lia|lia|done]. }
  assert (Hbin : forall bop, eval_binary bop (Int I64 x) (Int I64 y) = Some (Int I64 z) ->
    wp F (ins_val (fun v => binary v bop l r)) b e m Q).
  { intros bop He. eapply wp_binary; [env_lookup|env_lookup|exact He|].
    apply HQ; [agrees|lia|lia|env_lookup]. }
  rewrite !elem_of_cons, elem_of_nil in Hop. destruct_or! Hop; try done; subst op;
    simpl in Hz; injection Hz as <-; unfold emit_operation;
    first [apply Hbin; reflexivity | eapply Hcmp; reflexivity].
Qed.

Context (ctx : EmitContext) (Hsp : ec_slots_ptr ctx = sp) (Hfp : ec_frame_ptr ctx = 0%nat).

(** What every point of a block maintains. *)
Record state_ok (RM : list (option value)) (σ slots : list Z) (β : Z) (e : env) (n : nat)
    (m : memory) : Prop := {
  so_base : base e n;
  so_mem : mem_ok m β slots;
  so_regs : regs_ok RM σ slots e n;
  so_length : (length σ <= 256)%nat }.

Lemma wp_register RM σ slots β reg z b e m (Q : outcome (value * RegisterMap.t) -> Prop) :
  state_ok RM σ slots β e (next_value b) m -> get σ reg = Some z -> in_u 8 reg ->
  (forall v RM' n e', agree (next_value b) e e' -> (next_value b <= n)%nat -> (v < n)%nat ->
     e' !! v = Some (Int I64 z) -> state_ok RM' σ slots β e' n m -> Q (Falls (v, RM') n e' m)) ->
  wp F (load_reg RM (ec_slots_ptr ctx) reg) b e m Q.
Proof.
  intros [Hb Hm Hr Hl] Hz Hreg HQ. rewrite Hsp.
  eapply wp_load_reg; [done..|unfold in_u in Hreg; lia|].
  intros v RM' n e' Ha Hn Hv He Hr'. apply HQ; try done. constructor; try done.
  by eapply base_agree.
Qed.

Lemma state_ok_set RM σ slots β e n m reg v z :
  state_ok RM σ slots β e n m -> (v < n)%nat -> e !! v = Some (Int I64 z) ->
  state_ok (RegisterMap.set RM reg v) (<[Z.to_nat reg := z]> σ) slots β e n m.
Proof.
  intros [Hb Hm Hr Hl] Hv He. constructor; try done; [by apply regs_ok_set|by rewrite length_insert].
Qed.

Lemma state_ok_agree RM σ slots β e n m e' n' :
  state_ok RM σ slots β e n m -> agree n e e' -> (n <= n')%nat ->
  state_ok RM σ slots β e' n' m.
Proof.
  intros [Hb Hm Hr Hl] Ha Hn. constructor; try done; [by eapply base_agree|by eapply regs_ok_agree].
Qed.

(** The answer of an instruction that writes a register and falls through. *)
Definition falls_to (σ' slots : list Z) (β : Z) (n0 : nat) (e : env) (m : memory)
  (o : outcome RegisterMap.t) : Prop :=
  exists RM n e', o = Falls RM n e' m /\ agree n0 e e' /\ (n0 <= n)%nat /\
    state_ok RM σ' slots β e' n m.

Lemma wp_set_const c z RM σ slots β reg b e m :
  state_ok RM σ slots β e (next_value b) m -> wrap_i 64 c = z ->
  wp F (let^ x := ins_val (fun v => iconst v I64 c) in e_ret (RegisterMap.set RM reg x)) b e m
    (falls_to (<[Z.to_nat reg := z]> σ) slots β (next_value b) e m).
Proof.
  intros Hs <-. emit by wp_iconst as b1 Hb1. apply wp_ret. eexists _, _, _.
  split_and!; [done|agrees|lia|]. apply state_ok_set; [|lia|env_lookup].
  eapply state_ok_agree; [done|agrees|lia].
Qed.

Lemma falls_to_intro RM σ slots β e n m reg v z n0 e0 :
  agree n0 e0 e -> (n0 <= n)%nat -> state_ok RM σ slots β e n m -> (v < n)%nat ->
  e !! v = Some (Int I64 z) ->
  falls_to (<[Z.to_nat reg := z]> σ) slots β n0 e0 m (Falls (RegisterMap.set RM reg v) n e m).
Proof.
  intros Ha Hn Hs Hv He. eexists _, _, _. split_and!; [done|done|done|by apply state_ok_set].
Qed.

Ltac register z := first_part; eapply (wp_register _ _ _ _ _ z); [eassumption|eassumption|eassumption|].

Lemma wp_data RM σ σ' slots β pc i b e m :
  state_ok RM σ slots β e (next_value b) m -> instruction_ok i ->
  native_data (ec_chunk ctx) i σ = Some σ' ->
  wp F (emit_instruction ctx RM pc i) b e m (falls_to σ' slots β (next_value b) e m).
Proof.
  intros Hs (Hra & Hrb & Hrc & _). unfold native_data, emit_instruction.
  assert (Harith : forall op, op ∈ [Opcode.Add; Opcode.Sub; Opcode.Mul; Opcode.Eq; Opcode.Lt; Opcode.Le] ->
    Instruction.op i = op ->
    (x ← get σ (Instruction.b i); y ← get σ (Instruction.c i);
     (fun z => <[Z.to_nat (Instruction.a i) := z]> σ) <$> native_op op x y) = Some σ' ->
    wp F (emit_arithmetic ctx RM i) b e m (falls_to σ' slots β (next_value b) e m)).
  { intros op Hin Ho Hd. destruct (get σ (Instruction.b i)) as [x|] eqn:Ex; [|done].
    destruct (get σ (Instruction.c i)) as [y|] eqn:Ey; [|done]. simpl in Hd.
    destruct (native_op op x y) as [z|] eqn:Ez; [|done]. injection Hd as <-.
    unfold emit_arithmetic. rewrite Ho.
    register x. intros v1 RM1 n1 e1 Ha1 Hn1 Hv1 He1 Hs1. go on b1 Hb1. subst n1.
    register y. intros v2 RM2 n2 e2 Ha2 Hn2 Hv2 He2 Hs2. go on b2 Hb2. subst n2.
    first_part. eapply (wp_operation op v1 v2 x y z); try done; [by eapply agree_lookup|lia|].
    intros v3 n3 e3 Ha3 Hn3 Hv3 He3. go on b3 Hb3. subst n3. apply wp_ret.
    apply (falls_to_intro RM2); [|lia|by eapply state_ok_agree|done|done].
    eapply agree_trans; [|exact Ha1|eapply agree_trans; [|exact Ha2|exact Ha3]; done]. done. }
  destruct (Instruction.op i) eqn:Ho; try discriminate;
    try (refine (Harith _ _ eq_refl); rewrite !elem_of_cons; by auto 8).
  - unfold emit_load_const. destruct (Chunk.constant _ _) as [[]|]; try done.
    all: intros [= <-]; eapply wp_set_const; [exact Hs|]; try done. by destruct b0.
  - destruct (get σ (Instruction.b i)) as [x|] eqn:Ex; [|done]. intros [= <-].
    register x. intros v1 RM1 n1 e1 Ha1 Hn1 Hv1 He1 Hs1. go on b1 Hb1. apply wp_ret. subst n1.
    by eapply falls_to_intro.
  - intros [= <-]. by eapply wp_set_const.
  - destruct (get σ (Instruction.b i)) as [x|] eqn:Ex; [|done]. intros [= <-].
    register x. intros v1 RM1 n1 e1 Ha1 Hn1 Hv1 He1 Hs1. go on b1 Hb1. subst n1.
    emit by wp_iconst as b2 Hb2.
    first_part. eapply wp_binary; [env_lookup|env_lookup|reflexivity|]. go on b3 Hb3. apply wp_ret.
    apply (falls_to_intro RM1); [|lia| |lia|env_lookup].
    + eapply agree_trans; [|exact Ha1|]; [done|agrees].
    + eapply state_ok_agree; [done|agrees|lia].
  - intros [= <-]. apply wp_ret. eexists _, _, _. by split_and!.
Qed.

(** *** Divisions and terminators *)

Context (nb : nat) (Htrap : (ec_trap_block ctx < nb)%nat).
Context (Hnb : forall (pc : Z) k, ec_pc_to_block ctx !! pc = Some k -> (k < nb)%nat).

Definition room (b : builder) : Prop := (nb <= length (blocks b))%nat.

Lemma room_grows b b' : room b -> grows b b' -> room b'.
Proof. unfold room. intros Hr Hg. apply grows_blocks in Hg. lia. Qed.

(** As [falls_to], where the slots may have been written. *)
Definition moves_to (σ' : list Z) (nslots : nat) (β : Z) (n0 : nat) (e : env)
  (o : outcome RegisterMap.t) : Prop :=
  exists RM n e' m slots, o = Falls RM n e' m /\ agree n0 e e' /\ (n0 <= n)%nat /\
    state_ok RM σ' slots β e' n m /\ length slots = nslots.

Lemma falls_moves σ' slots β n0 e m o : falls_to σ' slots β n0 e m o -> moves_to σ' (length slots) β n0 e o.
Proof. intros (RM & n & e' & -> & Ha & Hn & Hs). by exists RM, n, e', m, slots. Qed.

Lemma state_ok_flushed RM σ slots β e n m slots' e' n' m' :
  state_ok RM σ slots β e n m -> agree n e e' -> (n <= n')%nat ->
  flushed RM σ slots β slots' e' n' m' -> state_ok RM σ slots' β e' n' m'.
Proof.
  intros [Hb Hm Hr Hl] Ha Hn [Hm' Hr' _ _]. constructor; try done. by eapply base_agree.
Qed.

Lemma wp_flush_state RM σ slots β b e m (Q : outcome unit -> Prop) :
  state_ok RM σ slots β e (next_value b) m ->
  (forall n e' m' slots', agree (next_value b) e e' -> (next_value b <= n)%nat ->
     state_ok RM σ slots' β e' n m' -> length slots' = length slots -> holds σ slots' ->
     Q (Falls tt n e' m')) ->
  wp F (flush_registers RM (ec_slots_ptr ctx) 0) b e m Q.
Proof.
  intros Hs HQ. pose proof Hs as [Hb Hm Hr Hl]. rewrite Hsp.
  eapply wp_flush; [done..|]. intros n e' m' slots' Ha Hn Hf.
  eapply HQ; [done|done|by eapply state_ok_flushed|apply Hf|apply Hf].
Qed.

Definition traps (nslots : nat) (β : Z) {A} (o : outcome A) : Prop :=
  exists e m slots, o = Jumps (ec_trap_block ctx) e m /\ base e (S (sp + bp)) /\
    mem_ok m β slots /\ length slots = nslots.

Lemma base_least e n : base e n -> base e (S (sp + bp)).
Proof. intros []. constructor; try done. lia. Qed.

Lemma wp_division RM σ slots β pc i x y b e m :
  state_ok RM σ slots β e (next_value b) m -> instruction_ok i -> room b ->
  Instruction.op i = Opcode.Div \/ Instruction.op i = Opcode.Mod ->
  get σ (Instruction.b i) = Some x -> get σ (Instruction.c i) = Some y ->
  y = 0 \/ is_Some (native_op (Instruction.op i) x y) ->
  wp F (emit_instruction ctx RM pc i) b e m (fun o =>
    if y =? 0 then traps (length slots) β o
    else forall z, native_op (Instruction.op i) x y = Some z ->
      moves_to (<[Z.to_nat (Instruction.a i) := z]> σ) (length slots) β (next_value b) e o).
Proof.
  intros Hs (Hra & Hrb & Hrc & _) Hroom Hop Ex Ey Hz.
  replace (emit_instruction ctx RM pc i) with (emit_division ctx RM i)
    by (unfold emit_instruction; by destruct Hop as [-> | ->]).
  unfold emit_division.
  register x. intros v1 RM1 n1 e1 Ha1 Hn1 Hv1 He1 Hs1. go on b1 Hb1 Hg1. subst n1.
  register y. intros v2 RM2 n2 e2 Ha2 Hn2 Hv2 He2 Hs2. go on b2 Hb2 Hg2. subst n2.
  first_part. eapply wp_flush_state; [exact Hs2|].
  intros n3 e3 m3 slots3 Ha3 Hn3 Hs3 Hl3 _. go on b3 Hb3 Hg3. subst n3.
  assert (He1' : e3 !! v1 = Some (Int I64 x)) by (eapply agree_lookup; [exact Ha3|lia|by eapply agree_lookup]).
  assert (He2' : e3 !! v2 = Some (Int I64 y)) by by eapply agree_lookup.
  emit by wp_iconst as b4 Hb4 Hg4 Hl4. emit by wp_icmp as b5 Hb5 Hg5 Hl5. simpl eval_cc.
  change (wrap_i (bits I64) 0) with 0.
  assert (Hroom5 : room b5) by (repeat (eapply room_grows; [|eassumption]); exact Hroom).
  pose proof (lookup_lt_is_Some_1 _ _ Hl5) as Hcur.
  apply wp_create. cbn [blocks cur next_value].
  eapply (wp_branch F _ _ _ _ _ _ (y =? 0)).
  - apply lookup_insert_eq.
  - simpl. lia.
  - unfold fresh_block. simpl. by rewrite lookup_app_r, Nat.sub_diag by lia.
  - emits.
  - unfold room in Hroom5. destruct (Z.eqb_spec y 0) as [->|Hy].
    + rewrite decide_False by lia. eexists _, _, _. split_and!; [reflexivity| |apply Hs3|done].
      eapply base_least, base_agree; [apply Hs3|agrees|]. apply (Nat.le_refl (next_value b3)).
    + rewrite decide_True by done. intros b6 (Hb6 & _). simpl in Hb6.
      destruct Hz as [|[z Ez]]; [done|].
      first_part. eapply (wp_ins_val F _ _ _ _ (Int I64 z)).
      { intros p Hp He Hm. rewrite (native_step_at _ _ _ Hp), He.
        assert (Hl1 : forall c w, (w < next_value b3)%nat ->
          <[next_value b4:=c]> (<[next_value b3:=int I64 0]> e3) !! w = e3 !! w)
          by (intros c w Hw; by rewrite !lookup_insert_ne by lia).
        destruct Hop as [Ho|Ho]; rewrite Ho in Ez |- *; simpl in Ez |- *;
          rewrite !Hl1, He1', He2' by lia; simpl.
        - by destruct (_ || _); simplify_eq.
        - by destruct (y =? 0); simplify_eq. }
      go on b7 Hb7. apply wp_ret. intros z' Hz'. rewrite Ez in Hz'. injection Hz' as <-.
      eexists _, _, _, _, slots3. split_and!; [done| |lia| |done].
      * eapply agree_trans; [|exact Ha1|eapply agree_trans; [|exact Ha2|eapply agree_trans; [|exact Ha3|]]];
          [done|done|done|agrees].
      * apply state_ok_set; [|lia|env_lookup]. eapply state_ok_agree; [exact Hs3|agrees|lia].
Qed.

(** Leaving the block for [pc], with the register file in the slots. *)
Definition leaves (σ : list Z) (nslots : nat) (β pc : Z) {A} (o : outcome A) : Prop :=
  exists m slots, mem_ok m β slots /\ length slots = nslots /\ holds σ slots /\
    match ec_pc_to_block ctx !! pc with
    | Some k => exists e, o = Jumps k e m /\ base e (S (sp + bp))
    | None => o = Returns (exit_fields JIT_CONTINUE pc 0 m)
    end.

Lemma after_leaves {A B} σ nslots β pc b (k : A -> E B) (o : outcome A) :
  leaves σ nslots β pc o -> after F b k (leaves σ nslots β pc) o.
Proof.
  intros (m & slots & Hm & Hl & Hh & Ho). destruct (ec_pc_to_block ctx !! pc) as [l|] eqn:El.
  - destruct Ho as (e & -> & Hb). exists m, slots. split_and!; try done. rewrite El. by exists e.
  - subst o. exists m, slots. split_and!; try done. by rewrite El.
Qed.

Lemma wp_exit_to σ slots β pc b e m :
  base e (next_value b) -> mem_ok m β slots -> holds σ slots ->
  ec_pc_to_block ctx !! pc = None ->
  wp F (write_exit (ec_frame_ptr ctx) JIT_CONTINUE pc 0) b e m (leaves σ (length slots) β pc).
Proof.
  intros Hb Hm Hh Hpc. rewrite Hfp. eapply wp_write_exit; [done|done|].
  exists m, slots. split_and!; try done. by rewrite Hpc.
Qed.

Lemma wp_jump_instr RM σ slots β pc i b e m :
  state_ok RM σ slots β e (next_value b) m -> Instruction.op i = Opcode.Jump ->
  wp F (emit_instruction ctx RM pc i) b e m
    (leaves σ (length slots) β (jump_target pc (Instruction.imm i))).
Proof.
  intros Hs Ho. unfold emit_instruction. rewrite Ho.
  first_part. eapply wp_flush_state; [exact Hs|].
  intros n e1 m1 slots1 Ha Hn Hs1 Hl1 Hh. go on b1 Hb1. subst n.
  first_part. eapply wp_mono; [apply after_leaves|]. rewrite <- Hl1. unfold branch_to_pc.
  destruct (ec_pc_to_block ctx !! jump_target pc (Instruction.imm i)) as [k|] eqn:Ek.
  - apply wp_jump. exists m1, slots1. split_and!; [apply Hs1|done|done|]. rewrite Ek.
    eexists. split; [done|]. eapply base_least. apply Hs1.
  - apply wp_exit_to; [apply Hs1|apply Hs1|done|done].
Qed.

Lemma branch_goto_other (m : gmap Z block) pc imm c :
  is_Some (m !! (pc + 1 : Z)) \/ is_Some (m !! (branch_target pc imm : Z)) ->
  branch_goto m pc imm c = if c =? 0 then branch_target pc imm else pc + 1.
Proof.
  intros Hm. unfold branch_goto.
  destruct (m !! (pc + 1)) eqn:E1, (m !! branch_target pc imm) eqn:E2; try done.
  by destruct Hm as [[? [=]]|[? [=]]].
Qed.

(** The two ways a branch ends when one of its successors is not in the region. *)
Lemma wp_side_exit σ slots β (side_pc k_pc : Z) (k c : value) (t swap : bool) b e m :
  base e (next_value b) -> mem_ok m β slots -> holds σ slots -> room b -> live b ->
  e !! c = Some (Int I8 (Z.b2z t)) ->
  ec_pc_to_block ctx !! side_pc = None -> ec_pc_to_block ctx !! k_pc = Some k ->
  wp F (let^ side := create_block in
        let^ _ := ins (if swap then brif c side k else brif c k side) in
        let^ _ := switch_to_block side in
        write_exit (ec_frame_ptr ctx) JIT_CONTINUE side_pc 0) b e m
    (leaves σ (length slots) β (if eqb t swap then side_pc else k_pc)).
Proof.
  intros Hb Hm Hh Hroom Hl Hc Hside Hk. pose proof (Hnb _ _ Hk) as Hlt.
  pose proof (lookup_lt_is_Some_1 _ _ Hl) as Hcur. unfold room in Hroom.
  apply wp_create. set (b1 := mk_builder _ _ _).
  assert (Hfresh : fresh_block b1 (length (blocks b)))
    by (unfold fresh_block; simpl; by rewrite lookup_app_r, Nat.sub_diag by lia).
  assert (Hne : length (blocks b) <> cur b1) by (simpl; lia).
  assert (Hexit : forall b', switched b1 b' (length (blocks b)) ->
    wp F (write_exit (ec_frame_ptr ctx) JIT_CONTINUE side_pc 0) b' e m (leaves σ (length slots) β side_pc)).
  { intros b' (Hn' & _). apply wp_exit_to; try done.
    eapply base_agree; [exact Hb|apply agree_refl|]. simpl in Hn'. lia. }
  assert (Hgo : leaves (A := unit) σ (length slots) β k_pc (Jumps k e m)).
  { exists m, slots. split_and!; try done. rewrite Hk. eexists. split; [done|]. by eapply base_least. }
  assert (Hem : emission true (write_exit (ec_frame_ptr ctx) JIT_CONTINUE side_pc 0)) by auto with emission.
  destruct swap; eapply (wp_branch F _ _ _ _ _ _ t); try done; destruct t; simpl;
    first [by rewrite decide_True by done | by rewrite decide_False by lia].
Qed.

Lemma wp_branch_instr RM σ slots β pc i c b e m :
  state_ok RM σ slots β e (next_value b) m -> instruction_ok i -> room b ->
  Instruction.op i = Opcode.Branch -> get σ (Instruction.a i) = Some c ->
  wp F (emit_instruction ctx RM pc i) b e m
    (leaves σ (length slots) β (branch_goto (ec_pc_to_block ctx) pc (Instruction.imm i) c)).
Proof.
  intros Hs (Hra & _) Hroom Ho Ec. unfold emit_instruction. rewrite Ho. unfold emit_branch. cbv zeta.
  register c. intros v1 RM1 n1 e1 Ha1 Hn1 Hv1 He1 Hs1. go on b1 Hb1 Hg1. subst n1.
  first_part. eapply wp_flush_state; [exact Hs1|].
  intros n2 e2 m2 slots2 Ha2 Hn2 Hs2 Hl2 Hh2. go on b2 Hb2 Hg2. subst n2. rewrite <- Hl2.
  assert (He2 : e2 !! v1 = Some (Int I64 c)) by by eapply agree_lookup.
  emit by wp_iconst as b3 Hb3 Hg3 Hl3. emit by wp_icmp as b4 Hb4 Hg4 Hl4. simpl eval_cc.
  change (wrap_i (bits I64) 0) with 0.
  assert (Hroom4 : room b4) by (repeat (eapply room_grows; [|eassumption]); exact Hroom).
  set (e4 := <[next_value b3 := _]> _).
  assert (Hb : base e4 (next_value b4)) by (eapply base_agree; [apply Hs2|unfold e4; agrees|lia]).
  assert (He4 : e4 !! next_value b3 = Some (Int I8 (Z.b2z (c =? 0)))) by apply lookup_insert_eq.
  first_part. eapply wp_mono; [apply after_leaves|]. unfold branch_goto.
  destruct (ec_pc_to_block ctx !! (pc + 1)) as [kf|] eqn:Ef,
    (ec_pc_to_block ctx !! branch_target pc (Instruction.imm i)) as [kt|] eqn:Et.
  - eapply wp_brif; [exact He4|]. exists m2, slots2. split_and!; [apply Hs2|done|done|].
    destruct (c =? 0); rewrite ?Ef, ?Et; (eexists; split; [done|]; by eapply base_least).
  - pose proof (wp_side_exit σ slots2 β _ _ kf (next_value b3) (c =? 0) true b4 e4 m2 Hb
      ltac:(apply Hs2) Hh2 Hroom4 Hl4 He4 Et Ef) as Hw. by destruct (c =? 0).
  - pose proof (wp_side_exit σ slots2 β _ _ kt (next_value b3) (c =? 0) false b4 e4 m2 Hb
      ltac:(apply Hs2) Hh2 Hroom4 Hl4 He4 Ef Et) as Hw. by destruct (c =? 0).
  - by apply wp_exit_to; [|apply Hs2| |].
Qed.

(** ** Blocks *)

Context (Hcalls : ec_supports_calls ctx = false).

Definition returns_to (reg z : Z) (nslots : nat) {A} (o : outcome A) : Prop :=
  exists e m slots β, o = Jumps (ec_return_block ctx) e m /\ base e (S (sp + bp)) /\
    mem_ok m β slots /\ length slots = nslots /\ slots !! Z.to_nat reg = Some z.

Lemma wp_return_instr RM σ slots β pc i z b e m :
  state_ok RM σ slots β e (next_value b) m -> instruction_ok i ->
  Instruction.op i = Opcode.Return -> get σ (Instruction.a i) = Some z ->
  wp F (emit_instruction ctx RM pc i) b e m (returns_to (Instruction.a i) z (length slots)).
Proof.
  intros Hs (Hra & _) Ho Ez. unfold emit_instruction. rewrite Ho. unfold emit_return_.
  register z. intros v1 RM1 n1 e1 Ha1 Hn1 Hv1 He1 Hs1. go on b1 Hb1. subst n1.
  pose proof Hs1 as [Hb1 Hm1 Hr1 _]. rewrite get_eq in Ez. pose proof (lookup_lt_Some _ _ _ Ez) as Hlt.
  assert (Hlt' : (Z.to_nat (Instruction.a i) < length slots)%nat)
    by (pose proof (ro_slots _ _ _ _ _ Hr1); lia).
  first_part. rewrite Hsp. eapply wp_store_slot; [done|done|unfold in_u in Hra; lia|done|done|done|].
  intros n2 e2 m2 Ha2 Hn2 Hm2. go on b2 Hb2. subst n2. rewrite Hcalls.
  destruct (mo_fields _ _ _ Hm2 OFF_PC ltac:(auto)) as [old Hold].
  pose proof (base_agree _ _ _ _ Hb1 Ha2 Hn2) as Hb3.
  first_part. rewrite Hfp. eapply wp_write_u32; [done|done|exact Hold|].
  intros n3 e3 Ha3 Hn3. go on b3 Hb3'. subst n3.
  first_part. apply wp_jump. cbn [after]. eexists _, _, _, _. split_and!; [done| | | |].
  - by eapply base_least, base_agree.
  - by apply mem_ok_field; [auto|].
  - by rewrite length_insert.
  - by rewrite list_lookup_insert_eq.
Qed.

Definition block_post (r : block_end) (nslots : nat) (o : outcome unit) : Prop :=
  match r with
  | NBudget pc σ => exists m slots, o = Returns (exit_fields JIT_BUDGET pc 0 m) /\
      mem_ok m 0 slots /\ length slots = nslots /\
      match σ with Some σ => holds σ slots | None => True end
  | NGoto pc σ β => leaves σ nslots β pc o
  | NReturn reg z => returns_to reg z nslots o
  | NTrap => exists β, traps nslots β o
  | NStuck => False
  end.

#[local] Hint Extern 1 (emission true (emit_instruction _ _ _ _)) =>
  (apply emission_instruction; by left) : emission.
#[local] Hint Extern 1 (emission true (emit_block _ _ _ _)) =>
  (apply emission_block; by left) : emission.

(** After an instruction that goes on, the rest of the block. *)
Lemma after_moves σ' nslots β b e (k : RegisterMap.t -> E unit) (Q : outcome unit -> Prop) o :
  room b -> moves_to σ' nslots β (next_value b) e o ->
  (forall RM slots b' e' m', room b' -> live b' -> agree (next_value b) e e' ->
     state_ok RM σ' slots β e' (next_value b') m' -> length slots = nslots -> wp F (k RM) b' e' m' Q) ->
  after F b k Q o.
Proof.
  intros Hroom (RM & n & e' & m' & slots & -> & Ha & Hn & Hs & Hl) Hk. cbn [after].
  intros b' -> Hg Hl'. eapply Hk; try done. by eapply room_grows.
Qed.

(** An instruction of a block, with the claim about the rest of the block. *)
Lemma wp_block_instr code RM σ slots β pc i b e m :
  state_ok RM σ slots β e (next_value b) m -> room b -> instruction_ok i -> 0 < β + 1 ->
  (forall RM' σ' slots' b' e' m', room b' -> live b' -> state_ok RM' σ' slots' β e' (next_value b') m' ->
     length slots' = length slots ->
     native_block (ec_chunk ctx) (ec_pc_to_block ctx) false code σ' β <> NStuck ->
     wp F (emit_block ctx bp RM' code) b' e' m'
       (block_post (native_block (ec_chunk ctx) (ec_pc_to_block ctx) false code σ' β) (length slots))) ->
  native_block (ec_chunk ctx) (ec_pc_to_block ctx) false ((pc, i) :: code) σ (β + 1) <> NStuck ->
  wp F (let^ RM' := emit_instruction ctx RM pc i in emit_block ctx bp RM' code) b e m
    (block_post (native_block (ec_chunk ctx) (ec_pc_to_block ctx) false ((pc, i) :: code) σ (β + 1))
      (length slots)).
Proof.
  intros Hs Hroom Hi Hβ IH. cbn [native_block].
  rewrite (proj2 (Z.eqb_neq (β + 1) 0)) by lia. rewrite Z.add_simpl_r.
  assert (Hgo : forall σ' (P : outcome RegisterMap.t -> Prop),
    wp F (emit_instruction ctx RM pc i) b e m P ->
    (forall o, P o -> moves_to σ' (length slots) β (next_value b) e o) ->
    native_block (ec_chunk ctx) (ec_pc_to_block ctx) false code σ' β <> NStuck ->
    wp F (let^ RM' := emit_instruction ctx RM pc i in emit_block ctx bp RM' code) b e m
      (block_post (native_block (ec_chunk ctx) (ec_pc_to_block ctx) false code σ' β)
        (length slots))).
  { intros σ' P Hw HP Hst. first_part. eapply wp_mono; [|exact Hw]. intros o Ho.
    eapply after_moves; [done|by apply HP|]. intros RM' slots' b' e' m' Hr' Hl' _ Hs' Hlen.
    by eapply IH. }
  assert (Hdata : match native_data (ec_chunk ctx) i σ with
      | Some σ => native_block (ec_chunk ctx) (ec_pc_to_block ctx) false code σ β
      | None => NStuck
      end <> NStuck ->
    wp F (let^ RM' := emit_instruction ctx RM pc i in emit_block ctx bp RM' code) b e m
      (block_post (match native_data (ec_chunk ctx) i σ with
      | Some σ => native_block (ec_chunk ctx) (ec_pc_to_block ctx) false code σ β
      | None => NStuck
      end) (length slots))).
  { destruct (native_data (ec_chunk ctx) i σ) as [σ'|] eqn:Ed; [|done].
    eapply Hgo; [by eapply wp_data|]. intros o Ho. by eapply falls_moves. }
  assert (Hdiv : Instruction.op i = Opcode.Div \/ Instruction.op i = Opcode.Mod ->
    forall x y, get σ (Instruction.b i) = Some x -> get σ (Instruction.c i) = Some y ->
    y = 0 \/ is_Some (native_op (Instruction.op i) x y) -> _ ) by
    exact (fun Ho x y Ex Ey Hz => wp_division RM σ slots β pc i x y b e m Hs Hi Hroom Ho Ex Ey Hz).
  destruct (Instruction.op i) eqn:Ho; try exact Hdata; intros Hstuck.
  1-2: destruct (get σ (Instruction.b i)) as [x|] eqn:Ex; [|done];
    destruct (get σ (Instruction.c i)) as [y|] eqn:Ey; [|done];
    specialize (Hdiv ltac:(auto) x y eq_refl eq_refl); destruct (Z.eqb_spec y 0) as [->|Hy];
    [first_part; eapply wp_mono; [|apply Hdiv; by left];
     intros o (e' & m' & slots' & -> & ? & ? & ?); by exists β, e', m', slots'|];
    destruct (native_op _ x y) as [z|] eqn:Ez; [|done];
    eapply Hgo; [apply Hdiv; by right|intros o Ho'; by apply Ho'|done].
  - first_part. eapply wp_mono; [apply after_leaves|]. by eapply wp_jump_instr.
  - destruct (get σ (Instruction.a i)) as [c|] eqn:Ec; [|done].
    first_part. eapply wp_mono; [apply after_leaves|]. by eapply wp_branch_instr.
  - destruct (get σ (Instruction.a i)) as [z|] eqn:Ez; [|done].
    first_part. eapply wp_mono; [|by eapply wp_return_instr].
    intros o (e' & m' & slots' & β' & -> & ? & ? & ? & ?). by exists e', m', slots', β'.
Qed.

Lemma wp_block first code RM σ slots β b e m :
  state_ok RM σ slots β e (next_value b) m -> room b -> live b -> in_u 32 β ->
  Forall (fun p => instruction_ok (snd p)) code -> (first = true -> holds σ slots) ->
  native_block (ec_chunk ctx) (ec_pc_to_block ctx) first code σ β <> NStuck ->
  wp F (emit_block ctx bp RM code) b e m
    (block_post (native_block (ec_chunk ctx) (ec_pc_to_block ctx) first code σ β) (length slots)).
Proof.
  revert first RM σ slots β b e m. induction code as [|[pc i] code IH];
    intros first RM σ slots β b e m Hs Hroom Hl Hβ Hok Hfirst Hstuck; [done|].
  apply Forall_cons in Hok as [Hi Hok]. simpl in Hi. cbn [emit_block].
  first_part. rewrite Hfp. eapply wp_budget_tick; [apply Hs|apply Hs|done|done|].
  destruct (Z.eqb_spec β 0) as [->|Hβ0].
  { exists m, slots. split_and!; [done|apply Hs|done|]. destruct first; [by apply Hfirst|done]. }
  intros n e1 Ha1 Hn1. cbn [after]. intros b1 -> Hg1 Hl1.
  assert (Hs1 : state_ok RM σ slots (β - 1) e1 (next_value b1)
    (<[(JitClif.Frame, OFF_BUDGET) := int I32 (β - 1)]> m)).
  { destruct (state_ok_agree _ _ _ _ _ _ _ _ _ Hs Ha1 Hn1) as [Hb Hm Hr Hsz].
    constructor; try done. by eapply mem_ok_budget. }
  assert (Heq : native_block (ec_chunk ctx) (ec_pc_to_block ctx) first ((pc, i) :: code) σ β =
    native_block (ec_chunk ctx) (ec_pc_to_block ctx) false ((pc, i) :: code) σ (β - 1 + 1)).
  { rewrite Z.sub_add. cbn [native_block]. by rewrite (proj2 (Z.eqb_neq β 0)). }
  rewrite Heq in Hstuck |- *.
  eapply wp_block_instr; [exact Hs1|by eapply room_grows|done|unfold in_u in Hβ; lia| |done].
  intros RM' σ' slots' b' e' m' Hr' Hl' Hs' Hlen Hst. rewrite <- Hlen.
  apply IH; try done. unfold in_u in *. lia.
Qed.

End emit.
