(* ===== verification/JitRegion.v ===== *)
(** The function of a whole trace: where each block of the region lies in it, and what
    running it from its entry does, as a run of the register machine over the region. *)

From S2P Require Import Prelude Capability F64 Values Isa Verify Sync JitTrace JitClif.
From S2P Require Import JitCompiler JitTheory JitLower JitExec JitSim.

(** ** Code that stays in its block *)

(** Started in block [k] or in one it made itself, [mm] leaves the other blocks below [N]
    alone and ends in such a block; its answer is in [P]. *)
Definition keeps {A} (N : nat) (k : block) (mm : E A) (P : A -> Prop) : Prop :=
  forall b a b', mm b = Ok (a, b') -> (N <= length (blocks b))%nat -> cur b = k \/ (N <= cur b)%nat ->
  P a /\ (cur b' = k \/ (N <= cur b')%nat) /\
  forall k', (k' < N)%nat -> k' <> k -> blocks b' !! k' = blocks b !! k'.

Section keeps.
Context (N : nat) (k : block).

Lemma keeps_code_bind {A B} (mm : E A) (f : A -> E B) (P : A -> Prop) (Q : B -> Prop) :
  emission true mm -> keeps N k mm P -> (forall a, P a -> keeps N k (f a) Q) ->
  keeps N k (e_bind mm f) Q.
Proof.
  intros Hem Hm Hf b a b2 E2 HN Hc. unfold e_bind in E2.
  destruct (mm b) as [[x b1]|] eqn:E1; [|done].
  pose proof (grows_blocks _ _ (emission_grows _ _ _ _ _ Hem E1)) as Hlen.
  destruct (Hm b x b1 E1 HN Hc) as (HP & Hc1 & Hk1).
  destruct (Hf x HP b1 a b2 E2 ltac:(lia) Hc1) as (HQ & Hc2 & Hk2).
  split_and!; [done|done|]. intros k' Hlt Hne. by rewrite Hk2, Hk1.
Qed.

Lemma keeps_weaken {A} (mm : E A) (P Q : A -> Prop) :
  keeps N k mm P -> (forall a, P a -> Q a) -> keeps N k mm Q.
Proof. intros Hm HPQ b a b' E1 HN Hc. destruct (Hm b a b' E1 HN Hc) as (HP & ? & ?). auto. Qed.

Lemma keeps_straight {A} (mm : E A) : straight mm -> keeps N k mm (fun _ => True).
Proof.
  intros Hs b a b' E1 HN Hc. destruct (straight_blocks mm b a b' Hs E1) as [Hcur Hb].
  rewrite Hcur. split_and!; [done|done|]. intros k' Hlt Hne. apply Hb.
  destruct Hc as [->|]; [done|lia].
Qed.

Lemma keeps_create : keeps N k create_block (fun j => (N <= j)%nat).
Proof.
  intros b a b' [= <- <-] HN Hc. split_and!; [done|done|]. intros k' Hlt Hne. simpl.
  by rewrite lookup_app_l by lia.
Qed.

Lemma keeps_switch j : (N <= j)%nat -> keeps N k (switch_to_block j) (fun _ => True).
Proof. intros Hj b a b' [= <- <-] HN Hc. split_and!; [done|by right|done]. Qed.

End keeps.

(** *** Straight-line code *)

Create HintDb straight.
#[export] Hint Constructors straight : straight.
Ltac straights := intros; repeat match goal with
  | |- straight (e_bind _ _) => apply straight_bind; [|intros]
  | |- straight (let '_ := ?p in _) => destruct p
  | |- straight (match ?x with _ => _ end) => destruct x
  end; auto with straight.

Lemma straight_field_ptr p o : straight (field_ptr p o).
Proof. unfold field_ptr. straights. Qed.
Lemma straight_store_slot p r x : straight (store_slot p r x).
Proof. unfold store_slot. straights. Qed.
#[export] Hint Resolve straight_field_ptr straight_store_slot : straight.
Lemma straight_write_u32 p o x : straight (write_u32_field p o x).
Proof. unfold write_u32_field. straights. Qed.
#[export] Hint Resolve straight_write_u32 : straight.
Lemma straight_exit p c pc r : straight (write_exit p c pc r).
Proof. unfold write_exit. straights. Qed.
Lemma straight_load_reg RM p r : straight (load_reg RM p r).
Proof. unfold load_reg. straights. Qed.
Lemma straight_flush RM p r : straight (flush_registers RM p r).
Proof. revert r. induction RM as [|[x|] RM IH]; simpl; straights. Qed.
Lemma straight_operation op l r : straight (emit_operation op l r).
Proof. unfold emit_operation, bool_as_i64. straights. Qed.
Lemma straight_branch_to_pc p m t : straight (branch_to_pc p m t).
Proof. unfold branch_to_pc. straights. apply straight_exit. Qed.
#[export] Hint Resolve straight_exit straight_load_reg straight_flush straight_operation
  straight_branch_to_pc : straight.

(** *** Blocks *)

(** Take the parts of a bind: a new block, a switch to one, or straight-line code. *)
Ltac keep := repeat match goal with
  | |- keeps _ _ (e_bind create_block _) _ =>
    eapply keeps_code_bind; [by auto with emission|apply keeps_create|intros ? ?]
  | |- keeps _ _ (e_bind (switch_to_block _) _) _ =>
    eapply keeps_code_bind; [by auto with emission|by apply keeps_switch|intros ? _]
  | |- keeps _ _ (e_bind _ _) _ =>
    eapply keeps_code_bind; [by emits|apply keeps_straight; by straights|intros ? _]
  | |- keeps _ _ (let '_ := ?p in _) _ => destruct p
  | |- keeps _ _ _ _ => eapply keeps_weaken; [apply keeps_straight; by straights|done]
  end.

Lemma keeps_budget_tick N k q p pc : keeps N k (emit_budget_tick q p pc) (fun _ => True).
Proof. unfold emit_budget_tick. keep. Qed.

Lemma keeps_instruction N k ctx RM pc i :
  ec_supports_calls ctx = false -> Instruction.op i <> Opcode.Call ->
  keeps N k (emit_instruction ctx RM pc i) (fun _ => True).
Proof.
  intros Hc Ho. unfold emit_instruction. destruct (Instruction.op i); try done.
  all: try (unfold emit_arithmetic, emit_division; keep; fail).
  - unfold emit_load_const. destruct (Chunk.constant _ _) as [[]|]; try done; keep.
  - unfold emit_branch. cbv zeta. keep.
    eapply (keeps_code_bind _ _ _ _ (fun _ => True)); [by emits| |intros ? _; keep].
    destruct (ec_pc_to_block ctx !! _), (ec_pc_to_block ctx !! _); keep.
  - unfold emit_return_. rewrite Hc. keep.
Qed.

Definition plain (code : list (Z * Instruction.t)) : Prop :=
  Forall (fun p => Instruction.op (snd p) <> Opcode.Call) code.

Lemma keeps_block N k ctx q RM code :
  ec_supports_calls ctx = false -> plain code ->
  keeps N k (emit_block ctx q RM code) (fun _ => True).
Proof.
  intros Hc. revert RM. induction code as [|[pc i] code IH]; intros RM Hp; cbn [emit_block]; [keep|].
  apply Forall_cons in Hp as [Hi Hp].
  eapply keeps_code_bind; [by auto with emission|apply keeps_budget_tick|intros _ _].
  eapply keeps_code_bind; [apply emission_instruction; by left|by apply keeps_instruction|intros RM' _].
  by apply IH.
Qed.

(** A block of the region, as its code was emitted. *)
Definition placed (ctx : EmitContext) (q : value) (n : Z) (N : nat) (b b' : builder) (k : block)
    (code : list (Z * Instruction.t)) : Prop :=
  exists bk bk', cur bk = k /\ fresh_block bk k /\ (N <= length (blocks bk))%nat /\
    (next_value b <= next_value bk)%nat /\
    emit_block ctx q (RegisterMap.new n) code bk = Ok (tt, bk') /\ within bk' (blocks b').

Lemma blocks_placed N ctx q n rs b b' :
  ec_supports_calls ctx = false -> Forall (fun p => plain (snd p)) rs ->
  (N <= length (blocks b))%nat -> NoDup (map fst rs) ->
  Forall (fun k => (k < N)%nat /\ fresh_block b k) (map fst rs) ->
  emit_blocks ctx q n rs b = Ok (tt, b') ->
  Forall (fun p => placed ctx q n N b b' (fst p) (snd p)) rs /\ grows b b' /\
  forall k', (k' < N)%nat -> k' ∉ map fst rs -> blocks b' !! k' = blocks b !! k'.
Proof.
  intros Hc. revert b. induction rs as [|[k code] rs IH]; intros b Hp HN Hnd Hf E2.
  { injection E2 as <-. by split_and!. }
  apply Forall_cons in Hp as [Hp1 Hp]. apply NoDup_cons in Hnd as [Hk Hnd].
  apply Forall_cons in Hf as [[HkN Hkf] Hf]. simpl in *.
  unfold e_bind at 1, switch_to_block in E2. set (b1 := mk_builder _ _ _) in E2.
  unfold e_bind in E2. destruct (emit_block ctx q _ code b1) as [[[] b2]|] eqn:E1; [|done].
  destruct (keeps_block N k ctx q _ code Hc Hp1 b1 tt b2 E1 HN (or_introl eq_refl)) as (_ & _ & Hkeep).
  pose proof (emission_grows true _ _ _ _ (emission_block true ctx q _ code (or_introl eq_refl)) E1) as Hg1.
  assert (Hg : grows b b2) by (destruct Hg1; by split).
  destruct (IH b2) as (Hpl & Hg2 & Hk2); [done|pose proof (grows_blocks _ _ Hg1); simpl in *; lia|done| |done|].
  { apply Forall_forall. intros j Hj. rewrite Forall_forall in Hf. destruct (Hf j Hj) as [HjN Hjf].
    split; [done|]. unfold fresh_block. rewrite Hkeep; [done|done|]. intros ->. done. }
  split_and!.
  - apply Forall_cons. split.
    + exists b1, b2. split_and!; try done. apply Hg2.
    + eapply Forall_impl; [exact Hpl|]. intros [j c] (bk & bk' & ? & ? & ? & Hn & ? & ?).
      exists bk, bk'. split_and!; try done. destruct Hg. lia.
  - by etrans.
  - intros k' Hlt Hnin. apply not_elem_of_cons in Hnin as [Hne Hnin]. rewrite Hk2 by done.
    by rewrite Hkeep.
Qed.

(** ** The layout of a trace *)

(** The values of the context, made by the first block. *)
Definition SLOTS_PTR : value := 1.
Definition BUDGET_PTR : value := 3.
Definition CALL_DEPTH_PTR : value := 5.
Definition CALL_STACK_PTR : value := 8.
Definition TRAP_BLOCK : block := 1.
Definition RETURN_BLOCK : block := 2.

Definition prologue : list inst :=
  [load 1 I64 0; iconst 2 I64 OFF_BUDGET; binary 3 iadd 0 2; iconst 4 I64 OFF_CALL_DEPTH;
   binary 5 iadd 0 4; iconst 6 I64 OFF_CALL_STACK; binary 7 iadd 0 6; load 8 I64 7].

Definition trace_context (chunk : Chunk.t) (region : TraceRegion)
    (codes : list (list (Z * Instruction.t))) : EmitContext :=
  mk_context_ chunk SLOTS_PTR 0 TRAP_BLOCK RETURN_BLOCK (block_map region 3 ∅) CALL_DEPTH_PTR
    CALL_STACK_PTR (has_call codes).

(** The builder once the blocks of the region exist. *)
Definition blocks_made (region : TraceRegion) : builder :=
  mk_builder ([prologue; []; []] ++ replicate (length region) []) 0 9.

(** The exits that end the function. *)
Definition trace_exits (chunk : Chunk.t) (key : TraceKey.t) (region : TraceRegion) : E unit :=
  let^ _ := switch_to_block TRAP_BLOCK in
  match region_max_pc region key with
  | Err e => e_fail e
  | Ok trap_pc =>
    let^ _ := write_exit 0 JIT_TRAP trap_pc 0 in
    let^ _ := switch_to_block RETURN_BLOCK in
    let '(last_pc, return_reg) :=
      match last_return_in_region chunk region with
      | Some last => last
      | None => (TraceKey.entry_pc key, 0)
      end in
    write_exit 0 JIT_RETURN last_pc return_reg
  end.

(** What remains of [emit_trace] then, for an entry block [entry]. *)
Definition trace_rest (chunk : Chunk.t) (key : TraceKey.t) (def : FunctionDef.t)
    (region : TraceRegion) (codes : list (list (Z * Instruction.t))) (entry : block) : E unit :=
  let^ _ := ins (jump entry) in
  let^ _ := emit_blocks (trace_context chunk region codes) BUDGET_PTR (FunctionDef.num_registers def)
              (zip (map (fun b => block_map region 3 ∅ !!! (start_pc b : Z)) region) codes) in
  trace_exits chunk key region.

Lemma emit_trace_new chunk key def region codes :
  emit_trace chunk key def region codes new_function =
  match block_map region 3 ∅ !! (TraceKey.entry_pc key : Z) with
  | None => Err (EmptyTrace (TraceKey.function key) (TraceKey.entry_pc key))
  | Some entry => trace_rest chunk key def region codes entry (blocks_made region)
  end.
Proof.
  transitivity (e_bind (create_blocks region ∅) (fun m =>
    match m !! (TraceKey.entry_pc key : Z) with
    | None => e_fail (EmptyTrace (TraceKey.function key) (TraceKey.entry_pc key))
    | Some entry =>
      let^ _ := ins (jump entry) in
      let ctx := mk_context_ chunk SLOTS_PTR 0 TRAP_BLOCK RETURN_BLOCK m CALL_DEPTH_PTR
                   CALL_STACK_PTR (has_call codes) in
      let^ _ := emit_blocks ctx BUDGET_PTR (FunctionDef.num_registers def)
                  (zip (map (fun b => m !!! (start_pc b : Z)) region) codes) in
      let^ _ := switch_to_block TRAP_BLOCK in
      match region_max_pc region key with
      | Err e => e_fail e
      | Ok trap_pc =>
        let^ _ := write_exit 0 JIT_TRAP trap_pc 0 in
        let^ _ := switch_to_block RETURN_BLOCK in
        let '(last_pc, return_reg) :=
          match last_return_in_region chunk region with
          | Some last => last
          | None => (TraceKey.entry_pc key, 0)
          end in
        write_exit 0 JIT_RETURN last_pc return_reg
      end
    end) (mk_builder [prologue; []; []] 0 9)).
  - reflexivity.
  - unfold e_bind at 1. rewrite create_blocks_eq. cbn [blocks cur next_value length].
    by destruct (block_map region 3 ∅ !! _).
Qed.

(** Where everything is in the finished function [F]. *)
Definition emitted_at (F : list (list inst)) (N : nat) (k : block) {A} (mm : E A) : Prop :=
  exists bk bk' a, cur bk = k /\ fresh_block bk k /\ (N <= length (blocks bk))%nat /\
    (9 <= next_value bk)%nat /\ mm bk = Ok (a, bk') /\ within bk' F.

Record layout (F : list (list inst)) (chunk : Chunk.t) (key : TraceKey.t) (def : FunctionDef.t)
    (region : TraceRegion) (codes : list (list (Z * Instruction.t))) : Prop := {
  ly_entry : exists entry t, block_map region 3 ∅ !! (TraceKey.entry_pc key : Z) = Some entry /\
    F !! 0%nat = Some (prologue ++ [jump entry] ++ t);
  ly_blocks : forall i b code, region !! i = Some b -> codes !! i = Some code ->
    emitted_at F (3 + length region) (3 + i)
      (emit_block (trace_context chunk region codes) BUDGET_PTR
        (RegisterMap.new (FunctionDef.num_registers def)) code);
  ly_trap : exists pc, emitted_at F 0 TRAP_BLOCK (write_exit 0 JIT_TRAP pc 0);
  ly_return : exists pc reg,
    match last_return_in_region chunk region with Some (_, r) => reg = r | None => True end /\
    emitted_at F 0 RETURN_BLOCK (write_exit 0 JIT_RETURN pc reg) }.

Lemma zip_starts region (codes : list (list (Z * Instruction.t))) (k : block) :
  NoDup (map start_pc region) -> length codes = length region ->
  map fst (zip (map (fun b => block_map region k ∅ !!! (start_pc b : Z)) region) codes) =
  seq k (length region).
Proof.
  intros Hnd Hl. rewrite fst_zip by (rewrite length_map; lia). apply list_eq. intros i.
  destruct (decide (i < length region)%nat) as [Hlt|Hge].
  - destruct (lookup_lt_is_Some_2 _ _ Hlt) as [b Hb].
    rewrite list_lookup_fmap, Hb. simpl. rewrite lookup_seq_lt by done.
    by rewrite (lookup_total_correct _ _ _ (block_map_start region k ∅ i b Hnd Hb)).
  - rewrite lookup_ge_None_2 by (rewrite length_map; lia).
    symmetry. apply lookup_ge_None_2. rewrite length_seq. lia.
Qed.

Lemma fresh_made region k : (0 < k < 3 + length region)%nat -> fresh_block (blocks_made region) k.
Proof.
  intros Hk. unfold fresh_block, blocks_made. cbn [blocks].
  destruct k as [|[|[|k]]]; [lia|done|done|]. cbn. apply lookup_replicate_2. lia.
Qed.

Lemma bind_Ok_inv {A B} (mm : E A) (k : A -> E B) b c b' :
  e_bind mm k b = Ok (c, b') -> exists a b1, mm b = Ok (a, b1) /\ k a b1 = Ok (c, b').
Proof. unfold e_bind. destruct (mm b) as [[a b1]|]; [by eauto|done]. Qed.

Lemma entered region entry u b1 :
  (ins (jump entry) : E unit) (blocks_made region) = Ok (u, b1) ->
  length (blocks b1) = (3 + length region)%nat /\ next_value b1 = 9%nat /\
  blocks b1 !! 0%nat = Some (prologue ++ [jump entry]) /\
  forall k, (0 < k < 3 + length region)%nat -> fresh_block b1 k.
Proof.
  intros E0.
  assert (b1 = mk_builder (alter (fun code => code ++ [jump entry]) 0%nat (blocks (blocks_made region)))
    0 9) as -> by by injection E0.
  cbn [blocks cur next_value]. split_and!.
  - rewrite length_alter. simpl. by rewrite length_replicate.
  - done.
  - done.
  - intros k Hk. pose proof (fresh_made region k Hk) as Hf. unfold fresh_block in *.
    cbn [blocks]. by rewrite list_lookup_alter_ne by lia.
Qed.

Lemma switch_ok k b u b' :
  (switch_to_block k : E unit) b = Ok (u, b') ->
  blocks b' = blocks b /\ cur b' = k /\ next_value b' = next_value b.
Proof. by intros [= _ <-]. Qed.

Lemma exit_grows kind pc reg b u b' : write_exit 0 kind pc reg b = Ok (u, b') -> grows b b'.
Proof. apply (emission_grows true). auto with emission. Qed.

Lemma within_blocks b b' F : blocks b' = blocks b -> within b F -> within b' F.
Proof. unfold within. by intros ->. Qed.

Lemma exits_placed chunk key region b bf :
  fresh_block b TRAP_BLOCK -> fresh_block b RETURN_BLOCK -> (9 <= next_value b)%nat ->
  trace_exits chunk key region b = Ok (tt, bf) ->
  within b (blocks bf) /\
  (exists pc, emitted_at (blocks bf) 0 TRAP_BLOCK (write_exit 0 JIT_TRAP pc 0)) /\
  (exists pc reg,
    match last_return_in_region chunk region with Some (_, r) => reg = r | None => True end /\
    emitted_at (blocks bf) 0 RETURN_BLOCK (write_exit 0 JIT_RETURN pc reg)).
Proof.
  intros Htrap Hret Hn. unfold trace_exits. intros ([] & b3 & Eb3 & E1)%bind_Ok_inv.
  destruct (region_max_pc region key) as [trap_pc|]; [|done].
  apply bind_Ok_inv in E1 as (u & b4 & E4 & ([] & b5 & Eb5 & E1)%bind_Ok_inv).
  destruct (switch_ok _ _ _ _ Eb3) as (Hb3 & Hc3 & Hn3), (switch_ok _ _ _ _ Eb5) as (Hb5 & Hc5 & Hn5).
  pose proof (exit_grows _ _ _ _ _ _ E4) as Hg4.
  destruct (straight_blocks _ _ _ _ (straight_exit _ _ _ _) E4) as [_ Hkeep4].
  destruct (match last_return_in_region chunk region with Some last => last | None => _ end)
    as [last_pc reg] eqn:Elast.
  pose proof (exit_grows _ _ _ _ _ _ E1) as Hg5.
  assert (HwF : within b3 (blocks bf)).
  { eapply within_trans; [apply Hg4|]. eapply within_blocks; [symmetry; exact Hb5|apply Hg5]. }
  destruct Hg4 as [Hw4 Hn4]. split_and!.
  - by eapply within_blocks.
  - exists trap_pc, b3, b4, u. split_and!; [done| |lia|lia|done|].
    + unfold fresh_block. by rewrite Hb3.
    + eapply within_blocks; [symmetry; exact Hb5|apply Hg5].
  - exists last_pc, reg. split.
    { destruct (last_return_in_region chunk region) as [[p r]|]; [by injection Elast|done]. }
    exists b5, bf, tt. split_and!; [done| |lia|lia|done|].
    + unfold fresh_block. rewrite Hb5, Hkeep4, Hb3 by (by rewrite Hc3). done.
    + intros k l Hk. exists []. by rewrite app_nil_r.
Qed.

Lemma trace_layout chunk key def region codes bf :
  NoDup (map start_pc region) -> length codes = length region -> Forall plain codes ->
  has_call codes = false ->
  emit_trace chunk key def region codes new_function = Ok (tt, bf) ->
  layout (blocks bf) chunk key def region codes.
Proof.
  intros Hnd Hl Hplain Hcall. rewrite emit_trace_new.
  destruct (block_map region 3 ∅ !! (TraceKey.entry_pc key : Z)) as [entry|] eqn:Hentry; [|done].
  unfold trace_rest. set (rs := zip _ codes).
  intros ([] & b1 & E0 & ([] & b2 & E2 & E1)%bind_Ok_inv)%bind_Ok_inv.
  destruct (entered _ _ _ _ E0) as (Hlen1 & Hnext1 & Hentry1 & Hfresh1).
  pose proof (zip_starts region codes 3 Hnd Hl) as Hks. fold rs in Hks.
  destruct (blocks_placed (3 + length region) (trace_context chunk region codes) BUDGET_PTR
    (FunctionDef.num_registers def) rs b1 b2) as (Hpl & [Hw Hn] & Hkeep); [done| |lia| | |exact E2|].
  { apply Forall_forall. intros [k code] Hin. apply elem_of_zip_r in Hin.
    rewrite Forall_forall in Hplain. by apply Hplain. }
  { rewrite Hks. apply NoDup_seq. }
  { rewrite Hks. apply Forall_forall. intros k Hk%elem_of_seq. split; [lia|]. apply Hfresh1. lia. }
  assert (Hfresh2 : forall k, (0 < k < 3)%nat -> fresh_block b2 k).
  { intros k Hk. unfold fresh_block. rewrite Hkeep; [apply Hfresh1; lia|lia|].
    rewrite Hks. intros Hin%elem_of_seq. lia. }
  destruct (exits_placed chunk key region b2 bf) as (HwF & Htrap & Hret);
    [apply Hfresh2; unfold TRAP_BLOCK; lia|apply Hfresh2; unfold RETURN_BLOCK; lia|lia|exact E1|].
  constructor; [|..|done|done].
  - destruct (within_trans _ _ _ Hw HwF 0%nat _ Hentry1) as [t Ht].
    exists entry, t. split; [done|]. by rewrite <- app_assoc in Ht.
  - intros i b code Hb Hcode. rewrite Forall_forall in Hpl.
    destruct (Hpl ((3 + i)%nat, code)) as (bk & bk' & ? & ? & ? & Hnk & ? & Hwk).
    { apply list_elem_of_lookup. exists i. unfold rs. rewrite lookup_zip_with.
      change (map ?f region) with (f <$> region). rewrite list_lookup_fmap.
      setoid_rewrite Hb. simpl. rewrite Hcode. simpl.
      by rewrite (lookup_total_correct _ _ _ (block_map_start region 3 ∅ i b Hnd Hb)). }
    exists bk, bk', tt. split_and!; [done|done|done|lia|done|by eapply within_trans].
Qed.

(** ** The machine on a region *)

(** How a trace ends: for an instruction outside the region, with the registers; with a
    result in a register; at a division by zero; out of budget; or outside what the machine
    describes. *)
Inductive region_end :=
| RContinue (pc : Z) (σ : list Z) (β : Z)
| RReturn (reg z : Z)
| RTrap
| RBudget (pc : Z) (σ : option (list Z))
| RStuck.

(** The code of the block that starts at [pc]. *)
Fixpoint code_from (region : TraceRegion) (codes : list (list (Z * Instruction.t))) (pc : Z)
  : option (list (Z * Instruction.t)) :=
  match region, codes with
  | b :: region, code :: codes =>
    if start_pc b =? pc then Some code else code_from region codes pc
  | _, _ => None
  end.

Section machine.
Context (ch : Chunk.t) (region : TraceRegion) (codes : list (list (Z * Instruction.t))).

Abbreviation map_of := (block_map region 3 ∅).

Fixpoint native_region (fuel : nat) (pc : Z) (σ : list Z) (β : Z) : option region_end :=
  match fuel with
  | O => None
  | S fuel =>
    match code_from region codes pc with
    | None => Some (RContinue pc σ β)
    | Some code =>
      match native_block ch map_of true code σ β with
      | NBudget pc σ => Some (RBudget pc σ)
      | NGoto pc σ β => native_region fuel pc σ β
      | NReturn reg z => Some (RReturn reg z)
      | NTrap => Some RTrap
      | NStuck => Some RStuck
      end
    end
  end.

(** A block that is left has spent budget. *)
Lemma native_block_goto first code σ β pc σ' β' :
  0 <= β -> native_block ch map_of first code σ β = NGoto pc σ' β' ->
  0 <= β' < β /\ length σ' = length σ.
Proof.
  revert first σ β. induction code as [|[p i] code IH]; intros first σ β Hβ; [done|].
  cbn [native_block]. destruct (Z.eqb_spec β 0) as [|Hne]; [done|].
  assert (Hdata : match native_data ch i σ with
    | Some σ => native_block ch map_of false code σ (β - 1) | None => NStuck end = NGoto pc σ' β' ->
    0 <= β' < β /\ length σ' = length σ).
  { destruct (native_data ch i σ) as [σ1|] eqn:Ed; [|done]. intros Hn.
    apply IH in Hn as [? ->]; [|lia]. split; [lia|]. revert Ed. unfold native_data.
    destruct (Instruction.op i); try done.
    all: repeat match goal with
    | |- context [match ?x with _ => _ end] => destruct x; simpl; try done
    | |- context [?x ≫= _] => destruct x; simpl; try done
    | |- context [_ <$> ?x] => destruct x; simpl; try done
    end; intros [= <-]; by rewrite ?length_insert. }
  assert (Hdiv : match get σ (Instruction.b i), get σ (Instruction.c i) with
    | Some x, Some y => if y =? 0 then NTrap else
      match native_op (Instruction.op i) x y with
      | Some z => native_block ch map_of false code (<[Z.to_nat (Instruction.a i) := z]> σ) (β - 1)
      | None => NStuck end
    | _, _ => NStuck end = NGoto pc σ' β' -> 0 <= β' < β /\ length σ' = length σ).
  { destruct (get σ (Instruction.b i)) as [x|], (get σ (Instruction.c i)) as [y|]; try done. destruct (y =? 0); [done|].
    destruct (native_op _ x y) as [z|]; [|done]. intros Hn. apply IH in Hn as [? ->]; [|lia].
    rewrite length_insert. lia. }
  destruct (Instruction.op i) eqn:Ho; try exact Hdata; try exact Hdiv.
  - intros [= <- <- <-]. lia.
  - destruct (get σ (Instruction.a i)); [|done]. intros [= <- <- <-]. lia.
  - by destruct (get σ (Instruction.a i)).
Qed.

(** Fuel: one more than the budget. *)
Lemma native_region_ends fuel pc σ β :
  0 <= β < Z.of_nat fuel -> is_Some (native_region fuel pc σ β).
Proof.
  revert pc σ β. induction fuel as [|fuel IH]; intros pc σ β Hβ; [lia|]. cbn [native_region].
  destruct (code_from region codes pc) as [code|]; [|by eexists].
  destruct (native_block ch map_of true code σ β) eqn:En; try by eexists.
  apply native_block_goto in En as [? _]; [|lia]. apply IH. lia.
Qed.

Lemma code_from_Some pc code :
  code_from region codes pc = Some code ->
  exists i b, region !! i = Some b /\ codes !! i = Some code /\ start_pc b = pc.
Proof.
  clear. revert codes. induction region as [|b rg IH]; intros [|c cs]; simpl; try done.
  destruct (Z.eqb_spec (start_pc b) pc) as [He|Hne].
  - intros [= ->]. by exists 0%nat, b.
  - intros Hc. destruct (IH cs Hc) as (i & b' & ? & ? & ?). by exists (S i), b'.
Qed.

Lemma code_from_None pc :
  length codes = length region -> code_from region codes pc = None -> pc ∉ map start_pc region.
Proof.
  clear. revert codes. induction region as [|b rg IH]; intros [|c cs]; simpl; try done.
  { intros _ _. apply not_elem_of_nil. }
  destruct (Z.eqb_spec (start_pc b) pc) as [He|Hne]; [done|]. intros [= Hl] Hc.
  apply not_elem_of_cons. split; [done|]. by apply (IH cs).
Qed.

End machine.

(** ** The function runs the machine *)

(** What is left of the budget, the slots and the exit a trace ends with. *)
Definition region_post (chunk : Chunk.t) (region : TraceRegion) (nslots : nat) (r : region_end)
    (m' : memory) : Prop :=
  exists m slots β, mem_ok m β slots /\ length slots = nslots /\
  match r with
  | RContinue pc σ _ => holds σ slots /\ m' = exit_fields JIT_CONTINUE pc 0 m
  | RReturn reg z => slots !! Z.to_nat reg = Some z /\ exists pc last,
      match last_return_in_region chunk region with Some (_, r) => last = r | None => True end /\
      m' = exit_fields JIT_RETURN pc last m
  | RTrap => exists pc, m' = exit_fields JIT_TRAP pc 0 m
  | RBudget pc σ =>
    match σ with Some σ => holds σ slots | None => True end /\ m' = exit_fields JIT_BUDGET pc 0 m
  | RStuck => False
  end.

Section runs.
Context (F : list (list inst)).

Definition exits (p : point) (m' : memory) : Prop :=
  exists p', rtc (goes F) p p' /\ step F p' = Returned m'.

Lemma exits_rtc p p' m' : rtc (goes F) p p' -> exits p' m' -> exits p m'.
Proof. intros Hr (p2 & Hr2 & Hs). exists p2. split; [by etrans|done]. Qed.

(** An execution that leaves is one that enough fuel runs. *)
Lemma exits_run p m' : exits p m' -> exists fuel, run F fuel p = Some (Returned m').
Proof.
  intros (p' & Hr & Hs). induction Hr as [p'|p p1 p' Hg _ IH].
  - exists 1%nat. simpl. by rewrite Hs.
  - destruct (IH Hs) as [fuel Hf]. exists (S fuel). simpl. unfold goes in Hg. by rewrite Hg.
Qed.

Lemma emitted_run {A} N k (mm : E A) e m (Q : outcome A -> Prop) :
  emitted_at F N k mm ->
  (forall bk, cur bk = k -> live bk -> (N <= length (blocks bk))%nat -> (9 <= next_value bk)%nat ->
     wp F mm bk e m Q) ->
  exists o, Q o /\
    match o with
    | Falls _ _ _ _ => True
    | Jumps l e' m' => rtc (goes F) (mk_point k 0 e m) (mk_point l 0 e' m')
    | Returns m' => exits (mk_point k 0 e m) m'
    end.
Proof.
  intros (bk & bk' & a & Hc & Hf & HN & H9 & E1 & HF) Hw. unfold fresh_block in Hf.
  assert (Hl : live bk) by (unfold live; rewrite Hc, Hf; by eexists).
  destruct (Hw bk Hc Hl HN H9 a bk' Hl E1 HF) as (o & Ho & He).
  assert (Hh : here bk e m = mk_point k 0 e m) by (unfold here; by rewrite Hc, Hf).
  rewrite Hh in He. exists o. split; [done|]. destruct o; [done|by apply He|exact He].
Qed.

Context (chunk : Chunk.t) (key : TraceKey.t) (def : FunctionDef.t).
Context (region : TraceRegion) (codes : list (list (Z * Instruction.t))).
Context (Hly : layout F chunk key def region codes).
Context (Hnd : NoDup (map start_pc region)) (Hlen : length codes = length region).
Context (Hcall : has_call codes = false).
Context (Hcodes : Forall (Forall (fun p => instruction_ok (snd p))) codes).

Abbreviation the_map := (block_map region 3 ∅).
Abbreviation the_base e := (base SLOTS_PTR BUDGET_PTR e 5).

Lemma map_bound (pc : Z) k : the_map !! pc = Some k -> (k < 3 + length region)%nat.
Proof.
  intros Hk. destruct (decide (pc ∈ map start_pc region)) as [Hin|Hnin].
  - apply list_elem_of_fmap in Hin as (b & -> & Hb). apply list_elem_of_lookup in Hb as [i Hi].
    rewrite (block_map_start _ _ _ i b Hnd Hi) in Hk. injection Hk as <-.
    apply lookup_lt_Some in Hi. lia.
  - rewrite block_map_other in Hk by done. by rewrite lookup_empty in Hk.
Qed.

Lemma code_from_map pc :
  match code_from region codes pc, the_map !! (pc : Z) with
  | Some code, Some k => emitted_at F (3 + length region) k
      (emit_block (trace_context chunk region codes) BUDGET_PTR
        (RegisterMap.new (FunctionDef.num_registers def)) code) /\
      Forall (fun p => instruction_ok (snd p)) code
  | None, None => True
  | _, _ => False
  end.
Proof.
  destruct (code_from region codes pc) as [code|] eqn:Ec.
  - apply code_from_Some in Ec as (i & b & Hi & Hc & <-).
    rewrite (block_map_start _ _ _ i b Hnd Hi). split; [by apply (ly_blocks _ _ _ _ _ _ Hly i b)|].
    exact (Forall_lookup_1 _ _ _ _ Hcodes Hc).
  - apply (code_from_None region codes pc Hlen) in Ec. by rewrite block_map_other.
Qed.

Lemma exit_block k kind pc reg e m β slots :
  emitted_at F 0 k (write_exit 0 kind pc reg) -> the_base e -> mem_ok m β slots ->
  exits (mk_point k 0 e m) (exit_fields kind pc reg m).
Proof.
  intros He Hb Hm.
  destruct (emitted_run 0 k _ e m (fun o => o = Returns (exit_fields kind pc reg m)) He)
    as (o & -> & Ho); [|exact Ho].
  intros bk _ _ _ H9. eapply (wp_write_exit F SLOTS_PTR BUDGET_PTR); [|exact Hm|done].
  eapply base_agree; [exact Hb|apply agree_refl|lia].
Qed.

(** The start of a block, with the register file in the slots. *)
Record entered_ok (β : Z) (σ slots : list Z) (e : env) (m : memory) : Prop := {
  eo_base : the_base e;
  eo_mem : mem_ok m β slots;
  eo_holds : holds σ slots;
  eo_count : Z.of_nat (length σ) = FunctionDef.num_registers def;
  eo_slots : (length σ <= length slots)%nat;
  eo_small : (length σ <= 256)%nat }.

Lemma block_runs code k β σ slots e m :
  emitted_at F (3 + length region) k
    (emit_block (trace_context chunk region codes) BUDGET_PTR
      (RegisterMap.new (FunctionDef.num_registers def)) code) ->
  Forall (fun p => instruction_ok (snd p)) code -> entered_ok β σ slots e m -> in_u 32 β ->
  native_block chunk the_map true code σ β <> NStuck ->
  exists o, block_post SLOTS_PTR BUDGET_PTR (trace_context chunk region codes)
      (native_block chunk the_map true code σ β) (length slots) o /\
    match o with
    | Falls _ _ _ _ => True
    | Jumps l e' m' => rtc (goes F) (mk_point k 0 e m) (mk_point l 0 e' m')
    | Returns m' => exits (mk_point k 0 e m) m'
    end.
Proof.
  intros He Hok [Hb Hm Hh Hc Hs H256] Hβ Hst. eapply emitted_run; [exact He|].
  intros bk Hcur Hl HN H9.
  eapply (wp_block F SLOTS_PTR BUDGET_PTR (trace_context chunk region codes) eq_refl eq_refl
    (3 + length region)); try done; [unfold trace_context, TRAP_BLOCK; simpl; lia|apply map_bound|].
  constructor; [|done| |done].
  - eapply base_agree; [exact Hb|apply agree_refl|lia].
  - rewrite <- Hc. by apply regs_ok_new.
Qed.

Lemma region_runs fuel pc σ β e m slots k r :
  native_region chunk region codes fuel pc σ β = Some r -> r <> RStuck ->
  the_map !! (pc : Z) = Some k -> entered_ok β σ slots e m -> in_u 32 β ->
  exists m', exits (mk_point k 0 e m) m' /\ region_post chunk region (length slots) r m'.
Proof.
  revert pc σ β e m slots k. induction fuel as [|fuel IH]; intros pc σ β e m slots k; [done|].
  cbn [native_region]. intros Hr Hst Hk Hok Hβ. pose proof (code_from_map pc) as Hpc.
  rewrite Hk in Hpc. destruct (code_from region codes pc) as [code|]; [|done].
  destruct Hpc as [He Hcode].
  assert (Hns : native_block chunk the_map true code σ β <> NStuck).
  { intros Hn. rewrite Hn in Hr. by injection Hr as <-. }
  destruct (block_runs code k β σ slots e m He Hcode Hok Hβ Hns) as (o & Ho & Hp).
  destruct (native_block chunk the_map true code σ β) as [pc'  σ'|pc' σ' β'|reg z| |] eqn:En; try done.
  - destruct Ho as (m1 & slots1 & -> & Hm1 & Hl1 & Hh1). injection Hr as <-. eexists.
    split; [exact Hp|]. exists m1, slots1, 0. by split_and!.
  - destruct Ho as (m1 & slots1 & Hm1 & Hl1 & Hh1 & Ho). cbn [ec_pc_to_block trace_context] in Ho.
    apply native_block_goto in En as [Hβ' Hlσ]; [|unfold in_u in Hβ; lia].
    pose proof (code_from_map pc') as Hpc'. destruct (the_map !! (pc' : Z)) as [k'|] eqn:Ek'.
    + destruct Ho as (e1 & -> & Hb1).
      destruct (IH pc' σ' β' e1 m1 slots1 k' Hr Hst Ek') as (m' & Hx & Hpost);
        [|unfold in_u in *; lia|].
      { destruct Hok. constructor; try done; by rewrite ?Hlσ, ?Hl1. }
      exists m'. split; [by eapply exits_rtc|by rewrite <- Hl1].
    + subst o. destruct fuel as [|fuel]; [done|]. cbn [native_region] in Hr.
      destruct (code_from region codes pc'); [done|]. injection Hr as <-. eexists.
      split; [exact Hp|]. exists m1, slots1, β'. by split_and!.
  - destruct Ho as (e1 & m1 & slots1 & β1 & -> & Hb1 & Hm1 & Hl1 & Hz). injection Hr as <-.
    destruct (ly_return _ _ _ _ _ _ Hly) as (pc1 & last & Hlast & Hret).
    eexists. split; [eapply exits_rtc; [exact Hp|by eapply exit_block]|].
    exists m1, slots1, β1. split_and!; [done|done|done|]. by exists pc1, last.
  - destruct Ho as (β1 & e1 & m1 & slots1 & -> & Hb1 & Hm1 & Hl1). injection Hr as <-.
    destruct (ly_trap _ _ _ _ _ _ Hly) as (pc1 & Htrap).
    eexists. split; [eapply exits_rtc; [exact Hp|by eapply exit_block]|].
    exists m1, slots1, β1. split_and!; [done|done|]. by exists pc1.
Qed.

(** The first block, up to the entry block. *)
Lemma prologue_runs entry t m :
  F !! 0%nat = Some (prologue ++ [jump entry] ++ t) ->
  m !! (JitClif.Frame, 0) = Some (Ptr Slots 0) ->
  m !! (JitClif.Frame, OFF_CALL_STACK) = Some (Ptr Stack 0) ->
  exists e, the_base e /\
    rtc (goes F) (mk_point 0 0 {[ 0%nat := Ptr JitClif.Frame 0 ]} m) (mk_point entry 0 e m).
Proof.
  intros HF H0 Hs.
  assert (Hfetch : forall i e I, (prologue ++ [jump entry]) !! i = Some I ->
    fetch F (mk_point 0 i e m) = Some I).
  { intros i e I HI. unfold fetch. simpl pt_block. rewrite HF, app_assoc. simpl mbind.
    exact (lookup_app_l_Some (prologue ++ [jump entry]) t i I HI). }
  eexists. split; cycle 1.
  - do 9 (eapply rtc_l; [unfold goes; erewrite native_step_at by (apply Hfetch; reflexivity);
      cbn -[insert lookup]; repeat first [rewrite lookup_insert_eq | rewrite lookup_insert_ne by done
        | rewrite lookup_singleton_eq]; cbn -[insert lookup];
      change (0 + wrap_i 64 OFF_CALL_STACK) with OFF_CALL_STACK; rewrite ?H0, ?Hs;
      cbn -[insert lookup]; reflexivity|]).
    reflexivity.
  - constructor; [done..|unfold SLOTS_PTR, BUDGET_PTR; lia].
Qed.

(** A call of the function is a run of the machine from the entry of the trace. *)
Lemma trace_runs fuel σ β m slots r :
  m !! (JitClif.Frame, 0) = Some (Ptr Slots 0) ->
  m !! (JitClif.Frame, OFF_CALL_STACK) = Some (Ptr Stack 0) ->
  mem_ok m β slots -> holds σ slots -> Z.of_nat (length σ) = FunctionDef.num_registers def ->
  (length σ <= length slots)%nat -> (length σ <= 256)%nat -> in_u 32 β ->
  native_region chunk region codes fuel (TraceKey.entry_pc key) σ β = Some r -> r <> RStuck ->
  exists fuel' m', call_function F fuel' m = Some (Returned m') /\
    region_post chunk region (length slots) r m'.
Proof.
  intros H0 Hs Hm Hh Hn Hle H256 Hβ Hr Hst.
  destruct (ly_entry _ _ _ _ _ _ Hly) as (entry & t & Hentry & HF).
  destruct (prologue_runs entry t m HF H0 Hs) as (e & Hb & Hp).
  destruct (region_runs fuel _ σ β e m slots entry r Hr Hst Hentry) as (m' & Hx & Hpost); [|done|].
  { by constructor. }
  destruct (exits_run _ _ (exits_rtc _ _ _ Hp Hx)) as [fuel' Hf]. by exists fuel', m'.
Qed.

End runs.
