(* ===== verification/JitReference.v ===== *)
(** A back end that satisfies what the development asks of Cranelift: it compiles the
    functions whose blocks are filled and that have no loops, and runs them as their
    instructions mean.  The theorems about Cranelift are used at it. *)

From S2P Require Import Prelude JitClif JitTrace.

Definition successors (i : inst) : list block :=
  match i with brif _ a b => [a; b] | jump b => [b] | _ => [] end.

Section bounded.
Context (F : list (list inst)).

(** No path of [d] blocks from [k]; and the steps of the paths from [k]. *)
Fixpoint loop_free (d : nat) (k : block) : bool :=
  match d with
  | O => false
  | S d =>
    match F !! k with
    | Some code => forallb (loop_free d) (concat (map successors code))
    | None => true
    end
  end.

Fixpoint steps (d : nat) (k : block) : nat :=
  match d with
  | O => O
  | S d =>
    match F !! k with
    | Some code => S (length code + list_max (map (steps d) (concat (map successors code))))
    | None => 1
    end
  end.

Lemma step_next p p' : step F p = Running p' ->
  (pt_block p' = pt_block p /\ pt_index p' = S (pt_index p)) \/
  (pt_index p' = 0%nat /\ exists i, fetch F p = Some i /\ pt_block p' ∈ successors i).
Proof.
  assert (Hdef : forall v c, define_value p v c = Running p' ->
    pt_block p' = pt_block p /\ pt_index p' = S (pt_index p)) by by intros v [c|] [= <-].
  unfold step. destruct (fetch F p) as [i|] eqn:Ei; [|done].
  destruct i as [| |x addr| | | | |c b1 b2|b|]; try (by intros ?%Hdef; left).
  - destruct (pt_env p !! x) as [cx|]; [|done]. destruct (pt_env p !! addr) as [a|]; [|done]. simpl.
    destruct (mem_store _ _ _); [|done]. intros [= <-]. by left.
  - destruct (pt_env p !! c ≫= truth) as [[]|]; intros [= <-]; right; (split; [done|]);
      eexists; (split; [done|]); simpl; set_solver.
  - intros [= <-]. right. split; [done|]. eexists. split; [done|]. simpl. set_solver.
  - done.
Qed.

Lemma step_fetch p : fetch F p = None -> step F p = Stuck.
Proof. unfold step. by intros ->. Qed.

Lemma loop_free_run d k i e m n :
  loop_free d k = true -> (i <= length (default [] (F !! k)))%nat -> (steps d k <= n + i)%nat ->
  run F n (mk_point k i e m) <> None.
Proof.
  revert k i e m n. induction d as [|d IH]; intros k i e m n; [done|].
  cbn [loop_free steps]. destruct (F !! k) as [code|] eqn:Ek; simpl.
  2: { intros _ Hi Hn. destruct n as [|n]; [lia|]. cbn [run].
    rewrite step_fetch; [done|]. unfold fetch. simpl. by rewrite Ek. }
  intros Hlf. revert i e m. induction n as [|n IHn]; intros i e m Hi Hn; [lia|]. cbn [run].
  destruct (step F (mk_point k i e m)) as [p'| |] eqn:Es; [|done..].
  destruct (step_next _ _ Es) as [[Hk Hpi]|(Hpi & inst & Hf & Hin)]; simpl in *.
  - destruct p' as [k' i' e' m']. simpl in *. subst k' i'. apply IHn; [|lia].
    destruct (decide (i < length code)%nat) as [|Hge]; [lia|].
    rewrite step_fetch in Es; [done|]. unfold fetch. simpl. rewrite Ek. simpl.
    apply lookup_ge_None. lia.
  - destruct p' as [k' i' e' m']. simpl in *. subst i'. unfold fetch in Hf. simpl in Hf.
    rewrite Ek in Hf. simpl in Hf.
    assert (Hsucc : k' ∈ concat (map successors code)).
    { apply list_elem_of_In, in_concat. exists (successors inst).
      split; [by apply in_map, list_elem_of_In; eapply list_elem_of_lookup_2|by apply list_elem_of_In]. }
    apply IH; [|lia|].
    + apply list_elem_of_In in Hsucc. by apply (proj1 (forallb_forall _ _) Hlf).
    + assert (steps d k' <= list_max (map (steps d) (concat (map successors code))))%nat; [|lia].
      assert (Hall : Forall (fun x => x <= list_max (map (steps d) (concat (map successors code))))%nat
        (map (steps d) (concat (map successors code)))) by by apply list_max_le.
      rewrite Forall_forall in Hall. by apply Hall, list_elem_of_fmap_2.
Qed.

Lemma run_more n n' p r : run F n p = Some r -> (n <= n')%nat -> run F n' p = Some r.
Proof.
  revert n' p. induction n as [|n IH]; intros [|n'] p; try done; [lia|]. cbn [run].
  destruct (step F p); [|done..]. intros Hr Hn. apply IH; [done|lia].
Qed.

End bounded.

(** ** The back end *)

Definition accepts (F : list (list inst)) : bool :=
  forallb filled F && loop_free F (S (length F)) 0.

Definition reference_define (defined : list TraceKey.t) (key : TraceKey.t) (F : list (list inst))
  : result (list (list inst)) string * list TraceKey.t :=
  if bool_decide (key ∈ defined) then (Err "Duplicate definition of identifier", defined)
  else if accepts F then (Ok F, key :: defined) else (Err "refused", defined).

#[export] Instance reference : Cranelift TraceKey.t (list TraceKey.t) (list (list inst)) := {
  create_module := Ok [];
  define_function := reference_define;
  call_native F m :=
    match call_function F (steps F (S (length F)) 0) m with
    | Some (Returned m') => Some m'
    | _ => None
    end }.

#[export] Instance reference_sound : CraneliftSound TraceKey.t (list TraceKey.t) (list (list inst)).
Proof.
  split.
  - intros m k F c m'. simpl. unfold reference_define, accepts.
    destruct (bool_decide _); [done|]. destruct (forallb filled F) eqn:Hf; [|done].
    cbn [andb]. destruct (loop_free F (S (length F)) 0); [|done]. intros Hd. by injection Hd as <- _.
  - intros m k F c m' mem mem' fuel. cbn [define_function call_native reference]. unfold reference_define, accepts.
    destruct (bool_decide _); [done|]. destruct (forallb filled F) eqn:Hf; [|done]. cbn [andb].
    destruct (loop_free F (S (length F)) 0) eqn:Hl; [|done]. intros Hd Hrun. injection Hd as <- _. unfold call_function in *.
    pose proof (loop_free_run F (S (length F)) 0 0 {[ 0%nat := Ptr Frame 0 ]} mem
      (steps F (S (length F)) 0) Hl ltac:(lia) ltac:(lia)) as Hn.
    destruct (run F (steps F (S (length F)) 0) (mk_point 0 0 {[ 0%nat := Ptr Frame 0 ]} mem))
      as [r|] eqn:Er; [|done].
    destruct (decide (fuel <= steps F (S (length F)) 0)%nat).
    + rewrite (run_more F _ _ _ _ Hrun) in Er by done. by injection Er as <-.
    + rewrite (run_more F _ _ _ _ Er) in Hrun by lia. by injection Hrun as ->.
Qed.
