(* ===== verification/JitSound.v ===== *)
(** The trace JIT computes what the interpreter computes: a native run of a compiled
    region, as register instructions of the interpreter, on the integer programs it is
    specialised for. *)

From S2P Require Import Prelude Capability F64 Values Isa Verify Sync JitTrace JitClif.
From S2P Require Import JitCompiler JitTheory JitLower JitExec JitSim JitRegion.
From S2P Require Vm VmTheory VmExec JitDispatch.
Abbreviation slot_of := JitDispatch.slot_of.
Abbreviation local_step := VmExec.local_step.

(** ** Registers and slots *)

Definition slot_rel (z : Z) (v : Value.t) : Prop := slot_of v = Some z /\ in_i 64 z.
Abbreviation related := (Forall2 slot_rel).

Lemma related_get σ regs r z v :
  related σ regs -> get σ r = Some z -> get regs r = Some v -> slot_rel z v.
Proof. intros Hr. rewrite !get_eq. intros Hz Hv. by eapply Forall2_lookup_lr. Qed.

Lemma related_get_r σ regs r v :
  related σ regs -> get regs r = Some v -> exists z, get σ r = Some z /\ slot_rel z v.
Proof.
  intros Hr. setoid_rewrite get_eq. intros Hv.
  destruct (Forall2_lookup_r _ _ _ _ _ Hr Hv) as (z & ? & ?). by exists z.
Qed.

Lemma related_store σ regs reg z v regs' :
  related σ regs -> slot_rel z v -> VmExec.store regs reg v = Some regs' ->
  related (<[Z.to_nat reg := z]> σ) regs'.
Proof.
  unfold VmExec.store. destruct (get regs reg); [|done]. intros Hr Hz [= <-]. by apply Forall2_insert.
Qed.

Lemma slot_int z x : slot_rel z (Value.Int x) -> x = z /\ in_i 64 z.
Proof. by intros [[= ->] ?]. Qed.

Lemma int_rel x : in_i 64 x -> slot_rel x (Value.Int x).
Proof. by split. Qed.
Lemma wrap_rel x : slot_rel (wrap_i 64 x) (Value.Int (wrap_i 64 x)).
Proof. apply int_rel. apply wrap_i_range. lia. Qed.
Lemma bool_rel b : slot_rel (Z.b2z b) (Value.Bool b).
Proof. split; [done|by destruct b]. Qed.

(** The native test of a condition is the interpreter's. *)
Lemma slot_truthy z v : slot_rel z v -> Value.is_truthy v = negb (z =? 0).
Proof.
  intros [Hs _]. destruct v as [|b|x| | | | | |]; try done; simpl in *.
  - by injection Hs as <-.
  - injection Hs as <-. by destruct b.
  - injection Hs as <-. by destruct x.
Qed.

(** ** What traces are specialised for *)

Definition same_kind (v w : Value.t) : bool :=
  match v, w with
  | Value.Int _, Value.Int _ | Value.Bool _, Value.Bool _ | Value.Unit, Value.Unit => true
  | _, _ => false
  end.

(** Equality of values of one kind; no division of the least integer by -1, which traps
    the host. *)
Definition specialised (regs : list Value.t) (i : Instruction.t) : bool :=
  match Instruction.op i, get regs (Instruction.b i), get regs (Instruction.c i) with
  | Opcode.Eq, Some v, Some w => same_kind v w
  | Opcode.Div, Some (Value.Int x), Some (Value.Int y) => negb ((y =? -1) && (x =? - 2 ^ 63))
  | _, _, _ => true
  end.

(** The native operation is the interpreter's. *)
Lemma native_op_sound op x y v w r :
  op ∈ [Opcode.Add; Opcode.Sub; Opcode.Mul; Opcode.Div; Opcode.Mod; Opcode.Eq; Opcode.Lt; Opcode.Le] ->
  slot_rel x v -> slot_rel y w -> Vm.binop_value op v w = Ok r ->
  (op = Opcode.Eq -> same_kind v w = true) ->
  (op = Opcode.Div -> forall a b, v = Value.Int a -> w = Value.Int b ->
     (b =? -1) && (a =? - 2 ^ 63) = false) ->
  exists z, native_op op x y = Some z /\ slot_rel z r /\
    (op = Opcode.Div \/ op = Opcode.Mod -> (y =? 0) = false).
Proof.
  intros Hop [Hx Hxr] [Hy Hyr] Hr Heq Hdiv.
  destruct v as [|bv|xv| | | | | |], w as [|bw|yw| | | | | |]; try done;
    simpl in Hx, Hy; injection Hx as <-; injection Hy as <-.
  all: rewrite !elem_of_cons, elem_of_nil in Hop; destruct_or! Hop; try done; subst op;
    try (specialize (Heq eq_refl)); try done; cbn in Hr |- *; try done.
  - injection Hr as <-. exists 1. split_and!; [done|by apply (bool_rel true)|by intros [|]].
  - injection Hr as <-. eexists. split_and!; [done| |by intros [|]].
    destruct bv, bw; first [apply (bool_rel true) | apply (bool_rel false)].
  - injection Hr as <-. eexists. split_and!; [done|apply wrap_rel|by intros [|]].
  - injection Hr as <-. eexists. split_and!; [done|apply wrap_rel|by intros [|]].
  - injection Hr as <-. eexists. split_and!; [done|apply wrap_rel|by intros [|]].
  - specialize (Hdiv eq_refl xv yw eq_refl eq_refl).
    rewrite Hdiv. destruct (yw =? 0); [done|]. injection Hr as <-. simpl.
    eexists. split_and!; [done|apply wrap_rel|done].
  - destruct (Z.eqb_spec yw 0) as [|Hne]; [done|]. injection Hr as <-.
    assert (Hrem : in_i 64 (Z.rem xv yw)).
    { unfold in_i in *. pose proof (Z.rem_bound_abs xv yw Hne). lia. }
    rewrite wrap_i_id by done. eexists. split_and!; [done|by apply int_rel|done].
  - injection Hr as <-. eexists. split_and!; [done|apply bool_rel|by intros [|]].
  - injection Hr as <-. eexists. split_and!; [done|apply bool_rel|by intros [|]].
  - injection Hr as <-. eexists. split_and!; [done|apply bool_rel|by intros [|]].
Qed.

Section sound.
Context (checks : bool) (ch : Chunk.t).
Context (Hwf : code_wf ch) (Hok : chunk_ok ch).
Context (Hlen : Z.of_nat (length (Chunk.code ch)) < 2 ^ 32).

Lemma instr_at_ok pc i : instr_at ch pc = Some i ->
  instruction_ok i /\ instr_wf ch (Z.to_nat pc) i /\ pc < Z.of_nat (length (Chunk.code ch)) \/ pc < 0.
Proof.
  unfold instr_at. rewrite get_eq. intros Hi. destruct (Z.ltb_spec pc 0); [by right|left].
  destruct Hwf as (_ & _ & Hcode), Hok as (_ & _ & Hins & _).
  split_and!; [exact (Forall_lookup_1 _ _ _ _ Hins Hi)|by apply Hcode|].
  apply lookup_lt_Some in Hi. lia.
Qed.

(** Register instructions other than divisions. *)
Lemma native_data_sound pc regs σ i q :
  0 <= pc -> instr_at ch pc = Some i -> stops_recording ch i = false -> falls_through i = true ->
  Instruction.op i <> Opcode.Div -> Instruction.op i <> Opcode.Mod ->
  related σ regs -> specialised regs i = true -> VmExec.local_instr checks ch (pc + 1) regs i = Some q ->
  exists σ' regs', q = (pc + 1, regs') /\ native_data ch i σ = Some σ' /\ related σ' regs'.
Proof.
  intros Hpc Hi Hst Hft Hnd Hnm Hr Hsp.
  destruct (instr_at_ok pc i Hi) as [((_ & _ & _ & Himm) & _ & _)|]; [|lia].
  assert (Hset : forall z v, slot_rel z v ->
    (fun r => (pc + 1, r)) <$> VmExec.store regs (Instruction.a i) v = Some q ->
    exists σ' regs', q = (pc + 1, regs') /\
      Some (<[Z.to_nat (Instruction.a i) := z]> σ) = Some σ' /\ related σ' regs').
  { intros z v Hz Hs. destruct (VmExec.store _ _ _) as [regs'|] eqn:Es; [|done]. injection Hs as <-.
    eexists _, regs'. split_and!; [done|done|by eapply related_store]. }
  assert (Hbin : forall op, Instruction.op i = op ->
    op ∈ [Opcode.Add; Opcode.Sub; Opcode.Mul; Opcode.Eq; Opcode.Lt; Opcode.Le] ->
    (a ← get regs (Instruction.b i); b ← get regs (Instruction.c i);
     match Vm.binop_value op a b with
     | Ok v => (fun r => (pc + 1, r)) <$> VmExec.store regs (Instruction.a i) v
     | Err _ => None
     end) = Some q ->
    exists σ' regs', q = (pc + 1, regs') /\
      (x ← get σ (Instruction.b i); y ← get σ (Instruction.c i);
       (fun z => <[Z.to_nat (Instruction.a i) := z]> σ) <$> native_op op x y) = Some σ' /\
      related σ' regs').
  { intros op Hop Hin Hq. destruct (get regs (Instruction.b i)) as [v|] eqn:Ev; [|done].
    destruct (get regs (Instruction.c i)) as [w|] eqn:Ew; [|done]. simpl in Hq.
    destruct (Vm.binop_value op v w) as [r|] eqn:Eb; [|done].
    destruct (related_get_r _ _ _ _ Hr Ev) as (x & -> & Hx), (related_get_r _ _ _ _ Hr Ew) as (y & -> & Hy).
    destruct (native_op_sound op x y v w r) as (z & Hz & Hzr & _); try done.
    - clear -Hin. set_solver.
    - intros ->. unfold specialised in Hsp. by rewrite Hop, Ev, Ew in Hsp.
    - intros ->. done.
    - simpl. rewrite Hz. simpl. by eapply Hset. }
  unfold VmExec.local_instr, native_data, falls_through in *.
  destruct (Instruction.op i) eqn:Ho; try done;
    try (refine (Hbin _ eq_refl _); rewrite !elem_of_cons; by auto 8).
  - unfold stops_recording in Hst. rewrite Ho in Hst. simpl in Hst.
    destruct (Chunk.constant ch _) as [c|] eqn:Ec; [|done]. simpl. destruct c; try done.
    + apply Hset, bool_rel.
    + intros Hs. destruct Hok as (_ & Hconst & _). unfold Chunk.constant in Ec. rewrite get_eq in Ec.
      pose proof (Forall_lookup_1 _ _ _ _ Hconst Ec) as Hi'. simpl in Hi'.
      rewrite (wrap_i_id 64) by done. by eapply Hset; [apply int_rel|].
  - destruct (get regs (Instruction.b i)) as [v|] eqn:Ev; [|done]. simpl.
    destruct (related_get_r _ _ _ _ Hr Ev) as (x & -> & Hx). simpl. by apply Hset.
  - rewrite wrap_i_id by (unfold in_i in *; lia). apply Hset, int_rel. unfold in_i in *. lia.
  - destruct (get regs (Instruction.b i)) as [v|] eqn:Ev; [|done]. simpl.
    destruct (related_get_r _ _ _ _ Hr Ev) as (x & -> & Hx). simpl.
    destruct v as [| |a|a| | | | |]; try done; [|by destruct Hx].
    destruct (slot_int _ _ Hx) as [<- Ha]. intros Hs.
    destruct (checked_i checks 64 (- a)) as [y|] eqn:Ey; [|done]. simpl in Hs.
    assert (wrap_i 64 (0 - a) = y /\ in_i 64 y) as [-> Hy].
    { unfold checked_i in Ey. destruct (in_ib 64 (- a)) eqn:Eb.
      - injection Ey as <-. apply in_ib_spec in Eb. by rewrite Z.sub_0_l, wrap_i_id.
      - destruct checks; [done|]. injection Ey as <-. split; [done|apply wrap_i_range; lia]. }
    by eapply Hset; [apply int_rel|].
  - intros [= <-]. by exists σ, regs.
Qed.

(** Targets of verified jumps are what the compiler computes. *)
Lemma jump_target_sound pc i :
  0 <= pc -> instr_at ch pc = Some i ->
  Instruction.op i = Opcode.Jump \/ Instruction.op i = Opcode.Branch ->
  Vm.jump_target checks (pc + 1) (Instruction.imm i) = Some (jump_target pc (Instruction.imm i)) /\
  in_u 32 (jump_target pc (Instruction.imm i)).
Proof.
  intros Hpc Hi Ho. destruct (instr_at_ok pc i Hi) as [(_ & Hw & Hlt)|]; [|lia].
  assert (Ht : 0 <= pc + 1 + Instruction.imm i <= Z.of_nat (length (Chunk.code ch))).
  { unfold instr_wf in Hw. rewrite Z2Nat.id in Hw by done. by destruct Ho as [Ho|Ho]; rewrite Ho in Hw. }
  unfold Vm.jump_target, jump_target. rewrite (wrap_i_id 64) by (unfold in_i; lia).
  rewrite checked_i_id by (unfold in_i; lia). simpl.
  rewrite !wrap_u_id by (unfold in_u; lia). split; [done|unfold in_u; lia].
Qed.

Lemma instr_pc_bound pc i : 0 <= pc -> instr_at ch pc = Some i -> in_u 32 pc.
Proof. intros Hpc Hi. destruct (instr_at_ok pc i Hi) as [(_ & _ & ?)|]; unfold in_u; lia. Qed.

Lemma next_pc_bound pc i : 0 <= pc -> instr_at ch pc = Some i -> in_u 32 (pc + 1).
Proof. intros Hpc Hi. destruct (instr_at_ok pc i Hi) as [(_ & _ & ?)|]; unfold in_u; lia. Qed.

(** ** What the interpreter must do for a trace to follow it *)

Definition zero_division (regs : list Value.t) (i : Instruction.t) : bool :=
  match Instruction.op i, get regs (Instruction.b i), get regs (Instruction.c i) with
  | (Opcode.Div | Opcode.Mod), Some (Value.Int _), Some (Value.Int y) => y =? 0
  | _, _, _ => false
  end.

(** An instruction a trace runs as the interpreter does: a return of a register, a
    division by zero, or a specialised instruction that does not fault. *)
Definition supported (p : Z * list Value.t) : bool :=
  match instr_at ch (fst p) with
  | None => false
  | Some i =>
    match Instruction.op i with
    | Opcode.Return => bool_decide (is_Some (get (snd p) (Instruction.a i)))
    | _ => zero_division (snd p) i ||
           (specialised (snd p) i && bool_decide (is_Some (local_step checks ch p)))
    end
  end.

(** For [n] steps, or until it leaves [pcs], the interpreter runs supported instructions. *)
Fixpoint stays (pcs : list Z) (n : nat) (p : Z * list Value.t) : bool :=
  match n with
  | O => true
  | S n =>
    if decide (fst p ∈ pcs)
    then supported p && match local_step checks ch p with Some q => stays pcs n q | None => true end
    else true
  end.

Lemma zero_division_halts regs i pc : zero_division regs i = true ->
  instr_at ch pc = Some i -> local_step checks ch (pc, regs) = None.
Proof.
  unfold zero_division. intros Hz Hi. unfold local_step. change (get (Chunk.code ch) (fst (pc, regs)))
    with (instr_at ch pc). rewrite Hi. simpl. unfold VmExec.local_instr.
  destruct (Instruction.op i); try done.
  all: destruct (get regs (Instruction.b i)) as [[]|]; try done.
  all: destruct (get regs (Instruction.c i)) as [[]|]; try done.
  all: simpl in *; by rewrite Hz.
Qed.

(** ** Blocks *)

(** [k] instructions of the interpreter from [p]. *)
Abbreviation runs k p q := (VmExec.local_run checks k ch p = Some q).

Definition returning (pc : Z) (regs : list Value.t) (reg z : Z) : Prop :=
  exists i v, instr_at ch pc = Some i /\ Instruction.op i = Opcode.Return /\
    Instruction.a i = reg /\ get regs reg = Some v /\ slot_rel z v.

Definition dividing_by_zero (pc : Z) (regs : list Value.t) : Prop :=
  exists i, instr_at ch pc = Some i /\ zero_division regs i = true.

(** How a block ends, as a run of the interpreter from [p] with budget [β]. *)
Definition block_sound (pcs : list Z) (p : Z * list Value.t) (β : Z) (r : block_end) : Prop :=
  match r with
  | NBudget pc σ => exists k regs, Z.of_nat k = β /\ in_u 32 pc /\ runs k p (pc, regs) /\
      match σ with Some σ => related σ regs | None => True end
  | NGoto pc σ β' => exists k regs, Z.of_nat k = β - β' /\ in_u 32 pc /\ runs k p (pc, regs) /\
      related σ regs /\ stays pcs (Z.to_nat β') (pc, regs) = true
  | NReturn reg z => exists k pc regs, Z.of_nat k < β /\ runs k p (pc, regs) /\
      pc ∈ pcs /\ returning pc regs reg z
  | NTrap => exists k pc regs, Z.of_nat k < β /\ runs k p (pc, regs) /\ dividing_by_zero pc regs
  | NStuck => False
  end.

Lemma block_sound_step pcs p q β r :
  local_step checks ch p = Some q -> 0 < β -> block_sound pcs q (β - 1) r ->
  block_sound pcs p β r.
Proof.
  intros Hs Hβ. destruct r; simpl.
  - intros (k & regs & Hk & H32 & Hr & Hrel). exists (S k), regs. simpl. rewrite Hs. simpl.
    split; [lia|done].
  - intros (k & regs & Hk & H0 & Hr & Hrel & Hst). exists (S k), regs. simpl. rewrite Hs. simpl.
    split; [lia|done].
  - intros (k & pc & regs & Hk & Hr & Hret). exists (S k), pc, regs. simpl. rewrite Hs. simpl.
    split; [lia|done].
  - intros (k & pc & regs & Hk & Hr & Hret). exists (S k), pc, regs. simpl. rewrite Hs. simpl.
    split; [lia|done].
  - done.
Qed.

Lemma recorded_step_eq pc regs i :
  instr_at ch pc = Some i -> local_step checks ch (pc, regs) = VmExec.local_instr checks ch (pc + 1) regs i.
Proof.
  intros Hi. unfold local_step. change (get (Chunk.code ch) (fst (pc, regs))) with (instr_at ch pc).
  by rewrite Hi.
Qed.

Lemma native_block_data m first pc i code σ β :
  β <> 0 -> falls_through i = true -> Instruction.op i <> Opcode.Div -> Instruction.op i <> Opcode.Mod ->
  native_block ch m first ((pc, i) :: code) σ β =
  match native_data ch i σ with Some σ => native_block ch m false code σ (β - 1) | None => NStuck end.
Proof.
  intros Hβ Hf Hd Hm. cbn [native_block]. rewrite (proj2 (Z.eqb_neq β 0)) by done.
  unfold falls_through in Hf. by destruct (Instruction.op i).
Qed.

(** A branch has a successor in the region. *)
Definition covered (m : gmap Z block) (p : Z * Instruction.t) : Prop :=
  Instruction.op (snd p) = Opcode.Branch ->
  is_Some (m !! (fst p + 1 : Z)) \/ is_Some (m !! (branch_target (fst p) (Instruction.imm (snd p)) : Z)).

(** What is known of every instruction of a block. *)
Record block_instr (m : gmap Z block) (pcs : list Z) (p : Z * Instruction.t) : Prop := {
  bi_at : instr_at ch (fst p) = Some (snd p);
  bi_recorded : stops_recording ch (snd p) = false;
  bi_plain : Instruction.op (snd p) <> Opcode.Call;
  bi_covered : covered m p;
  bi_pcs : fst p ∈ pcs }.

(** The last instruction leaves the block. *)
Definition closes (code : list (Z * Instruction.t)) : bool :=
  match last code with Some p => negb (falls_through (snd p)) | None => false end.

Lemma stays_step pcs β pc regs i :
  0 < β -> pc ∈ pcs -> instr_at ch pc = Some i -> stays pcs (Z.to_nat β) (pc, regs) = true ->
  supported (pc, regs) = true /\
  forall q, local_step checks ch (pc, regs) = Some q -> stays pcs (Z.to_nat (β - 1)) q = true.
Proof.
  intros Hβ Hin Hi. replace (Z.to_nat β) with (S (Z.to_nat (β - 1))) by lia. cbn [stays].
  rewrite decide_True by done. intros [Hs Hq]%andb_true_iff. split; [done|]. intros q Eq. by rewrite Eq in Hq.
Qed.

Lemma supported_step pc regs i :
  instr_at ch pc = Some i -> supported (pc, regs) = true -> Instruction.op i <> Opcode.Return ->
  zero_division regs i = true \/
  (specialised regs i = true /\ exists q, VmExec.local_instr checks ch (pc + 1) regs i = Some q).
Proof.
  intros Hi Hs Hr. unfold supported in Hs. cbn [fst snd] in Hs. rewrite Hi in Hs.
  assert (Hs' : zero_division regs i ||
    (specialised regs i && bool_decide (is_Some (local_step checks ch (pc, regs)))) = true)
    by by destruct (Instruction.op i).
  apply orb_true_iff in Hs' as [Hz|[Hsp Hq]%andb_true_iff]; [by left|right]. split; [done|].
  apply bool_decide_eq_true in Hq as [q Hq]. exists q. by rewrite <- (recorded_step_eq pc regs i Hi).
Qed.

(** A division. *)
Lemma division_sound m pcs first code pc regs σ i β :
  0 <= pc -> 0 < β -> instr_at ch pc = Some i -> pc ∈ pcs -> related σ regs ->
  Instruction.op i = Opcode.Div \/ Instruction.op i = Opcode.Mod ->
  stays pcs (Z.to_nat β) (pc, regs) = true ->
  (forall σ' regs', related σ' regs' -> stays pcs (Z.to_nat (β - 1)) (pc + 1, regs') = true ->
     block_sound pcs (pc + 1, regs') (β - 1) (native_block ch m false code σ' (β - 1))) ->
  block_sound pcs (pc, regs) β (native_block ch m first ((pc, i) :: code) σ β).
Proof.
  intros Hpc Hβ Hi Hin Hr Hop Hst Hrest. destruct (stays_step _ _ _ _ _ Hβ Hin Hi Hst) as [Hs Hq].
  cbn [native_block]. rewrite (proj2 (Z.eqb_neq β 0)) by lia.
  destruct (supported_step _ _ _ Hi Hs) as [Hz|[Hsp [q El]]]; [by destruct Hop as [-> | ->]|..].
  - assert (exists x y v w, get regs (Instruction.b i) = Some v /\ get regs (Instruction.c i) = Some w /\
      v = Value.Int x /\ w = Value.Int y /\ y = 0) as (x & y & v & w & Ev & Ew & -> & -> & ->).
    { unfold zero_division in Hz. destruct Hop as [Hop|Hop]; rewrite Hop in Hz.
      all: destruct (get regs (Instruction.b i)) as [[]|]; try done.
      all: destruct (get regs (Instruction.c i)) as [[]|]; try done.
      all: apply Z.eqb_eq in Hz; by eexists _, _, _, _. }
    destruct (related_get_r _ _ _ _ Hr Ev) as (x' & -> & Hx), (related_get_r _ _ _ _ Hr Ew) as (y' & -> & Hy).
    destruct (slot_int _ _ Hy) as [<- _].
    assert (block_sound pcs (pc, regs) β NTrap) by (exists 0%nat, pc, regs; split_and!; [lia|done|by exists i]).
    by destruct Hop as [-> | ->].
  - rewrite (recorded_step_eq _ _ _ Hi) in Hq. pose proof (recorded_step_eq pc regs i Hi) as Hstep.
    rewrite El in Hstep. specialize (Hq q El). unfold VmExec.local_instr in El.
    assert (El' : (a ← get regs (Instruction.b i); b ← get regs (Instruction.c i);
      match Vm.binop_value (Instruction.op i) a b with
      | Ok v => (fun r => (pc + 1, r)) <$> VmExec.store regs (Instruction.a i) v
      | Err _ => None
      end) = Some q) by by destruct Hop as [Hop|Hop]; rewrite Hop in El |- *.
    destruct (get regs (Instruction.b i)) as [v|] eqn:Ev; [|done].
    destruct (get regs (Instruction.c i)) as [w|] eqn:Ew; [|done]. simpl in El'.
    destruct (Vm.binop_value (Instruction.op i) v w) as [r|] eqn:Eb; [|done].
    destruct (VmExec.store regs _ r) as [regs'|] eqn:Es; [|done]. injection El' as <-.
    destruct (related_get_r _ _ _ _ Hr Ev) as (x & -> & Hx), (related_get_r _ _ _ _ Hr Ew) as (y & -> & Hy).
    destruct (native_op_sound (Instruction.op i) x y v w r) as (z & Hz & Hzr & Hy0); try done.
    { destruct Hop as [-> | ->]; set_solver. }
    { intros Ho. destruct Hop as [Hop|Hop]; congruence. }
    { intros Ho a b -> ->. unfold specialised in Hsp. rewrite Ho, Ev, Ew in Hsp. by apply negb_true_iff. }
    specialize (Hrest _ _ (related_store _ _ _ _ _ _ Hr Hzr Es) Hq).
    rewrite (Hy0 Hop), Hz.
    assert (block_sound pcs (pc, regs) β (native_block ch m false code (<[Z.to_nat (Instruction.a i) := z]> σ) (β - 1)))
      by (eapply block_sound_step; [exact Hstep|lia|done]).
    by destruct Hop as [-> | ->].
Qed.

(** The last instruction of a block. *)
Lemma terminator_sound m pcs first code pc regs σ i β :
  0 <= pc -> 0 < β -> block_instr m pcs (pc, i) -> falls_through i = false -> related σ regs ->
  stays pcs (Z.to_nat β) (pc, regs) = true ->
  block_sound pcs (pc, regs) β (native_block ch m first ((pc, i) :: code) σ β).
Proof.
  intros Hpc Hβ [Hi Hrec Hpl Hcov Hin] Hf Hr Hst. simpl in *.
  destruct (stays_step _ _ _ _ _ Hβ Hin Hi Hst) as [Hs Hq].
  pose proof (recorded_step_eq pc regs i Hi) as Hstep.
  rewrite (proj2 (Z.eqb_neq β 0)) by lia. unfold falls_through in Hf.
  assert (Hgo : forall t q, t = q -> in_u 32 q -> local_step checks ch (pc, regs) = Some (t, regs) ->
    block_sound pcs (pc, regs) β (NGoto q σ (β - 1))).
  { intros t q -> H0 Hl. exists 1%nat, regs. simpl. rewrite Hl. split_and!; [lia|done|done|done|by apply Hq]. }
  destruct (Instruction.op i) eqn:Ho; try done.
  - destruct (jump_target_sound pc i Hpc Hi (or_introl Ho)) as [Ht H0].
    eapply Hgo; [reflexivity|done|]. rewrite Hstep. unfold VmExec.local_instr. rewrite Ho, Ht. done.
  - destruct (jump_target_sound pc i Hpc Hi (or_intror Ho)) as [Ht H0].
    destruct (supported_step _ _ _ Hi Hs) as [Hz|[_ [q El]]]; [by rewrite Ho|..].
    { unfold zero_division in Hz. by rewrite Ho in Hz. }
    rewrite El in Hstep. unfold VmExec.local_instr in El. rewrite Ho in El.
    destruct (get regs (Instruction.a i)) as [c|] eqn:Ec; [|done]. simpl in El.
    destruct (related_get_r _ _ _ _ Hr Ec) as (z & -> & Hz).
    rewrite branch_goto_other by by apply Hcov. rewrite (slot_truthy _ _ Hz) in El.
    destruct (z =? 0); simpl in El.
    + rewrite Ht in El. injection El as <-. by eapply Hgo.
    + injection El as <-. eapply Hgo; [reflexivity|by eapply next_pc_bound|done].
  - unfold supported in Hs. cbn [fst snd] in Hs. rewrite Hi, Ho in Hs.
    apply bool_decide_eq_true in Hs as [v Hv].
    destruct (related_get_r _ _ _ _ Hr Hv) as (z & -> & Hz).
    exists 0%nat, pc, regs. split_and!; [lia|done|done|]. by exists i, v.
Qed.

Lemma native_block_sound m pcs first code pc regs σ β :
  recorded ch pc (map fst code) -> Forall (block_instr m pcs) code -> closes code = true ->
  0 <= pc -> 0 <= β -> related σ regs -> stays pcs (Z.to_nat β) (pc, regs) = true ->
  block_sound pcs (pc, regs) β (native_block ch m first code σ β).
Proof.
  revert first pc regs σ β. induction code as [|[p i] code IH]; [done|].
  intros first pc regs σ β Hrec Hc Hcl Hpc Hβ Hr Hst.
  assert (p = pc) as -> by by inversion Hrec.
  apply Forall_cons in Hc as [Hi Hc].
  destruct (decide (β = 0)) as [->|Hβ0].
  { cbn [native_block]. exists 0%nat, regs.
    split_and!; [done|by eapply instr_pc_bound; [|apply Hi]|done|by destruct first]. }
  destruct (falls_through i) eqn:Hf; [|by apply terminator_sound; try done; lia].
  assert (Hrest : recorded ch (pc + 1) (map fst code) /\ closes code = true).
  { destruct code as [|p' code]; [|split; [by inversion Hrec|done]].
    unfold closes in Hcl. simpl in Hcl. by rewrite Hf in Hcl. }
  destruct Hrest as [Hrec' Hcl'].
  assert (IH' : forall σ' regs', related σ' regs' -> stays pcs (Z.to_nat (β - 1)) (pc + 1, regs') = true ->
    block_sound pcs (pc + 1, regs') (β - 1) (native_block ch m false code σ' (β - 1)))
    by (intros; apply IH; (done || lia)).
  destruct Hi as [Hi Hrecord Hpl Hcov Hin]. simpl in *.
  destruct (decide (Instruction.op i = Opcode.Div \/ Instruction.op i = Opcode.Mod)) as [Hd|Hd].
  { apply division_sound; try done. lia. }
  apply Decidable.not_or in Hd as [Hnd Hnm].
  change (block_sound pcs (pc, regs) β (native_block ch m first ((pc, i) :: code) σ β)).
  rewrite native_block_data by done.
  destruct (stays_step pcs β pc regs i ltac:(lia) Hin Hi Hst) as [Hs Hq].
  destruct (supported_step _ _ _ Hi Hs) as [Hz|[Hsp [q El]]].
  { by intros Ho; unfold falls_through in Hf; rewrite Ho in Hf. }
  { unfold zero_division in Hz. by destruct (Instruction.op i). }
  destruct (native_data_sound pc regs σ i q) as (σ' & regs' & -> & -> & Hr'); try done.
  pose proof (recorded_step_eq pc regs i Hi) as Hstep. rewrite El in Hstep.
  eapply block_sound_step; [exact Hstep|lia|by apply IH', Hq].
Qed.

(** ** Regions *)

(** A block of a trace that can be run. *)
Record block_ready (m : gmap Z block) (pcs_ : list Z) (b : TraceBlock)
    (code : list (Z * Instruction.t)) : Prop := {
  br_recorded : recorded ch (start_pc b) (map fst code);
  br_code : Forall (block_instr m pcs_) code;
  br_closes : closes code = true }.

(** How a trace ends, as a run of the interpreter from [p] with budget [β]. *)
Definition end_sound (pcs : list Z) (p : Z * list Value.t) (β : Z) (r : region_end) : Prop :=
  match r with
  | RContinue pc σ β' => exists k regs, Z.of_nat k = β - β' /\ 0 <= β' /\ in_u 32 pc /\ runs k p (pc, regs) /\
      related σ regs
  | RReturn reg z => exists k pc regs, Z.of_nat k < β /\ runs k p (pc, regs) /\
      pc ∈ pcs /\ returning pc regs reg z
  | RTrap => exists k pc regs, Z.of_nat k < β /\ runs k p (pc, regs) /\ dividing_by_zero pc regs
  | RBudget pc σ => exists k regs, Z.of_nat k = β /\ in_u 32 pc /\ runs k p (pc, regs) /\
      match σ with Some σ => related σ regs | None => True end
  | RStuck => False
  end.

Lemma end_sound_runs pcs k p q β β' r :
  runs k p q -> Z.of_nat k = β - β' -> end_sound pcs q β' r -> end_sound pcs p β r.
Proof.
  intros Hr Hk. pose proof (fun n => VmExec.local_run_add checks ch k n p q Hr) as Hadd. destruct r; simpl; [..|done].
  - intros (k' & regs & Hk' & H0 & H32 & Hr' & Hrel). exists (k + k')%nat, regs.
    rewrite Hadd. split; [lia|done].
  - intros (k' & pc & regs & Hk' & Hr' & Hret). exists (k + k')%nat, pc, regs.
    rewrite Hadd. split; [lia|done].
  - intros (k' & pc & regs & Hk' & Hr' & Hret). exists (k + k')%nat, pc, regs.
    rewrite Hadd. split; [lia|done].
  - intros (k' & regs & Hk' & H32 & Hr' & Hrel). exists (k + k')%nat, regs.
    rewrite Hadd. split; [lia|done].
Qed.

Lemma native_region_sound region codes pcs fuel pc regs σ β r :
  Forall2 (block_ready (block_map region 3 ∅) pcs) region codes ->
  in_u 32 pc -> 0 <= β -> related σ regs -> stays pcs (Z.to_nat β) (pc, regs) = true ->
  native_region ch region codes fuel pc σ β = Some r -> end_sound pcs (pc, regs) β r.
Proof.
  intros Hready. revert pc regs σ β. induction fuel as [|fuel IH]; [done|].
  intros pc regs σ β Hpc Hβ Hr Hst. cbn [native_region].
  destruct (code_from region codes pc) as [code|] eqn:Ec.
  2: { intros [= <-]. exists 0%nat, regs. split_and!; [lia|done..]. }
  apply code_from_Some in Ec as (i & b & Hb & Hcode & <-).
  destruct (Forall2_lookup_lr _ _ _ _ _ _ Hready Hb Hcode) as [Hrec Hbi Hcl].
  pose proof (native_block_sound (block_map region 3 ∅) pcs true code (start_pc b) regs σ β
    Hrec Hbi Hcl (proj1 Hpc) Hβ Hr Hst) as Hsound.
  destruct (native_block ch (block_map region 3 ∅) true code σ β) as [pc' σ'|pc' σ' β'|reg z| |] eqn:En.
  - by intros [= <-].
  - apply native_block_goto in En as [Hβ' _]; [|done].
    destruct Hsound as (k & regs' & Hk & H0 & Hrun & Hrel & Hst'). intros Hn.
    eapply end_sound_runs; [exact Hrun|exact Hk|]. by eapply IH; [..|exact Hn]; try lia.
  - by intros [= <-].
  - by intros [= <-].
  - done.
Qed.

End sound.

(** ** The memory of a call *)

Lemma slot_cells slots rest j r :
  (list_to_map (imap (fun i x => ((Slots, Z.of_nat (i + j) * 8), JitClif.int I64 x)) slots ++ rest)
    : memory) !! (Slots, Z.of_nat (r + j) * 8) =
  match slots !! r with
  | Some x => Some (JitClif.int I64 x)
  | None => (list_to_map rest : memory) !! (Slots, Z.of_nat (r + j) * 8)
  end.
Proof.
  revert j r. induction slots as [|x slots IH]; intros j r; [done|].
  rewrite imap_cons. cbn [app list_to_map foldr fst snd]. destruct r as [|r]; simpl.
  - by rewrite lookup_insert_eq.
  - rewrite lookup_insert_ne by (intros [= He]; lia). specialize (IH (S j) r).
    replace (r + S j)%nat with (S (r + j)) in IH by lia. simpl in IH. rewrite <- IH. f_equal.
    f_equal. f_equal. apply imap_ext. intros i y _. simpl. do 3 f_equal. lia.
Qed.

Lemma slot_cells_at slots rest r x : slots !! r = Some x ->
  (list_to_map (imap (fun i x => ((Slots, Z.of_nat i * 8), JitClif.int I64 x)) slots ++ rest)
    : memory) !! (Slots, Z.of_nat r * 8) = Some (JitClif.int I64 x).
Proof.
  intros Hr. pose proof (slot_cells slots rest 0 r) as Hc. rewrite Hr, Nat.add_0_r in Hc.
  rewrite <- Hc. do 3 f_equal. apply imap_ext. intros i y _. by rewrite Nat.add_0_r.
Qed.

Section call.
Context (slots : list Z) (pc budget function register_count : Z).
Abbreviation frame_memory := (JitDispatch.jit_frame slots pc budget function register_count).

Lemma frame_slots r x : Forall (in_i 64) slots -> slots !! r = Some x ->
  frame_memory !! (Slots, Z.of_nat r * 8) = Some (Int I64 x).
Proof.
  intros Hs Hr. unfold JitDispatch.jit_frame. cbn [app list_to_map foldr fst snd].
  do 9 rewrite lookup_insert_ne by done.
  trans (Some (JitClif.int I64 x)); [by apply slot_cells_at|]. unfold JitClif.int.
  rewrite (wrap_i_id (bits I64)); [done|done|]. exact (Forall_lookup_1 _ _ _ _ Hs Hr).
Qed.

Ltac frame_cell :=
  unfold JitDispatch.jit_frame; cbn [app list_to_map foldr fst snd];
  repeat first [rewrite lookup_insert_eq | rewrite lookup_insert_ne by done]; reflexivity.

Lemma frame_ok : Forall (in_i 64) slots -> mem_ok frame_memory budget slots.
Proof.
  intros Hs. constructor; [frame_cell| |by intros r z; apply frame_slots].
  intros ofs Hofs. exists (match ofs with 12 => wrap_i 32 pc | _ => 0 end).
  destruct Hofs as [-> |[-> | ->]]; frame_cell.
Qed.

Lemma frame_slots_ptr : frame_memory !! (Frame, 0) = Some (Ptr Slots 0).
Proof. frame_cell. Qed.
Lemma frame_call_stack : frame_memory !! (Frame, OFF_CALL_STACK) = Some (Ptr Stack 0).
Proof. frame_cell. Qed.

End call.

(** Reading the exit back. *)
Lemma read_exit kind pc reg m :
  JitDispatch.read_return (exit_fields kind pc reg m) =
  mk_jit_return (wrap_u 32 (wrap_i 32 kind)) (wrap_u 32 (wrap_i 32 pc)) (wrap_u 32 (wrap_i 32 reg)).
Proof.
  unfold JitDispatch.read_return, JitDispatch.read_field, JitDispatch.read_cell, exit_fields.
  repeat first [rewrite lookup_insert_eq | rewrite lookup_insert_ne by done]. reflexivity.
Qed.

Lemma word_back z : in_u 32 z -> wrap_u 32 (wrap_i 32 z) = z.
Proof.
  unfold in_u, wrap_u, wrap_i. simpl. intros Hz. Z.to_euclidean_division_equations. lia.
Qed.

Lemma read_slots_ok m β slots : mem_ok m β slots -> JitDispatch.read_slots m (length slots) = slots.
Proof.
  intros Hm. unfold JitDispatch.read_slots. apply list_eq. intros r.
  change (map ?f (seq ?a ?b)) with (f <$> seq a b). rewrite list_lookup_fmap.
  destruct (slots !! r) as [z|] eqn:Ez.
  - rewrite lookup_seq_lt by by eapply lookup_lt_Some. simpl. unfold JitDispatch.read_cell.
    by rewrite (mo_slots _ _ _ Hm _ _ Ez).
  - rewrite lookup_ge_None_2; [done|]. rewrite length_seq. by apply lookup_ge_None.
Qed.

(** ** From the slots of a VM *)

Lemma sync_related zeros regs slots :
  JitDispatch.sync_registers zeros regs = (JitDispatch.SlotsOk, slots) ->
  Forall value_ok regs -> (length regs <= length zeros)%nat -> Forall (in_i 64) zeros ->
  exists σ, related σ regs /\ holds σ slots /\ length slots = length zeros /\ Forall (in_i 64) slots.
Proof.
  revert regs slots. induction zeros as [|z zeros IH]; intros [|v regs] slots; simpl; try lia.
  - intros [= <-] _ _ _. by exists [].
  - intros [= <-] _ _ Hz. by exists [].
  - destruct (slot_of v) as [x|] eqn:Ev; [|done].
    destruct (JitDispatch.sync_registers zeros regs) as [r slots'] eqn:Es. intros [= -> <-].
    intros [Hv Hvs]%Forall_cons Hl [_ Hz]%Forall_cons.
    destruct (IH regs slots' Es Hvs) as (σ & Hr & Hh & Hlen & Hs); [lia|done|].
    assert (Hx : in_i 64 x).
    { destruct v as [|b|y| | | | | |]; try done; injection Ev as <-; [done|by destruct b|done]. }
    exists (x :: σ). split_and!; [by constructor| |by rewrite length_cons, Hlen|by constructor].
    unfold holds in *. simpl. by rewrite Hh.
Qed.
