(* ===== verification/JitRefine.v ===== *)
(** What a compiled trace promises its dispatcher: native code follows the interpreter. *)

From S2P Require Import Prelude Capability F64 Values Isa Verify Sync JitTrace JitClif JitReference.
From S2P Require Import JitCompiler JitTheory JitLower JitExec JitSim JitRegion JitSound.
From S2P Require Import Native.
From S2P Require Vm VmTheory VmExec JitDispatch.

(** ** Traces that can be trusted *)

Section traceable.
Context (chunk : Chunk.t) (region : TraceRegion).

Definition starts : list Z := map start_pc region.
Definition region_pcs : list Z := concat (map pcs region).

(** Calls share the slots of their caller; a branch without a successor in the region
    forgets its condition; and every return leaves with the register of the last. *)
Definition instr_traceable (pc : Z) : bool :=
  match instr_at chunk pc with
  | None => false
  | Some i =>
    match Instruction.op i with
    | Opcode.Call => false
    | Opcode.Branch => bool_decide (pc + 1 ∈ starts \/ branch_target pc (Instruction.imm i) ∈ starts)
    | Opcode.Return => bool_decide (snd <$> last_return_in_region chunk region = Some (Instruction.a i))
    | _ => true
    end
  end.

(** A block cut before its end has no terminator. *)
Definition block_traceable (b : TraceBlock) : bool :=
  match last (pcs b) ≫= instr_at chunk with
  | Some i => negb (falls_through i)
  | None => false
  end.

Definition region_traceable : bool :=
  forallb block_traceable region && forallb instr_traceable region_pcs.

End traceable.

Definition traceable (checks : bool) (chunk : Chunk.t) (key : TraceKey.t) : bool :=
  match collect_trace_region checks chunk key with
  | Region region => region_traceable chunk region
  | _ => false
  end.

(** The pcs of the trace of a key. *)
Definition trace_pcs (checks : bool) (chunk : Chunk.t) (key : TraceKey.t) : list Z :=
  match collect_trace_region checks chunk key with
  | Region region => region_pcs region
  | _ => []
  end.

#[local] Opaque collect_trace_region.

Lemma block_code_pcs chunk b code : block_code chunk b = Some code -> map fst code = pcs b.
Proof.
  destruct b as [st ps]. unfold block_code. simpl. clear st. revert code.
  induction ps as [|pc ps IH]; intros code; [by intros [= <-]|]. cbn.
  destruct (instr_at chunk pc) as [i|]; [|done]. cbn.
  destruct (mapM _ ps) as [code'|] eqn:Ec; [|done]. intros [= <-]. simpl. f_equal. by apply IH.
Qed.

Section ready.
Context (chunk : Chunk.t) (region : TraceRegion) (codes : list (list (Z * Instruction.t))).
Context (Hrec : Forall (fun b => recorded chunk (start_pc b) (pcs b)) region).
Context (Hnd : NoDup (map start_pc region)).
Context (Hcode : Forall2 (fun b code => block_code chunk b = Some code) region codes).
Context (Hinstr : Forall (Forall (fun p => instr_at chunk (fst p) = Some (snd p) /\
  stops_recording chunk (snd p) = false)) codes).
Context (Htr : region_traceable chunk region = true).

Lemma starts_map pc : pc ∈ starts region -> is_Some (block_map region 3 ∅ !! (pc : Z)).
Proof.
  intros (b & -> & Hb)%list_elem_of_fmap. apply list_elem_of_lookup in Hb as [i Hi].
  rewrite (block_map_start _ _ _ i b Hnd Hi). by eexists.
Qed.

Lemma instr_ready b code p :
  b ∈ region -> block_code chunk b = Some code -> p ∈ code ->
  instr_at chunk (fst p) = Some (snd p) /\ stops_recording chunk (snd p) = false ->
  block_instr chunk (block_map region 3 ∅) (region_pcs region) p.
Proof.
  intros Hb Hc Hp [Hi Hs]. apply andb_true_iff in Htr as [_ Hall].
  assert (Hin : fst p ∈ region_pcs region).
  { apply list_elem_of_In, in_concat. exists (pcs b). split.
    - by apply in_map, list_elem_of_In.
    - rewrite <- (block_code_pcs _ _ _ Hc). by apply in_map, list_elem_of_In. }
  pose proof (proj1 (forallb_forall _ _) Hall _ (proj1 (list_elem_of_In _ _) Hin)) as Ht.
  unfold instr_traceable in Ht. rewrite Hi in Ht. constructor; [done|done| | |done].
  - by intros Ho; rewrite Ho in Ht.
  - intros Ho. rewrite Ho in Ht. apply bool_decide_eq_true in Ht as [Ht|Ht]; [left|right]; by apply starts_map.
Qed.

Lemma closes_ready b code :
  b ∈ region -> block_code chunk b = Some code -> Forall (fun p => instr_at chunk (fst p) = Some (snd p) /\
  stops_recording chunk (snd p) = false) code -> closes code = true.
Proof.
  intros Hb Hc Hf. apply andb_true_iff in Htr as [Hall _].
  pose proof (proj1 (forallb_forall _ _) Hall _ (proj1 (list_elem_of_In _ _) Hb)) as Ht.
  unfold block_traceable in Ht. rewrite <- (block_code_pcs _ _ _ Hc) in Ht. unfold closes.
  change (map fst code) with (fst <$> code) in Ht. rewrite fmap_last in Ht.
  destruct (last code) as [p|] eqn:El; [|done]. simpl in Ht.
  apply last_Some_elem_of in El. rewrite Forall_forall in Hf.
  destruct (Hf p El) as [Hi _]. by rewrite Hi in Ht.
Qed.

Lemma blocks_ready : Forall2 (block_ready chunk (block_map region 3 ∅) (region_pcs region)) region codes.
Proof.
  apply Forall2_same_length_lookup_2; [by eapply Forall2_length|]. intros i b code Hb Hc.
  pose proof (Forall2_lookup_lr _ _ _ _ _ _ Hcode Hb Hc) as Hbc.
  pose proof (Forall_lookup_1 _ _ _ _ Hinstr Hc) as Hin.
  apply list_elem_of_lookup_2 in Hb as Hb'.
  constructor.
  - rewrite (block_code_pcs _ _ _ Hbc). exact (Forall_lookup_1 _ _ _ _ Hrec Hb).
  - apply Forall_forall. intros p Hp. rewrite Forall_forall in Hin.
    exact (instr_ready b code p Hb' Hbc Hp (Hin p Hp)).
  - by eapply closes_ready.
Qed.

Lemma codes_plain : Forall plain codes.
Proof.
  apply Forall_lookup. intros i code Hc. destruct (Forall2_lookup_r _ _ _ _ _ blocks_ready Hc) as (b & _ & Hb).
  eapply Forall_impl; [apply (br_code _ _ _ _ _ Hb)|]. intros p Hp. apply Hp.
Qed.

Lemma codes_call : has_call codes = false.
Proof.
  apply not_true_iff_false. intros Hc. unfold has_call in Hc.
  apply existsb_exists in Hc as (code & Hin & Hc). apply existsb_exists in Hc as (p & Hp & Ho).
  apply bool_decide_eq_true in Ho. pose proof codes_plain as Hpl. rewrite Forall_forall in Hpl.
  apply list_elem_of_In in Hin, Hp. specialize (Hpl code Hin). unfold plain in Hpl.
  rewrite Forall_forall in Hpl. by apply (Hpl p).
Qed.

End ready.

Lemma lower_trace_eq checks chunk key def region codes :
  Chunk.function chunk (TraceKey.function key) = Some def ->
  collect_trace_region checks chunk key = Region region -> region <> [] ->
  mapM (block_code chunk) region = Some codes ->
  lower_trace checks chunk key =
  match region_max_pc region key with
  | Err e => Some (Err e)
  | Ok end_pc =>
    Some (let? r := emit_trace chunk key def region codes new_function in
          Ok (mk_span (TraceKey.function key) (TraceKey.entry_pc key, Z.min (end_pc + 1) u32_max),
              blocks (snd r)))
  end.
Proof. intros Hd Hc Hne Hm. unfold lower_trace. rewrite Hd, Hc, Hm. by destruct region. Qed.

Lemma lower_trace_inv checks chunk key span F :
  Z.of_nat (length (Chunk.code chunk)) < 2 ^ 32 ->
  Forall (fun def => 0 <= FunctionDef.entry def) (Chunk.functions chunk) ->
  0 <= TraceKey.entry_pc key -> lower_trace checks chunk key = Some (Ok (span, F)) ->
  exists def region codes bf,
    Chunk.function chunk (TraceKey.function key) = Some def /\
    collect_trace_region checks chunk key = Region region /\ region_wf chunk region /\
    Forall2 (fun b code => block_code chunk b = Some code) region codes /\
    Forall (Forall (fun p => instr_at chunk (fst p) = Some (snd p) /\
      stops_recording chunk (snd p) = false)) codes /\
    emit_trace chunk key def region codes new_function = Ok (tt, bf) /\ F = blocks bf.
Proof.
  intros Hlen Hentry Hpc Hl.
  destruct (Chunk.function chunk (TraceKey.function key)) as [def|] eqn:Hdef.
  2: { unfold lower_trace in Hl. by rewrite Hdef in Hl. }
  destruct (collect_region checks chunk Hlen Hentry key Hpc) as (region & Hcol & Hw).
  destruct (region_code chunk region (rw_recorded _ _ Hw)) as (codes & Hm & Hf2 & Hf).
  destruct (decide (region = [])) as [->|Hne].
  { unfold lower_trace in Hl. by rewrite Hdef, Hcol in Hl. }
  rewrite (lower_trace_eq _ _ _ _ _ _ Hdef Hcol Hne Hm) in Hl.
  destruct (region_max_pc region key); [|done].
  destruct (emit_trace chunk key def region codes new_function) as [[[] bf]|] eqn:Ee; [|done].
  exists def, region, codes, bf. split_and!; try done. by injection Hl.
Qed.

Lemma compile_trace_ok `{Cranelift TraceKey.t M C} checks (module module' : M) chunk key trace :
  compile_trace checks module chunk key = Some (Ok trace, module') ->
  exists span F, lower_trace checks chunk key = Some (Ok (span, F)) /\
    define_function module key F = (Ok (entry trace), module').
Proof.
  unfold compile_trace. destruct (lower_trace checks chunk key) as [[[span F]|e]|]; try done.
  cbn [fmap option_fmap option_map].
  destruct (define_function module key F) as [[c|e] md] eqn:Ed; [|done].
  intros Hc. injection Hc as <- <-. by exists span, F.
Qed.

Lemma traceable_region checks chunk key region :
  collect_trace_region checks chunk key = Region region ->
  traceable checks chunk key = region_traceable chunk region.
Proof. unfold traceable. by intros ->. Qed.

(** A compiled trace is the code of its region. *)
Lemma compile_trace_inv `{CraneliftSound TraceKey.t M C} checks (module module' : M) chunk key trace :
  verify chunk = Ok tt -> chunk_ok chunk -> Z.of_nat (length (Chunk.code chunk)) < 2 ^ 32 ->
  0 <= TraceKey.entry_pc key -> traceable checks chunk key = true ->
  compile_trace checks module chunk key = Some (Ok trace, module') ->
  exists def region codes F,
    Chunk.function chunk (TraceKey.function key) = Some def /\
    collect_trace_region checks chunk key = Region region /\
    region_traceable chunk region = true /\
    NoDup (map start_pc region) /\ length codes = length region /\ has_call codes = false /\
    Forall (Forall (fun p => instruction_ok (snd p))) codes /\
    Forall2 (block_ready chunk (block_map region 3 ∅) (region_pcs region)) region codes /\
    layout F chunk key def region codes /\
    define_function module key F = (Ok (entry trace), module').
Proof.
  intros Hv (_ & _ & Hins & Hfun) Hlen Hpc Htr Hc.
  assert (Hentry : Forall (fun def => 0 <= FunctionDef.entry def) (Chunk.functions chunk))
    by (eapply Forall_impl; [exact Hfun|]; intros f (_ & [? _] & _); done).
  destruct (compile_trace_ok _ _ _ _ _ _ Hc) as (span & F & Hl & Hd).
  destruct (lower_trace_inv checks chunk key span F Hlen Hentry Hpc Hl)
    as (def & region & codes & bf & Hdef & Hcol & [Hrec Hnd] & Hf2 & Hf & He & ->).
  rewrite (traceable_region _ _ _ _ Hcol) in Htr.
  pose proof (Forall2_length _ _ _ Hf2) as Hlc.
  pose proof (codes_call _ _ _ Hrec Hnd Hf2 Hf Htr) as Hcall.
  exists def, region, codes, (blocks bf). split_and!; try done.
  - apply Forall_forall. intros code Hco. rewrite Forall_forall in Hf. specialize (Hf code Hco).
    eapply Forall_impl; [exact Hf|]. intros p [Hi _]. unfold instr_at in Hi. rewrite get_eq in Hi.
    exact (Forall_lookup_1 _ _ _ _ Hins Hi).
  - by eapply blocks_ready.
  - apply trace_layout; [done|done|by eapply codes_plain|done|done].
Qed.

(** ** The contract *)

Section contract.
Context (checks : bool) (chunk : Chunk.t).

(** An exit of a trace with budget [budget], after [k] instructions of the interpreter have
    led to [pc] and [regs]: at the pc where it resumes, with the registers in the slots; at
    a return, with its value in the slot of its register; at a division by zero; or with
    its budget spent. *)
Definition exit_sound (budget : Z) (exit : ExitReason) (slots : list Z) (k : nat) (pc : Z)
    (regs : list Value.t) : Prop :=
  match exit with
  | Continue_ pc' => pc' = pc /\ Z.of_nat k <= budget /\ exists σ, related σ regs /\ holds σ slots
  | Return_ reg => Z.of_nat k < budget /\
      exists z, returning chunk pc regs reg z /\ get slots reg = Some z
  | Trap_ _ => Z.of_nat k < budget /\ dividing_by_zero chunk pc regs
  | Budget pc' => pc' = pc /\ Z.of_nat k = budget
  | _ => False
  end.

(** The memory a run leaves holds a sound exit. *)
Lemma exit_of_region region pcs p budget r m' nslots :
  chunk_ok chunk -> end_sound checks chunk pcs p budget r ->
  pcs = region_pcs region -> region_traceable chunk region = true ->
  region_post chunk region nslots r m' ->
  exists k pc regs, VmExec.local_run checks k chunk p = Some (pc, regs) /\
    length (JitDispatch.read_slots m' nslots) = nslots /\
    exit_sound budget (into_reason (JitDispatch.read_return m')) (JitDispatch.read_slots m' nslots)
      k pc regs.
Proof.
  intros (_ & _ & Hins & _) Hend -> Htr (m & slots & β & Hm & Hl & Hpost).
  assert (Hslots : forall kind pc reg, JitDispatch.read_slots (exit_fields kind pc reg m) nslots = slots)
    by (intros; rewrite <- Hl; eapply read_slots_ok, mem_ok_exit, Hm).
  destruct r as [pc σ β'|reg z| |pc σ|]; simpl in Hend, Hpost; [..|done].
  - destruct Hpost as [Hh ->], Hend as (k & regs & Hk & H0 & Hpc & Hr & Hrel).
    exists k, pc, regs. rewrite Hslots, read_exit, (word_back pc) by done.
    split_and!; [done|done|]. cbn. split_and!; [done|lia|by exists σ].
  - destruct Hpost as (Hz & pc0 & last & Hlast & ->), Hend as (k & pc & regs & Hk & Hr & Hin & Hret).
    exists k, pc, regs. rewrite Hslots, read_exit. split_and!; [done|done|].
    pose proof Hret as (i & v & Hi & Ho & Ha & Hv & Hz').
    apply andb_true_iff in Htr as [_ Hall].
    pose proof (proj1 (forallb_forall _ _) Hall _ (proj1 (list_elem_of_In _ _) Hin)) as Ht.
    unfold instr_traceable in Ht. rewrite Hi, Ho in Ht. apply bool_decide_eq_true in Ht.
    destruct (last_return_in_region chunk region) as [[p0 r0]|]; [|done]. simpl in Ht.
    injection Ht as ->. subst last.
    assert (Hreg : in_u 8 (Instruction.a i)).
    { unfold instr_at in Hi. rewrite get_eq in Hi. apply (Forall_lookup_1 _ _ _ _ Hins Hi). }
    rewrite Ha in Hreg |- *. rewrite (word_back reg) by (unfold in_u in *; lia).
    change (into_reason (mk_jit_return _ _ reg)) with (Return_ (wrap_u 8 reg)).
    rewrite wrap_u_id by done. split; [done|]. exists z. split; [done|]. by rewrite get_eq.
  - destruct Hpost as (pc0 & ->), Hend as (k & pc & regs & Hk & Hr & Hdiv).
    exists k, pc, regs. rewrite Hslots, read_exit. by split_and!.
  - destruct Hpost as [_ ->], Hend as (k & regs & Hk & Hpc & Hr & _).
    exists k, pc, regs. rewrite Hslots, read_exit, (word_back pc) by done. by split_and!.
Qed.

End contract.

(** The native run of a trace, and the run of the interpreter its exit stands for. *)
Lemma trace_exits_soundly `{CraneliftSound TraceKey.t M C} checks (module module' : M) chunk key def
    trace regs slots capacity budget register_count :
  verify chunk = Ok tt -> chunk_ok chunk -> Z.of_nat (length (Chunk.code chunk)) < 2 ^ 32 ->
  Chunk.function chunk (TraceKey.function key) = Some def -> in_u 32 (TraceKey.entry_pc key) ->
  traceable checks chunk key = true ->
  compile_trace checks module chunk key = Some (Ok trace, module') ->
  Forall value_ok regs -> Z.of_nat (length regs) = FunctionDef.num_registers def ->
  (length regs <= capacity)%nat ->
  JitDispatch.sync_registers (replicate capacity 0) regs = (JitDispatch.SlotsOk, slots) ->
  in_u 32 budget ->
  stays checks chunk (trace_pcs checks chunk key) (Z.to_nat budget) (TraceKey.entry_pc key, regs) = true ->
  exists exit slots' k pc regs',
    JitDispatch.run_entry (entry trace) key slots budget register_count = Some (exit, slots') /\
    length slots' = length slots /\
    VmExec.local_run checks k chunk (TraceKey.entry_pc key, regs) = Some (pc, regs') /\
    exit_sound chunk budget exit slots' k pc regs'.
Proof.
  intros Hv Hok Hlen Hdef Hpc Htr Hc Hregs Hcount Hcap Hsync Hbudget Hstays.
  destruct (compile_trace_inv checks module module' chunk key trace Hv Hok Hlen (proj1 Hpc) Htr Hc)
    as (def' & region & codes & F & Hdef' & Hcol & Hrt & Hnd & Hlc & Hcall & Hins & Hready & Hly & Hd).
  rewrite Hdef in Hdef'. injection Hdef' as <-.
  destruct (sync_related _ _ _ Hsync Hregs) as (σ & Hrel & Hh & Hls & Hi64);
    [by rewrite length_replicate|by apply Forall_replicate|].
  assert (Hlσ : length σ = length regs) by by eapply Forall2_length.
  rewrite length_replicate in Hls. unfold trace_pcs in Hstays. rewrite Hcol in Hstays.
  apply verify_with_Ok in Hv as [Hwf _].
  destruct (native_region_ends chunk region codes (S (Z.to_nat budget)) (TraceKey.entry_pc key) σ budget)
    as [r Hr]; [unfold in_u in Hbudget; lia|].
  pose proof (native_region_sound checks chunk Hwf Hok Hlen region codes _ _ _ regs σ budget r
    Hready Hpc (proj1 Hbudget) Hrel Hstays Hr) as Hend.
  assert (H256 : FunctionDef.num_registers def < 256).
  { destruct Hok as (_ & _ & _ & Hfun). unfold Chunk.function in Hdef. rewrite get_eq in Hdef.
    apply (Forall_lookup_1 _ _ _ _ Hfun Hdef). }
  destruct (trace_runs F chunk key def region codes Hly Hnd Hlc Hcall Hins _ σ budget
    (JitDispatch.jit_frame slots (TraceKey.entry_pc key) budget (TraceKey.function key) register_count)
    slots r (frame_slots_ptr _ _ _ _ _) (frame_call_stack _ _ _ _ _) (frame_ok _ _ _ _ _ Hi64) Hh
    ltac:(lia) ltac:(lia) ltac:(lia) Hbudget Hr) as (fuel & m' & Hrun & Hpost).
  { intros ->. done. }
  destruct (exit_of_region checks chunk region _ _ _ _ _ _ Hok Hend eq_refl Hrt Hpost)
    as (k & pc & regs' & Hk & Hl & Hexit).
  eexists _, _, k, pc, regs'. split_and!; [|exact Hl|exact Hk|exact Hexit].
  unfold JitDispatch.run_entry, JitDispatch.run_compiled_trace.
  by rewrite (define_sound _ _ _ _ _ _ _ _ Hd Hrun).
Qed.

(** C6: a compiled trace does what the interpreter does.  Take a verified chunk, a trace of
    it that is [traceable] (no calls, every block ends with its own jump, branch or return,
    every branch has a successor in the region, one return register), the registers of a
    frame at its entry, all integers, booleans or unit, in its slots, and a budget.  If
    the interpreter, started there, only meets instructions the trace is specialised for
    while it is in the region and the budget lasts, then the native call returns, and
    there is a run of the interpreter to which its exit corresponds: it resumes at the pc
    the interpreter is at with the slots holding its registers; or it returns, at a
    [Return] the interpreter is at, the value the interpreter returns; or the
    interpreter is at a division by zero; or as many instructions as the budget have
    run.  In no case has the trace run more instructions than its budget. *)
Theorem jit_trace_sound `{CraneliftSound TraceKey.t M C} checks (module module' : M) chunk key def
    trace regs slots capacity budget register_count :
  verify chunk = Ok tt -> chunk_ok chunk -> Z.of_nat (length (Chunk.code chunk)) < 2 ^ 32 ->
  Chunk.function chunk (TraceKey.function key) = Some def -> in_u 32 (TraceKey.entry_pc key) ->
  traceable checks chunk key = true ->
  compile_trace checks module chunk key = Some (Ok trace, module') ->
  Forall value_ok regs -> Z.of_nat (length regs) = FunctionDef.num_registers def ->
  (length regs <= capacity)%nat ->
  JitDispatch.sync_registers (replicate capacity 0) regs = (JitDispatch.SlotsOk, slots) ->
  in_u 32 budget ->
  stays checks chunk (trace_pcs checks chunk key) (Z.to_nat budget) (TraceKey.entry_pc key, regs) = true ->
  exists exit slots' k pc regs',
    JitDispatch.run_entry (entry trace) key slots budget register_count = Some (exit, slots') /\
    length slots' = length slots /\
    VmExec.local_run checks k chunk (TraceKey.entry_pc key, regs) = Some (pc, regs') /\
    exit_sound chunk budget exit slots' k pc regs'.
Proof. apply trace_exits_soundly. Qed.

(** ** At the reference back end *)

(** A trace of three blocks. *)
Definition diamond : Chunk.t := Chunk.mk [] []
  [Instruction.a_imm Opcode.LoadImm 0 7; Instruction.a_imm Opcode.LoadImm 1 2;
   Instruction.abc Opcode.Lt 2 1 0; Instruction.a_imm Opcode.Branch 2 2;
   Instruction.abc Opcode.Div 0 0 1; Instruction.abc Opcode.Return 0 0 0;
   Instruction.abc Opcode.Return 0 0 0]
  [FunctionDef.mk (ascii_bytes "main") 0 0 3].

(** The native run of its trace from fresh registers, with a budget. *)
Definition diamond_run (budget : Z) : option (ExitReason * list Z) :=
  match compile_trace true ([] : list TraceKey.t) diamond (TraceKey.mk 0 0) with
  | Some (Ok trace, _) => JitDispatch.run_entry (entry trace) (TraceKey.mk 0 0) [0; 0; 0] budget 3
  | _ => None
  end.

Lemma jit_trace_sound_witness :
  diamond_run 20 = Some (Return_ 0, [3; 2; 1]) /\
  exists k pc regs', VmExec.local_run true k diamond (0, replicate 3 Value.Unit) = Some (pc, regs') /\
    exit_sound diamond 20 (Return_ 0) [3; 2; 1] k pc regs'.
Proof.
  assert (Hrun : diamond_run 20 = Some (Return_ 0, [3; 2; 1])) by by vm_compute.
  split; [exact Hrun|].
  revert Hrun. unfold diamond_run.
  destruct (compile_trace true ([] : list TraceKey.t) diamond (TraceKey.mk 0 0))
    as [[[trace|e] module']|] eqn:Ec; [|done..]. intros Hrun.
  destruct (jit_trace_sound true [] module' diamond (TraceKey.mk 0 0)
    (FunctionDef.mk (ascii_bytes "main") 0 0 3) trace (replicate 3 Value.Unit) [0; 0; 0] 3 20 3)
    as (exit & slots' & k & pc & regs' & He & _ & Hk & Hs);
    [by vm_compute| |done|done|unfold in_u; simpl; lia|by vm_compute|exact Ec|by repeat constructor
    |done|simpl; lia|done|unfold in_u; lia|by vm_compute|].
  - split; [done|]. split; [by constructor|].
    split; apply (bool_decide_unpack _); by vm_compute.
  - rewrite He in Hrun. injection Hrun as -> ->.
    exists k, pc, regs'. split; [exact Hk|exact Hs].
Defined.

(** The budget runs out inside a block before its values are written to the slots: the
    interpreter goes on without them, and the flow completes with another result. *)
Definition diamond_vm (v : Vm.Vm unit) (budget later : nat) : option Vm.VmResult.t :=
  let l := JitDispatch.mk_local (mk_context (1%N, diamond) ∅ ∅ 1) ([] : list TraceKey.t) None in
  let '(_, l, s) := JitDispatch.run_vm_with_jit true 1%N budget l (VmTheory.start v VmTheory.no_world) in
  fst (fst (JitDispatch.run_vm_with_jit true 1%N later l s)).

Lemma budget_exit_loses_registers :
  exists v, Vm.with_native_gate diamond (@NativeTable.empty unit) VmTheory.no_gate 0 [] = Ok v /\
    diamond_run 1 = Some (Budget 1, [0; 0; 0]) /\
    VmExec.local_run true 1 diamond (0, replicate 3 Value.Unit) =
      Some (1, [Value.Int 7; Value.Unit; Value.Unit]) /\
    fst (Vm.run true 40 (VmTheory.start v VmTheory.no_world)) =
      Some (Vm.VmResult.Complete (Value.Int 3)) /\
    diamond_vm v 1 40 = Some (Vm.VmResult.Complete (Value.Int 0)).
Proof. eexists. split; [reflexivity|]. split_and!; by vm_compute. Qed.
