(* ===== verification/JitGaps.v ===== *)
(** Where native code and the interpreter part: programs the verifier accepts on which a
    hot trace and the interpreter differ, each evaluated on the models of both, at the
    reference back end. *)

From S2P Require Import Prelude Capability F64 Values Isa Verify Sync JitTrace JitClif JitReference.
From S2P Require Import JitCompiler Native.
From S2P Require Vm VmTheory JitDispatch.

(** A program of one function, at address 1. *)
Definition program (registers : Z) (code : list Instruction.t) : Chunk.t :=
  Chunk.mk [] [] code [FunctionDef.mk (ascii_bytes "main") 0 0 registers].

(** A flow of function 0 in fresh registers. *)
Definition flow_of (ch : Chunk.t) : option (Vm.Vm unit) :=
  match Vm.with_native_gate ch (@NativeTable.empty unit) VmTheory.no_gate 0 [] with
  | Ok v => Some v
  | Err _ => None
  end.

(** One quantum of it by the interpreter, and by the JIT with every site hot. *)
Definition interpreted (ch : Chunk.t) (budget : nat) : option Vm.VmResult.t :=
  v ← flow_of ch; fst (Vm.run true budget (VmTheory.start v VmTheory.no_world)).

Definition jitted (ch : Chunk.t) (budget : nat) : option Vm.VmResult.t :=
  v ← flow_of ch;
  fst (fst (JitDispatch.run_vm_with_jit true 1%N budget
    (JitDispatch.mk_local (mk_context (1%N, ch) ∅ ∅ 1) ([] : list TraceKey.t) None)
    (VmTheory.start v VmTheory.no_world))).

Ltac evaluate := repeat split; by vm_compute.

(** Every return of a trace leaves with the register of the last return of its region. *)
Definition two_returns : Chunk.t := program 3
  [Instruction.a_imm Opcode.LoadImm 0 5; Instruction.a_imm Opcode.LoadImm 1 6;
   Instruction.a_imm Opcode.LoadImm 2 1; Instruction.a_imm Opcode.Branch 2 1;
   Instruction.abc Opcode.Return 0 0 0; Instruction.abc Opcode.Return 1 0 0].

Lemma returns_collide :
  verify two_returns = Ok tt /\
  interpreted two_returns 50 = Some (Vm.VmResult.Complete (Value.Int 5)) /\
  jitted two_returns 50 = Some (Vm.VmResult.Complete (Value.Int 6)).
Proof. evaluate. Qed.

(** A branch whose successors are both outside the region exits to the falsy one. *)
Definition lone_branch : Chunk.t := Chunk.mk [] [Value.Float 0]
  [Instruction.a_imm Opcode.LoadImm 0 1; Instruction.a_imm Opcode.Branch 0 1;
   Instruction.a_imm Opcode.LoadConst 0 0; Instruction.abc Opcode.Halt 0 0 0]
  [FunctionDef.mk (ascii_bytes "main") 0 0 1].

Lemma lone_branch_forgets :
  verify lone_branch = Ok tt /\
  interpreted lone_branch 50 = Some (Vm.VmResult.Complete (Value.Float 0)) /\
  jitted lone_branch 50 = Some (Vm.VmResult.Complete (Value.Int 1)).
Proof. evaluate. Qed.

(** A block cut by an instruction of the scheduler's has no terminator: no back end that
    checks its input compiles the trace, however hot it is. *)
Definition cut_block : Chunk.t := program 1
  [Instruction.a_imm Opcode.LoadImm 0 1; Instruction.abc Opcode.Yield 0 0 0;
   Instruction.abc Opcode.Return 0 0 0].

Lemma cut_block_refused `{CraneliftSound TraceKey.t M C} (module : M) trace module' :
  verify cut_block = Ok tt /\
  compile_trace true module cut_block (TraceKey.mk 0 0) <> Some (Ok trace, module').
Proof.
  split; [by vm_compute|]. unfold compile_trace.
  assert (Hl : exists span F, lower_trace true cut_block (TraceKey.mk 0 0) = Some (Ok (span, F)) /\
    forallb filled F = false) by (eexists _, _; split; by vm_compute).
  destruct Hl as (span & F & -> & Hf). cbn [fmap option_fmap option_map].
  destruct (define_function module _ F) as [[c|e] m'] eqn:Ed; [|done].
  apply define_filled in Ed. congruence.
Qed.

(** The values of a trace are untyped words: a boolean comes back as an integer, and
    values of different types can be equal. *)
Definition boolean_result : Chunk.t := program 2
  [Instruction.abc Opcode.Eq 0 1 1; Instruction.abc Opcode.Return 0 0 0].

Definition mixed_equality : Chunk.t := program 2
  [Instruction.a_imm Opcode.LoadImm 0 0; Instruction.abc Opcode.Eq 0 0 1;
   Instruction.a_imm Opcode.Branch 0 2; Instruction.a_imm Opcode.LoadImm 0 1;
   Instruction.abc Opcode.Return 0 0 0; Instruction.a_imm Opcode.LoadImm 0 2;
   Instruction.abc Opcode.Return 0 0 0].

Lemma words_are_untyped :
  verify boolean_result = Ok tt /\ verify mixed_equality = Ok tt /\
  interpreted boolean_result 50 = Some (Vm.VmResult.Complete (Value.Bool true)) /\
  jitted boolean_result 50 = Some (Vm.VmResult.Complete (Value.Int 1)) /\
  interpreted mixed_equality 50 = Some (Vm.VmResult.Complete (Value.Int 2)) /\
  jitted mixed_equality 50 = Some (Vm.VmResult.Complete (Value.Int 1)).
Proof. evaluate. Qed.

(** A callee works in the slots of its caller, and its registers beyond those of the
    function of the key are dropped. *)
Definition clobbering_call : Chunk.t := Chunk.mk [] []
  [Instruction.a_imm Opcode.LoadImm 0 5; Instruction.mk Opcode.Call 1 0 0 1;
   Instruction.abc Opcode.Return 0 0 0;
   Instruction.a_imm Opcode.LoadImm 0 9; Instruction.abc Opcode.Return 0 0 0]
  [FunctionDef.mk (ascii_bytes "main") 0 0 2; FunctionDef.mk (ascii_bytes "callee") 3 0 1].

Definition wider_callee : Chunk.t := Chunk.mk [] []
  [Instruction.mk Opcode.Call 0 0 0 1; Instruction.abc Opcode.Return 0 0 0;
   Instruction.a_imm Opcode.LoadImm 1 9; Instruction.abc Opcode.Return 1 0 0]
  [FunctionDef.mk (ascii_bytes "main") 0 0 1; FunctionDef.mk (ascii_bytes "callee") 2 0 2].

Lemma calls_share_slots :
  verify clobbering_call = Ok tt /\ verify wider_callee = Ok tt /\
  interpreted clobbering_call 50 = Some (Vm.VmResult.Complete (Value.Int 5)) /\
  jitted clobbering_call 50 = Some (Vm.VmResult.Complete (Value.Int 9)) /\
  interpreted wider_callee 50 = Some (Vm.VmResult.Complete (Value.Int 9)) /\
  jitted wider_callee 50 = Some (Vm.VmResult.Complete (Value.Int 0)).
Proof. evaluate. Qed.

(** Registers of verified code are not checked against the slots, and the least integer
    divided by -1 traps the host: the interpreter faults or answers, native code does
    what its instructions leave undefined. *)
Definition wild_register : Chunk.t := program 1
  [Instruction.abc Opcode.Move 0 200 0; Instruction.abc Opcode.Return 0 0 0].

Definition least_quotient : Chunk.t := Chunk.mk [] [Value.Int (- 2 ^ 63)]
  [Instruction.a_imm Opcode.LoadConst 0 0; Instruction.a_imm Opcode.LoadImm 1 (-1);
   Instruction.abc Opcode.Div 0 0 1; Instruction.abc Opcode.Return 0 0 0]
  [FunctionDef.mk (ascii_bytes "main") 0 0 2].

Lemma native_code_undefined :
  verify wild_register = Ok tt /\ verify least_quotient = Ok tt /\
  interpreted wild_register 50 = Some (Vm.VmResult.Trap (Fault.RegisterOutOfRange 200 1)) /\
  jitted wild_register 50 = None /\
  interpreted least_quotient 50 = Some (Vm.VmResult.Complete (Value.Int (- 2 ^ 63))) /\
  jitted least_quotient 50 = None.
Proof. evaluate. Qed.
