(* ===== verification/JitQuantum.v ===== *)
(** Quanta under the JIT: when they are the interpreter's, how deep the dispatch of a hot
    site recurses, and what a quantum of native code does not do. *)

From S2P Require Import Prelude Capability F64 Values Isa Verify Sync Quota Native Vm VmTheory.
From S2P Require Import JitTrace JitCompiler JitDispatch.
From S2P Require Import JitReference.
From S2P Require JitClif JitGaps.

Section quantum.
Context {H M C : Type} `{JitClif.Cranelift TraceKey.t M C} (checks : bool).
Implicit Type s : state H.

(** No [Yield] instruction ends the quantum. *)
Fixpoint quiet (budget : nat) s : Prop :=
  match budget with
  | O => True
  | S budget =>
    match step checks s with
    | (Next _, s') => quiet budget s'
    | (Return VmResult.Yield, _) => False
    | _ => True
    end
  end.

Lemma quiet_loop {J} (try_step : J -> state H -> Z -> option (option VmResult.t * J * state H)) budget j s :
  (forall s' b, try_step j s' b = Some (None, j, s')) -> quiet budget s ->
  run_vm_with_jit_loop checks try_step budget j s =
  (fst (run checks budget s), j, snd (run checks budget s)).
Proof.
  intros Hdecl. revert s. induction budget as [|budget IH]; intros s Hq; [done|].
  cbn [run_vm_with_jit_loop run quiet] in *. rewrite Hdecl.
  destruct (step checks s) as [[[]|r|] s'] eqn:Es; [by apply IH| |done].
  by destruct r.
Qed.

(** C36: a flow the JIT does not serve runs as without it.  When the runtime's JIT is for
    another chunk than the flow's, as after a reload, or its lock is poisoned, then a
    quantum of any budget in which no [Yield] instruction runs has the result and the
    final state of the interpreter's, and leaves the JIT as it was; so does a quantum of
    a runtime without a JIT. *)
Theorem declined_quantum vm_arc (jit : option (JitShared (C := C) (M := M))) budget s :
  match jit with Some j => matches_chunk (js_runtime j) vm_arc = false /\ quiet budget s | None => True end ->
  run_flow_quantum checks vm_arc jit budget s =
  (fst (run checks budget s), jit, snd (run checks budget s)).
Proof.
  destruct jit as [j|]; simpl.
  - intros [Hm Hq]. unfold run_vm_with_jit_runtime. rewrite quiet_loop; [done| |done].
    intros s' b. unfold try_jit_step_runtime. by rewrite Hm.
  - intros _. by destruct (run checks budget s).
Qed.

(** ** Hot sites *)

Context (j : JitShared (C := C) (M := M)) (chunk : Chunk.t) (key : TraceKey.t) (slots : list Z).
Context (budget register_count : Z).
Abbreviation hot_run fuel j := (try_run_hot_runtime checks fuel j chunk key slots budget register_count).

(** A trace that has been inserted is found. *)
Lemma inserted_trace (rt : JitRuntime C) trace :
  poisoned (rt_cache rt) = false -> get_trace (insert_trace rt key trace) key = Some (entry trace).
Proof.
  intros Hp. unfold get_trace, insert_trace, lock_ok, if_ok. simpl. rewrite Hp. simpl.
  exact (f_equal (fmap entry)
    (lookup_insert_eq (guarded (rt_cache rt) : gmap TraceKey.t (CompiledTrace C)) key trace)).
Qed.

Lemma hot_hit_cache (rt : JitRuntime C) : rt_cache (snd (record_hot_hit rt key)) = rt_cache rt.
Proof. unfold record_hot_hit. destruct (lock_ok _); [|done]. by destruct (hit _ _ _). Qed.

Lemma cached_run fuel (j' : JitShared (C := C) (M := M)) code :
  get_trace (js_runtime j') key = Some code ->
  hot_run (S fuel) j' =
  (fun r => (Some r, mk_shared (js_runtime j') (js_module j') (executed (js_metrics j')))) <$>
  run_entry code key slots budget register_count.
Proof. intros Hg. cbn [try_run_hot_runtime]. by rewrite Hg. Qed.

(** The dispatch of a hot site recurses at most once.  Unless the lock of the trace
    cache is poisoned, two levels of [try_run_hot_runtime] give the answer of any number
    of them, for every site, budget and state of the runtime: after a compilation the
    second level finds the trace that was inserted. *)
Lemma hot_dispatch_depth fuel :
  poisoned (rt_cache (js_runtime j)) = false -> hot_run (2 + fuel)%nat j = hot_run hot_fuel j.
Proof.
  intros Hp. change (2 + fuel)%nat with (S (S fuel)). unfold hot_fuel.
  remember (S fuel) as f1 eqn:Ef. remember 1%nat as f2 eqn:Ef2. cbn [try_run_hot_runtime].
  destruct (get_trace (js_runtime j) key) as [code|]; [done|].
  pose proof (hot_hit_cache (js_runtime j)) as Hc.
  destruct (record_hot_hit (js_runtime j) key) as [hot rt]. simpl in Hc. destruct (negb hot); [done|].
  subst f1 f2. destruct (get_trace rt key) as [code|] eqn:Eg.
  { by rewrite !(cached_run _ (mk_shared rt _ _) code). }
  destruct (with_jit_module _ _) as [[[trace|e] md]|]; [|done..].
  assert (Hg : get_trace (insert_trace rt key trace) key = Some (entry trace))
    by (apply inserted_trace; by rewrite Hc).
  by rewrite !(cached_run _ (mk_shared (insert_trace rt key trace) _ _) (entry trace)).
Qed.

(** A reload between a compilation and its insertion leaves a trace of the old chunk in
    the cache of the new one, which serves the flows of the new chunk. *)
Lemma reload_keeps_stale_trace (rt : JitRuntime C) trace (chunk' : ptr * Chunk.t) :
  poisoned (rt_chunk rt) = false -> poisoned (rt_cache rt) = false ->
  let rt' := insert_trace (runtime_reload rt chunk') key trace in
  get_trace (runtime_reload rt chunk') key = None /\
  matches_chunk rt' (fst chunk') = true /\ get_trace rt' key = Some (entry trace).
Proof.
  intros Hc Hp. simpl. split_and!.
  - unfold get_trace, runtime_reload, lock_ok, if_ok. simpl. rewrite Hp. simpl.
    exact (f_equal (fmap entry) (lookup_empty (M := gmap TraceKey.t) (A := CompiledTrace C) key)).
  - unfold matches_chunk, insert_trace, runtime_reload, lock_ok, if_ok. simpl. rewrite Hc. simpl.
    apply N.eqb_refl.
  - apply inserted_trace. unfold runtime_reload, if_ok. simpl. by rewrite Hp.
Qed.

End quantum.

Lemma declined_quantum_witness :
  exists v, JitGaps.flow_of JitGaps.two_returns = Some v /\
    let s := start v no_world in
    let j := mk_shared (C := list (list JitClif.inst)) (new_runtime (7%N, JitGaps.two_returns) 1)
               (None : option (list TraceKey.t)) None in
    run_flow_quantum true 8%N (Some j) 3 s = (Some VmResult.Yield, Some j, snd (run true 3 s)).
Proof.
  destruct (JitGaps.flow_of JitGaps.two_returns) as [v|] eqn:Ev; [|done].
  injection Ev as <-. eexists. split; [reflexivity|]. cbv zeta.
  apply (declined_quantum (M := list TraceKey.t) true 8%N (Some _) 3). by split.
Defined.

Lemma hot_dispatch_depth_witness :
  let j := mk_shared (C := list (list JitClif.inst)) (new_runtime (7%N, JitGaps.two_returns) 1)
             (None : option (list TraceKey.t)) None in
  fst <$> try_run_hot_runtime true 9 j JitGaps.two_returns (TraceKey.mk 0 4) [5; 6; 1] 10 3 =
    Some (Some (Return_ 0, [5; 6; 1])).
Proof.
  cbv zeta. rewrite (hot_dispatch_depth true _ JitGaps.two_returns (TraceKey.mk 0 4) [5; 6; 1] 10 3 7);
    [by vm_compute|done].
Defined.

(** ** What a quantum of native code does not do *)

(** A [Yield] instruction does not end the quantum: its result is taken for a spent
    budget of one instruction. *)
Definition yielding : Chunk.t := JitGaps.program 1
  [Instruction.abc Opcode.Yield 0 0 0; Instruction.a_imm Opcode.LoadImm 0 1;
   Instruction.abc Opcode.Return 0 0 0].

Lemma yield_does_not_end_quantum :
  verify yielding = Ok tt /\
  JitGaps.interpreted yielding 50 = Some VmResult.Yield /\
  JitGaps.jitted yielding 50 = Some (VmResult.Complete (Value.Int 1)).
Proof. repeat split; by vm_compute. Qed.

(** Native instructions are not counted, so that the quota is not charged for them. *)
Definition executed_by (r : state unit) : Z := instructions_executed (vm r).

Lemma native_instructions_uncounted :
  exists v, JitGaps.flow_of JitGaps.two_returns = Some v /\
    let s := start v no_world in
    let l := mk_local (mk_context (1%N, JitGaps.two_returns) ∅ ∅ 1) ([] : list TraceKey.t) None in
    executed_by (snd (run true 50 s)) = 5 /\
    executed_by (snd (run_vm_with_jit true 1%N 50 l s)) = 0.
Proof. eexists. split; [reflexivity|]. split; by vm_compute. Qed.
