(* ===== verification/JitFlow.v ===== *)
(** A flow under the JIT: whichever sites are hot, compiled, declined or still cold, a quantum
    of a flow that runs instructions traces are specialised for ends as the interpreter's. *)

From S2P Require Import Prelude Capability F64 Values Isa Verify Sync Quota Native Vm VmSafety VmTheory VmExec.
From S2P Require Import JitTrace JitCompiler JitTheory JitLower JitSound JitRefine JitDispatch JitReference JitQuantum.
From S2P Require JitClif JitSim JitGaps.

(** ** What a trace leaves of a value

    A trace knows words only: what comes back from it is the integer of the slot. *)

Definition blur (v w : Value.t) : Prop := v = w \/ exists z, slot_rel z v /\ w = Value.Int z.

(** Values a trace gives back as they are, or does not take. *)
Definition typed (v : Value.t) : bool :=
  match v with Value.Bool _ | Value.Unit => false | _ => true end.

Lemma blur_typed v w : blur v w -> typed v = true -> w = v.
Proof.
  intros [-> |(z & [Hs _] & ->)]; [done|]. destruct v; try done. by injection Hs as ->.
Qed.

Lemma blur_trans v w u : blur v w -> blur w u -> blur v u.
Proof.
  intros [-> |(z & Hz & ->)] Hu; [done|]. right.
  destruct Hu as [<- |(z' & [Hs _] & ->)]; [by exists z|]. injection Hs as <-. by exists z.
Qed.

#[export] Instance blur_preorder : PreOrder blur.
Proof. split; [by left|intros ? ? ?; apply blur_trans]. Qed.

Lemma blur_truthy v w : blur v w -> Value.is_truthy v = Value.is_truthy w.
Proof.
  intros [-> |(z & Hz & ->)]; [done|]. rewrite (slot_truthy z v Hz).
  by rewrite (slot_truthy z (Value.Int z)) by (split; [done|apply Hz]).
Qed.

Abbreviation blurs := (Forall2 blur).

Lemma blurs_get regs regs' r v : blurs regs regs' -> get regs r = Some v ->
  exists w, get regs' r = Some w /\ blur v w.
Proof.
  intros Hb. setoid_rewrite get_eq. intros Hv.
  destruct (Forall2_lookup_l _ _ _ _ _ Hb Hv) as (w & ? & ?). by exists w.
Qed.

Lemma blurs_store regs regs' r v w q : blurs regs regs' -> blur v w -> store regs r v = Some q ->
  exists q', store regs' r w = Some q' /\ blurs q q'.
Proof.
  unfold store. intros Hb Hvw. destruct (get regs r) as [old|] eqn:Ho; [|done]. intros [= <-].
  destruct (blurs_get _ _ _ _ Hb Ho) as (old' & -> & _). eexists. split; [done|].
  by apply Forall2_insert.
Qed.

(** Arithmetic is on numbers. *)
Lemma binop_typed op a b v : op <> Opcode.Eq -> binop_value op a b = Ok v ->
  typed a = true /\ typed b = true.
Proof. intros Hop Hv. destruct op; try done; by destruct a, b. Qed.

(** [Eq] compares the types of its operands, which a trace forgets. *)
Definition eq_typed (regs : list Value.t) (i : Instruction.t) : bool :=
  match Instruction.op i, get regs (Instruction.b i), get regs (Instruction.c i) with
  | Opcode.Eq, Some v, Some w => typed v && typed w
  | _, _, _ => true
  end.

Section flow.
Context (checks : bool) (ch : Chunk.t).

Lemma operand_blur regs regs' i v w r :
  blurs regs regs' -> eq_typed regs i = true ->
  get regs (Instruction.b i) = Some v -> get regs (Instruction.c i) = Some w ->
  binop_value (Instruction.op i) v w = Ok r ->
  get regs' (Instruction.b i) = Some v /\ get regs' (Instruction.c i) = Some w.
Proof.
  intros Hb He Hv Hw Hr.
  assert (Ht : typed v = true /\ typed w = true).
  { unfold eq_typed in He. rewrite Hv, Hw in He.
    destruct (decide (Instruction.op i = Opcode.Eq)) as [Ho|Ho].
    - rewrite Ho in He. by apply andb_true_iff.
    - by eapply binop_typed. }
  destruct (blurs_get _ _ _ _ Hb Hv) as (v' & Hv' & Bv), (blurs_get _ _ _ _ Hb Hw) as (w' & Hw' & Bw).
  by rewrite (blur_typed _ _ Bv (proj1 Ht)) in Hv'; rewrite (blur_typed _ _ Bw (proj2 Ht)) in Hw'.
Qed.

(** One instruction on blurred registers. *)
Lemma local_instr_blur pc regs regs' i pc' q :
  blurs regs regs' -> eq_typed regs i = true -> local_instr checks ch pc regs i = Some (pc', q) ->
  exists q', local_instr checks ch pc regs' i = Some (pc', q') /\ blurs q q'.
Proof.
  intros Hb He.
  assert (Hstore : forall v w, blur v w -> (fun r => (pc, r)) <$> store regs (Instruction.a i) v = Some (pc', q) ->
    exists q', (fun r => (pc, r)) <$> store regs' (Instruction.a i) w = Some (pc', q') /\ blurs q q').
  { intros v w Hvw Hs. destruct (store regs (Instruction.a i) v) as [q0|] eqn:Es; [|done].
    injection Hs as <- <-. destruct (blurs_store _ _ _ _ _ _ Hb Hvw Es) as (q' & -> & Hq). by exists q'. }
  pose proof (operand_blur regs regs' i) as Hops.
  unfold local_instr. destruct (Instruction.op i) eqn:Ho; try done.
  all: try (
    destruct (get regs (Instruction.b i)) as [v|] eqn:Hv; [|done];
    destruct (get regs (Instruction.c i)) as [w|] eqn:Hw; [|done]; cbn [mbind option_bind];
    destruct (binop_value _ v w) as [r|] eqn:Hr; [|done];
    destruct (Hops v w r Hb He eq_refl eq_refl Hr) as [-> ->]; cbn [mbind option_bind];
    rewrite Hr; apply Hstore; reflexivity).
  - destruct (Chunk.constant _ _); [|done]. apply Hstore. reflexivity.
  - destruct (get regs (Instruction.b i)) as [v|] eqn:Hv; [|done].
    destruct (blurs_get _ _ _ _ Hb Hv) as (w & -> & Bw). by apply Hstore.
  - apply Hstore. reflexivity.
  - destruct (get regs (Instruction.b i)) as [v|] eqn:Hv; [|done].
    destruct (blurs_get _ _ _ _ Hb Hv) as (w & -> & Bw). cbn [mbind option_bind].
    destruct v; try done; rewrite (blur_typed _ _ Bw eq_refl); cbn [mbind option_bind].
    + destruct (checked_i _ _ _); [|done]. apply Hstore. reflexivity.
    + apply Hstore. reflexivity.
  - destruct (Vm.jump_target _ _ _); [|done]. intros [= <- <-]. by exists regs'.
  - destruct (get regs (Instruction.a i)) as [v|] eqn:Hv; [|done].
    destruct (blurs_get _ _ _ _ Hb Hv) as (w & -> & Bw). cbn [mbind option_bind].
    rewrite <- (blur_truthy _ _ Bw). destruct (Value.is_truthy v).
    + intros [= <- <-]. by exists regs'.
    + destruct (Vm.jump_target _ _ _); [|done]. intros [= <- <-]. by exists regs'.
  - intros [= <- <-]. by exists regs'.
Qed.

Lemma local_step_blur pc regs regs' i pc' q :
  instr_at ch pc = Some i -> blurs regs regs' -> eq_typed regs i = true ->
  local_step checks ch (pc, regs) = Some (pc', q) ->
  exists q', local_step checks ch (pc, regs') = Some (pc', q') /\ blurs q q'.
Proof. intros Hi Hb He. rewrite !(recorded_step_eq _ _ _ _ _ Hi). by apply local_instr_blur. Qed.

(** ** Flows a trace can serve *)

Context (fn : Z).

(** At a point, a trace either cannot be compiled or is one that can be trusted. *)
Definition trustworthy (pc : Z) : bool :=
  match collect_trace_region checks ch (TraceKey.mk fn pc) with
  | Region (b :: r) => region_traceable ch (b :: r)
  | _ => true
  end.

Definition served (p : Z * list Value.t) : bool :=
  supported checks ch p && trustworthy (fst p) &&
  match instr_at ch (fst p) with Some i => eq_typed (snd p) i | None => false end.

(** How the flow ends at a point: at a [Return] of its only frame, or at a division by zero. *)
Definition ending (p : Z * list Value.t) : option VmResult.t :=
  i ← instr_at ch (fst p);
  match Instruction.op i with
  | Opcode.Return => VmResult.Complete <$> get (snd p) (Instruction.a i)
  | _ => if zero_division (snd p) i then Some (VmResult.Trap Fault.DivideByZero) else None
  end.

(** The interpreter's result from a point, if it is reached within [n] instructions through
    points that can be served. *)
Fixpoint serve (n : nat) (p : Z * list Value.t) : option VmResult.t :=
  match n with
  | O => None
  | S n =>
    if served p then
      match ending p with
      | Some r => Some r
      | None => local_step checks ch p ≫= serve n
      end
    else None
  end.

(** The same result, of blurred values. *)
Definition same_result (r r' : VmResult.t) : Prop :=
  match r, r' with
  | VmResult.Complete v, VmResult.Complete w => blur v w
  | VmResult.Trap f, VmResult.Trap g => f = g
  | _, _ => False
  end.

Lemma same_result_trans r q t : same_result r q -> same_result q t -> same_result r t.
Proof. destruct r, q, t; simpl; try done; [apply blur_trans|by intros ->]. Qed.

(** The three ways to be at a served point. *)
Inductive at_served (pc : Z) (regs : list Value.t) (i : Instruction.t) : option VmResult.t -> Prop :=
| at_return v :
    Instruction.op i = Opcode.Return -> get regs (Instruction.a i) = Some v ->
    at_served pc regs i (Some (VmResult.Complete v))
| at_zero :
    Instruction.op i <> Opcode.Return -> zero_division regs i = true ->
    at_served pc regs i (Some (VmResult.Trap Fault.DivideByZero))
| at_step q :
    Instruction.op i <> Opcode.Return -> zero_division regs i = false ->
    specialised regs i = true -> local_step checks ch (pc, regs) = Some q ->
    at_served pc regs i None.

Lemma ending_eq pc regs i : instr_at ch pc = Some i ->
  ending (pc, regs) = match Instruction.op i with
    | Opcode.Return => VmResult.Complete <$> get regs (Instruction.a i)
    | _ => if zero_division regs i then Some (VmResult.Trap Fault.DivideByZero) else None
    end.
Proof. intros Hi. unfold ending. cbn [fst snd]. by rewrite Hi. Qed.

Lemma served_inv pc regs : served (pc, regs) = true ->
  exists i, instr_at ch pc = Some i /\ eq_typed regs i = true /\ trustworthy pc = true /\
    at_served pc regs i (ending (pc, regs)).
Proof.
  unfold served. cbn [fst snd]. destruct (instr_at ch pc) as [i|] eqn:Hi; [|by rewrite andb_false_r].
  rewrite !andb_true_iff. intros [[Hs Ht] He]. exists i. split_and!; [done..|]. rewrite (ending_eq _ _ _ Hi).
  destruct (decide (Instruction.op i = Opcode.Return)) as [Ho|Ho].
  - unfold supported in Hs. cbn [fst snd] in Hs. rewrite Hi, Ho in Hs.
    apply bool_decide_eq_true in Hs as [v Hv]. rewrite Ho, Hv. by apply at_return.
  - assert (Hz : forall A (x y : A), match Instruction.op i with Opcode.Return => x | _ => y end = y)
      by (intros; by destruct (Instruction.op i)).
    rewrite Hz. destruct (zero_division regs i) eqn:Ez; [by apply at_zero|].
    destruct (supported_step checks ch pc regs i Hi Hs Ho) as [Hz'|[Hsp [q Hq]]]; [congruence|].
    apply (at_step _ _ _ q); try done. by rewrite (recorded_step_eq _ _ _ _ _ Hi).
Qed.

Lemma at_served_supported pc regs i o : instr_at ch pc = Some i -> at_served pc regs i o ->
  supported checks ch (pc, regs) = true.
Proof.
  intros Hi. unfold supported. cbn [fst snd]. rewrite Hi.
  intros [v Ho Hv|Ho Hz|q Ho Hz Hsp Hq]; [by rewrite Ho, Hv|rewrite Hz; by destruct (Instruction.op i)|].
  rewrite Hsp, Hq, Hz. by destruct (Instruction.op i).
Qed.

Lemma served_intro pc regs i o :
  instr_at ch pc = Some i -> eq_typed regs i = true -> trustworthy pc = true ->
  at_served pc regs i o -> served (pc, regs) = true.
Proof.
  intros Hi He Ht Ha. unfold served. cbn [fst snd].
  by rewrite (at_served_supported _ _ _ _ Hi Ha), Ht, Hi, He.
Qed.

Lemma at_served_ending pc regs i o : instr_at ch pc = Some i -> at_served pc regs i o ->
  ending (pc, regs) = o.
Proof.
  intros Hi. rewrite (ending_eq _ _ _ Hi).
  intros [v Ho Hv|Ho Hz|q Ho Hz _ _]; [by rewrite Ho, Hv|rewrite Hz; by destruct (Instruction.op i)..].
Qed.

(** ** Blurred registers are as good *)

Lemma blur_gets regs regs' r v : blurs regs regs' -> get regs r = Some v -> typed v = true ->
  get regs' r = Some v.
Proof.
  intros Hb Hv Ht. destruct (blurs_get _ _ _ _ Hb Hv) as (w & Hw & Bw).
  by rewrite (blur_typed _ _ Bw Ht) in Hw.
Qed.

(** The operands of a binary instruction that runs. *)
Lemma step_operands pc regs i q :
  Instruction.op i = Opcode.Eq \/ Instruction.op i = Opcode.Div ->
  instr_at ch pc = Some i -> local_step checks ch (pc, regs) = Some q ->
  exists v w r, get regs (Instruction.b i) = Some v /\ get regs (Instruction.c i) = Some w /\
    binop_value (Instruction.op i) v w = Ok r.
Proof.
  intros Ho Hi. rewrite (recorded_step_eq _ _ _ _ _ Hi). unfold local_instr.
  destruct Ho as [Ho|Ho]; rewrite Ho.
  all: destruct (get regs (Instruction.b i)) as [v|]; [|done].
  all: destruct (get regs (Instruction.c i)) as [w|]; [|done]; cbn [mbind option_bind].
  all: destruct (binop_value _ v w) as [r|] eqn:Hr; [|done]; intros _; by exists v, w, r.
Qed.

Lemma eq_typed_blur pc regs regs' i o : instr_at ch pc = Some i -> blurs regs regs' ->
  eq_typed regs i = true -> at_served pc regs i o -> eq_typed regs' i = true.
Proof.
  intros Hi Hb He Ha. destruct (decide (Instruction.op i = Opcode.Eq)) as [Ho|Ho].
  2: { unfold eq_typed. by destruct (Instruction.op i). }
  destruct Ha as [v Hr|_ Hz|q _ _ _ Hq]; [congruence|unfold zero_division in Hz; by rewrite Ho in Hz|].
  destruct (step_operands _ _ _ _ (or_introl Ho) Hi Hq) as (v & w & r & Hv & Hw & _).
  unfold eq_typed in *. rewrite Ho, Hv, Hw in He. apply andb_true_iff in He as [Hv' Hw'].
  by rewrite Ho, (blur_gets _ _ _ _ Hb Hv Hv'), (blur_gets _ _ _ _ Hb Hw Hw'), Hv', Hw'.
Qed.

Lemma zero_division_blur regs regs' i : blurs regs regs' -> zero_division regs i = true ->
  zero_division regs' i = true.
Proof.
  unfold zero_division. intros Hb.
  destruct (Instruction.op i); try done;
    destruct (get regs (Instruction.b i)) as [[]|] eqn:Hv; try done;
    destruct (get regs (Instruction.c i)) as [[]|] eqn:Hw; try done;
    by rewrite (blur_gets _ _ _ _ Hb Hv eq_refl), (blur_gets _ _ _ _ Hb Hw eq_refl).
Qed.

Lemma specialised_blur pc regs regs' i q :
  instr_at ch pc = Some i -> blurs regs regs' -> eq_typed regs i = true ->
  local_step checks ch (pc, regs) = Some q -> specialised regs i = true ->
  specialised regs' i = true.
Proof.
  intros Hi Hb He Hq Hs. unfold specialised in *.
  destruct (Instruction.op i) eqn:Ho; try done.
  all: destruct (step_operands pc regs i q ltac:(auto) Hi Hq) as (v & w & r & Hv & Hw & Hr).
  all: destruct (operand_blur regs regs' i v w r Hb He Hv Hw Hr) as [Hv' Hw'].
  all: by rewrite Hv, Hw in Hs; rewrite Hv', Hw'.
Qed.

(** One served point under the blur. *)
Lemma served_blur pc regs regs' : blurs regs regs' -> served (pc, regs) = true ->
  served (pc, regs') = true /\
  match ending (pc, regs) with
  | Some r => exists r', ending (pc, regs') = Some r' /\ same_result r r'
  | None => ending (pc, regs') = None /\
      exists pc' q q', local_step checks ch (pc, regs) = Some (pc', q) /\
        local_step checks ch (pc, regs') = Some (pc', q') /\ blurs q q'
  end.
Proof.
  intros Hb Hs. destruct (served_inv _ _ Hs) as (i & Hi & He & Ht & Ha).
  pose proof (eq_typed_blur _ _ _ _ _ Hi Hb He Ha) as He'.
  assert (Hgo : forall o', at_served pc regs' i o' -> served (pc, regs') = true /\ ending (pc, regs') = o').
  { intros o' Ha'. split; [by eapply served_intro|by eapply at_served_ending]. }
  destruct Ha as [v Ho Hv|Ho Hz|[pc' q] Ho Hz Hsp Hq].
  - destruct (blurs_get _ _ _ _ Hb Hv) as (w & Hw & Bw).
    destruct (Hgo _ (at_return _ _ _ w Ho Hw)) as [? ->]. split; [done|]. by eexists.
  - destruct (Hgo _ (at_zero _ _ _ Ho (zero_division_blur _ _ _ Hb Hz))) as [? ->].
    split; [done|]. by eexists.
  - destruct (local_step_blur _ _ _ _ _ _ Hi Hb He Hq) as (q' & Hq' & Hbq).
    destruct (zero_division regs' i) eqn:Hz'.
    { by rewrite (zero_division_halts _ _ _ _ _ Hz' Hi) in Hq'. }
    pose proof (specialised_blur _ _ _ _ _ Hi Hb He Hq Hsp) as Hsp'.
    destruct (Hgo _ (at_step _ _ _ _ Ho Hz' Hsp' Hq')) as [? ->]. split; [done|]. split; [done|].
    by exists pc', q, q'.
Qed.

Lemma serve_blur n pc regs regs' r : blurs regs regs' -> serve n (pc, regs) = Some r ->
  exists r', serve n (pc, regs') = Some r' /\ same_result r r'.
Proof.
  revert pc regs regs'. induction n as [|n IH]; intros pc regs regs' Hb; [done|]. cbn [serve].
  destruct (served (pc, regs)) eqn:Hs; [|done].
  destruct (served_blur _ _ _ Hb Hs) as [-> Hend]. destruct (ending (pc, regs)) as [e|].
  - destruct Hend as (r' & -> & Hr'). intros [= <-]. by exists r'.
  - destruct Hend as (-> & pc' & q & q' & -> & -> & Hq). by apply IH.
Qed.

(** ** Served runs *)

Lemma serve_inv n p r : serve (S n) p = Some r ->
  served p = true /\
  (ending p = Some r \/ ending p = None /\ exists q, local_step checks ch p = Some q /\ serve n q = Some r).
Proof.
  cbn [serve]. destruct (served p); [|done]. split; [done|].
  destruct (ending p); [by left; congruence|]. right. split; [done|].
  destruct (local_step checks ch p) as [q|]; [|done]. by exists q.
Qed.

(** The interpreter stops where the flow ends. *)
Lemma ending_stops p r : served p = true -> ending p = Some r -> local_step checks ch p = None.
Proof.
  destruct p as [pc regs]. intros Hs He. destruct (served_inv _ _ Hs) as (i & Hi & _ & _ & Ha).
  rewrite He in Ha. inversion Ha as [v Ho Hv|Ho Hz|]; subst.
  - rewrite (recorded_step_eq _ _ _ _ _ Hi). unfold local_instr. by rewrite Ho.
  - by eapply zero_division_halts.
Qed.

Lemma serve_stays pcs m n p r : serve n p = Some r -> stays checks ch pcs m p = true.
Proof.
  revert m p. induction n as [|n IH]; intros [|m] p; try done. intros Hs.
  destruct (serve_inv _ _ _ Hs) as [Hp Hq]. cbn [stays]. destruct (decide _); [|done].
  assert (Hsup : supported checks ch p = true) by (unfold served in Hp; by destruct (supported checks ch p)).
  rewrite Hsup. destruct Hq as [He|(_ & q & Eq & Hq)].
  - by rewrite (ending_stops p r).
  - rewrite Eq. by apply IH.
Qed.

Lemma serve_run n k p q r : serve n p = Some r -> local_run checks k ch p = Some q ->
  (k < n)%nat /\ serve (n - k) q = Some r.
Proof.
  revert n p. induction k as [|k IH]; intros [|n] p; try done.
  { intros Hs [= <-]. split; [lia|done]. }
  intros Hs. cbn [local_run]. destruct (serve_inv _ _ _ Hs) as [Hp [He|(_ & p' & Ep & Hp')]].
  - by rewrite (ending_stops p r).
  - rewrite Ep. intros Hr. destruct (IH _ _ Hp' Hr) as [? ?]. split; [lia|done].
Qed.

(** ** Registers of served flows *)

Context (size : Z).

Record plain (regs : list Value.t) : Prop := {
  pl_size : Z.of_nat (length regs) = size;
  pl_heapless : Forall (fun v => heapless v = true) regs;
  pl_ok : Forall value_ok regs }.

Context (Hok : chunk_ok ch) (Hconst : Forall (fun v => heapless v = true) (Chunk.constants ch)).

Lemma plain_store regs r v q : plain regs -> value_ok v -> heapless v = true ->
  store regs r v = Some q -> plain q.
Proof.
  intros [Hl Hh Hv] Ov Hv'. unfold store. destruct (get regs r); [|done]. intros [= <-].
  split; [by rewrite length_insert|by apply Forall_insert..].
Qed.

Lemma plain_get regs r v : plain regs -> get regs r = Some v -> value_ok v /\ heapless v = true.
Proof.
  intros [_ Hh Hv]. rewrite get_eq. intros Hr.
  split; [exact (Forall_lookup_1 _ _ _ _ Hv Hr)|exact (Forall_lookup_1 _ _ _ _ Hh Hr)].
Qed.

Lemma binop_value_ok op v w r : value_ok v -> value_ok w -> binop_value op v w = Ok r -> value_ok r.
Proof.
  intros Hv Hw Hr.
  assert (Hgood : forall x, value_ok x -> good (fun _ => True) x)
    by (intros x Hx; split; [done|apply Forall_forall; by right]).
  pose proof (binop_value_spec (fun _ => True) op v w (Hgood v Hv) (Hgood w Hw)) as Hs.
  rewrite Hr in Hs. apply Hs.
Qed.

Lemma neg_ok x y : checked_i checks 64 x = Some y -> value_ok (Value.Int y).
Proof.
  unfold checked_i. destruct (in_ib 64 x) eqn:Eb.
  - intros [= <-]. by apply in_ib_spec in Eb.
  - destruct checks; [done|]. intros [= <-]. simpl. apply wrap_i_range. lia.
Qed.

Definition sane (p : Z * list Value.t) : Prop := 0 <= fst p /\ plain (snd p).

Lemma jump_sane pc imm t : Vm.jump_target checks pc imm = Some t -> 0 <= t.
Proof.
  unfold Vm.jump_target. destruct (checked_i _ _ _); [|done]. intros [= <-].
  by apply (wrap_u_range 64).
Qed.

Lemma sane_step p p' : sane p -> local_step checks ch p = Some p' -> sane p'.
Proof.
  destruct p as [pc regs], p' as [pc' q]. intros [Hpc Hp]. cbn [fst snd] in *.
  unfold local_step. cbn [fst snd].
  destruct (get (Chunk.code ch) pc) as [i|] eqn:Hi; [|done]. cbn [mbind option_bind].
  rewrite get_eq in Hi. destruct Hok as (_ & Hcs & Hins & _).
  pose proof (Forall_lookup_1 _ _ _ _ Hins Hi) as (_ & _ & _ & Himm).
  assert (Hst : forall v, value_ok v -> heapless v = true ->
    (fun r => (pc + 1, r)) <$> store regs (Instruction.a i) v = Some (pc', q) -> sane (pc', q)).
  { intros v Ov Hv Hs. destruct (store regs (Instruction.a i) v) as [q0|] eqn:Es; [|done].
    injection Hs as <- <-. split; [simpl; lia|by eapply plain_store]. }
  assert (Hjump : (t ← Vm.jump_target checks (pc + 1) (Instruction.imm i); Some (t, regs)) = Some (pc', q) ->
    sane (pc', q)).
  { destruct (Vm.jump_target _ _ _) eqn:Ej; [|done]. intros [= <- <-]. by apply jump_sane in Ej. }
  assert (Hnext : Some (pc + 1, regs) = Some (pc', q) -> sane (pc', q))
    by (intros [= <- <-]; split; [simpl; lia|done]).
  unfold local_instr. destruct (Instruction.op i) eqn:Ho; try done.
  all: try (
    destruct (get regs (Instruction.b i)) as [v|] eqn:Hv; [|done];
    destruct (get regs (Instruction.c i)) as [w|] eqn:Hw; [|done]; cbn [mbind option_bind];
    destruct (binop_value _ v w) as [r|] eqn:Hr; [|done];
    apply Hst; [eapply binop_value_ok, Hr; by eapply plain_get|by eapply binop_heapless]).
  - destruct (Chunk.constant ch _) as [v|] eqn:Hv; [|done]. unfold Chunk.constant in Hv.
    rewrite get_eq in Hv.
    apply Hst; [exact (Forall_lookup_1 _ _ _ _ Hcs Hv)|exact (Forall_lookup_1 _ _ _ _ Hconst Hv)].
  - destruct (get regs (Instruction.b i)) as [v|] eqn:Hv; [|done].
    destruct (plain_get _ _ _ Hp Hv). by apply Hst.
  - apply Hst; [|done]. simpl. unfold in_i in *. simpl in *. lia.
  - destruct (get regs (Instruction.b i)) as [[| |x|x| | | | |]|] eqn:Hv; try done; cbn [mbind option_bind].
    + destruct (checked_i checks 64 (- x)) as [y|] eqn:Ey; [|done]. apply Hst; [|done]. by eapply neg_ok.
    + apply Hst; [|done]. destruct (plain_get _ _ _ Hp Hv). by apply f64_neg_range.
  - destruct (get regs (Instruction.a i)) as [v|]; [|done]. cbn [mbind option_bind].
    by destruct (Value.is_truthy v).
Qed.

Lemma sane_run k p q : sane p -> local_run checks k ch p = Some q -> sane q.
Proof.
  revert p. induction k as [|k IH]; intros p Hp; cbn [local_run]; [by intros [= ->]|].
  destruct (local_step checks ch p) as [p'|] eqn:Es; [|done].
  apply IH. by eapply sane_step.
Qed.

(** What a trace leaves in the registers of the frame it was entered with. *)
Lemma write_slots_ints regs σ slots : length regs = length σ -> JitSim.holds σ slots ->
  JitDispatch.write_slots regs slots = map Value.Int σ.
Proof.
  revert regs slots. induction σ as [|z σ IH]; intros [|v regs] slots; try done.
  intros [= Hl]. unfold JitSim.holds. destruct slots as [|z' slots]; [done|].
  intros [= -> Hh]. simpl. by rewrite (IH regs slots).
Qed.

Lemma ints_blurs σ regs : related σ regs -> blurs regs (map Value.Int σ).
Proof. intros Hr. induction Hr as [|z v σ regs Hz Hr IH]; constructor; [right; by exists z|done]. Qed.

Lemma ints_plain σ regs : plain regs -> related σ regs -> plain (map Value.Int σ).
Proof.
  intros [Hl _ _] Hr. split.
  - by rewrite length_map, (Forall2_length _ _ _ Hr).
  - clear. by induction σ; constructor.
  - clear Hl. induction Hr as [|z v σ regs [_ Hz] _ IH]; by constructor.
Qed.

(** ** The flow *)

Context {H : Type} (s : state H) (f : Frame.t).
Context (Hchunk : chunk (vm s) = ch) (Hfn : Frame.function f = fn) (Hdest : Frame.dest_reg f = None).
Abbreviation at_ := (at_point s f []).

Lemma plain_unmetered regs : plain regs -> unmetered s regs.
Proof. intros [_ Hh _]. right. by rewrite Hchunk. Qed.

(** A division by zero ends the flow. *)
Lemma step_zero k pc regs i :
  in_u 64 (instructions_executed (vm s) + k + 1) -> instr_at ch pc = Some i ->
  zero_division regs i = true ->
  fst (step checks (at_ k (pc, regs))) = Return (VmResult.Trap Fault.DivideByZero).
Proof.
  intros Hk Hi Hz. unfold step, m_bind at 1, count_instruction.
  cbn [vm at_point instructions_executed with_executed]. rewrite checked_u_id by done.
  unfold m_bind, trap, fetch, r_bind, current, get_state. simpl. rewrite Hchunk.
  change (get (Chunk.code ch) pc) with (instr_at ch pc). rewrite Hi. simpl. unfold zero_division in Hz.
  unfold dispatch.
  destruct (Instruction.op i) eqn:Ho; try done.
  all: destruct (get regs (Instruction.b i)) as [[]|] eqn:Hb; try done.
  all: destruct (get regs (Instruction.c i)) as [[]|] eqn:Hc; try done.
  all: unfold op_binop, trap, numeric_binop, r_bind, get_reg; simpl.
  all: rewrite Hb; simpl; rewrite Hc; simpl; by rewrite Ho; simpl; rewrite Hz.
Qed.

(** One instruction of a served flow. *)
Lemma served_next n k p r : serve (S n) p = Some r -> sane p ->
  in_u 64 (instructions_executed (vm s) + k + 1) ->
  (exists s', step checks (at_ k p) = (Return r, s')) \/
  (exists q, step checks (at_ k p) = (Next tt, at_ (k + 1) q) /\ serve n q = Some r /\ sane q).
Proof.
  destruct p as [pc regs]. intros Hs Hp Hk.
  destruct (serve_inv _ _ _ Hs) as [Hsv [He|(_ & [pc' q] & Hq & Hn)]].
  - left. destruct (served_inv _ _ Hsv) as (i & Hi & _ & _ & Ha). rewrite He in Ha.
    assert (Hst : fst (step checks (at_ k (pc, regs))) = Return r).
    { inversion Ha as [v Ho Hv Hr|Ho Hz Hr|]; subst r.
      - apply (step_return checks s f k (pc, regs) i v); (done || by rewrite Hchunk).
      - by eapply step_zero. }
    destruct (step _ _) as [o s']. simpl in Hst. subst o. by exists s'.
  - right. exists (pc', q). split_and!; [|done|by eapply sane_step].
    apply step_at; [by apply plain_unmetered, Hp|done|by rewrite Hchunk].
Qed.

Lemma serve_run_vm n m k p r : serve n p = Some r -> (n <= m)%nat -> sane p ->
  0 <= instructions_executed (vm s) + k -> instructions_executed (vm s) + k + Z.of_nat m < 2 ^ 64 ->
  fst (run checks m (at_ k p)) = Some r.
Proof.
  revert m k p. induction n as [|n IH]; intros [|m] k p; try done; [lia|].
  intros Hs Hm Hp H0 Hk. cbn [run].
  destruct (served_next n k p r Hs Hp ltac:(unfold in_u; lia)) as [(s' & ->)|(q & -> & Hq & Hpq)]; [done|].
  apply IH; (done || lia).
Qed.
(** ** The traces of the runtime *)

Context {M C : Type} `{CS : JitClif.CraneliftSound TraceKey.t M C}.
Implicit Type j : JitShared (C := C) (M := M).

Definition compiled_here (key : TraceKey.t) (trace : CompiledTrace C) : Prop :=
  exists md md' : M, compile_trace checks md ch key = Some (Ok trace, md').

(** The lock of the cache is not poisoned, and every trace in it is of this chunk. *)
Definition sound_cache j : Prop :=
  poisoned (rt_cache (js_runtime j)) = false /\
  map_Forall compiled_here (guarded (rt_cache (js_runtime j))).

Context (Hver : verify ch = Ok tt) (Hlen : Z.of_nat (length (Chunk.code ch)) < 2 ^ 32).

Lemma entries_ok : Forall (fun def => 0 <= FunctionDef.entry def) (Chunk.functions ch).
Proof.
  destruct Hok as (_ & _ & _ & Hfun). eapply Forall_impl; [exact Hfun|].
  intros d (_ & [? _] & _). done.
Qed.

(** Compiling never panics. *)
Lemma compile_answers md key : 0 <= TraceKey.entry_pc key ->
  exists r md', compile_trace checks md ch key = Some (r, md').
Proof.
  intros Hpc. destruct (lower_complete checks ch key Hver Hlen entries_ok Hpc) as (r & Hr & _).
  unfold compile_trace. rewrite Hr. destruct r as [[span F]|e]; cbn [fmap option_fmap option_map].
  - destruct (JitClif.define_function md key F) as [[c|e] md']; by eexists _, _.
  - by eexists _, _.
Qed.

Lemma sound_cached j key code : sound_cache j -> get_trace (js_runtime j) key = Some code ->
  exists trace, compiled_here key trace /\ entry trace = code.
Proof.
  intros [Hp Hm]. unfold get_trace, lock_ok. rewrite Hp. cbn [mbind option_bind].
  destruct (guarded (rt_cache (js_runtime j)) !! (key : TraceKey.t)) as [trace|] eqn:Ek; [|done].
  intros [= <-]. exists trace. split; [exact (map_Forall_lookup_1 _ _ _ _ Hm Ek)|done].
Qed.

Lemma sound_insert rt md mt mt' md' key trace : sound_cache (mk_shared rt md mt) ->
  compiled_here key trace -> sound_cache (mk_shared (insert_trace rt key trace) md' mt').
Proof.
  intros [Hp Hm] Hc. simpl in Hp, Hm. unfold sound_cache, insert_trace, if_ok. simpl. rewrite Hp. simpl.
  split; [done|].
  exact (map_Forall_insert_2 (M := gmap TraceKey.t) compiled_here _ key trace Hc Hm).
Qed.

(** The dispatch of a site declines, or runs a trace of this chunk. *)
Lemma hot_outcome j key slots budget rc (P : ExitReason * list Z -> Prop) :
  sound_cache j -> 0 <= TraceKey.entry_pc key ->
  (forall trace, compiled_here key trace ->
     exists e, run_entry (entry trace) key slots budget rc = Some e /\ P e) ->
  exists o j', try_run_hot_runtime checks hot_fuel j ch key slots budget rc = Some (o, j') /\
    sound_cache j' /\ match o with Some e => P e | None => True end.
Proof.
  intros Hj Hpc HP.
  assert (Hrun : forall fuel j' code, sound_cache j' -> get_trace (js_runtime j') key = Some code ->
    exists o j'', try_run_hot_runtime checks (S fuel) j' ch key slots budget rc = Some (o, j'') /\
      sound_cache j'' /\ match o with Some e => P e | None => True end).
  { intros fuel j' code Hs Hg. rewrite (cached_run _ _ _ _ _ _ _ _ _ Hg).
    destruct (sound_cached _ _ _ Hs Hg) as (trace & Ht & <-).
    destruct (HP trace Ht) as (e & -> & He). by eexists _, _. }
  unfold hot_fuel. destruct (get_trace (js_runtime j) key) as [code|] eqn:Eg; [by eapply Hrun|].
  remember 1%nat as f1 eqn:Ef. cbn [try_run_hot_runtime]. rewrite Eg.
  pose proof (hot_hit_cache key (js_runtime j)) as Hc.
  destruct (record_hot_hit (js_runtime j) key) as [hot rt]. cbn [snd] in Hc.
  assert (Hs : forall md mt, sound_cache (mk_shared rt md mt))
    by (intros; unfold sound_cache; simpl; by rewrite Hc).
  destruct (negb hot); [eexists _, _; split; [done|]; by split|].
  destruct (get_trace rt key) as [code|] eqn:Eg'; [subst f1; by eapply (Hrun 0%nat)|].
  assert (Hcomp : forall md, exists r md', compile_trace checks md ch key = Some (r, md'))
    by (intros; by apply compile_answers).
  assert (Hmod : exists r md', with_jit_module (js_module j) (fun m => compile_trace checks m ch key) = Some (r, md') /\
    forall trace, r = Ok trace -> compiled_here key trace).
  { unfold with_jit_module. destruct (js_module j) as [md|]; [|destruct JitClif.create_module as [md|e]].
    3: { eexists _, _. by split. }
    all: destruct (Hcomp md) as (r & md' & Er); rewrite Er; eexists _, _; split; [reflexivity|].
    all: intros trace; simpl; intros ->; by exists md, md'. }
  destruct Hmod as (r & md' & -> & Hr). destruct r as [trace|e].
  - subst f1. apply (Hrun 0%nat _ (entry trace)); [by eapply sound_insert; [apply (Hs None None)|apply Hr]|].
    apply inserted_trace. rewrite Hc. apply Hj.
  - eexists _, _. split; [done|]. by split.
Qed.
(** ** Runs of traces *)

Context (def : FunctionDef.t) (Hdef : Chunk.function ch fn = Some def).
Context (Hsize : FunctionDef.num_registers def = size).

#[local] Opaque collect_trace_region.

Lemma compiled_traceable pc trace : trustworthy pc = true ->
  compiled_here (TraceKey.mk fn pc) trace -> traceable checks ch (TraceKey.mk fn pc) = true.
Proof.
  intros Ht (md & md' & Hc). destruct (compile_trace_ok _ _ _ _ _ _ Hc) as (span & F & Hl & _).
  unfold lower_trace in Hl. cbn [TraceKey.function] in Hl. rewrite Hdef in Hl.
  unfold trustworthy, traceable in *.
  destruct (collect_trace_region checks ch (TraceKey.mk fn pc)) as [[|b region]| |]; done.
Qed.

Lemma served_pc pc regs n r : serve n (pc, regs) = Some r -> sane (pc, regs) ->
  trustworthy pc = true /\ in_u 32 pc.
Proof.
  destruct n as [|n]; [done|]. intros Hs [Hpc _]. destruct (serve_inv _ _ _ Hs) as [Hsv _].
  destruct (served_inv _ _ Hsv) as (i & Hi & _ & Ht & _). split; [done|].
  unfold instr_at in Hi. rewrite get_eq in Hi. apply lookup_lt_Some in Hi. unfold in_u. simpl in Hpc. lia.
Qed.

(** The exit of a trace, entered with a budget of [m], for a flow served in [n] instructions. *)
Definition exit_served (m n : nat) (r : VmResult.t) (e : ExitReason * list Z) : Prop :=
  exists k pc regs, (k < n)%nat /\ sane (pc, regs) /\ serve (n - k) (pc, regs) = Some r /\
    exit_sound ch (Z.of_nat m) (fst e) (snd e) k pc regs.

Lemma trace_served m n pc regs r trace capacity slots rc :
  serve n (pc, regs) = Some r -> sane (pc, regs) -> Z.of_nat m < 2 ^ 32 ->
  compiled_here (TraceKey.mk fn pc) trace -> (length regs <= capacity)%nat ->
  JitDispatch.sync_registers (replicate capacity 0) regs = (SlotsOk, slots) ->
  exists e, run_entry (entry trace) (TraceKey.mk fn pc) slots (Z.of_nat m) rc = Some e /\
    exit_served m n r e.
Proof.
  intros Hs Hp Hm Hc Hcap Hsync. destruct (served_pc _ _ _ _ Hs Hp) as [Ht Hpc].
  pose proof (compiled_traceable _ _ Ht Hc) as Htr. destruct Hc as (md & md' & Hc).
  destruct Hp as [H0' [Hl Hh Hv]]. cbn [fst snd] in *.
  destruct (trace_exits_soundly checks md md' ch (TraceKey.mk fn pc) def trace regs slots capacity
    (Z.of_nat m) rc) as (exit & slots' & k & pc' & regs' & Hrun & _ & Hk & Hex); try done.
  - by rewrite Hsize.
  - unfold in_u. lia.
  - by eapply serve_stays.
  - destruct (serve_run _ _ _ _ _ Hs Hk) as [Hkn Hs'].
    exists (exit, slots'). split; [done|]. exists k, pc', regs'. split_and!; try done.
    by eapply (sane_run k (pc, regs)).
Qed.
(** Where an exit leaves the flow: at its end, or at a point from which it is served. *)
Definition resumed (n : nat) (k : Z) (r : VmResult.t) (o : option (result (option VmResult.t) Fault.t) * state H)
  : Prop :=
  match o with
  | (Some (Ok (Some r')), _) => same_result r r'
  | (Some (Ok None), s') => exists n' q r', (n' <= n)%nat /\ s' = at_ k q /\ sane q /\
      serve n' q = Some r' /\ same_result r r'
  | _ => False
  end.

Lemma serve_ending n p r e : serve n p = Some r -> ending p = Some e -> r = e.
Proof.
  destruct n as [|n]; [done|]. intros Hs He.
  destruct (serve_inv _ _ _ Hs) as [_ [Hr|[Hn _]]]; congruence.
Qed.

Lemma same_length (regs regs' : list Value.t) reg v : plain regs -> plain regs' ->
  get regs reg = Some v -> is_Some (get regs' reg).
Proof.
  intros [Hl _ _] [Hl' _ _]. rewrite !get_eq. intros Hv%lookup_lt_Some.
  apply lookup_lt_is_Some_2. lia.
Qed.

Lemma return_applied k pc regs pc0 regs0 reg z slots n r :
  plain regs0 -> sane (pc, regs) -> serve n (pc, regs) = Some r ->
  returning ch pc regs reg z -> get slots reg = Some z ->
  resumed n k r (apply_exit_to_vm checks slots (Return_ reg) (at_ k (pc0, regs0))).
Proof.
  intros H1 [_ H2] Hs (i & v & Hi & Ho & Ha & Hv & Hz) Hsl.
  assert (Hr : r = VmResult.Complete v).
  { eapply serve_ending; [exact Hs|]. rewrite (ending_eq _ _ _ Hi), Ho, Ha. by rewrite Hv. }
  destruct (same_length _ _ _ _ H2 H1 Hv) as [w Hw]. unfold apply_exit_to_vm. rewrite Hsl.
  unfold r_bind at 1, set_register.
  assert (Hst : store regs0 reg (Value.Int z) = Some (<[Z.to_nat reg := Value.Int z]> regs0))
    by (unfold store; by rewrite Hw).
  rewrite (set_reg_at checks s f [] k pc0 regs0 reg (Value.Int z) _ (or_intror eq_refl) Hst).
  unfold r_bind, get_state, pure_r, set_vm_pc, return_value, pop_frame. simpl. rewrite Hdest.
  simpl. subst r. right. by exists z.
Qed.

Lemma exit_applied m n k pc0 regs0 r e : (n <= m)%nat -> plain regs0 -> exit_served m n r e ->
  resumed n k r (apply_exit_to_vm checks (snd e) (fst e) (at_ k (pc0, regs0))).
Proof.
  destruct e as [exit slots]. cbn [fst snd].
  intros Hm H1 (j & pc & regs & Hj & Hp & Hs & Hex). cbn [fst snd] in Hex.
  destruct exit as [pc'|pc'|reg|pc'|pc'|pc']; simpl in Hex; try done.
  - destruct Hex as (-> & _ & σ & Hrel & Hh).
    destruct (serve_blur _ _ _ (map Value.Int σ) _ (ints_blurs _ _ Hrel) Hs) as (r' & Hs' & Hr').
    simpl. exists (n - j)%nat, (pc, map Value.Int σ), r'. split_and!; [lia| | |done..].
    + unfold at_point. cbn [fst snd]. rewrite <- (write_slots_ints regs0 σ slots); [done| |done].
      destruct Hp as [_ Hp]. pose proof (pl_size _ H1). pose proof (pl_size _ Hp).
      apply Forall2_length in Hrel. simpl in *. lia.
    + destruct Hp as [Hpc Hp]. split; [done|]. by eapply ints_plain.
  - destruct Hex as (_ & z & Hret & Hz).
    pose proof (return_applied k pc regs pc0 regs0 reg z slots (n - j) r H1 Hp Hs Hret Hz) as Hres.
    unfold resumed in *. destruct (apply_exit_to_vm _ _ _ _) as [[[[r'|]|]|] s']; try done.
    destruct Hres as (n' & q & r' & Hn & ?). exists n', q, r'. split; [lia|done].
  - lia.
  - destruct Hex as (_ & i & Hi & Hz). simpl.
    assert (He : ending (pc, regs) = Some (VmResult.Trap Fault.DivideByZero)).
    { rewrite (ending_eq _ _ _ Hi), Hz. unfold zero_division in Hz. by destruct (Instruction.op i). }
    by rewrite (serve_ending _ _ _ _ Hs He).
Qed.

(** ** Quanta *)

Lemma capacity_enough k pc regs : plain regs ->
  (length regs <= Z.to_nat (slot_capacity (vm (at_ k (pc, regs)))))%nat.
Proof.
  intros [Hl _ _]. unfold slot_capacity, current_num_registers. simpl. unfold frame_size. simpl.
  assert (H256 : 0 <= size < 256).
  { destruct Hok as (_ & _ & _ & Hfun). unfold Chunk.function in Hdef. rewrite get_eq in Hdef.
    rewrite <- Hsize. apply (Forall_lookup_1 _ _ _ _ Hfun Hdef). }
  rewrite (wrap_u_id 8) by (unfold in_u; lia).
  destruct (map _ _); lia.
Qed.

Lemma jit_step_served vm_arc m n k p r j :
  sound_cache j -> sane p -> serve n p = Some r -> (n <= m)%nat -> Z.of_nat m < 2 ^ 32 ->
  exists o j' s', try_jit_step_runtime checks vm_arc j (at_ k p) (Z.of_nat m) = Some (o, j', s') /\
    sound_cache j' /\ resumed n k r (Some (Ok o), s').
Proof.
  destruct p as [pc regs]. intros Hj Hp Hs Hn Hm.
  assert (Hsame : forall j', sound_cache j' -> exists o j'' s', Some (None, j', at_ k (pc, regs)) = Some (o, j'', s') /\
    sound_cache j'' /\ resumed n k r (Some (Ok o), s')).
  { intros j' Hj'. eexists _, _, _. split; [done|]. split; [done|].
    destruct (serve_blur n pc regs regs r ltac:(reflexivity) Hs) as (r' & Hs' & Hr').
    by exists n, (pc, regs), r'. }
  unfold try_jit_step_runtime. destruct (negb _); [by apply Hsame|].
  pose proof Hp as [Hpc Hpl]. cbn [snd] in Hpl. pose proof (capacity_enough k pc regs Hpl) as Hcap.
  destruct (served_pc _ _ _ _ Hs Hp) as [_ H32].
  unfold jit_step. revert Hcap.
  generalize (Z.to_nat (slot_capacity (vm (at_ k (pc, regs))))) as capacity. intros capacity Hcap.
  change (current_pc (vm (at_ k (pc, regs)))) with (Some pc).
  change (current_function checks (vm (at_ k (pc, regs)))) with (Some (Frame.function f)).
  change (sync_slots_from_vm (vm (at_ k (pc, regs))) ?z) with (JitDispatch.sync_registers z regs).
  destruct (current_num_registers (vm (at_ k (pc, regs)))) as [rc|]; [|by apply Hsame].
  destruct (JitDispatch.sync_registers _ regs) as [[] slots] eqn:Hsync; [|by apply Hsame..].
  change (chunk (vm (at_ k (pc, regs)))) with (chunk (vm s)).
  rewrite Hchunk, Hfn, (wrap_u_id 32) by done.
  destruct (hot_outcome j (TraceKey.mk fn pc) slots (Z.of_nat m) rc (exit_served m n r) Hj)
    as (o & j' & -> & Hj' & He); [apply H32|intros trace Ht; by eapply trace_served|].
  destruct o as [[exit slots']|]; [|by apply Hsame].
  pose proof (exit_applied m n k pc regs r _ Hn Hpl He) as Hres. cbn [fst snd] in Hres.
  destruct (apply_exit_to_vm checks slots' exit _) as [[[o|]|] s']; try done.
  by eexists _, _, _.
Qed.

(** A quantum under the JIT ends as the interpreter's. *)
Lemma served_loop vm_arc m n k p r j :
  sound_cache j -> sane p -> serve n p = Some r -> (n <= m)%nat -> Z.of_nat m < 2 ^ 32 ->
  0 <= instructions_executed (vm s) + k -> instructions_executed (vm s) + k + Z.of_nat m < 2 ^ 64 ->
  exists r' j' s', run_vm_with_jit_runtime checks vm_arc m j (at_ k p) = (Some r', j', s') /\
    same_result r r'.
Proof.
  unfold run_vm_with_jit_runtime. revert n k p r j. induction m as [|m IH].
  { intros [|n] k p r j _ _ Hs Hn; [done|lia]. }
  intros n k p r j Hj Hp Hs Hn Hm H0' Hk. cbn [run_vm_with_jit_loop].
  destruct (jit_step_served vm_arc _ _ k p r j Hj Hp Hs Hn Hm) as (o & j' & s' & -> & Hj' & Hres).
  destruct o as [r'|]; [by eexists _, _, _|].
  destruct Hres as (n' & q & r' & Hn' & -> & Hq & Hs' & Hr').
  destruct n' as [|n']; [done|]. cbn [run].
  destruct (served_next n' k q r' Hs' Hq ltac:(unfold in_u; lia)) as [(s'' & ->)|(q' & -> & Hq' & Hp')].
  - destruct r, r'; try done; by eexists _, _, _.
  - destruct (IH n' (k + 1) q' r' j' Hj' Hp' Hq') as (t & j'' & s'' & -> & Ht); try lia.
    eexists _, _, _. split; [done|]. by eapply same_result_trans.
Qed.

End flow.

(** C7: a flow under the JIT ends as it ends without.  Take a machine with one frame, of a
    verified chunk of fewer than 2^32 instructions, whose registers and constants hold no
    strings or bytes, and a runtime whose trace cache is not poisoned and holds only traces
    of this chunk.  If the interpreter completes, or divides by zero, within the budget,
    through points a trace can serve ([serve]: no calls or effects, equality of numbers
    only, and a region at every pc that is either refused or [region_traceable]), then the
    quantum of the JIT runtime neither panics nor suspends: whichever sites are cold, hot,
    declined, compiled now or in the cache, it ends with the same result, where a boolean
    or unit may come back as the integer of its slot. *)
Theorem jit_flow_sound {H M C : Type} `{JitClif.CraneliftSound TraceKey.t M C} checks vm_arc
    (j : JitShared (C := C) (M := M)) (s : state H) f def n budget r :
  let ch := chunk (vm s) in
  verify ch = Ok tt -> chunk_ok ch -> Z.of_nat (length (Chunk.code ch)) < 2 ^ 32 ->
  Forall (fun v => heapless v = true) (Chunk.constants ch) ->
  frames (vm s) = [f] -> Frame.dest_reg f = None ->
  Chunk.function ch (Frame.function f) = Some def ->
  sane (FunctionDef.num_registers def) (Frame.pc f, Frame.registers f) ->
  sound_cache checks ch j ->
  serve checks ch (Frame.function f) n (Frame.pc f, Frame.registers f) = Some r ->
  (n <= budget)%nat -> Z.of_nat budget < 2 ^ 32 ->
  0 <= instructions_executed (vm s) -> instructions_executed (vm s) + Z.of_nat budget < 2 ^ 64 ->
  fst (run checks budget s) = Some r /\
  exists r' j' s', run_flow_quantum checks vm_arc (Some j) budget s = (Some r', j', s') /\
    same_result r r'.
Proof.
  intros ch Hver Hok Hlen Hcs Hf Hd Hdef Hsane Hj Hs Hn Hb H0' Hk.
  pose proof (at_point_id s f [] Hf) as Hid. split.
  - rewrite <- Hid. by eapply (serve_run_vm checks ch _ _ Hok Hcs s f eq_refl Hd); [..|lia|lia].
  - destruct (served_loop checks ch _ _ Hok Hcs s f eq_refl eq_refl Hd Hver Hlen def Hdef eq_refl
      vm_arc budget n 0 _ r j Hj Hsane Hs Hn Hb) as (r' & j' & s' & Hrun & Hr'); [lia..|].
    rewrite Hid in Hrun. unfold run_flow_quantum. rewrite Hrun. by eexists _, _, _.
Qed.

(** The trace of three blocks of [JitRefine.diamond], compiled at its first visit. *)
Lemma jit_flow_sound_witness :
  exists v, Vm.with_native_gate diamond (@NativeTable.empty unit) VmTheory.no_gate 0 [] = Ok v /\
    let s := VmTheory.start v VmTheory.no_world in
    let j := mk_shared (C := list (list JitClif.inst)) (new_runtime (7%N, diamond) 1)
               (None : option (list TraceKey.t)) None in
    fst (run true 20 s) = Some (VmResult.Complete (Value.Int 3)) /\
    exists r' j' s', run_flow_quantum true 7%N (Some j) 20 s = (Some r', j', s') /\
      same_result (VmResult.Complete (Value.Int 3)) r'.
Proof.
  eexists. split; [reflexivity|]. cbv zeta.
  assert (Hs : serve true diamond 0 7 (0, replicate 3 Value.Unit) =
    Some (VmResult.Complete (Value.Int 3))) by by vm_compute.
  assert (Hok : chunk_ok diamond).
  { split; [done|]. split; [by constructor|]. split; apply (bool_decide_unpack _); by vm_compute. }
  match goal with |- fst (run true 20 ?s) = _ /\ _ =>
    apply (jit_flow_sound true 7%N _ s (Frame.mk 0 0 (replicate 3 Value.Unit) None)
      (FunctionDef.mk (ascii_bytes "main") 0 0 3) 7 20)
  end.
  - by vm_compute.
  - exact Hok.
  - done.
  - by constructor.
  - done.
  - done.
  - done.
  - split; [done|]. by split; repeat constructor.
  - by split.
  - exact Hs.
  - lia.
  - done.
  - done.
  - done.
Defined.
