(* ===== verification/Process.v ===== *)
(** Flows, the unit of work of the scheduler.  Models scheduler/process.rs.

    What a flow shares with the rest of the runtime through an [Arc] (mailbox,
    metrics, completion channel, revocation cell, quota) is a reference; the
    supervisor it notifies is one too. *)

From S2P Require Import Prelude Capability Values Sync Quota Native Vm.

Module FlowId.

(** [scheduler/process.rs] [FlowId]: a [u64]. *)
Definition t : Type := Z.

(** [scheduler/process.rs] [FlowId::HOST] *)
Definition HOST : t := 0.

(** [scheduler/process.rs] [FlowId::as_u64] *)
Definition as_u64 (f : t) : Z := f.

(** [scheduler/process.rs] [FlowId::is_host] *)
Definition is_host (f : t) : bool := f =? 0.

End FlowId.

(** [scheduler/process.rs:46-51] [next_flow_id]: [fetch_add] on the global
    counter, which starts at 1; it wraps. *)
Definition NEXT_FLOW_ID : Z := 1.
Definition next_flow_id (counter : Z) : FlowId.t * Z := (counter, wrap_u 64 (counter + 1)).

(** [scheduler/process.rs] [RestartPolicy] *)
Inductive RestartPolicy := Always | OnFailure | Never.
#[export] Instance restart_policy_eq_dec : EqDecision RestartPolicy.
Proof. solve_decision. Defined.

(** [scheduler/process.rs] [FlowMetrics] *)
Record FlowMetrics := mk_flow_metrics {
  instructions : Z;
  messages_sent : Z;
  messages_received : Z;
  reschedules : Z }.

(** [scheduler/process.rs] [PendingSend] *)
Inductive PendingSend :=
| FireAndForget
| AskReply (dest_reg expect_request_id expect_sender : Z) (timeout : option duration).

(** [scheduler/process.rs] [FlowOutcome] *)
Inductive FlowOutcome := Completed (v : Value.t) | Failed (msg : string).

Module Flow.

(** [scheduler/process.rs] [Flow] *)
Record t (H : Type) := mk {
  id : FlowId.t;
  fvm : Vm H;
  mailbox : N;
  metrics : N;
  restart_policy : RestartPolicy;
  completion : N;
  pending_message : option Value.t;
  last_receive_dest : option Z;
  pending_send : option PendingSend;
  supervisor : option N;
  authority : Cap.t;
  cell : RevocationCell.ref;
  fquota : N }.
Arguments mk {H} _ _ _ _ _ _ _ _ _ _ _ _ _.
Arguments id {H} _.
Arguments fvm {H} _.
Arguments mailbox {H} _.
Arguments metrics {H} _.
Arguments restart_policy {H} _.
Arguments completion {H} _.
Arguments pending_message {H} _.
Arguments last_receive_dest {H} _.
Arguments pending_send {H} _.
Arguments supervisor {H} _.
Arguments authority {H} _.
Arguments cell {H} _.
Arguments fquota {H} _.

Section flow.
Context {H : Type}.
Implicit Type f : t H.

Definition with_pending_message f (m : option Value.t) : t H :=
  mk (id f) (fvm f) (mailbox f) (metrics f) (restart_policy f) (completion f) m
    (last_receive_dest f) (pending_send f) (supervisor f) (authority f) (cell f) (fquota f).

(** [scheduler/process.rs] [Flow::new]: a fresh revocation cell, an authority
    record without rights on it, and a quota of the default configuration; [metrics]
    is the reference of the fresh counters. *)
Definition new (w : world H) (now : Z) (id : FlowId.t) (v : Vm H) (mailbox : N)
    (restart_policy : RestartPolicy) (completion metrics : N) : t H * world H :=
  let (cell, s) := RevocationCell.new (cells w) in
  let authority := Cap.root (CapTarget.Flow (FlowId.as_u64 id)) CapRights.NONE None s cell in
  let q : N := fresh (dom (quotas w)) in
  (mk id v mailbox metrics restart_policy completion None None None None authority cell q,
   with_quotas (with_cells w s)
     (<[q := FlowQuota.from_config QuotaConfig.default now]> (quotas w))).

End flow.
End Flow.

(** A flow's authority does not carry any right until spawning grants it. *)
Lemma flow_new_no_rights {H} (w : world H) now i v mb rp c me r :
  CapRights.contains (Cap.rights (Flow.authority (fst (Flow.new w now i v mb rp c me)))) r =
  (0 =? r).
Proof. reflexivity. Qed.
