(* ===== verification/CapTable.v ===== *)
(** The capability table of a runtime, the decisions made on authority records
    (delegation, confined spawn, links, administration).  Models
    scheduler/capability.rs, delegate.rs, spawn.rs and link_admin.rs. *)

From S2P Require Import Prelude Capability Sync Quota Vm Process.

(** ** Decisions on authority records *)

(** [scheduler/delegate.rs] [DelegateError] *)
Inductive DelegateError := SourceRevoked | SourceLacksNative.

Definition is_some {A} (o : option A) : bool := match o with Some _ => true | None => false end.

(** [scheduler/delegate.rs] [exec_delegate] *)
Definition exec_delegate (s : RevocationCell.store) (src : Cap.t)
    (src_cell : RevocationCell.ref) (want_rights : CapRights.t)
    (want_native : option NativeMask.t) : result Cap.t DelegateError :=
  if negb (Cap.is_valid src s src_cell) then Err SourceRevoked
  else if is_some want_native && negb (CapRights.contains (Cap.rights src) CapRights.NATIVE) then
    Err SourceLacksNative
  else Ok (Cap.attenuate src want_rights want_native).

(** [scheduler/spawn.rs] [ConfinedSpawnError] *)
Inductive ConfinedSpawnError := RateLimited | SourceCapRevoked | MissingSpawnRight.

(** [scheduler/spawn.rs] [exec_spawn_authority]: the parent's quota is updated, and
    [now], [now'] are its clock readings; [None] is the overflow
    panic of the spawn bucket's refill. *)
Definition exec_spawn_authority (oc : bool) (s : RevocationCell.store) (parent_cap : Cap.t)
    (parent_cell : RevocationCell.ref) (parent_quota : FlowQuota.t) (now now' : Z)
    (new_child_id : Z) (requested_rights : CapRights.t)
    (requested_native : option NativeMask.t) (child_cell : RevocationCell.ref)
  : option (result Cap.t ConfinedSpawnError) * FlowQuota.t :=
  if negb (Cap.is_valid parent_cap s parent_cell) then (Some (Err SourceCapRevoked), parent_quota)
  else if negb (CapRights.contains (Cap.rights parent_cap) CapRights.SPAWN) then
    (Some (Err MissingSpawnRight), parent_quota)
  else
    let (r, q) := FlowQuota.check_spawn oc parent_quota now now' in
    (match r with
     | None => None
     | Some (Err _) => Some (Err RateLimited)
     | Some (Ok _) =>
       let attenuated := Cap.attenuate parent_cap requested_rights requested_native in
       Some (Ok (Cap.root (CapTarget.Flow new_child_id) (Cap.rights attenuated)
                   (Cap.native_mask attenuated) s child_cell))
     end, q).

Module LinkError.
(** [scheduler/link_admin.rs] [LinkError] *)
Inductive t := WrongTarget | MissingRight | CapRevoked.
End LinkError.

(** [scheduler/link_admin.rs] [check_link] *)
Definition check_link (s : RevocationCell.store) (cap : Cap.t) (cell : RevocationCell.ref)
    (target : Z) : result unit LinkError.t :=
  if negb (Cap.is_valid cap s cell) then Err LinkError.CapRevoked
  else if negb (bool_decide (Cap.target cap = CapTarget.Flow target)) then
    Err LinkError.WrongTarget
  else if negb (CapRights.contains (Cap.rights cap) CapRights.LINK) then
    Err LinkError.MissingRight
  else Ok tt.

(** [scheduler/link_admin.rs] [check_monitor] *)
Definition check_monitor (s : RevocationCell.store) (cap : Cap.t) (cell : RevocationCell.ref)
    (target : Z) : result unit LinkError.t :=
  if negb (Cap.is_valid cap s cell) then Err LinkError.CapRevoked
  else if negb (bool_decide (Cap.target cap = CapTarget.Flow target)) then
    Err LinkError.WrongTarget
  else if negb (CapRights.contains (Cap.rights cap) CapRights.MONITOR) then
    Err LinkError.MissingRight
  else Ok tt.

Module AdminError.
(** [scheduler/link_admin.rs] [AdminError] *)
Inductive t := MissingRight | CapRevoked | WrongTarget.
End AdminError.

(** [scheduler/link_admin.rs] [check_admin] *)
Definition check_admin (s : RevocationCell.store) (cap : Cap.t) (cell : RevocationCell.ref)
  : result unit AdminError.t :=
  if negb (Cap.is_valid cap s cell) then Err AdminError.CapRevoked
  else if negb (bool_decide (Cap.target cap = CapTarget.Scheduler)) then
    Err AdminError.WrongTarget
  else if negb (CapRights.contains (Cap.rights cap) CapRights.ADMIN) then
    Err AdminError.MissingRight
  else Ok tt.

(** ** The table *)

Module CapError.

(** [scheduler/capability.rs] [CapError] *)
Inductive t :=
| Unknown
| NotHolder
| InsufficientRights
| WrongTarget
| Unavailable
| DuplicateRequestId.

#[global] Instance eq_dec : EqDecision t.
Proof. solve_decision. Defined.

(** [scheduler/capability.rs:63-76] [CapError::fmt] *)
Definition to_string (e : t) : string :=
  match e with
  | Unknown => "unknown or revoked capability"
  | NotHolder => "calling flow does not hold this capability"
  | InsufficientRights => "capability lacks required rights"
  | WrongTarget => "capability target is not a flow"
  | Unavailable => "capability table unavailable (poisoned lock)"
  | DuplicateRequestId => "duplicate in-flight request_id"
  end.

(** [scheduler/capability.rs:80-84] [CapError::from] *)
Definition from_runtime (_ : RuntimeError) : t := Unavailable.

End CapError.

Module Capability.

(** [scheduler/capability.rs] [Capability] *)
Record t := mk { holder : FlowId.t; cap : Cap.t }.

#[global] Instance eq_dec : EqDecision t.
Proof. solve_decision. Defined.

(** [scheduler/capability.rs] [Capability::target] *)
Definition target (c : t) : option FlowId.t := CapTarget.flow_id (Cap.target (cap c)).

(** [scheduler/capability.rs] [Capability::rights] *)
Definition rights (c : t) : CapRights.t := Cap.rights (cap c).

End Capability.

(** [scheduler/capability.rs] [CapTableInner] *)
Record CapTableInner := mk_inner {
  entries : gmap CapId.t Capability.t;
  flow_cells : gmap Z RevocationCell.ref;
  reply_index : gmap (FlowId.t * FlowId.t) CapId.t }.

Definition with_entries (g : CapTableInner) e : CapTableInner :=
  mk_inner e (flow_cells g) (reply_index g).
Definition with_flow_cells (g : CapTableInner) c : CapTableInner :=
  mk_inner (entries g) c (reply_index g).
Definition with_reply_index (g : CapTableInner) r : CapTableInner :=
  mk_inner (entries g) (flow_cells g) r.

(** What the table's operations act on: the revocation counters shared with flows
    and gates, and the operating system's generator. *)
Record env (R : Type) := mk_env { ecells : RevocationCell.store; erng : R }.
Arguments mk_env {R} _ _.
Arguments ecells {R} _.
Arguments erng {R} _.

Module CapTable.

(** [scheduler/capability.rs] [CapTable] *)
Record t := mk {
  inner : mutex CapTableInner;
  native_cell : RevocationCell.ref;
  scheduler_cell : RevocationCell.ref }.

(** [scheduler/capability.rs] [MINT_ATTEMPTS] *)
Definition MINT_ATTEMPTS : nat := 32.

Section table.
Context {R : Type} (getrandom : R -> option (list byte) * R).

(** An operation: it threads the table and its environment and may fail with [E]. *)
Definition Op (E A : Type) : Type := t * env R -> result A E * (t * env R).

Definition ret {E A} (a : A) : Op E A := fun s => (Ok a, s).
Definition fail {E A} (e : E) : Op E A := fun s => (Err e, s).
Definition bind {E A B} (m : Op E A) (f : A -> Op E B) : Op E B := fun s =>
  match m s with
  | (Ok a, s') => f a s'
  | (Err e, s') => (Err e, s')
  end.
(** [map_err]. *)
Definition map_err {E E' A} (f : E -> E') (m : Op E A) : Op E' A := fun s =>
  match m s with
  | (Ok a, s') => (Ok a, s')
  | (Err e, s') => (Err (f e), s')
  end.

(** [scheduler/capability.rs] [CapTable::lock]: a critical section on the table. *)
Definition locked {A} (where_ : string)
    (f : CapTableInner -> env R -> result A RuntimeError * CapTableInner * env R)
  : Op RuntimeError A := fun '(tb, e) =>
  match lock (inner tb) where_ with
  | Err x => (Err x, (tb, e))
  | Ok g =>
    let '(r, g', e') := f g e in
    (r, (mk (unlock g') (native_cell tb) (scheduler_cell tb), e'))
  end.

(** [scheduler/capability.rs] [CapTable::new] *)
Definition new (s : RevocationCell.store) : t * RevocationCell.store :=
  let (nc, s1) := RevocationCell.new s in
  let (sc, s2) := RevocationCell.new s1 in
  (mk (mutex_new (mk_inner ∅ ∅ ∅)) nc sc, s2).

(** [entry(flow).or_insert_with(|| Arc::new(RevocationCell::new())).clone()]. *)
Definition cell_or_new (flow : Z) (g : CapTableInner) (e : env R)
  : RevocationCell.ref * CapTableInner * env R :=
  match flow_cells g !! flow with
  | Some c => (c, g, e)
  | None =>
    let (c, s) := RevocationCell.new (ecells e) in
    (c, with_flow_cells g (<[flow := c]> (flow_cells g)), mk_env s (erng e))
  end.

(** [scheduler/capability.rs] [CapTable::bind_flow] *)
Definition bind_flow (flow : FlowId.t) : Op RuntimeError RevocationCell.ref :=
  locked "CapTable::bind_flow" (fun g e =>
    let '(c, g', e') := cell_or_new (FlowId.as_u64 flow) g e in (Ok c, g', e')).

(** [scheduler/capability.rs] [CapTable::flow_cell] *)
Definition flow_cell (flow : FlowId.t) : Op RuntimeError (option RevocationCell.ref) :=
  locked "CapTable::flow_cell" (fun g e => (Ok (flow_cells g !! FlowId.as_u64 flow), g, e)).

(** The loop of [insert_fresh]. *)
Fixpoint fresh_attempts (n : nat) (table : gmap CapId.t Capability.t) (rng : R)
  : result CapId.t RuntimeError * R :=
  match n with
  | O => (Err CapIdCollision, rng)
  | S n' =>
    let (r, rng') := CapId.random getrandom rng in
    match r with
    | Err _ => (Err EntropyFailed, rng')
    | Ok id =>
      if CapId.is_none id || is_some (table !! id) then fresh_attempts n' table rng'
      else (Ok id, rng')
    end
  end.

(** [scheduler/capability.rs] [CapTable::insert_fresh] *)
Definition insert_fresh (table : gmap CapId.t Capability.t) (entry : Capability.t) (rng : R)
  : result CapId.t RuntimeError * gmap CapId.t Capability.t * R :=
  let (r, rng') := fresh_attempts MINT_ATTEMPTS table rng in
  match r with
  | Ok id => (Ok id, <[id := entry]> table, rng')
  | Err x => (Err x, table, rng')
  end.

(** [insert_fresh] on the table of a critical section. *)
Definition insert_fresh_locked (entry : Capability.t) (g : CapTableInner) (e : env R)
  : result CapId.t RuntimeError * CapTableInner * env R :=
  let '(r, m, rng) := insert_fresh (entries g) entry (erng e) in
  (r, with_entries g m, mk_env (ecells e) rng).

(** [scheduler/capability.rs] [CapTable::insert] *)
Definition insert (holder : FlowId.t) (cap : Cap.t) : Op RuntimeError CapId.t :=
  locked "CapTable::insert" (insert_fresh_locked (Capability.mk holder cap)).

(** [scheduler/capability.rs] [CapTable::grant] *)
Definition grant (holder : FlowId.t) (cap : Cap.t) : Op RuntimeError CapId.t :=
  insert holder cap.

(** [Cap::root] on the counters of the environment. *)
Definition root_of (target : FlowId.t) (rights : CapRights.t) (cell : RevocationCell.ref)
    (e : env R) : Cap.t :=
  Cap.root (CapTarget.Flow (FlowId.as_u64 target)) rights None (ecells e) cell.

(** [scheduler/capability.rs] [CapTable::mint] *)
Definition mint (holder target : FlowId.t) (rights : CapRights.t) : Op RuntimeError CapId.t :=
  bind (bind_flow target) (fun cell s =>
    let cap := root_of target rights cell (snd s) in
    grant holder cap s).

(** [scheduler/capability.rs] [CapTable::reply_cap_is_live] *)
Definition reply_cap_is_live (table : CapTableInner) (s : RevocationCell.store) (id : CapId.t)
    (holder target : FlowId.t) (rights : CapRights.t) : bool :=
  match entries table !! id with
  | None => false
  | Some entry =>
    if negb (Capability.holder entry =? holder) then false
    else if negb (bool_decide (Cap.target (Capability.cap entry) =
                               CapTarget.Flow (FlowId.as_u64 target))) then false
    else if negb (CapRights.contains (Cap.rights (Capability.cap entry)) rights) then false
    else
      match flow_cells table !! FlowId.as_u64 target with
      | Some cell => Cap.is_valid (Capability.cap entry) s cell
      | None => false
      end
  end.

(** [scheduler/capability.rs:200-208] [CapTable::mint_or_reuse]: its second half, once
    no live token was found. *)
Definition mint_reply (holder target : FlowId.t) (rights : CapRights.t) (g : CapTableInner)
    (e : env R) : result CapId.t RuntimeError * CapTableInner * env R :=
  let '(cell, g, e) := cell_or_new (FlowId.as_u64 target) g e in
  let cap := root_of target rights cell e in
  let '(r, g, e) := insert_fresh_locked (Capability.mk holder cap) g e in
  match r with
  | Ok id => (Ok id, with_reply_index g (<[(holder, target) := id]> (reply_index g)), e)
  | Err x => (Err x, g, e)
  end.

(** [scheduler/capability.rs] [CapTable::mint_or_reuse] *)
Definition mint_or_reuse (holder target : FlowId.t) (rights : CapRights.t)
  : Op RuntimeError CapId.t :=
  locked "CapTable::mint_or_reuse" (fun g e =>
    match reply_index g !! (holder, target) with
    | Some id =>
      if reply_cap_is_live g (ecells e) id holder target rights then (Ok id, g, e)
      else
        let g := with_reply_index g (delete (holder, target) (reply_index g)) in
        mint_reply holder target rights g e
    | None => mint_reply holder target rights g e
    end).

(** [scheduler/capability.rs] [CapTable::lookup] *)
Definition lookup (id : CapId.t) : Op RuntimeError (option Capability.t) :=
  if CapId.is_none id then ret None
  else locked "CapTable::lookup" (fun g e => (Ok (entries g !! id), g, e)).

(** The live-epoch test of [resolve]. *)
Definition live (nc sc : RevocationCell.ref) (cells : gmap Z RevocationCell.ref)
    (s : RevocationCell.store) (c : Cap.t) : bool :=
  match Cap.target c with
  | CapTarget.Flow fid =>
    match cells !! fid with
    | Some cell => Cap.is_valid c s cell
    | None => false
    end
  | CapTarget.NativeTable => Cap.is_valid c s nc
  | CapTarget.Scheduler => Cap.is_valid c s sc
  end.

(** [scheduler/capability.rs] [CapTable::resolve] *)
Definition resolve (id : CapId.t) (holder : FlowId.t) (required : CapRights.t)
  : Op CapError.t Capability.t := fun s =>
  if CapId.is_none id then (Err CapError.Unknown, s)
  else
    match lock (inner (fst s)) "CapTable::resolve" with
    | Err x => (Err (CapError.from_runtime x), s)
    | Ok table =>
      (match entries table !! id with
       | None => Err CapError.Unknown
       | Some entry =>
         if negb (Capability.holder entry =? holder) then Err CapError.NotHolder
         else if negb (CapRights.contains (Cap.rights (Capability.cap entry)) required) then
           Err CapError.InsufficientRights
         else if negb (live (native_cell (fst s)) (scheduler_cell (fst s)) (flow_cells table)
                         (ecells (snd s)) (Capability.cap entry)) then Err CapError.Unknown
         else Ok entry
       end, s)
    end.

(** [scheduler/capability.rs] [CapTable::attenuate] *)
Definition attenuate (id : CapId.t) (from_holder to_holder : FlowId.t)
    (want_rights : CapRights.t) (want_native : option NativeMask.t) : Op CapError.t CapId.t :=
  bind (resolve id from_holder CapRights.empty) (fun src =>
  bind (match Cap.target (Capability.cap src) with
        | CapTarget.Flow fid =>
          bind (map_err CapError.from_runtime
                  (locked "CapTable::attenuate" (fun g e => (Ok (flow_cells g !! fid), g, e))))
            (fun c => match c with Some cell => ret cell | None => fail CapError.Unknown end)
        | CapTarget.NativeTable | CapTarget.Scheduler => fail CapError.WrongTarget
        end) (fun cell s =>
  match exec_delegate (ecells (snd s)) (Capability.cap src) cell want_rights want_native with
  | Err SourceRevoked => (Err CapError.Unknown, s)
  | Err SourceLacksNative => (Err CapError.InsufficientRights, s)
  | Ok narrowed =>
    if negb (Cap.is_valid narrowed (ecells (snd s)) cell) then (Err CapError.Unknown, s)
    else map_err CapError.from_runtime (insert to_holder narrowed) s
  end)).

(** [scheduler/capability.rs] [CapTable::delegate] *)
Definition delegate (id : CapId.t) (from_holder to_holder : FlowId.t) : Op CapError.t CapId.t :=
  bind (resolve id from_holder CapRights.empty) (fun src =>
    attenuate id from_holder to_holder (Cap.rights (Capability.cap src))
      (Cap.native_mask (Capability.cap src))).

(** [scheduler/capability.rs] [CapTable::reissue_for] *)
Definition reissue_for (id : CapId.t) (new_holder : FlowId.t) : Op CapError.t CapId.t :=
  bind (map_err CapError.from_runtime (lookup id)) (fun o =>
    match o with
    | None => fail CapError.Unknown
    | Some c =>
      let narrowed := Cap.attenuate (Capability.cap c) (Cap.rights (Capability.cap c))
                        (Cap.native_mask (Capability.cap c)) in
      map_err CapError.from_runtime (insert new_holder narrowed)
    end).

(** The entries and reply addresses [revoke_flow] retains. *)
Definition keeps (flow : FlowId.t) (x : CapId.t * Capability.t) : Prop :=
  Capability.holder (snd x) <> flow /\
  Cap.target (Capability.cap (snd x)) <> CapTarget.Flow (FlowId.as_u64 flow).
Definition keeps_pair (flow : FlowId.t) (x : (FlowId.t * FlowId.t) * CapId.t) : Prop :=
  fst (fst x) <> flow /\ snd (fst x) <> flow.

#[global] Instance keeps_dec flow x : Decision (keeps flow x).
Proof. unfold keeps. apply _. Defined.
#[global] Instance keeps_pair_dec flow x : Decision (keeps_pair flow x).
Proof. unfold keeps_pair. apply _. Defined.

(** [scheduler/capability.rs] [CapTable::revoke_flow] *)
Definition revoke_flow (flow : FlowId.t) : Op RuntimeError Z :=
  locked "CapTable::revoke_flow" (fun g e =>
    let fid := FlowId.as_u64 flow in
    let e := match flow_cells g !! fid with
             | Some cell => mk_env (RevocationCell.revoke (ecells e) cell) (erng e)
             | None => e
             end in
    let g := with_flow_cells g (delete fid (flow_cells g)) in
    let before := Z.of_nat (size (entries g)) in
    let g := with_entries g (filter (keeps flow) (entries g)) in
    let g := with_reply_index g (filter (keeps_pair flow) (reply_index g)) in
    (Ok (before - Z.of_nat (size (entries g))), g, e)).

End table.
End CapTable.
