(* ===== verification/CapTableTheory.v ===== *)
(** Theorems on the capability table: where authority comes from, what revoking a
    flow does, minting and reuse, the decisions on authority records. *)

From S2P Require Import Prelude Capability Sync Quota Vm Process CapTable.

(** ** Attenuation chains *)

Lemma attenuate_all_app c l k :
  attenuate_all c (l ++ k) = attenuate_all (attenuate_all c l) k.
Proof. apply fold_left_app. Qed.

Lemma attenuate_all_target c reqs : Cap.target (attenuate_all c reqs) = Cap.target c.
Proof. unfold attenuate_all. revert c. by induction reqs as [|[r m] l IH]; intros c; simpl; rewrite ?IH. Qed.

Lemma attenuate_all_rights c reqs want :
  CapRights.contains (Cap.rights (attenuate_all c reqs)) want = true ->
  CapRights.contains (Cap.rights c) want = true.
Proof.
  unfold attenuate_all. revert c. induction reqs as [|[r m] l IH]; intros c; simpl; [done|].
  intros H%IH. rewrite attenuate_rights in H. by apply andb_true_iff in H as [? _].
Qed.

Lemma attenuate_all_mask c reqs idx :
  0 <= idx -> mask_allows (Cap.native_mask (attenuate_all c reqs)) idx = true ->
  mask_allows (Cap.native_mask c) idx = true.
Proof.
  intros Hi. unfold attenuate_all. revert c.
  induction reqs as [|[r m] l IH]; intros c; simpl; [done|].
  intros H%IH. rewrite attenuate_mask in H by done. by apply andb_true_iff in H as [? _].
Qed.

(** ** The table's operations *)

Section theory.
Context {R : Type} (getrandom : R -> option (list byte) * R).
Notation st := (CapTable.t * env R)%type.

Definition tab (s : st) : CapTableInner := guarded (CapTable.inner (fst s)).
Definition store_of (s : st) : RevocationCell.store := ecells (snd s).

(** A drawn token is never the absent one and never one in use. *)
Lemma fresh_attempts_ok n table rng id rng' :
  CapTable.fresh_attempts getrandom n table rng = (Ok id, rng') ->
  id <> CapId.NONE /\ table !! id = None.
Proof.
  revert rng. induction n as [|n IH]; intros rng; simpl; [done|].
  destruct (CapId.random _ rng) as [[i|] r1]; [|done].
  destruct (CapId.is_none i) eqn:Hn; simpl; [by apply IH|].
  destruct (table !! i) eqn:Ht; simpl; [by apply IH|].
  intros [= <- _]. split; [|done]. intros ->. done.
Qed.

(** What one operation does to the entries. *)
Definition adds (g g' : CapTableInner) (entry : Capability.t) : Prop :=
  exists id, id <> CapId.NONE /\ entries g !! id = None /\
    entries g' = <[id := entry]> (entries g).

Lemma insert_fresh_locked_spec entry g e r g' e' :
  CapTable.insert_fresh_locked getrandom entry g e = (r, g', e') ->
  flow_cells g' = flow_cells g /\ reply_index g' = reply_index g /\ ecells e' = ecells e /\
  match r with
  | Ok id => id <> CapId.NONE /\ entries g !! id = None /\
      entries g' = <[id := entry]> (entries g)
  | Err _ => entries g' = entries g
  end.
Proof.
  unfold CapTable.insert_fresh_locked, CapTable.insert_fresh.
  destruct (CapTable.fresh_attempts _ _ _ _) as [[id|x] rng] eqn:E.
  - intros [= <- <- <-]. apply fresh_attempts_ok in E as [? ?]. by split_and!.
  - intros [= <- <- <-]. by split_and!.
Qed.

(** Critical sections: on a live lock the update is the section's, on a poisoned one
    nothing happens. *)
Lemma locked_spec {A} w f (s s' : st) (r : result A RuntimeError) :
  CapTable.locked w f s = (r, s') ->
  (s' = s /\ is_ok r = false /\ poisoned (CapTable.inner (fst s)) = true) \/
  (poisoned (CapTable.inner (fst s)) = false /\ poisoned (CapTable.inner (fst s')) = false /\
   f (tab s) (snd s) = (r, tab s', snd s') /\
   CapTable.native_cell (fst s') = CapTable.native_cell (fst s) /\
   CapTable.scheduler_cell (fst s') = CapTable.scheduler_cell (fst s)).
Proof.
  destruct s as [tb e]. unfold CapTable.locked, lock, tab. simpl.
  destruct (poisoned (CapTable.inner tb)).
  - intros [= <- <-]. by left.
  - destruct (f _ e) as [[r0 g'] e'] eqn:E. intros [= <- <-]. right. by split_and!.
Qed.

Lemma resolve_state id h req (s : st) : snd (CapTable.resolve id h req s) = s.
Proof.
  unfold CapTable.resolve. destruct (CapId.is_none id); [done|].
  by destruct (lock _ _).
Qed.

(** What a successful [resolve] means. *)
Lemma resolve_Ok id h req (s : st) entry :
  fst (CapTable.resolve id h req s) = Ok entry <->
  id <> CapId.NONE /\ poisoned (CapTable.inner (fst s)) = false /\
  entries (tab s) !! id = Some entry /\ Capability.holder entry = h /\
  CapRights.contains (Cap.rights (Capability.cap entry)) req = true /\
  CapTable.live (CapTable.native_cell (fst s)) (CapTable.scheduler_cell (fst s))
    (flow_cells (tab s)) (store_of s) (Capability.cap entry) = true.
Proof.
  unfold CapTable.resolve, CapId.is_none, lock, tab, store_of.
  destruct (Z.eqb_spec id 0) as [->|Hid]; [split; [done|by intros [? _]]|].
  destruct (poisoned _); [split; [done|by intros (_ & ? & _)]|]. simpl.
  destruct (entries _ !! id) as [en|]; [|split; [done|by intros (_ & _ & ? & _)]].
  destruct (Z.eqb_spec (Capability.holder en) h) as [Hh|Hh]; simpl;
    [|split; [done|]; intros (_ & _ & [= ->] & ? & _); done].
  destruct (CapRights.contains _ _) eqn:Hr; simpl;
    [|split; [done|]; intros (_ & _ & [= ->] & _ & ? & _); congruence].
  destruct (CapTable.live _ _ _ _ _) eqn:Hl; simpl.
  - split; [intros [= <-]; by split_and!|]. by intros (_ & _ & [= ->] & _).
  - split; [done|]. intros (_ & _ & [= ->] & _ & _ & ?). congruence.
Qed.

(** Every operation either leaves the entries, or adds one. *)
Definition grows (s s' : st) (ok : Capability.t -> Prop) : Prop :=
  entries (tab s') = entries (tab s) \/ exists en, ok en /\ adds (tab s) (tab s') en.

Lemma grows_refl s ok : grows s s ok.
Proof. by left. Qed.

Lemma grows_weaken s s' (P Q : Capability.t -> Prop) :
  grows s s' P -> (forall en, P en -> Q en) -> grows s s' Q.
Proof. intros [E|(en & Hp & Ha)] HPQ; [by left|]. right. exists en. auto. Qed.

Lemma insert_grows h c (s : st) :
  grows s (snd (CapTable.insert getrandom h c s)) (fun en => en = Capability.mk h c).
Proof.
  unfold CapTable.insert. destruct (CapTable.locked _ _ s) as [r s'] eqn:E. simpl.
  apply locked_spec in E as [(-> & _)|(_ & _ & E & _)]; [by left|].
  apply insert_fresh_locked_spec in E as (_ & _ & _ & E). unfold grows.
  destruct r as [id|]; [|by left]. right. eexists. split; [done|]. by exists id.
Qed.

Lemma cell_or_new_entries f g (e : env R) c g' e' :
  CapTable.cell_or_new f g e = (c, g', e') ->
  entries g' = entries g /\ reply_index g' = reply_index g /\ flow_cells g' !! f = Some c.
Proof.
  unfold CapTable.cell_or_new, RevocationCell.new. destruct (flow_cells g !! f) eqn:E.
  - by intros [= <- <- <-].
  - intros [= <- <- <-]. split_and!; [done..|]. simpl. by rewrite lookup_insert_eq.
Qed.

Lemma bind_flow_entries f (s : st) :
  entries (tab (snd (CapTable.bind_flow f s))) = entries (tab s).
Proof.
  unfold CapTable.bind_flow. destruct (CapTable.locked _ _ s) as [r s'] eqn:E. simpl.
  apply locked_spec in E as [(-> & _)|(_ & _ & E & _)]; [done|].
  destruct (CapTable.cell_or_new _ _ _) as [[c g] e] eqn:Ec.
  injection E as _ Eg _. apply cell_or_new_entries in Ec as (Ee & _).
  by rewrite <- Eg, Ee.
Qed.

(** The entries of a root mint: all of them, or [holder]'s fresh token for [target]. *)
Definition root_entry (h t : FlowId.t) (r : CapRights.t) (en : Capability.t) : Prop :=
  Capability.holder en = h /\ Cap.target (Capability.cap en) = CapTarget.Flow t /\
  Cap.rights (Capability.cap en) = r /\ Cap.native_mask (Capability.cap en) = None.

Lemma mint_grows h t r (s : st) :
  grows s (snd (CapTable.mint getrandom h t r s)) (root_entry h t r).
Proof.
  unfold CapTable.mint, CapTable.bind.
  pose proof (bind_flow_entries t s) as Eb.
  destruct (CapTable.bind_flow t s) as [[c|x] s1]; simpl in Eb; [|by left].
  unfold CapTable.grant. destruct (insert_grows h
    (CapTable.root_of t r c (snd s1)) s1) as [E|(en & -> & id & H1 & H2 & H3)].
  - left. by rewrite E.
  - right. eexists. split; [|exists id; rewrite <- Eb; by split_and!]. by repeat split.
Qed.

Lemma mint_reply_spec h t r g (e : env R) x g' e' :
  CapTable.mint_reply getrandom h t r g e = (x, g', e') ->
  match x with
  | Ok id => exists en, root_entry h t r en /\ id <> CapId.NONE /\ entries g !! id = None /\
      entries g' = <[id := en]> (entries g) /\ reply_index g' !! (h, t) = Some id
  | Err _ => entries g' = entries g
  end.
Proof.
  unfold CapTable.mint_reply.
  destruct (CapTable.cell_or_new _ g e) as [[c g1] e1] eqn:Ec.
  apply cell_or_new_entries in Ec as (Ee & _ & _).
  destruct (CapTable.insert_fresh_locked _ _ _ _) as [[y g2] e2] eqn:Ei.
  apply insert_fresh_locked_spec in Ei as (_ & _ & _ & Ei). rewrite Ee in Ei.
  destruct y as [id|y]; intros [= <- <- <-]; [|done].
  destruct Ei as (? & ? & ?). eexists. split; [|split_and!; [done..|]]; [by repeat split|].
  simpl. by rewrite lookup_insert_eq.
Qed.

Lemma mint_or_reuse_grows h t r (s : st) :
  grows s (snd (CapTable.mint_or_reuse getrandom h t r s)) (root_entry h t r).
Proof.
  unfold CapTable.mint_or_reuse. destruct (CapTable.locked _ _ s) as [x s'] eqn:E. simpl.
  apply locked_spec in E as [(-> & _)|(_ & _ & E & _)]; [by left|].
  assert (Hr : forall g, entries g = entries (tab s) ->
    CapTable.mint_reply getrandom h t r g (snd s) = (x, tab s', snd s') ->
    grows s s' (root_entry h t r)).
  { intros g Eg Em. apply mint_reply_spec in Em. rewrite Eg in Em.
    destruct x as [id|]; [|by left]. destruct Em as (en & H1 & H2 & H3 & H4 & _).
    right. exists en. split; [done|]. by exists id. }
  destruct (reply_index _ !! _) as [id|]; [|by refine (Hr _ _ E)].
  destruct (CapTable.reply_cap_is_live _ _ _ _ _ _); [|by refine (Hr _ _ E)].
  injection E as _ E _. left. by rewrite <- E.
Qed.

(** A critical section that only reads. *)
Lemma locked_read {A} w (f : CapTableInner -> A) (s : st) :
  poisoned (CapTable.inner (fst s)) = false ->
  CapTable.locked w (fun g e => (Ok (f g), g, e)) s = (Ok (f (tab s)), s).
Proof.
  destruct s as [[[p g] nc sc] e]. unfold CapTable.locked, lock, tab. simpl. by intros ->.
Qed.

(** Once its source resolves, an attenuation is refused only for a token that does not
    address a flow or for a native mask the source cannot grant. *)
Lemma attenuate_eq id from to want m (s : st) :
  CapTable.attenuate getrandom id from to want m s =
  match fst (CapTable.resolve id from CapRights.empty s) with
  | Err e => (Err e, s)
  | Ok src =>
    match Cap.target (Capability.cap src) with
    | CapTarget.Flow _ =>
      if is_some m && negb (CapRights.contains (Cap.rights (Capability.cap src)) CapRights.NATIVE)
      then (Err CapError.InsufficientRights, s)
      else CapTable.map_err CapError.from_runtime
             (CapTable.insert getrandom to (Cap.attenuate (Capability.cap src) want m)) s
    | CapTarget.NativeTable | CapTarget.Scheduler => (Err CapError.WrongTarget, s)
    end
  end.
Proof.
  unfold CapTable.attenuate at 1, CapTable.bind at 1.
  pose proof (resolve_state id from CapRights.empty s) as Hs.
  destruct (CapTable.resolve id from CapRights.empty s) as [[src|e] s0] eqn:E;
    simpl in Hs |- *; subst s0; [|done].
  apply (f_equal fst), resolve_Ok in E as (_ & Hp & _ & _ & _ & Hl).
  unfold CapTable.bind at 1. unfold CapTable.live in Hl.
  destruct (Cap.target (Capability.cap src)) as [fid| |] eqn:Et; [|done..].
  unfold CapTable.bind, CapTable.map_err. rewrite locked_read by done.
  destruct (flow_cells (tab s) !! fid) as [cell|] eqn:Ec; [|done]. simpl.
  unfold exec_delegate. fold (store_of s). rewrite Hl. simpl.
  destruct (is_some m && _); [done|].
  change (Cap.is_valid (Cap.attenuate (Capability.cap src) want m) (store_of s) cell)
    with (Cap.is_valid (Capability.cap src) (store_of s) cell).
  by rewrite Hl.
Qed.

(** A token derived from an entry of the table by one attenuation. *)
Definition derived_entry (s : st) (to : FlowId.t) (en : Capability.t) : Prop :=
  Capability.holder en = to /\
  exists id src r m, entries (tab s) !! id = Some src /\
    Capability.cap en = Cap.attenuate (Capability.cap src) r m.

Lemma derived_grows id src to r m (s : st) :
  entries (tab s) !! id = Some src ->
  grows s (snd (CapTable.map_err CapError.from_runtime
    (CapTable.insert getrandom to (Cap.attenuate (Capability.cap src) r m)) s))
    (derived_entry s to).
Proof.
  intros He.
  assert (snd (CapTable.map_err CapError.from_runtime
    (CapTable.insert getrandom to (Cap.attenuate (Capability.cap src) r m)) s) =
    snd (CapTable.insert getrandom to (Cap.attenuate (Capability.cap src) r m) s)) as ->.
  { unfold CapTable.map_err. by destruct (CapTable.insert _ _ _ s) as [[]]. }
  eapply grows_weaken; [apply insert_grows|]. intros en ->. split; [done|].
  by exists id, src, r, m.
Qed.

Lemma attenuate_grows id from to want m (s : st) :
  grows s (snd (CapTable.attenuate getrandom id from to want m s)) (derived_entry s to).
Proof.
  rewrite attenuate_eq.
  destruct (fst (CapTable.resolve id from CapRights.empty s)) as [src|e] eqn:E; [|by left].
  apply resolve_Ok in E as (_ & _ & He & _).
  destruct (Cap.target _); [|by left..]. case_match; [by left|].
  by apply (derived_grows id).
Qed.

Lemma delegate_grows id from to (s : st) :
  grows s (snd (CapTable.delegate getrandom id from to s)) (derived_entry s to).
Proof.
  unfold CapTable.delegate, CapTable.bind.
  pose proof (resolve_state id from CapRights.empty s) as Hs.
  destruct (CapTable.resolve id from CapRights.empty s) as [[src|e] s0];
    simpl in Hs |- *; subst s0; [apply attenuate_grows|by left].
Qed.

Lemma reissue_grows id to (s : st) :
  grows s (snd (CapTable.reissue_for getrandom id to s)) (derived_entry s to).
Proof.
  unfold CapTable.reissue_for, CapTable.bind, CapTable.map_err at 1, CapTable.lookup.
  destruct (CapId.is_none id); [by left|].
  destruct (CapTable.locked _ _ s) as [r s'] eqn:E.
  destruct (poisoned (CapTable.inner (fst s))) eqn:Hp.
  - apply locked_spec in E as [(-> & Hr & _)|(? & _)]; [|congruence].
    destruct r; [done|by left].
  - rewrite locked_read in E by done. injection E as <- <-.
    destruct (entries (tab s) !! id) as [src|] eqn:He; [|by left].
    by apply (derived_grows id).
Qed.

(** Revoking a flow keeps exactly the entries that do not mention it. *)
Lemma revoke_flow_spec f (s s' : st) n :
  CapTable.revoke_flow f s = (Ok n, s') ->
  poisoned (CapTable.inner (fst s)) = false /\ poisoned (CapTable.inner (fst s')) = false /\
  entries (tab s') = filter (CapTable.keeps f) (entries (tab s)) /\
  flow_cells (tab s') = delete (FlowId.as_u64 f) (flow_cells (tab s)) /\
  store_of s' = match flow_cells (tab s) !! FlowId.as_u64 f with
                | Some c => RevocationCell.revoke (store_of s) c
                | None => store_of s
                end /\
  CapTable.native_cell (fst s') = CapTable.native_cell (fst s) /\
  CapTable.scheduler_cell (fst s') = CapTable.scheduler_cell (fst s) /\
  n = Z.of_nat (size (entries (tab s))) - Z.of_nat (size (entries (tab s'))).
Proof.
  intros E. apply locked_spec in E as [(_ & Hr & _)|(Hp & Hp' & E & Hn & Hsc)]; [done|].
  injection E as En Eg Ee. unfold store_of. rewrite <- Eg, <- Ee, <- En.
  split_and!; try done.
  by destruct (flow_cells (tab s) !! FlowId.as_u64 f).
Qed.

(** ** Runs

    Any sequence of table operations, by workers and host, interleaved with
    revocations of counters the table does not make itself ([Bump]). *)
Inductive op :=
| Mint (h t : FlowId.t) (r : CapRights.t)
| MintOrReuse (h t : FlowId.t) (r : CapRights.t)
| Grant (h : FlowId.t) (c : Cap.t)
| Attenuate (id : CapId.t) (from to : FlowId.t) (want : CapRights.t) (m : option NativeMask.t)
| Delegate (id : CapId.t) (from to : FlowId.t)
| Reissue (id : CapId.t) (to : FlowId.t)
| BindFlow (f : FlowId.t)
| RevokeFlow (f : FlowId.t)
| Bump (cell : RevocationCell.ref).

Definition exec (o : op) (s : st) : st :=
  match o with
  | Mint h t r => snd (CapTable.mint getrandom h t r s)
  | MintOrReuse h t r => snd (CapTable.mint_or_reuse getrandom h t r s)
  | Grant h c => snd (CapTable.grant getrandom h c s)
  | Attenuate id from to want m => snd (CapTable.attenuate getrandom id from to want m s)
  | Delegate id from to => snd (CapTable.delegate getrandom id from to s)
  | Reissue id to => snd (CapTable.reissue_for getrandom id to s)
  | BindFlow f => snd (CapTable.bind_flow f s)
  | RevokeFlow f => snd (CapTable.revoke_flow f s)
  | Bump cell => (fst s, mk_env (RevocationCell.revoke (ecells (snd s)) cell) (erng (snd s)))
  end.

Definition exec_all (ops : list op) (s : st) : st := fold_left (fun s o => exec o s) ops s.

(** The grants of trusted code: what a mint or a [grant] puts in the table. *)
Definition root_grant : Type := CapTarget.t * CapRights.t * option NativeMask.t.
Definition grant_of (c : Cap.t) : root_grant := (Cap.target c, Cap.rights c, Cap.native_mask c).
Definition roots_of (o : op) : list root_grant :=
  match o with
  | Mint _ t r | MintOrReuse _ t r => [(CapTarget.Flow t, r, None)]
  | Grant _ c => [grant_of c]
  | _ => []
  end.

(** [c] is the end of an attenuation chain that starts at a grant of [roots]. *)
Definition rooted (roots : list root_grant) (c : Cap.t) : Prop :=
  exists root reqs, grant_of root ∈ roots /\ c = attenuate_all root reqs.

Definition all_entries (P : Capability.t -> Prop) (s : st) : Prop :=
  forall id en, entries (tab s) !! id = Some en -> P en.

Lemma all_entries_grows (P Q : Capability.t -> Prop) (s s' : st) :
  all_entries P s -> grows s s' Q -> (forall en, Q en -> P en) -> all_entries P s'.
Proof.
  intros HP [E|(en & Hq & id & _ & _ & E)] HQ i x Hx; rewrite E in Hx; [by eapply HP|].
  apply lookup_insert_Some in Hx as [[_ <-]|[_ Hx]]; [by apply HQ|by eapply HP].
Qed.

Lemma rooted_mono L L' c : rooted L c -> L ⊆ L' -> rooted L' c.
Proof. intros (root & reqs & Hin & E) HL. exists root, reqs. split; [by apply HL|done]. Qed.

Lemma rooted_step L c r m : rooted L c -> rooted L (Cap.attenuate c r m).
Proof.
  intros (root & reqs & Hin & ->). exists root, (reqs ++ [(r, m)]).
  split; [done|]. by rewrite attenuate_all_app.
Qed.

Lemma rooted_entry L h t r en :
  root_entry h t r en -> (CapTarget.Flow t, r, None) ∈ L -> rooted L (Capability.cap en).
Proof.
  intros (_ & Ht & Hr & Hm) Hin. exists (Capability.cap en), []. split; [|done].
  unfold grant_of. by rewrite Ht, Hr, Hm.
Qed.

Lemma exec_entries (P : Capability.t -> Prop) o (s : st) :
  all_entries P s ->
  match o with
  | Mint h t r | MintOrReuse h t r => forall en, root_entry h t r en -> P en
  | Grant h c => P (Capability.mk h c)
  | Attenuate _ _ to _ _ | Delegate _ _ to | Reissue _ to =>
    forall en, derived_entry s to en -> P en
  | BindFlow _ | RevokeFlow _ | Bump _ => True
  end ->
  all_entries P (exec o s).
Proof.
  intros HP Ho. destruct o as [h t r|h t r|h c|id from to want m|id from to|id to|f|f|cell]; simpl.
  - by eapply all_entries_grows; [|apply mint_grows|].
  - by eapply all_entries_grows; [|apply mint_or_reuse_grows|].
  - eapply all_entries_grows; [done|apply insert_grows|]. by intros en ->.
  - by eapply all_entries_grows; [|apply attenuate_grows|].
  - by eapply all_entries_grows; [|apply delegate_grows|].
  - by eapply all_entries_grows; [|apply reissue_grows|].
  - intros id en. rewrite bind_flow_entries. apply HP.
  - destruct (CapTable.revoke_flow f s) as [[n|x] s'] eqn:E; simpl.
    + apply revoke_flow_spec in E as (_ & _ & E & _). intros id en. rewrite E.
      rewrite map_lookup_filter_Some. intros [He _]. by eapply HP.
    + by apply locked_spec in E as [(-> & _)|(_ & _ & E & _)].
  - exact HP.
Qed.

Lemma exec_rooted L o (s : st) :
  all_entries (fun en => rooted L (Capability.cap en)) s ->
  all_entries (fun en => rooted (roots_of o ++ L) (Capability.cap en)) (exec o s).
Proof.
  intros HP.
  assert (HL : all_entries (fun en => rooted (roots_of o ++ L) (Capability.cap en)) s).
  { intros id en He. eapply rooted_mono; [by eapply HP|]. set_solver. }
  assert (HD : forall to en, derived_entry s to en -> rooted (roots_of o ++ L) (Capability.cap en)).
  { intros to en (_ & id & src & r & m & He & ->). apply rooted_step. by eapply HL. }
  apply exec_entries; [done|]. destruct o; eauto.
  - intros en He. eapply rooted_entry; [done|]. set_solver.
  - intros en He. eapply rooted_entry; [done|]. set_solver.
  - exists c, []. split; [|done]. set_solver.
Qed.

Lemma exec_all_rooted ops L (s : st) :
  all_entries (fun en => rooted L (Capability.cap en)) s ->
  all_entries (fun en => rooted (concat (map roots_of ops) ++ L) (Capability.cap en))
    (exec_all ops s).
Proof.
  revert L s. induction ops as [|o ops IH]; intros L s HP; simpl; [done|].
  intros id en He. eapply rooted_mono; [eapply (IH _ _ (exec_rooted _ o _ HP)); done|].
  set_solver.
Qed.

(** C28: all authority comes from a root grant of trusted code. After any sequence of
    table operations from the empty table, whatever a token resolves to is the end of
    an attenuation chain that starts at a grant minted by the runtime or the host: it
    addresses that grant's target, carries the required rights only if the grant
    does, allows a native only if the grant does, and the caller is its holder. *)
Theorem authority_from_roots ops cs rng id h req en :
  let s0 := (fst (CapTable.new cs), mk_env (snd (CapTable.new cs)) rng) in
  fst (CapTable.resolve id h req (exec_all ops s0)) = Ok en ->
  Capability.holder en = h /\
  exists root reqs, grant_of root ∈ concat (map roots_of ops) /\
    Capability.cap en = attenuate_all root reqs /\
    Cap.target (Capability.cap en) = Cap.target root /\
    CapRights.contains (Cap.rights root) req = true /\
    forall idx, 0 <= idx -> mask_allows (Cap.native_mask (Capability.cap en)) idx = true ->
      mask_allows (Cap.native_mask root) idx = true.
Proof.
  intros s0 Hr. apply resolve_Ok in Hr as (_ & _ & He & Hh & Hreq & _). split; [done|].
  destruct (exec_all_rooted ops [] s0) with id en as (root & reqs & Hin & Ec); [|done|].
  - intros i x Hx. exfalso. revert Hx. unfold s0, CapTable.new. simpl. by rewrite lookup_empty.
  - rewrite app_nil_r in Hin. exists root, reqs. rewrite Ec in *. split_and!; try done.
    + apply attenuate_all_target.
    + by eapply attenuate_all_rights.
    + intros idx Hi. by apply attenuate_all_mask.
Qed.

(** ** Revocation *)

(** The operations that give a flow authority, or authority over it. *)
Definition mentions (f : FlowId.t) (o : op) : Prop :=
  match o with
  | Mint h t _ | MintOrReuse h t _ => h = f \/ t = f
  | Grant h c => h = f \/ Cap.target c = CapTarget.Flow f
  | Attenuate _ _ to _ _ | Delegate _ _ to | Reissue _ to => to = f
  | BindFlow _ | RevokeFlow _ | Bump _ => False
  end.

Definition spares (f : FlowId.t) (en : Capability.t) : Prop :=
  Capability.holder en <> f /\ Cap.target (Capability.cap en) <> CapTarget.Flow f.

Lemma exec_spares f o (s : st) :
  all_entries (spares f) s -> ~ mentions f o -> all_entries (spares f) (exec o s).
Proof.
  intros HP Hm.
  assert (HD : forall to en, to <> f -> derived_entry s to en -> spares f en).
  { intros to en Hto (Hh & id & src & r & m & He & Hc). unfold spares.
    rewrite Hh, Hc. split; [done|]. by apply (HP id src). }
  assert (HR : forall h t r en, ~ (h = f \/ t = f) -> root_entry h t r en -> spares f en).
  { intros h t r en Hn (Hh & Ht & _). unfold spares. rewrite Hh, Ht. naive_solver. }
  apply exec_entries; [done|]. destruct o; simpl in Hm; eauto.
  unfold spares. simpl. naive_solver.
Qed.

(** C29: a revoked flow stays revoked. Once [revoke_flow f] has succeeded, no sequence
    of later operations that does not newly grant to [f] or over [f] makes any token
    resolve for [f], or to [f], whoever presents it and whatever rights it asks for. *)
Theorem revoked_stays_revoked f ops (s s' : st) n id h req en :
  CapTable.revoke_flow f s = (Ok n, s') ->
  Forall (fun o => ~ mentions f o) ops ->
  fst (CapTable.resolve id h req (exec_all ops s')) = Ok en ->
  h <> f /\ Capability.target en <> Some f.
Proof.
  intros E Hm Hr. apply revoke_flow_spec in E as (_ & _ & E & _).
  assert (all_entries (spares f) s') as HP.
  { intros i x Hx. rewrite E in Hx. by apply map_lookup_filter_Some in Hx as [_ Hk]. }
  assert (all_entries (spares f) (exec_all ops s')) as HF.
  { clear E Hr. revert s' HP. induction Hm as [|o ops Ho _ IH]; intros s' HP; [done|].
    apply IH. by apply exec_spares. }
  apply resolve_Ok in Hr as (_ & _ & He & Hh & _). destruct (HF _ _ He) as [H1 H2].
  split; [congruence|]. unfold Capability.target.
  destruct (Cap.target (Capability.cap en)); simpl; congruence.
Qed.

(** *** Counters are not shared between flows *)

Record cells_ok (s : st) : Prop := {
  cells_inj : forall f f' c, flow_cells (tab s) !! f = Some c ->
    flow_cells (tab s) !! f' = Some c -> f = f';
  cells_alloc : forall f c, flow_cells (tab s) !! f = Some c ->
    (c < RevocationCell.next (store_of s))%N /\ c <> CapTable.native_cell (fst s) /\
    c <> CapTable.scheduler_cell (fst s);
  own_alloc : (CapTable.native_cell (fst s) < RevocationCell.next (store_of s))%N /\
    (CapTable.scheduler_cell (fst s) < RevocationCell.next (store_of s))%N }.

(** Same cells, same or older store. *)
Lemma cells_ok_same (s s' : st) :
  cells_ok s -> flow_cells (tab s') = flow_cells (tab s) ->
  CapTable.native_cell (fst s') = CapTable.native_cell (fst s) ->
  CapTable.scheduler_cell (fst s') = CapTable.scheduler_cell (fst s) ->
  RevocationCell.next (store_of s') = RevocationCell.next (store_of s) -> cells_ok s'.
Proof. intros [H1 H2 H3] Ef En Esc Ex. constructor; rewrite ?Ef, ?En, ?Esc, ?Ex; auto. Qed.

Lemma cells_ok_bind f (s : st) g e c (s' : st) :
  cells_ok s -> CapTable.cell_or_new f (tab s) (snd s) = (c, g, e) ->
  flow_cells (tab s') = flow_cells g -> store_of s' = ecells e ->
  CapTable.native_cell (fst s') = CapTable.native_cell (fst s) ->
  CapTable.scheduler_cell (fst s') = CapTable.scheduler_cell (fst s) -> cells_ok s'.
Proof.
  intros [H1 H2 [H3 H4]] Ec Ef Es En Esc. unfold CapTable.cell_or_new in Ec.
  destruct (flow_cells (tab s) !! f) as [c0|] eqn:E.
  { injection Ec as _ <- <-. eapply cells_ok_same; try done. by rewrite Es. }
  unfold RevocationCell.new in Ec. injection Ec as <- <- <-. simpl in Ef, Es.
  unfold store_of in *. constructor; unfold store_of; rewrite ?Ef, ?Es, ?En, ?Esc; simpl.
  - intros f1 f2 c1. rewrite !lookup_insert_Some.
    intros [[<- <-]|[? Ha]] [[<- Hb]|[? Hb]]; try done.
    + apply H2 in Hb as [Hb _]. lia.
    + subst c1. apply H2 in Ha as [Ha _]. lia.
    + by eapply H1.
  - intros f1 c1. rewrite lookup_insert_Some. intros [[<- <-]|[_ Ha]].
    { split_and!; [lia|intros E0; rewrite E0 in H3; lia|intros E0; rewrite E0 in H4; lia]. }
    apply H2 in Ha as (? & ? & ?). split_and!; [lia|done..].
  - lia.
Qed.

(** [resolve] reads the entry, the lock and the epochs of the entry's issuer only. *)
Lemma resolve_congr id h req (s s' : st) :
  poisoned (CapTable.inner (fst s')) = poisoned (CapTable.inner (fst s)) ->
  entries (tab s') !! id = entries (tab s) !! id ->
  (forall en, entries (tab s) !! id = Some en ->
    CapTable.live (CapTable.native_cell (fst s')) (CapTable.scheduler_cell (fst s'))
      (flow_cells (tab s')) (store_of s') (Capability.cap en) =
    CapTable.live (CapTable.native_cell (fst s)) (CapTable.scheduler_cell (fst s))
      (flow_cells (tab s)) (store_of s) (Capability.cap en)) ->
  fst (CapTable.resolve id h req s') = fst (CapTable.resolve id h req s).
Proof.
  intros Hp He Hl. unfold CapTable.resolve.
  destruct (CapId.is_none id); [reflexivity|].
  unfold lock. rewrite Hp. destruct (poisoned (CapTable.inner (fst s))); [reflexivity|]. simpl.
  unfold tab in He. rewrite He. destruct (entries (guarded (CapTable.inner (fst s))) !! id) as [en|] eqn:E; [|reflexivity].
  specialize (Hl en E). unfold tab, store_of in Hl. by rewrite Hl.
Qed.

Lemma resolve_gone id h req (s : st) :
  poisoned (CapTable.inner (fst s)) = false -> entries (tab s) !! id = None ->
  fst (CapTable.resolve id h req s) = Err CapError.Unknown.
Proof.
  intros Hp He. unfold CapTable.resolve. destruct (CapId.is_none id); [done|].
  unfold lock. rewrite Hp. unfold tab in He. simpl. by rewrite He.
Qed.

(** Revoking a flow drops its tokens and leaves the others alone. *)
Lemma revoke_flow_frame f (s s' : st) n :
  cells_ok s -> CapTable.revoke_flow f s = (Ok n, s') ->
  n = Z.of_nat (size (filter (fun x => ~ CapTable.keeps f x) (entries (tab s)))) /\
  forall id h req,
    fst (CapTable.resolve id h req s') =
    match entries (tab s) !! id with
    | Some en => if decide (CapTable.keeps f (id, en)) then fst (CapTable.resolve id h req s)
                 else Err CapError.Unknown
    | None => Err CapError.Unknown
    end.
Proof.
  intros [H1 H2 _] E. apply revoke_flow_spec in E as (Hp & Hp' & Ee & Ef & Es & En & Esc & ->).
  split.
  { rewrite Ee. rewrite <- (map_filter_union_complement (CapTable.keeps f) (entries (tab s))) at 1.
    rewrite map_size_disj_union by apply map_disjoint_filter_complement. lia. }
  intros id h req. destruct (entries (tab s) !! id) as [en|] eqn:He;
    [|apply resolve_gone; [done|]; rewrite Ee; apply map_lookup_filter_None; by left].
  destruct (decide (CapTable.keeps f (id, en))) as [Hk|Hk];
    [|apply resolve_gone; [done|]; rewrite Ee; apply map_lookup_filter_None; right;
      intros x Hx; rewrite He in Hx; by injection Hx as <-].
  apply resolve_congr; [by rewrite Hp, Hp'|by rewrite Ee, He; apply map_lookup_filter_Some|].
  rewrite He. intros x [= <-]. rewrite Ef, En, Esc, Es. destruct Hk as [_ Hk]. simpl in Hk.
  unfold CapTable.live, Cap.is_valid.
  destruct (Cap.target (Capability.cap en)) as [fid| |] eqn:Et.
  - rewrite lookup_delete_ne by congruence.
    destruct (flow_cells (tab s) !! fid) as [c|] eqn:Ec; [|done].
    destruct (flow_cells (tab s) !! FlowId.as_u64 f) as [cf|] eqn:Ecf; [|done].
    rewrite epoch_revoke_ne; [done|]. intros ->. by rewrite (H1 _ _ _ Ec Ecf) in Hk.
  - destruct (flow_cells (tab s) !! FlowId.as_u64 f) as [cf|] eqn:Ecf; [|done].
    destruct (H2 _ _ Ecf) as (_ & ? & _). by rewrite epoch_revoke_ne.
  - destruct (flow_cells (tab s) !! FlowId.as_u64 f) as [cf|] eqn:Ecf; [|done].
    destruct (H2 _ _ Ecf) as (_ & _ & ?). by rewrite epoch_revoke_ne.
Qed.

(** *** Every run keeps the counters apart *)

(** Cells, own counters and store of two states agree. *)
Definition same_cells (s s' : st) : Prop :=
  flow_cells (tab s') = flow_cells (tab s) /\
  CapTable.native_cell (fst s') = CapTable.native_cell (fst s) /\
  CapTable.scheduler_cell (fst s') = CapTable.scheduler_cell (fst s) /\
  store_of s' = store_of s.

Lemma same_cells_ok s s' : same_cells s s' -> cells_ok s -> cells_ok s'.
Proof. intros (? & ? & ? & E) Hok. eapply cells_ok_same; try done. by rewrite E. Qed.

Lemma same_cells_trans s1 s2 s3 : same_cells s1 s2 -> same_cells s2 s3 -> same_cells s1 s3.
Proof. intros (? & ? & ? & ?) (? & ? & ? & ?). unfold same_cells. split_and!; congruence. Qed.

Lemma insert_same_cells h c (s : st) : same_cells s (snd (CapTable.insert getrandom h c s)).
Proof.
  unfold CapTable.insert. destruct (CapTable.locked _ _ s) as [r s'] eqn:E. simpl.
  apply locked_spec in E as [(-> & _)|(_ & _ & E & Hn & Hsc)]; [done|].
  by apply insert_fresh_locked_spec in E as (? & _ & ? & _).
Qed.

Lemma map_err_state {E E' A} (f : E -> E') (m : CapTable.Op E A) (s : st) :
  snd (CapTable.map_err f m s) = snd (m s).
Proof. unfold CapTable.map_err. by destruct (m s) as [[]]. Qed.

Lemma attenuate_same_cells id from to want m (s : st) :
  same_cells s (snd (CapTable.attenuate getrandom id from to want m s)).
Proof.
  rewrite attenuate_eq. destruct (fst _); [|done].
  destruct (Cap.target _); [|done..]. case_match; [done|].
  rewrite map_err_state. apply insert_same_cells.
Qed.

Lemma delegate_same_cells id from to (s : st) :
  same_cells s (snd (CapTable.delegate getrandom id from to s)).
Proof.
  unfold CapTable.delegate, CapTable.bind.
  pose proof (resolve_state id from CapRights.empty s) as Hs.
  destruct (CapTable.resolve id from CapRights.empty s) as [[src|e] s0];
    simpl in Hs |- *; subst s0; [apply attenuate_same_cells|done].
Qed.

Lemma lookup_state id (s : st) : snd (CapTable.lookup id s) = s.
Proof.
  unfold CapTable.lookup. destruct (CapId.is_none id); [done|].
  destruct (poisoned (CapTable.inner (fst s))) eqn:Hp; [|by rewrite locked_read].
  destruct (CapTable.locked _ _ s) as [r s'] eqn:E. simpl.
  apply locked_spec in E as [(-> & _)|(? & _)]; [done|congruence].
Qed.

Lemma reissue_same_cells id to (s : st) :
  same_cells s (snd (CapTable.reissue_for getrandom id to s)).
Proof.
  unfold CapTable.reissue_for, CapTable.bind.
  pose proof (map_err_state CapError.from_runtime (CapTable.lookup id) s) as Hs.
  rewrite lookup_state in Hs.
  destruct (CapTable.map_err _ _ s) as [[[c|]|e] s0]; simpl in Hs |- *; subst s0; [|done..].
  rewrite map_err_state. apply insert_same_cells.
Qed.

Lemma bind_flow_cells_ok f (s : st) :
  cells_ok s -> cells_ok (snd (CapTable.bind_flow f s)).
Proof.
  intros Hok. unfold CapTable.bind_flow. destruct (CapTable.locked _ _ s) as [r s'] eqn:E. simpl.
  apply locked_spec in E as [(-> & _)|(_ & _ & E & Hn & Hsc)]; [done|].
  destruct (CapTable.cell_or_new _ _ _) as [[c g] e] eqn:Ec. injection E as _ Eg Ee.
  eapply cells_ok_bind; [exact Hok|exact Ec|by rewrite Eg|by rewrite Ee|done..].
Qed.

Lemma mint_cells_ok h t r (s : st) :
  cells_ok s -> cells_ok (snd (CapTable.mint getrandom h t r s)).
Proof.
  intros Hok. unfold CapTable.mint, CapTable.bind.
  pose proof (bind_flow_cells_ok t s Hok) as Hb.
  destruct (CapTable.bind_flow t s) as [[c|x] s1]; simpl in Hb |- *; [|done].
  unfold CapTable.grant.
  eapply same_cells_ok; [apply (insert_same_cells _ _ s1)|done].
Qed.

Lemma mint_reply_cells h t r g (e : env R) x g' e' :
  CapTable.mint_reply getrandom h t r g e = (x, g', e') ->
  exists c g1 e1, CapTable.cell_or_new (FlowId.as_u64 t) g e = (c, g1, e1) /\
    flow_cells g' = flow_cells g1 /\ ecells e' = ecells e1.
Proof.
  unfold CapTable.mint_reply.
  destruct (CapTable.cell_or_new (FlowId.as_u64 t) g e) as [[c g1] e1] eqn:Ec.
  destruct (CapTable.insert_fresh_locked _ _ _ _) as [[y g2] e2] eqn:Ei.
  apply insert_fresh_locked_spec in Ei as (Ef & _ & Ee & _).
  intros E. exists c, g1, e1. split; [done|].
  destruct y; injection E as _ <- <-; by split.
Qed.

Lemma mint_or_reuse_cells_ok h t r (s : st) :
  cells_ok s -> cells_ok (snd (CapTable.mint_or_reuse getrandom h t r s)).
Proof.
  intros Hok. unfold CapTable.mint_or_reuse.
  destruct (CapTable.locked _ _ s) as [x s'] eqn:E. simpl.
  apply locked_spec in E as [(-> & _)|(_ & _ & E & Hn & Hsc)]; [done|].
  assert (Hr : forall g, flow_cells g = flow_cells (tab s) ->
    CapTable.mint_reply getrandom h t r g (snd s) = (x, tab s', snd s') -> cells_ok s').
  { intros g Eg (c & g1 & e1 & Ec & Ef & Ee)%mint_reply_cells.
    unfold CapTable.cell_or_new in Ec. rewrite Eg in Ec.
    destruct (flow_cells (tab s) !! FlowId.as_u64 t) as [c0|] eqn:E0.
    - injection Ec as <- <- <-. eapply cells_ok_same; try done; [congruence|].
      unfold store_of. by rewrite Ee.
    - destruct (RevocationCell.new (ecells (snd s))) as [cn sn] eqn:Enew.
      injection Ec as <- <- <-.
      eapply (cells_ok_bind (FlowId.as_u64 t) s (with_flow_cells (tab s) (<[FlowId.as_u64 t := cn]> (flow_cells (tab s)))));
        [done| |exact Ef|exact Ee|done..].
      unfold CapTable.cell_or_new. by rewrite E0, Enew. }
  destruct (reply_index _ !! _) as [id|]; [|by refine (Hr _ _ E)].
  destruct (CapTable.reply_cap_is_live _ _ _ _ _ _); [|by refine (Hr _ _ E)].
  injection E as _ Eg Ee. eapply cells_ok_same; try done; [by rewrite Eg|].
  unfold store_of. by rewrite Ee.
Qed.

Lemma revoke_flow_cells_ok f (s : st) :
  cells_ok s -> cells_ok (snd (CapTable.revoke_flow f s)).
Proof.
  intros Hok. destruct (CapTable.revoke_flow f s) as [[n|x] s'] eqn:E; simpl.
  - destruct Hok as [H1 H2 H3].
    apply revoke_flow_spec in E as (_ & _ & _ & Ef & Es & En & Esc & _).
    assert (RevocationCell.next (store_of s') = RevocationCell.next (store_of s)) as Ex
      by (rewrite Es; by destruct (flow_cells (tab s) !! FlowId.as_u64 f)).
    constructor; rewrite ?Ef, ?En, ?Esc, ?Ex; [| |done].
    + intros f1 f2 c [_ Ha]%lookup_delete_Some [_ Hb]%lookup_delete_Some. by eapply H1.
    + intros f1 c [_ Ha]%lookup_delete_Some. by eapply H2.
  - by apply locked_spec in E as [(-> & _)|(_ & _ & E & _)].
Qed.

Lemma exec_all_cells_ok ops (s : st) : cells_ok s -> cells_ok (exec_all ops s).
Proof.
  revert s. induction ops as [|o ops IH]; intros s Hok; [done|]. simpl. apply IH.
  destruct o as [h t r|h t r|h c|id from to want m|id from to|id to|f|f|cell]; simpl.
  - by apply mint_cells_ok.
  - by apply mint_or_reuse_cells_ok.
  - eapply same_cells_ok; [apply insert_same_cells|done].
  - eapply same_cells_ok; [apply attenuate_same_cells|done].
  - eapply same_cells_ok; [apply delegate_same_cells|done].
  - eapply same_cells_ok; [apply reissue_same_cells|done].
  - by apply bind_flow_cells_ok.
  - by apply revoke_flow_cells_ok.
  - by eapply cells_ok_same.
Qed.

Lemma new_cells_ok cs rng :
  cells_ok (fst (CapTable.new cs), mk_env (snd (CapTable.new cs)) rng).
Proof.
  constructor; unfold store_of, CapTable.new, RevocationCell.new; simpl; [done..|].
  split; lia.
Qed.

(** Revoking a flow is exact, after any sequence of table operations. It answers
    how many tokens it dropped; every token held by the flow or addressing it is
    unknown from then on, and every other token resolves exactly as before, for every
    caller and every right. *)
Lemma revoke_flow_exact ops cs rng f (s' : st) n :
  let s := exec_all ops (fst (CapTable.new cs), mk_env (snd (CapTable.new cs)) rng) in
  CapTable.revoke_flow f s = (Ok n, s') ->
  n = Z.of_nat (size (filter (fun x => ~ CapTable.keeps f x) (entries (tab s)))) /\
  forall id h req,
    fst (CapTable.resolve id h req s') =
    match entries (tab s) !! id with
    | Some en => if decide (CapTable.keeps f (id, en)) then fst (CapTable.resolve id h req s)
                 else Err CapError.Unknown
    | None => Err CapError.Unknown
    end.
Proof. intros s. apply revoke_flow_frame, exec_all_cells_ok, new_cells_ok. Qed.

(** ** Minting, deriving and reusing tokens *)

Definition live_in (s : st) (c : Cap.t) : bool :=
  CapTable.live (CapTable.native_cell (fst s)) (CapTable.scheduler_cell (fst s))
    (flow_cells (tab s)) (store_of s) c.

(** What a live token grants: its holder, and its holder alone, up to its rights. *)
Definition token_view (holder : FlowId.t) (c : Cap.t) (h : FlowId.t) (req : CapRights.t)
  : result Capability.t CapError.t :=
  if holder =? h then
    if CapRights.contains (Cap.rights c) req then Ok (Capability.mk holder c)
    else Err CapError.InsufficientRights
  else Err CapError.NotHolder.

Lemma resolve_view id holder c h req (s : st) :
  id <> CapId.NONE -> poisoned (CapTable.inner (fst s)) = false ->
  entries (tab s) !! id = Some (Capability.mk holder c) -> live_in s c = true ->
  fst (CapTable.resolve id h req s) = token_view holder c h req.
Proof.
  intros Hid Hp He Hl. unfold CapTable.resolve, token_view, CapId.is_none.
  destruct (Z.eqb_spec id 0); [done|]. unfold lock. rewrite Hp.
  unfold tab in He. rewrite He. simpl.
  destruct (holder =? h); simpl; [|done]. destruct (CapRights.contains _ _); simpl; [|done].
  unfold live_in, tab, store_of in Hl. by rewrite Hl.
Qed.

Lemma insert_view holder c (s s' : st) id :
  CapTable.insert getrandom holder c s = (Ok id, s') -> live_in s c = true ->
  id <> CapId.NONE /\ entries (tab s) !! id = None /\
  forall h req, fst (CapTable.resolve id h req s') = token_view holder c h req.
Proof.
  intros E Hl. pose proof (insert_same_cells holder c s) as Hc. rewrite E in Hc. simpl in Hc.
  unfold CapTable.insert in E.
  apply locked_spec in E as [(_ & Hr & _)|(_ & Hp & E & _)]; [done|].
  apply insert_fresh_locked_spec in E as (_ & _ & _ & Hid & Hn & Ee).
  split_and!; [done..|]. intros h req. apply resolve_view; [done..| |].
  - rewrite Ee. by rewrite lookup_insert_eq.
  - destruct Hc as (E1 & E2 & E3 & E4). unfold live_in in *. by rewrite E1, E2, E3, E4.
Qed.

Lemma bind_flow_live f (s s' : st) c r :
  CapTable.bind_flow f s = (Ok c, s') ->
  live_in s' (CapTable.root_of f r c (snd s')) = true.
Proof.
  unfold CapTable.bind_flow. intros E.
  apply locked_spec in E as [(_ & Hr & _)|(_ & _ & E & _)]; [done|].
  destruct (CapTable.cell_or_new _ _ _) as [[c0 g] e] eqn:Ec.
  injection E as <- Eg Ee. apply cell_or_new_entries in Ec as (_ & _ & Ec).
  unfold live_in, CapTable.live. simpl. rewrite <- Eg, Ec.
  unfold Cap.is_valid, CapTable.root_of, store_of. simpl. apply Z.eqb_refl.
Qed.

Lemma live_attenuate (s : st) c r m : live_in s (Cap.attenuate c r m) = live_in s c.
Proof. done. Qed.

(** C37: a new token is the grant it was made for. A minted token gives its holder,
    and nobody else, exactly the requested rights on the target; a token derived by
    [attenuate] gives the new holder, and nobody else, exactly the rights that both
    the source and the request carry, and was derived from a token the caller held;
    both are fresh and never the absent token. *)
Theorem new_token_exact (s : st) :
  (forall h t r id s', CapTable.mint getrandom h t r s = (Ok id, s') ->
    id <> CapId.NONE /\ entries (tab s) !! id = None /\
    exists e, forall h' req, fst (CapTable.resolve id h' req s') =
      token_view h (Cap.mk (CapTarget.Flow t) r None e) h' req) /\
  (forall id from to want m id' s',
    CapTable.attenuate getrandom id from to want m s = (Ok id', s') ->
    id' <> CapId.NONE /\ entries (tab s) !! id' = None /\
    exists src, fst (CapTable.resolve id from CapRights.empty s) = Ok src /\
      (m = None \/ CapRights.contains (Capability.rights src) CapRights.NATIVE = true) /\
      forall h' req, fst (CapTable.resolve id' h' req s') =
        token_view to (Cap.attenuate (Capability.cap src) want m) h' req).
Proof.
  split.
  - intros h t r id s'. unfold CapTable.mint, CapTable.bind.
    pose proof (bind_flow_entries t s) as Eb.
    destruct (CapTable.bind_flow t s) as [[c|x] s1] eqn:E; [|done]. simpl in Eb.
    apply (bind_flow_live _ _ _ _ r) in E. intros Ei.
    destruct (insert_view _ _ _ _ _ Ei E) as (H1 & H2 & H3). rewrite Eb in H2.
    split_and!; [done..|]. eexists. exact H3.
  - intros id from to want m id' s'. rewrite attenuate_eq.
    destruct (fst (CapTable.resolve id from CapRights.empty s)) as [src|e] eqn:E; [|done].
    pose proof E as (_ & _ & _ & _ & _ & Hl)%resolve_Ok.
    destruct (Cap.target _); [|done..].
    destruct (is_some m && _) eqn:Hm; [done|]. unfold CapTable.map_err.
    destruct (CapTable.insert getrandom to _ s) as [[i|x] s1] eqn:Ei; [|done].
    intros [= <- <-]. destruct (insert_view _ _ _ _ _ Ei) as (H1 & H2 & H3); [done|].
    split_and!; [done..|]. exists src. split_and!; [done| |done].
    destruct m; simpl in Hm; [right|by left]. by apply negb_false_iff in Hm.
Qed.

Lemma reply_live_resolves g cs id h t r nc sc (rng : R) :
  CapTable.reply_cap_is_live g cs id h t r = true -> id <> CapId.NONE ->
  exists en, fst (CapTable.resolve id h r
    (CapTable.mk (mutex_new g) nc sc, mk_env cs rng)) = Ok en /\ Capability.target en = Some t.
Proof.
  unfold CapTable.reply_cap_is_live. intros Hl Hid.
  destruct (entries g !! id) as [en|] eqn:He; [|done].
  destruct (Z.eqb_spec (Capability.holder en) h) as [Hh|]; [|done]. simpl in Hl.
  destruct (bool_decide _) eqn:Ht; [|done]. apply bool_decide_eq_true in Ht. simpl in Hl.
  destruct (CapRights.contains _ _) eqn:Hr; [|done]. simpl in Hl.
  exists en. split; [|unfold Capability.target; by rewrite Ht].
  apply resolve_Ok. split_and!; [done..|]. unfold CapTable.live. rewrite Ht. simpl.
  unfold tab. simpl. by destruct (flow_cells g !! FlowId.as_u64 t).
Qed.

Lemma mint_reply_live h t r g (e : env R) id g' e' :
  CapTable.mint_reply getrandom h t r g e = (Ok id, g', e') ->
  CapTable.reply_cap_is_live g' (ecells e') id h t r = true /\
  reply_index g' !! (h, t) = Some id /\ id <> CapId.NONE.
Proof.
  unfold CapTable.mint_reply.
  destruct (CapTable.cell_or_new _ g e) as [[c g1] e1] eqn:Ec.
  apply cell_or_new_entries in Ec as (_ & _ & Ec).
  destruct (CapTable.insert_fresh_locked _ _ _ _) as [[y g2] e2] eqn:Ei.
  apply insert_fresh_locked_spec in Ei as (Ef & _ & Ee & Ei).
  destruct y as [i|]; [|done]. intros [= -> <- <-]. destruct Ei as (Hid & _ & Ei).
  unfold CapTable.reply_cap_is_live. simpl. rewrite Ei, lookup_insert_eq, Ef, Ec. simpl.
  rewrite Z.eqb_refl, bool_decide_true, contains_refl by done. simpl.
  unfold Cap.is_valid. simpl. rewrite Ee, Z.eqb_refl. split_and!; [done| |done].
  by rewrite lookup_insert_eq.
Qed.

(** Either way [mint_or_reuse] leaves its answer live and indexed. *)
Lemma mint_or_reuse_live h t r id (s s' : st) :
  CapTable.mint_or_reuse getrandom h t r s = (Ok id, s') ->
  poisoned (CapTable.inner (fst s')) = false /\
  CapTable.reply_cap_is_live (tab s') (store_of s') id h t r = true /\
  reply_index (tab s') !! (h, t) = Some id /\
  (id <> CapId.NONE \/ entries (tab s) !! id <> None).
Proof.
  unfold CapTable.mint_or_reuse. intros E.
  apply locked_spec in E as [(_ & Hr & _)|(_ & Hp & E & _)]; [done|]. split; [done|].
  assert (Hm : forall g,
    CapTable.mint_reply getrandom h t r g (snd s) = (Ok id, tab s', snd s') ->
    CapTable.reply_cap_is_live (tab s') (store_of s') id h t r = true /\
    reply_index (tab s') !! (h, t) = Some id /\
    (id <> CapId.NONE \/ entries (tab s) !! id <> None)).
  { intros g (? & ? & ?)%mint_reply_live. split_and!; auto. }
  destruct (reply_index (tab s) !! (h, t)) as [i|] eqn:Ei; [|by apply (Hm _ E)].
  destruct (CapTable.reply_cap_is_live (tab s) _ i h t r) eqn:El; [|by apply (Hm _ E)].
  injection E as -> Eg Ee. unfold store_of. rewrite <- Eg, <- Ee. split_and!; [done..|].
  right. unfold CapTable.reply_cap_is_live in El.
  by destruct (entries (tab s) !! id).
Qed.

Definition no_none (s : st) : Prop := entries (tab s) !! CapId.NONE = None.

Lemma grows_no_none s s' P : no_none s -> grows s s' P -> no_none s'.
Proof.
  unfold no_none. intros Hn [E|(en & _ & id & Hid & _ & E)]; rewrite E; [done|].
  by rewrite lookup_insert_ne.
Qed.

Lemma exec_all_no_none ops (s : st) : no_none s -> no_none (exec_all ops s).
Proof.
  revert s. induction ops as [|o ops IH]; intros s Hn; [done|]. simpl. apply IH.
  destruct o as [h t r|h t r|h c|id from to want m|id from to|id to|f|f|cell]; simpl.
  - eapply grows_no_none, mint_grows. done.
  - eapply grows_no_none, mint_or_reuse_grows. done.
  - eapply grows_no_none, insert_grows. done.
  - eapply grows_no_none, attenuate_grows. done.
  - eapply grows_no_none, delegate_grows. done.
  - eapply grows_no_none, reissue_grows. done.
  - unfold no_none. by rewrite bind_flow_entries.
  - destruct (CapTable.revoke_flow f s) as [[n|x] s'] eqn:E; simpl.
    + apply revoke_flow_spec in E as (_ & _ & E & _). unfold no_none. rewrite E.
      apply map_lookup_filter_None. by left.
    + by apply locked_spec in E as [(-> & _)|(_ & _ & E & _)].
  - done.
Qed.

(** reply addresses do not multiply. After any sequence of table operations, once
    [mint_or_reuse h t r] answered a token, that token resolves for [h] with the
    rights [r] to the flow [t], and asking again answers the same token and changes
    neither the table nor the generator: one live token per pair. *)
Lemma mint_or_reuse_stable ops cs rng h t r id (s' : st) :
  let s := exec_all ops (fst (CapTable.new cs), mk_env (snd (CapTable.new cs)) rng) in
  CapTable.mint_or_reuse getrandom h t r s = (Ok id, s') ->
  CapTable.mint_or_reuse getrandom h t r s' = (Ok id, s') /\
  exists en, fst (CapTable.resolve id h r s') = Ok en /\ Capability.target en = Some t.
Proof.
  intros s E. destruct (mint_or_reuse_live _ _ _ _ _ _ E) as (Hp & Hl & Hi & Hid).
  assert (id <> CapId.NONE) as Hne.
  { destruct Hid as [|Hid]; [done|]. intros ->. apply Hid. by apply exec_all_no_none. }
  destruct s' as [[[p g] nc sc] [cs' rng']]. unfold tab, store_of in *. simpl in *. subst p.
  split; [|by apply reply_live_resolves].
  unfold CapTable.mint_or_reuse, CapTable.locked, lock. simpl. by rewrite Hi, Hl.
Qed.

(** a token minted across a revocation outlives it. [mint] binds the target's
    counter and inserts the token in two critical sections; if the target is revoked
    between them (and was new to the table), the token inserted afterwards stays in
    the table although it addresses the revoked flow, and it resolves again as soon as
    anyone binds that flow, because the rebuilt counter restarts at the same epoch. *)
Lemma mint_spans_revocation h t r c c' n id (s s1 s2 s3 s4 : st) :
  flow_cells (tab s) !! FlowId.as_u64 t = None ->
  CapTable.bind_flow t s = (Ok c, s1) ->
  CapTable.revoke_flow t s1 = (Ok n, s2) ->
  CapTable.grant getrandom h (CapTable.root_of t r c (snd s1)) s2 = (Ok id, s3) ->
  CapTable.bind_flow t s3 = (Ok c', s4) ->
  fst (CapTable.resolve id h r s3) = Err CapError.Unknown /\
  fst (CapTable.resolve id h r s4) = Ok (Capability.mk h (CapTable.root_of t r c (snd s1))).
Proof.
  intros Hn E1 E2 E3 E4. set (k := CapTable.root_of t r c (snd s1)) in *.
  assert (Cap.epoch k = 0) as He0.
  { apply locked_spec in E1 as [(_ & ? & _)|(_ & _ & E1 & _)]; [done|].
    unfold CapTable.cell_or_new in E1. rewrite Hn in E1. unfold RevocationCell.new in E1.
    injection E1 as <- _ Ee. unfold k, CapTable.root_of. simpl. rewrite <- Ee.
    unfold RevocationCell.epoch. simpl. by rewrite lookup_insert_eq. }
  assert (Cap.target k = CapTarget.Flow t /\ Cap.rights k = r) as [Ht Hr] by done.
  clearbody k. apply revoke_flow_spec in E2 as (_ & _ & _ & Ef & _).
  pose proof (insert_same_cells h k s2) as Hc. unfold CapTable.grant in E3.
  rewrite E3 in Hc. destruct Hc as (Ef3 & _). simpl in Ef3. rewrite Ef in Ef3.
  unfold CapTable.insert in E3.
  apply locked_spec in E3 as [(_ & ? & _)|(_ & Hp3 & E3 & _)]; [done|].
  apply insert_fresh_locked_spec in E3 as (_ & _ & _ & Hid & _ & Ee3).
  pose proof (bind_flow_entries t s3) as Ee4. rewrite E4 in Ee4. simpl in Ee4.
  split.
  - unfold CapTable.resolve, CapId.is_none. destruct (Z.eqb_spec id 0); [done|].
    unfold lock. rewrite Hp3. simpl. unfold tab in *. rewrite Ee3, lookup_insert_eq. simpl.
    rewrite Z.eqb_refl, Hr, contains_refl. simpl. rewrite Ef3.
    unfold CapTable.live. rewrite Ht. unfold FlowId.as_u64. simpl. by rewrite lookup_delete_eq.
  - apply locked_spec in E4 as [(_ & ? & _)|(_ & Hp4 & E4 & _)]; [done|].
    unfold CapTable.cell_or_new in E4. rewrite Ef3, lookup_delete_eq in E4.
    unfold RevocationCell.new in E4. injection E4 as _ Eg Ee.
    rewrite (resolve_view id h k); [|done|done|by rewrite Ee4, Ee3, lookup_insert_eq|].
    + unfold token_view. by rewrite Z.eqb_refl, Hr, contains_refl.
    + unfold live_in, CapTable.live, store_of. rewrite <- Eg, <- Ee, Ht. simpl.
      unfold FlowId.as_u64. rewrite lookup_insert_eq. unfold Cap.is_valid, RevocationCell.epoch. simpl.
      by rewrite lookup_insert_eq, He0.
Qed.
End theory.

(** ** Decisions on authority records *)

(** Confined spawn never widens authority. A child is born only from a live parent
    that has the SPAWN right and a spawn token in its bucket; the child's authority
    addresses the child, is live on the child's own counter, carries a right iff the
    parent and the request carry it, and allows a native iff both masks do. Refusals
    for a revoked or a powerless parent do not touch the quota. *)
Lemma spawn_confined oc s p pc q now now' child rr rn cc r q' :
  exec_spawn_authority oc s p pc q now now' child rr rn cc = (Some r, q') ->
  match r with
  | Ok c =>
    Cap.is_valid p s pc = true /\ CapRights.contains (Cap.rights p) CapRights.SPAWN = true /\
    FlowQuota.check_spawn oc q now now' = (Some (Ok tt), q') /\
    Cap.target c = CapTarget.Flow child /\ Cap.is_valid c s cc = true /\
    (forall want, CapRights.contains (Cap.rights c) want =
       CapRights.contains (Cap.rights p) want && CapRights.contains rr want) /\
    (forall idx, 0 <= idx -> mask_allows (Cap.native_mask c) idx =
       mask_allows (Cap.native_mask p) idx && request_allows rn idx)
  | Err SourceCapRevoked => Cap.is_valid p s pc = false /\ q' = q
  | Err MissingSpawnRight =>
    Cap.is_valid p s pc = true /\
    CapRights.contains (Cap.rights p) CapRights.SPAWN = false /\ q' = q
  | Err RateLimited => exists e, FlowQuota.check_spawn oc q now now' = (Some (Err e), q')
  end.
Proof.
  unfold exec_spawn_authority. destruct (Cap.is_valid p s pc) eqn:Hv; simpl; [|by intros [= <- <-]].
  destruct (CapRights.contains _ _) eqn:Hr; simpl; [|by intros [= <- <-]].
  destruct (FlowQuota.check_spawn oc q now now') as [[[[]|e]|] q1] eqn:Eq; [| |done].
  - intros [= <- <-]. split_and!; try done; simpl.
    + apply Z.eqb_refl.
    + intros want. apply (attenuate_rights p rr rn).
    + intros idx Hi. by apply (attenuate_mask p rr rn).
  - intros [= <- <-]. by exists e.
Qed.

(** relations and administration are capabilities. A link, a monitor or an
    administrative operation is allowed iff the record is live, addresses exactly that
    flow (or the scheduler) and carries the matching right; so a record that allows one
    of the flow relations never allows administration. *)
Lemma relation_checks_exact s c cell t :
  (check_link s c cell t = Ok tt <->
    Cap.is_valid c s cell = true /\ Cap.target c = CapTarget.Flow t /\
    CapRights.contains (Cap.rights c) CapRights.LINK = true) /\
  (check_monitor s c cell t = Ok tt <->
    Cap.is_valid c s cell = true /\ Cap.target c = CapTarget.Flow t /\
    CapRights.contains (Cap.rights c) CapRights.MONITOR = true) /\
  (check_admin s c cell = Ok tt <->
    Cap.is_valid c s cell = true /\ Cap.target c = CapTarget.Scheduler /\
    CapRights.contains (Cap.rights c) CapRights.ADMIN = true) /\
  (is_ok (check_link s c cell t) || is_ok (check_monitor s c cell t) = true ->
    check_admin s c cell <> Ok tt).
Proof.
  unfold check_link, check_monitor, check_admin.
  destruct (Cap.is_valid c s cell); simpl; [|by split_and!; (split; [done|by intros (? & _)]) || done].
  destruct (Cap.target c) as [f| |] eqn:Et; simpl;
    repeat case_bool_decide; simpl; repeat (destruct (CapRights.contains _ _); simpl);
    intuition congruence.
Qed.

(** ** Witnesses *)

Section witnesses.

(** A generator that counts. *)
Definition counting (n : Z) : option (list byte) * Z := (Some (to_le 16 n), n + 1).

Definition table0 : CapTable.t * env Z :=
  (fst (CapTable.new RevocationCell.empty_store),
   mk_env (snd (CapTable.new RevocationCell.empty_store)) 41).

(** Flow 1 gets SEND and ASK on flow 2, keeps SEND, and passes it on to flow 3. *)
Definition history : list op :=
  [Mint 1 2 CapRights.SEND_ASK; Attenuate 41 1 3 CapRights.SEND None; MintOrReuse 4 5 CapRights.SEND].

Lemma authority_from_roots_witness :
  exists root, grant_of root ∈ concat (map roots_of history) /\
    CapRights.contains (Cap.rights root) CapRights.SEND = true.
Proof.
  destruct (authority_from_roots counting history RevocationCell.empty_store 41 42 3
    CapRights.SEND (Capability.mk 3 (Cap.mk (CapTarget.Flow 2) CapRights.SEND None 0)))
    as (_ & root & reqs & Hin & _ & _ & Hr & _); [by vm_compute|]. by exists root.
Defined.

Lemma revoked_stays_revoked_witness :
  let s := exec_all counting history table0 in
  exists n s', CapTable.revoke_flow 2 s = (Ok n, s') /\ n = 2 /\
    is_ok (fst (CapTable.resolve 43 4 CapRights.SEND s')) = true /\ (4:Z) <> 2.
Proof.
  intros s. destruct (CapTable.revoke_flow 2 s) as [[n|x] s'] eqn:E;
    [|exfalso; by vm_compute in E].
  exists n, s'. split; [done|].
  pose proof (revoked_stays_revoked counting 2 [] s s' n 43 4 CapRights.SEND
    (Capability.mk 4 (Cap.mk (CapTarget.Flow 5) CapRights.SEND None 0)) E) as Hr.
  vm_compute in E. injection E as <- <-.
  split; [done|]. split; [by vm_compute|]. by apply Hr; [constructor|vm_compute].
Defined.

Lemma revoke_flow_exact_witness :
  exists n s', CapTable.revoke_flow 2 (exec_all counting history table0) = (Ok n, s') /\
    fst (CapTable.resolve 41 1 CapRights.SEND s') = Err CapError.Unknown.
Proof.
  destruct (CapTable.revoke_flow 2 (exec_all counting history table0)) as [[n|x] s'] eqn:E;
    [|exfalso; by vm_compute in E].
  exists n, s'. split; [done|].
  destruct (revoke_flow_exact counting history RevocationCell.empty_store 41 2 s' n E)
    as [_ Hr]. rewrite Hr. by vm_compute.
Defined.

Lemma mint_or_reuse_stable_witness :
  exists s', CapTable.mint_or_reuse counting 4 5 CapRights.SEND s' = (Ok 43, s').
Proof.
  destruct (CapTable.mint_or_reuse counting 4 5 CapRights.SEND
    (exec_all counting history table0)) as [[id|x] s'] eqn:E; [|exfalso; by vm_compute in E].
  destruct (mint_or_reuse_stable counting history RevocationCell.empty_store 41 4 5
    CapRights.SEND id s' E) as [Hs _].
  assert (id = 43) as -> by (vm_compute in E; congruence). by exists s'.
Defined.

Lemma mint_spans_revocation_witness :
  exists s4 : CapTable.t * env Z, is_ok (fst (CapTable.resolve 41 1 CapRights.SEND s4)) = true.
Proof.
  destruct (CapTable.bind_flow 2 table0) as [[c|x] s1] eqn:E1; [|exfalso; by vm_compute in E1].
  destruct (CapTable.revoke_flow 2 s1) as [[n|x] s2] eqn:E2;
    [|exfalso; vm_compute in E1; injection E1 as <- <-; by vm_compute in E2].
  destruct (CapTable.grant counting 1 (CapTable.root_of 2 CapRights.SEND c (snd s1)) s2)
    as [[id|x] s3] eqn:E3;
    [|exfalso; vm_compute in E1; injection E1 as <- <-; vm_compute in E2;
      injection E2 as <- <-; by vm_compute in E3].
  destruct (CapTable.bind_flow 2 s3) as [[c'|x] s4] eqn:E4;
    [|exfalso; vm_compute in E1; injection E1 as <- <-; vm_compute in E2;
      injection E2 as <- <-; vm_compute in E3; injection E3 as <- <-; by vm_compute in E4].
  destruct (mint_spans_revocation counting 1 2 CapRights.SEND c c' n id table0 s1 s2 s3 s4
    eq_refl E1 E2 E3 E4) as [_ Hr].
  exists s4. vm_compute in E1. injection E1 as <- <-. vm_compute in E2. injection E2 as <- <-.
  vm_compute in E3. injection E3 as <- <-. by rewrite Hr.
Defined.

Lemma spawn_confined_witness :
  let p := Cap.mk (CapTarget.Flow 1) CapRights.FLOW None 0 in
  let s := RevocationCell.mk_store 2%N {[ 0%N := 0; 1%N := 0 ]} in
  let r := exec_spawn_authority true s p 0%N (FlowQuota.from_config QuotaConfig.default 0) 0 0 2
             (CapRights.union CapRights.SEND CapRights.ADMIN) None 1%N in
  exists c, fst r = Some (Ok c) /\
    CapRights.contains (Cap.rights c) CapRights.ADMIN = false.
Proof.
  intros p s r. destruct r as [[[c|e]|] q'] eqn:E; [|exfalso; by vm_compute in E..].
  destruct (spawn_confined _ _ _ _ _ _ _ _ _ _ _ _ _ E) as (_ & _ & _ & _ & _ & Hr & _).
  exists c. split; [done|]. rewrite Hr. by vm_compute.
Defined.

Lemma relation_checks_exact_witness :
  check_link RevocationCell.empty_store (Cap.mk (CapTarget.Flow 1) CapRights.LINK None 0) 0%N 1
    = Ok tt.
Proof.
  by apply (proj1 (relation_checks_exact RevocationCell.empty_store
    (Cap.mk (CapTarget.Flow 1) CapRights.LINK None 0) 0%N 1)).
Defined.
End witnesses.
