(* ===== verification/Lifecycle.v ===== *)
(** The lifecycle stores of a runtime: monitors, links, names, the flow directory and
    the indices finalization works from.  Models scheduler/monitor.rs, link.rs,
    registry.rs, directory.rs and the stores of finalize.rs.

    A [HashMap] is a [gmap]; where the code collects its iteration order into a vector
    the order is the [gmap]'s, and theorems about that vector are up to permutation.
    The methods of a store are those of its table under the store's mutex. *)

From stdpp Require Import sorting.
From S2P Require Import Prelude Capability Sync Vm Process.

(** A store's method: the table's operation in one critical section. *)
Definition on {A B} (m : mutex A) (where_ : string) (f : A -> B * A)
  : result B RuntimeError * mutex A := with_lock m where_ f.

(** ** Monitors *)

Module FlowExitReason.

(** [scheduler/monitor.rs] [FlowExitReason] *)
Inductive t := Normal | Shutdown | Killed | Fault | MailboxOverflow | Supervisor | Link.

#[global] Instance eq_dec : EqDecision t.
Proof. solve_decision. Defined.

(** [scheduler/monitor.rs] [FlowExitReason::from_u64] *)
Definition from_u64 (raw : Z) : option t :=
  match raw with
  | 0 => Some Normal
  | 1 => Some Shutdown
  | 2 => Some Killed
  | 3 => Some Fault
  | 4 => Some MailboxOverflow
  | 5 => Some Supervisor
  | 6 => Some Link
  | _ => None
  end.

(** [scheduler/monitor.rs] [FlowExitReason::as_u64]: the declared discriminants. *)
Definition as_u64 (r : t) : Z :=
  match r with
  | Normal => 0
  | Shutdown => 1
  | Killed => 2
  | Fault => 3
  | MailboxOverflow => 4
  | Supervisor => 5
  | Link => 6
  end.

(** [scheduler/monitor.rs] [FlowExitReason::is_abnormal] *)
Definition is_abnormal (r : t) : bool := match r with Normal => false | _ => true end.

(** [scheduler/monitor.rs:96-110] [FlowExitReason::fmt] *)
Definition to_string (r : t) : string :=
  match r with
  | Normal => "normal"
  | Shutdown => "shutdown"
  | Killed => "killed"
  | Fault => "fault"
  | MailboxOverflow => "mailbox-overflow"
  | Supervisor => "supervisor"
  | Link => "link"
  end.

End FlowExitReason.

(** [scheduler/monitor.rs] [MonitorRef]: a [u64]; the inner id. *)
Definition MonitorRef : Type := Z.

(** [scheduler/monitor.rs] [DownEvent] *)
Record DownEvent := mk_down {
  dmonitor : Z;
  downer : FlowId.t;
  dtarget : FlowId.t;
  dreason : FlowExitReason.t }.

(** [scheduler/monitor.rs] [MonitorEntry] *)
Record MonitorEntry := mk_monitor { mowner : Z; mtarget : Z }.

Module MonitorTable.

(** [scheduler/monitor.rs] [MonitorTable] *)
Definition t : Type := gmap Z MonitorEntry.

Definition new : t := ∅.

(** [scheduler/monitor.rs] [MonitorTable::create]: [counter] is [NEXT_MONITOR], whose
    [fetch_add] wraps. *)
Definition create (counter : Z) (owner target : FlowId.t) (m : gmap Z MonitorEntry)
  : MonitorRef * (gmap Z MonitorEntry * Z) :=
  (counter, (<[counter := mk_monitor owner target]> m, wrap_u 64 (counter + 1))).

(** [scheduler/monitor.rs] [MonitorTable::remove_owned] *)
Definition remove_owned (owner : FlowId.t) (monitor : MonitorRef) (m : gmap Z MonitorEntry)
  : result unit LifecycleError * gmap Z MonitorEntry :=
  match m !! (monitor : Z) with
  | Some entry =>
    if mowner entry =? owner then (Ok tt, delete (monitor : Z) m) else (Err NotOwner, m)
  | None => (Err InvalidMonitor, m)
  end.

Definition not_owned_by (owner : FlowId.t) (x : Z * MonitorEntry) : Prop :=
  ~ (mowner (snd x) =? owner = true).
Definition watches (target : FlowId.t) (x : Z * MonitorEntry) : Prop :=
  mtarget (snd x) =? target = true.
#[global] Instance not_owned_by_dec o x : Decision (not_owned_by o x).
Proof. unfold not_owned_by. apply _. Defined.
#[global] Instance watches_dec o x : Decision (watches o x).
Proof. unfold watches. apply _. Defined.

(** [scheduler/monitor.rs] [MonitorTable::remove_owned_by] *)
Definition remove_owned_by (owner : FlowId.t) (m : gmap Z MonitorEntry)
  : gmap Z MonitorEntry := filter (not_owned_by owner) m.

Definition by_ref (a b : DownEvent) : Prop := dmonitor a <= dmonitor b.
#[global] Instance by_ref_dec a b : Decision (by_ref a b).
Proof. unfold by_ref. apply _. Defined.

(** [scheduler/monitor.rs] [MonitorTable::notify_target_exit] *)
Definition notify_target_exit (target : FlowId.t) (reason : FlowExitReason.t)
    (m : gmap Z MonitorEntry) : list DownEvent * gmap Z MonitorEntry :=
  let events := map (fun '(monitor, entry) => mk_down monitor (mowner entry) target reason)
                  (map_to_list (filter (watches target) m)) in
  (merge_sort by_ref events, filter (fun x => ~ watches target x) m).

End MonitorTable.

Module MonitorStore.

(** [scheduler/monitor.rs] [MonitorStore] *)
Definition t : Type := mutex (gmap Z MonitorEntry).

(** [scheduler/monitor.rs] [MonitorStore::create] *)
Definition create (counter : Z) (owner target : FlowId.t) (s : mutex (gmap Z MonitorEntry))
  : result MonitorRef RuntimeError * (mutex (gmap Z MonitorEntry) * Z) :=
  let (r, s') := on s "MonitorStore::create" (fun m =>
    let '(ref, (m', c')) := MonitorTable.create counter owner target m in ((ref, c'), m')) in
  match r with
  | Ok (ref, c') => (Ok ref, (s', c'))
  | Err e => (Err e, (s', counter))
  end.

(** [scheduler/monitor.rs] [MonitorStore::remove_owned] *)
Definition remove_owned (owner : FlowId.t) (monitor : MonitorRef)
    (s : mutex (gmap Z MonitorEntry)) :=
  on s "MonitorStore::remove_owned" (MonitorTable.remove_owned owner monitor).

(** [scheduler/monitor.rs] [MonitorStore::remove_owned_by] *)
Definition remove_owned_by (owner : FlowId.t) (s : mutex (gmap Z MonitorEntry)) :=
  on s "MonitorStore::remove_owned_by" (fun m => (tt, MonitorTable.remove_owned_by owner m)).

(** [scheduler/monitor.rs] [MonitorStore::notify_target_exit] *)
Definition notify_target_exit (target : FlowId.t) (reason : FlowExitReason.t)
    (s : mutex (gmap Z MonitorEntry)) :=
  on s "MonitorStore::notify_target_exit" (MonitorTable.notify_target_exit target reason).

End MonitorStore.

(** ** Links *)

(** [scheduler/link.rs] [LinkId]: a [u64]; the inner id. *)
Definition LinkId : Type := Z.

(** [scheduler/link.rs] [Link] *)
Record Link := mk_link { la : Z; lb : Z }.

Module LinkTable.

(** [scheduler/link.rs] [LinkTable] *)
Definition t : Type := gmap Z Link.

Definition new : t := ∅.

(** The pair [a], [b] in either direction. *)
Definition joins (a b : FlowId.t) (l : Link) : bool :=
  ((la l =? a) && (lb l =? b)) || ((la l =? b) && (lb l =? a)).

(** [scheduler/link.rs] [LinkTable::link]: [counter] is [NEXT_LINK]. *)
Definition link (counter : Z) (a b : FlowId.t) (m : gmap Z Link)
  : result LinkId LifecycleError * (gmap Z Link * Z) :=
  if a =? b then (Err SelfRelation, (m, counter))
  else if existsb (joins a b) (map snd (map_to_list m)) then (Err AlreadyLinked, (m, counter))
  else (Ok counter, (<[counter := mk_link a b]> m, wrap_u 64 (counter + 1))).

(** [scheduler/link.rs] [LinkTable::unlink_owned] *)
Definition unlink_owned (owner : FlowId.t) (id : LinkId) (m : gmap Z Link)
  : result unit LifecycleError * gmap Z Link :=
  match m !! (id : Z) with
  | Some link =>
    if (la link =? owner) || (lb link =? owner) then (Ok tt, delete (id : Z) m)
    else (Err NotOwner, m)
  | None => (Err InvalidLink, m)
  end.

(** The other end of a link of [target], seen from its first end first. *)
Definition peer_of (target : FlowId.t) (l : Link) : option FlowId.t :=
  if la l =? target then Some (lb l)
  else if lb l =? target then Some (la l)
  else None.

Definition touches (target : FlowId.t) (x : Z * Link) : Prop :=
  peer_of target (snd x) <> None.
#[global] Instance touches_dec f x : Decision (touches f x).
Proof. unfold touches. destruct (peer_of f (snd x)); [by left|by right; intros ?]. Defined.

(** [scheduler/link.rs] [LinkTable::remove_links_of] *)
Definition remove_links_of (target : FlowId.t) (m : gmap Z Link)
  : list (LinkId * FlowId.t) * gmap Z Link :=
  (omap (fun '(id, l) => (fun p => (id, p)) <$> peer_of target l) (map_to_list m),
   filter (fun x => ~ touches target x) m).

End LinkTable.

Module LinkStore.

(** [scheduler/link.rs] [LinkStore] *)
Definition t : Type := mutex (gmap Z Link).

(** [scheduler/link.rs] [LinkStore::link] *)
Definition link (counter : Z) (a b : FlowId.t) (s : mutex (gmap Z Link))
  : result (result LinkId LifecycleError) RuntimeError * (mutex (gmap Z Link) * Z) :=
  let (r, s') := on s "LinkStore::link" (fun m =>
    let '(x, (m', c')) := LinkTable.link counter a b m in ((x, c'), m')) in
  match r with
  | Ok (x, c') => (Ok x, (s', c'))
  | Err e => (Err e, (s', counter))
  end.

(** [scheduler/link.rs] [LinkStore::unlink_owned] *)
Definition unlink_owned (owner : FlowId.t) (id : LinkId) (s : mutex (gmap Z Link)) :=
  on s "LinkStore::unlink_owned" (LinkTable.unlink_owned owner id).

(** [scheduler/link.rs] [LinkStore::remove_links_of] *)
Definition remove_links_of (target : FlowId.t) (s : mutex (gmap Z Link)) :=
  on s "LinkStore::remove_links_of" (LinkTable.remove_links_of target).

End LinkStore.

(** ** Names *)

(** [scheduler/registry.rs] [RegistryName]: the UTF-8 bytes of the name. *)
Definition RegistryName : Type := list byte.

(** [scheduler/registry.rs] [Entry] *)
Record NameEntry := mk_name { ncap : CapId.t; nflow : Z }.

Module Registry.

(** [scheduler/registry.rs] [Registry] *)
Record t := mk {
  by_name : gmap (list byte) NameEntry;
  by_flow : gmap Z (list (list byte)) }.

Definition new : t := mk ∅ ∅.

(** [scheduler/registry.rs] [Registry::register] *)
Definition register (name : list byte) (cap : CapId.t) (flow : FlowId.t) (r : t)
  : result unit LifecycleError * t :=
  match name with
  | [] => (Err EmptyName, r)
  | _ =>
    match by_name r !! name with
    | Some _ => (Err AlreadyRegistered, r)
    | None =>
      let names := default [] (by_flow r !! (flow : Z)) in
      (Ok tt, mk (<[name := mk_name cap flow]> (by_name r))
                 (<[(flow : Z) := names ++ [name]]> (by_flow r)))
    end
  end.

(** [scheduler/registry.rs] [Registry::whereis] *)
Definition whereis (name : list byte) (r : t) : option CapId.t := ncap <$> by_name r !! name.

(** [scheduler/registry.rs] [Registry::target] *)
Definition target (name : list byte) (r : t) : option FlowId.t := nflow <$> by_name r !! name.

(** [scheduler/registry.rs] [Registry::unregister] *)
Definition unregister (name : list byte) (r : t) : bool * t :=
  match by_name r !! name with
  | Some entry =>
    let names := delete name (by_name r) in
    match by_flow r !! (nflow entry : Z) with
    | Some l =>
      let l' := filter (fun n => n <> name) l in
      (true, mk names (match l' with
                       | [] => delete (nflow entry : Z) (by_flow r)
                       | _ => <[(nflow entry : Z) := l']> (by_flow r)
                       end))
    | None => (true, mk names (by_flow r))
    end
  | None => (false, r)
  end.

(** [scheduler/registry.rs] [Registry::unregister_flow] *)
Definition unregister_flow (flow : FlowId.t) (r : t) : t :=
  match by_flow r !! (flow : Z) with
  | Some names =>
    mk (fold_left (fun m name => delete name m) names (by_name r))
       (delete (flow : Z) (by_flow r))
  | None => r
  end.

End Registry.

Module RegistryStore.

(** [scheduler/registry.rs] [RegistryStore] *)
Definition t : Type := mutex Registry.t.

(** [scheduler/registry.rs] [RegistryStore::register] *)
Definition register (name : list byte) (cap : CapId.t) (flow : FlowId.t) (s : t) :=
  on s "RegistryStore::register" (Registry.register name cap flow).

(** [scheduler/registry.rs] [RegistryStore::whereis] *)
Definition whereis (name : list byte) (s : t) :=
  on s "RegistryStore::whereis" (fun r => (Registry.whereis name r, r)).

(** [scheduler/registry.rs] [RegistryStore::target] *)
Definition target (name : list byte) (s : t) :=
  on s "RegistryStore::target" (fun r => (Registry.target name r, r)).

(** [scheduler/registry.rs] [RegistryStore::unregister] *)
Definition unregister (name : list byte) (s : t) :=
  on s "RegistryStore::unregister" (Registry.unregister name).

(** [scheduler/registry.rs] [RegistryStore::unregister_flow] *)
Definition unregister_flow (flow : FlowId.t) (s : t) :=
  on s "RegistryStore::unregister_flow" (fun r => (tt, Registry.unregister_flow flow r)).

End RegistryStore.

(** ** The directory *)

Module Directory.

(** [scheduler/directory.rs] [SHARDS] *)
Definition SHARDS : nat := 64.

(** [scheduler/directory.rs] [Directory]: a mailbox is known by its reference. *)
Definition t : Type := list (mutex (gmap Z N)).

(** [scheduler/directory.rs] [Directory::new] *)
Definition new : list (mutex (gmap Z N)) := replicate SHARDS (mutex_new ∅).

(** [scheduler/directory.rs] [Directory::shard_for]: its index. *)
Definition shard_for (id : FlowId.t) : nat :=
  Z.to_nat (FlowId.as_u64 id mod Z.of_nat SHARDS).

(** One critical section on the shard of [id]; an index out of range would panic. *)
Definition with_shard {B} (d : list (mutex (gmap Z N))) (id : FlowId.t) (where_ : string)
    (f : gmap Z N -> B * gmap Z N)
  : option (result B RuntimeError) * list (mutex (gmap Z N)) :=
  match d !! shard_for id with
  | None => (None, d)
  | Some s =>
    let (r, s') := on s where_ f in (Some r, <[shard_for id := s']> d)
  end.

(** [scheduler/directory.rs] [Directory::register] *)
Definition register (id : FlowId.t) (mailbox : N) (d : list (mutex (gmap Z N))) :=
  with_shard d id "Directory::register" (fun m => (tt, <[FlowId.as_u64 id := mailbox]> m)).

(** [scheduler/directory.rs] [Directory::unregister] *)
Definition unregister (id : FlowId.t) (d : list (mutex (gmap Z N))) :=
  with_shard d id "Directory::unregister" (fun m => (tt, delete (FlowId.as_u64 id) m)).

(** [scheduler/directory.rs] [Directory::lookup] *)
Definition lookup (id : FlowId.t) (d : list (mutex (gmap Z N))) :=
  with_shard d id "Directory::lookup" (fun m => (m !! FlowId.as_u64 id, m)).

(** [scheduler/directory.rs] [Directory::len]: it stops at the first poisoned shard,
    whose fault it reports. *)
Fixpoint len_from (n : Z) (d : list (mutex (gmap Z N))) : Z :=
  match d with
  | [] => n
  | s :: d' =>
    match lock s "Directory::len" with
    | Ok g => len_from (n + Z.of_nat (size g)) d'
    | Err _ => n
    end
  end.
Definition len (d : list (mutex (gmap Z N))) : Z := len_from 0 d.

End Directory.

(** ** Finalization's indices *)

Module KillSignals.

(** [scheduler/finalize.rs] [KillSignals] *)
Definition t : Type := mutex (gmap Z FlowExitReason.t).

(** [scheduler/finalize.rs] [KillSignals::set] *)
Definition set (id : FlowId.t) (reason : FlowExitReason.t) (s : t) :=
  on s "KillSignals::set" (fun m => (tt, <[FlowId.as_u64 id := reason]> m)).

(** [scheduler/finalize.rs] [KillSignals::take] *)
Definition take (id : FlowId.t) (s : t) :=
  on s "KillSignals::take" (fun m => (m !! FlowId.as_u64 id, delete (FlowId.as_u64 id) m)).

End KillSignals.

Module WaitingSendIndex.

(** [scheduler/finalize.rs] [WaitingSendIndex] *)
Definition t : Type := mutex (gmap Z FlowId.t).

(** [scheduler/finalize.rs] [WaitingSendIndex::insert] *)
Definition insert (sender target : FlowId.t) (s : t) :=
  on s "WaitingSendIndex::insert" (fun m => (tt, <[FlowId.as_u64 sender := target]> m)).

(** [scheduler/finalize.rs] [WaitingSendIndex::remove] *)
Definition remove (sender : FlowId.t) (s : t) :=
  on s "WaitingSendIndex::remove" (fun m =>
    (m !! FlowId.as_u64 sender, delete (FlowId.as_u64 sender) m)).

(** [scheduler/finalize.rs] [WaitingSendIndex::get] *)
Definition get (sender : FlowId.t) (s : t) :=
  on s "WaitingSendIndex::get" (fun m => (m !! FlowId.as_u64 sender, m)).

End WaitingSendIndex.

(** [scheduler/finalize.rs] [DuplicateAsk] *)
Inductive DuplicateAsk := Duplicate.

Module AskWaitIndex.

(** [scheduler/finalize.rs] [AskWaitInner] *)
Record inner := mk {
  by_asker : gmap Z Z;
  by_target : gmap Z (gset Z);
  request_ids : gmap Z Z }.

(** [scheduler/finalize.rs] [AskWaitIndex] *)
Definition t : Type := mutex inner.

Definition new : t := mutex_new (mk ∅ ∅ ∅).

(** [scheduler/finalize.rs] [AskWaitIndex::insert] *)
Definition insert_inner (asker target request_id : Z) (g : inner)
  : result unit DuplicateAsk * inner :=
  match request_ids g !! asker with
  | Some _ => (Err Duplicate, g)
  | None =>
    (Ok tt, mk (<[asker := target]> (by_asker g))
               (<[target := {[asker]} ∪ default ∅ (by_target g !! target)]> (by_target g))
               (<[asker := request_id]> (request_ids g)))
  end.
Definition insert (asker target : FlowId.t) (request_id : Z) (s : t) :=
  on s "AskWaitIndex::insert" (insert_inner asker target request_id).

(** [scheduler/finalize.rs] [AskWaitIndex::remove_asker] *)
Definition remove_inner (asker : Z) (g : inner) : option Z * inner :=
  let ids := delete asker (request_ids g) in
  match by_asker g !! asker with
  | None => (None, mk (by_asker g) (by_target g) ids)
  | Some target =>
    let askers := delete asker (by_asker g) in
    let targets :=
      match by_target g !! target with
      | Some set =>
        let set := set ∖ {[asker]} in
        if decide (set = ∅) then delete target (by_target g)
        else <[target := set]> (by_target g)
      | None => by_target g
      end in
    (Some target, mk askers targets ids)
  end.
Definition remove_asker (asker : FlowId.t) (s : t) :=
  on s "AskWaitIndex::remove_asker" (remove_inner asker).

(** [scheduler/finalize.rs] [AskWaitIndex::take_waiters_of] *)
Definition take_inner (target : Z) (g : inner) : list Z * inner :=
  match by_target g !! target with
  | None => ([], g)
  | Some set =>
    (elements set,
     mk (fold_left (fun m a => delete a m) (elements set) (by_asker g))
        (delete target (by_target g))
        (fold_left (fun m a => delete a m) (elements set) (request_ids g)))
  end.
Definition take_waiters_of (target : FlowId.t) (s : t) :=
  on s "AskWaitIndex::take_waiters_of" (take_inner target).

End AskWaitIndex.
