(* ===== verification/LifecycleTheory.v ===== *)
(** Theorems on the lifecycle stores: every watch fires once, links are symmetric and
    unique, names and their index agree, no orphaned asker is forgotten. *)

From stdpp Require Import sorting.
From S2P Require Import Prelude Capability Sync Vm Process Lifecycle.

(** A filter whose predicate is decided by [f]. *)
Lemma lookup_filter_bool {A} (P : Z * A -> Prop) `{!forall x, Decision (P x)} (f : A -> bool)
    (m : gmap Z A) k :
  (forall x, P (k, x) <-> f x = true) ->
  filter P m !! k = match m !! k with Some x => if f x then Some x else None | None => None end.
Proof.
  intros Hf. destruct (m !! k) as [x|] eqn:E.
  - destruct (f x) eqn:Ef.
    + apply map_lookup_filter_Some. split; [done|]. by apply Hf.
    + apply map_lookup_filter_None. right. intros y Hy Hp.
      rewrite E in Hy. injection Hy as <-. apply Hf in Hp. congruence.
  - apply map_lookup_filter_None. by left.
Qed.

(** ** Monitors *)

Lemma elem_down target reason (m : gmap Z MonitorEntry) e :
  e ∈ fst (MonitorTable.notify_target_exit target reason m) <->
  exists ent, m !! dmonitor e = Some ent /\ mtarget ent = target /\
    e = mk_down (dmonitor e) (mowner ent) target reason.
Proof.
  unfold MonitorTable.notify_target_exit. simpl.
  rewrite merge_sort_Permutation, list_elem_of_fmap. split.
  - intros ([k ent] & -> & Hin). apply elem_of_map_to_list, map_lookup_filter_Some in Hin as [Hk Hw].
    exists ent. split_and!; [done| |done]. by apply Z.eqb_eq in Hw.
  - intros (ent & Hk & Ht & ->). simpl in *. exists (dmonitor e, ent). split; [done|].
    apply elem_of_map_to_list, map_lookup_filter_Some. split; [done|].
    unfold MonitorTable.watches. simpl. by apply Z.eqb_eq.
Qed.

#[local] Instance by_ref_total : Total MonitorTable.by_ref.
Proof. intros a b. unfold MonitorTable.by_ref. lia. Qed.
#[local] Instance by_ref_trans : Transitive MonitorTable.by_ref.
Proof. intros a b c. unfold MonitorTable.by_ref. lia. Qed.

(** a monitor fires exactly once. When a flow exits, the events are one per monitor
    that watches it, each with its owner and the exit reason, in increasing order of
    monitor reference and without repetition; those monitors are gone, so a second
    notification finds none, and every other monitor stays. *)
Lemma monitors_exact target reason (m : gmap Z MonitorEntry) :
  let r := MonitorTable.notify_target_exit target reason m in
  (forall e, e ∈ fst r <->
    exists ent, m !! dmonitor e = Some ent /\ mtarget ent = target /\
      e = mk_down (dmonitor e) (mowner ent) target reason) /\
  StronglySorted Z.lt (map dmonitor (fst r)) /\
  (forall k, snd r !! k =
    match m !! k with
    | Some ent => if mtarget ent =? target then None else Some ent
    | None => None
    end) /\
  forall reason', fst (MonitorTable.notify_target_exit target reason' (snd r)) = [].
Proof.
  intros r.
  assert (Hleft : forall k, snd r !! k =
    match m !! k with
    | Some ent => if mtarget ent =? target then None else Some ent
    | None => None
    end).
  { intros k. unfold r, MonitorTable.notify_target_exit. simpl.
    rewrite (lookup_filter_bool _ (fun ent => negb (mtarget ent =? target))).
    - destruct (m !! k) as [ent|]; [|done]. by destruct (mtarget ent =? target).
    - intros ent. unfold MonitorTable.watches. simpl.
      by destruct (mtarget ent =? target). }
  split_and!; [apply elem_down| |done|].
  - unfold r, MonitorTable.notify_target_exit. simpl.
    set (evs := map _ (map_to_list _)).
    assert (NoDup (map dmonitor evs)) as Hnd.
    { unfold evs. rewrite map_map.
      erewrite map_ext; [apply NoDup_fst_map_to_list|]. by intros [k ent]. }
    assert (NoDup (map dmonitor (merge_sort MonitorTable.by_ref evs))) as Hnd'
      by by rewrite merge_sort_Permutation.
    assert (StronglySorted MonitorTable.by_ref (merge_sort MonitorTable.by_ref evs)) as Hs
      by (apply Sorted_StronglySorted, Sorted_merge_sort; apply _).
    induction Hs as [|e l _ IH Hall]; simpl in *; [constructor|].
    apply NoDup_cons in Hnd' as [Hni Hnd']. constructor; [by apply IH|].
    apply Forall_forall. intros k Hk. apply list_elem_of_fmap in Hk as (e' & -> & Hin).
    rewrite Forall_forall in Hall. specialize (Hall e' Hin). unfold MonitorTable.by_ref in Hall.
    assert (dmonitor e <> dmonitor e'); [|lia]. intros Heq. apply Hni. rewrite Heq.
    by apply list_elem_of_fmap_2.
  - intros reason'. apply elem_of_nil_inv. intros e He. apply elem_down in He as (ent & Hk & Ht & _).
    rewrite Hleft in Hk. destruct (m !! dmonitor e) as [x|]; [|done].
    destruct (Z.eqb_spec (mtarget x) target); congruence.
Qed.

(** ** Links *)

(** Nobody is linked to itself and a pair is linked at most once; ids are below the
    counter. *)
Record links_ok (m : gmap Z Link) (counter : Z) : Prop := {
  link_irrefl : forall id l, m !! id = Some l -> la l <> lb l;
  link_unique : forall id id' l l', m !! id = Some l -> m !! id' = Some l' ->
    LinkTable.joins (la l) (lb l) l' = true -> id = id';
  link_below : forall id l, m !! id = Some l -> id < counter }.

Lemma joins_spec a b l :
  LinkTable.joins a b l = true <-> (la l = a /\ lb l = b) \/ (la l = b /\ lb l = a).
Proof. unfold LinkTable.joins. rewrite orb_true_iff, !andb_true_iff, !Z.eqb_eq. done. Qed.

Lemma linked_spec a b (m : gmap Z Link) :
  existsb (LinkTable.joins a b) (map snd (map_to_list m)) = true <->
  exists id l, m !! id = Some l /\ LinkTable.joins a b l = true.
Proof.
  rewrite existsb_exists. split.
  - intros (l & Hin & Hj). apply list_elem_of_In, list_elem_of_fmap in Hin as ([id x] & -> & Hin).
    exists id, x. split; [|done]. by apply elem_of_map_to_list in Hin.
  - intros (id & l & Hl & Hj). exists l. split; [|done].
    apply list_elem_of_In, list_elem_of_fmap. exists (id, l). split; [done|].
    by apply elem_of_map_to_list.
Qed.

Inductive link_op :=
| DoLink (a b : FlowId.t)
| DoUnlink (owner : FlowId.t) (id : LinkId)
| DoRemove (target : FlowId.t).

Definition link_exec (o : link_op) (s : gmap Z Link * Z) : gmap Z Link * Z :=
  match o with
  | DoLink a b => snd (LinkTable.link (snd s) a b (fst s))
  | DoUnlink owner id => (snd (LinkTable.unlink_owned owner id (fst s)), snd s)
  | DoRemove target => (snd (LinkTable.remove_links_of target (fst s)), snd s)
  end.

Definition link_run (ops : list link_op) : gmap Z Link * Z :=
  fold_left (fun s o => link_exec o s) ops (∅, 1).

Lemma links_ok_sub m m' c : links_ok m c -> m' ⊆ m -> links_ok m' c.
Proof.
  intros [H1 H2 H3] Hs. constructor; intros *.
  - intros Hl. eapply H1. by eapply lookup_weaken.
  - intros Hl Hl'. eapply H2; by eapply lookup_weaken.
  - intros Hl. eapply H3. by eapply lookup_weaken.
Qed.

Lemma link_links_ok a b m c :
  links_ok m c -> c < u64_max -> 0 <= c ->
  links_ok (fst (snd (LinkTable.link c a b m))) (snd (snd (LinkTable.link c a b m))) /\
  c <= snd (snd (LinkTable.link c a b m)) <= c + 1.
Proof.
  intros Hok Hc H0. unfold LinkTable.link. destruct (Z.eqb_spec a b); [simpl; lia || (split; [done|lia])|].
  destruct (existsb _ _) eqn:E; [simpl; split; [done|lia]|]. simpl.
  rewrite wrap_u_id by (unfold in_u, u64_max in *; lia). split; [|lia].
  assert (Hno : forall id l, m !! id = Some l -> LinkTable.joins a b l = false).
  { intros id l Hl. destruct (LinkTable.joins a b l) eqn:Ej; [|done]. exfalso.
    assert (existsb (LinkTable.joins a b) (map snd (map_to_list m)) = true); [|congruence].
    apply linked_spec. by exists id, l. }
  destruct Hok as [H1 H2 H3]. constructor.
  - intros id l. rewrite lookup_insert_Some. intros [[<- <-]|[_ Hl]]; [done|by eapply H1].
  - intros id id' l l'. rewrite !lookup_insert_Some.
    intros [[<- <-]|[_ Hl]] [[<- <-]|[_ Hl']] Hj; try done; simpl in Hj.
    + by rewrite (Hno _ _ Hl') in Hj.
    + exfalso. rewrite joins_spec in Hj. simpl in Hj.
      assert (LinkTable.joins a b l = true) as Ej by (apply joins_spec; naive_solver).
      by rewrite (Hno _ _ Hl) in Ej.
    + by eapply H2.
  - intros id l. rewrite lookup_insert_Some. intros [[<- _]|[_ Hl]]; [lia|].
    apply H3 in Hl. lia.
Qed.

Lemma link_run_ok ops :
  Z.of_nat (length ops) < u64_max - 1 ->
  links_ok (fst (link_run ops)) (snd (link_run ops)) /\
  1 <= snd (link_run ops) <= 1 + Z.of_nat (length ops).
Proof.
  unfold link_run. induction ops as [|o ops IH] using rev_ind.
  { intros _. simpl. split; [|lia]. by constructor. }
  rewrite fold_left_app, length_app. simpl. intros Hlen.
  destruct IH as [Hok Hc]; [lia|].
  destruct (fold_left _ ops _) as [m c]. simpl in *. destruct o as [a b|owner id|target]; simpl.
  - destruct (link_links_ok a b m c Hok) as [Hok' Hc']; [lia..|]. split; [done|lia].
  - split; [|lia]. apply (links_ok_sub m); [done|]. unfold LinkTable.unlink_owned.
    destruct (m !! _); [|done]. case_match; [|done]. apply delete_subseteq.
  - split; [|lia]. apply (links_ok_sub m); [done|]. apply map_filter_subseteq.
Qed.

Lemma peer_of_spec t l p :
  la l <> lb l ->
  LinkTable.peer_of t l = Some p <-> LinkTable.joins t p l = true.
Proof.
  intros Hne. unfold LinkTable.peer_of. rewrite joins_spec.
  destruct (Z.eqb_spec (la l) t), (Z.eqb_spec (lb l) t); split; intros; try congruence;
    naive_solver congruence.
Qed.

Lemma elem_peers t (m : gmap Z Link) id p :
  (id, p) ∈ fst (LinkTable.remove_links_of t m) <->
  exists l, m !! id = Some l /\ LinkTable.peer_of t l = Some p.
Proof.
  unfold LinkTable.remove_links_of. simpl. rewrite list_elem_of_omap. split.
  - intros ([k l] & Hin & He). apply elem_of_map_to_list in Hin.
    destruct (LinkTable.peer_of t l) eqn:Ep; simpl in He; [|done].
    injection He as -> ->. by exists l.
  - intros (l & Hl & Hp). exists (id, l). split; [by apply elem_of_map_to_list|].
    by rewrite Hp.
Qed.


(** Deleting a list of keys. *)
Lemma lookup_delete_all {K A} `{Countable K} (ks : list K) (m : gmap K A) k :
  fold_left (fun m k => delete k m) ks m !! k = if decide (k ∈ ks) then None else m !! k.
Proof.
  revert m. induction ks as [|x ks IH]; intros m; cbn [fold_left].
  - rewrite decide_False; [done|]. apply not_elem_of_nil.
  - rewrite IH. destruct (decide (k = x)) as [->|Hne].
    + rewrite lookup_delete_eq. rewrite (decide_True (P := x ∈ x :: ks)) by constructor.
      by case_decide.
    + rewrite lookup_delete_ne by done.
      destruct (decide (k ∈ ks)).
      * rewrite decide_True; [done|by constructor].
      * rewrite decide_False; [done|]. by rewrite elem_of_cons; naive_solver.
Qed.

(** ** Names *)

(** The two maps describe the same registrations. *)
Record names_ok (r : Registry.t) : Prop := {
  name_indexed : forall n e, Registry.by_name r !! n = Some e ->
    exists l, Registry.by_flow r !! nflow e = Some l /\ n ∈ l;
  index_named : forall f l n, Registry.by_flow r !! f = Some l -> n ∈ l ->
    exists e, Registry.by_name r !! n = Some e /\ nflow e = f;
  index_nonempty : forall f, Registry.by_flow r !! f <> Some [];
  name_nonempty : Registry.by_name r !! [] = None }.

Inductive name_op :=
| DoRegister (name : list byte) (cap : CapId.t) (flow : FlowId.t)
| DoUnregister (name : list byte)
| DoUnregisterFlow (flow : FlowId.t).

Definition name_exec (o : name_op) (r : Registry.t) : Registry.t :=
  match o with
  | DoRegister n c f => snd (Registry.register n c f r)
  | DoUnregister n => snd (Registry.unregister n r)
  | DoUnregisterFlow f => Registry.unregister_flow f r
  end.

Definition name_run (ops : list name_op) : Registry.t :=
  fold_left (fun r o => name_exec o r) ops Registry.new.

Lemma register_names_ok n c (f : Z) r :
  names_ok r -> names_ok (snd (Registry.register n c f r)).
Proof.
  intros Hok. unfold Registry.register. destruct n as [|b n']; [done|]. set (n := b :: n').
  destruct (Registry.by_name r !! n) eqn:En; [done|]. destruct Hok as [H1 H2 H3 H4].
  constructor; simpl.
  - intros m e. rewrite lookup_insert_Some. intros [[<- <-]|[Hne Hm]]; simpl.
    + eexists. rewrite lookup_insert_eq. split; [done|]. set_solver.
    + destruct (H1 _ _ Hm) as (l & Hl & Hin). destruct (decide (nflow e = f)) as [<-|Hf].
      * eexists. rewrite lookup_insert_eq, Hl. split; [done|]. simpl. set_solver.
      * exists l. by rewrite lookup_insert_ne.
  - intros f' l m. rewrite lookup_insert_Some. intros [[<- <-]|[Hne Hl]] Hin.
    + apply elem_of_app in Hin as [Hin|Hin].
      * destruct (Registry.by_flow r !! f) as [l|] eqn:El; simpl in Hin; [|by inversion Hin].
        destruct (H2 _ _ _ El Hin) as (e & He & Hf). exists e. split; [|done].
        rewrite lookup_insert_ne; [done|]. congruence.
      * apply list_elem_of_singleton in Hin as ->. eexists. by rewrite lookup_insert_eq.
    + destruct (H2 _ _ _ Hl Hin) as (e & He & Hf). exists e. split; [|done].
      rewrite lookup_insert_ne; [done|]. congruence.
  - intros f'. rewrite lookup_insert_Some. intros [[_ E]|[_ E]]; [|by apply (H3 f')].
    by apply app_eq_nil in E as [_ ?].
  - by rewrite lookup_insert_ne.
Qed.

Lemma unregister_names_ok n r : names_ok r -> names_ok (snd (Registry.unregister n r)).
Proof.
  intros Hok. unfold Registry.unregister.
  destruct (Registry.by_name r !! n) as [e|] eqn:En; [|done]. destruct Hok as [H1 H2 H3 H4].
  destruct (H1 _ _ En) as (l & Hl & Hin). rewrite Hl. simpl.
  set (l' := filter (fun m => m <> n) l).
  assert (Hkeep : forall m, m ∈ l' <-> m <> n /\ m ∈ l) by (intros m; unfold l'; by rewrite list_elem_of_filter).
  assert (Hidx : forall f k, (match l' with
      | [] => delete (nflow e) (Registry.by_flow r)
      | _ => <[nflow e := l']> (Registry.by_flow r) end) !! f = Some k <->
    (f = nflow e /\ k = l' /\ l' <> []) \/ (f <> nflow e /\ Registry.by_flow r !! f = Some k)).
  { intros f k. destruct l' eqn:El'.
    - rewrite lookup_delete_Some. naive_solver.
    - rewrite lookup_insert_Some. naive_solver. }
  constructor; simpl.
  - intros m x. rewrite lookup_delete_Some. intros [Hne Hm].
    destruct (H1 _ _ Hm) as (k & Hk & Hmk). destruct (decide (nflow x = nflow e)) as [Ef|Ef].
    + assert (m ∈ l') as Hml by (apply Hkeep; split; [done|]; congruence).
      exists l'. split; [|done]. apply Hidx. left. split_and!; [done..|].
      intros E0. rewrite E0 in Hml. inversion Hml.
    + exists k. split; [|done]. apply Hidx. by right.
  - intros f k m Hk Hmk. apply Hidx in Hk as [(-> & -> & _)|[Hf Hk]].
    + apply Hkeep in Hmk as [Hne Hmk]. destruct (H2 _ _ _ Hl Hmk) as (x & Hx & Ex).
      exists x. by rewrite lookup_delete_ne.
    + destruct (H2 _ _ _ Hk Hmk) as (x & Hx & Ex). exists x. split; [|done].
      rewrite lookup_delete_ne; [done|]. congruence.
  - intros f Hf. apply Hidx in Hf as [(_ & <- & ?)|[_ Hf]]; [done|by apply (H3 f)].
  - apply lookup_delete_None. by right.
Qed.

(** Unregistering a flow removes exactly the names that point at it. *)
Lemma unregister_flow_names (f : Z) r n :
  names_ok r ->
  Registry.by_name (Registry.unregister_flow f r) !! n =
  match Registry.by_name r !! n with
  | Some e => if nflow e =? f then None else Some e
  | None => None
  end.
Proof.
  intros [H1 H2 H3 H4]. unfold Registry.unregister_flow.
  destruct (Registry.by_flow r !! f) as [l|] eqn:El; simpl.
  - rewrite lookup_delete_all. case_decide as Hin.
    + destruct (H2 _ _ _ El Hin) as (e & -> & ->). by rewrite Z.eqb_refl.
    + destruct (Registry.by_name r !! n) as [e|] eqn:En; [|done].
      destruct (Z.eqb_spec (nflow e) f) as [Ef|]; [|done].
      destruct (H1 _ _ En) as (k & Hk & Hnk). rewrite Ef in Hk. congruence.
  - destruct (Registry.by_name r !! n) as [e|] eqn:En; [|done].
    destruct (Z.eqb_spec (nflow e) f) as [Ef|]; [|done].
    destruct (H1 _ _ En) as (k & Hk & _). rewrite Ef in Hk. congruence.
Qed.

Lemma unregister_flow_names_ok (f : Z) r : names_ok r -> names_ok (Registry.unregister_flow f r).
Proof.
  intros Hok. pose proof (fun n => unregister_flow_names f r n Hok) as Hn.
  destruct Hok as [H1 H2 H3 H4].
  assert (Hidx : forall g k, Registry.by_flow (Registry.unregister_flow f r) !! g = Some k <->
    g <> f /\ Registry.by_flow r !! g = Some k).
  { intros g k. unfold Registry.unregister_flow.
    destruct (Registry.by_flow r !! f) as [l|] eqn:El; simpl.
    - rewrite lookup_delete_Some. naive_solver.
    - split; [|by intros [_ ?]]. intros Hg. split; [|done]. congruence. }
  constructor.
  - intros n e Hne. rewrite Hn in Hne. destruct (Registry.by_name r !! n) as [x|] eqn:En; [|done].
    destruct (Z.eqb_spec (nflow x) f); [done|]. injection Hne as ->.
    destruct (H1 _ _ En) as (k & Hk & Hin). exists k. split; [|done]. by apply Hidx.
  - intros g k n Hg Hin. apply Hidx in Hg as [Hne Hg]. destruct (H2 _ _ _ Hg Hin) as (e & He & Ee).
    exists e. split; [|done]. rewrite Hn, He. subst g. by destruct (Z.eqb_spec (nflow e) f).
  - intros g Hg. apply Hidx in Hg as [_ Hg]. by apply (H3 g).
  - by rewrite Hn, H4.
Qed.

Lemma name_run_ok ops : names_ok (name_run ops).
Proof.
  unfold name_run. induction ops as [|o ops IH] using rev_ind.
  - constructor; simpl; intros *; rewrite ?lookup_empty; done.
  - rewrite fold_left_app. simpl. destruct o; simpl.
    + by apply register_names_ok.
    + by apply unregister_names_ok.
    + by apply unregister_flow_names_ok.
Qed.

(** C39: names. After any sequence of registrations and removals: registering a
    non-empty name that is free makes it resolve to the given capability and flow and
    changes no other name; a name in use keeps its registration, whoever asks; a
    removal frees exactly that name; and when a flow exits exactly the names that point
    at it are freed, so no name outlives its flow. *)
Theorem names_exact ops n c (f : Z) m :
  let r := name_run ops in
  (match fst (Registry.register n c f r) with
   | Ok _ => n <> [] /\ Registry.whereis n r = None /\
       let r' := snd (Registry.register n c f r) in
       Registry.whereis n r' = Some c /\ Registry.target n r' = Some f /\
       (m <> n -> Registry.whereis m r' = Registry.whereis m r)
   | Err e => snd (Registry.register n c f r) = r /\
       ((e = EmptyName /\ n = []) \/
        (e = AlreadyRegistered /\ exists c', Registry.whereis n r = Some c'))
   end) /\
  (let (b, r') := Registry.unregister n r in
   b = is_ok (match Registry.whereis n r with Some c => Ok c | None => Err tt end) /\
   Registry.whereis n r' = None /\
   (m <> n -> Registry.whereis m r' = Registry.whereis m r)) /\
  Registry.target m (Registry.unregister_flow f r) <> Some f /\
  (Registry.target m r <> Some f ->
    Registry.whereis m (Registry.unregister_flow f r) = Registry.whereis m r).
Proof.
  intros r. pose proof (name_run_ok ops) as Hok. fold r in Hok.
  unfold Registry.whereis, Registry.target. split_and!.
  - unfold Registry.register. destruct n as [|b n']; [split; [done|by left]|]. set (n := b :: n').
    destruct (Registry.by_name r !! n) as [e|] eqn:En; simpl.
    + split; [done|]. right. split; [done|]. by eexists.
    + split_and!; [done..| | |]; rewrite ?lookup_insert_eq; try done.
      intros Hne. by rewrite lookup_insert_ne.
  - unfold Registry.unregister. destruct (Registry.by_name r !! n) as [e|] eqn:En.
    + destruct (Registry.by_flow r !! nflow e); simpl; (split_and!; [done| |]);
        rewrite ?lookup_delete_eq; try done; intros Hne; by rewrite lookup_delete_ne.
    + by rewrite En.
  - rewrite unregister_flow_names by done.
    destruct (Registry.by_name r !! m) as [e|]; [|done].
    destruct (Z.eqb_spec (nflow e) f); simpl; congruence.
  - intros Hf. rewrite unregister_flow_names by done.
    destruct (Registry.by_name r !! m) as [e|]; [|done]. simpl in Hf.
    destruct (Z.eqb_spec (nflow e) f); [congruence|done].
Qed.

(** ** Askers *)

Import AskWaitIndex.

(** An asker waits for at most one target, and the three maps agree. *)
Record asks_ok (g : inner) : Prop := {
  ask_indexed : forall a t, by_asker g !! a = Some t <->
    exists s, by_target g !! t = Some s /\ a ∈ s;
  ask_ids : forall a, is_Some (by_asker g !! a) <-> is_Some (request_ids g !! a);
  ask_nonempty : forall t, by_target g !! t <> Some ∅ }.

Inductive ask_op :=
| DoInsert (a t rid : Z)
| DoRemoveAsker (a : Z)
| DoTake (t : Z).

Definition ask_exec (o : ask_op) (g : inner) : inner :=
  match o with
  | DoInsert a t rid => snd (insert_inner a t rid g)
  | DoRemoveAsker a => snd (remove_inner a g)
  | DoTake t => snd (take_inner t g)
  end.

Definition ask_run (ops : list ask_op) : inner :=
  fold_left (fun g o => ask_exec o g) ops (AskWaitIndex.mk ∅ ∅ ∅).

Lemma ask_not_waiting a g : asks_ok g -> request_ids g !! a = None -> by_asker g !! a = None.
Proof.
  intros [_ H2 _] Ha. apply eq_None_not_Some. rewrite H2, Ha. by intros [? ?].
Qed.

Lemma insert_asks_ok a t rid g : asks_ok g -> asks_ok (snd (insert_inner a t rid g)).
Proof.
  intros Hok. unfold insert_inner. destruct (request_ids g !! a) eqn:Ea; [done|].
  pose proof (ask_not_waiting _ _ Hok Ea) as Hn. destruct Hok as [H1 H2 H3].
  constructor; simpl.
  - intros b u. destruct (decide (b = a)) as [->|Hb].
    + rewrite lookup_insert_eq. split.
      * intros [= <-]. eexists. rewrite lookup_insert_eq. split; [done|]. set_solver.
      * intros (s & Hs & Hin). apply lookup_insert_Some in Hs as [[<- _]|[_ Hs]]; [done|].
        assert (by_asker g !! a = Some u) by (apply H1; by exists s). congruence.
    + rewrite lookup_insert_ne, H1 by done. destruct (decide (u = t)) as [->|Hu].
      * rewrite lookup_insert_eq. split.
        -- intros (s & -> & Hin). eexists. split; [done|]. set_solver.
        -- intros (s & [= <-] & Hin). destruct (by_target g !! t) as [s|]; simpl in *; [|set_solver].
           exists s. split; [done|]. set_solver.
      * by rewrite lookup_insert_ne.
  - intros b. destruct (decide (b = a)) as [->|Hb].
    + rewrite !lookup_insert_eq. by split; eexists.
    + by rewrite !lookup_insert_ne.
  - intros u. rewrite lookup_insert_Some. intros [[_ E]|[_ E]]; [|by apply (H3 u)].
    assert (a ∈ (∅ : gset Z)) as Hin by (rewrite <- E; set_solver). by apply not_elem_of_empty in Hin.
Qed.

(** What removing an asker leaves of the index of targets. *)
Lemma remove_by_target (a t : Z) (y : gset Z) g (u : Z) (x : gset Z) :
  by_asker g !! a = Some t -> by_target g !! t = Some y ->
  by_target (snd (remove_inner a g)) !! u = Some x <->
  (u = t /\ x = y ∖ {[a]} /\ x <> ∅) \/ (u <> t /\ by_target g !! u = Some x).
Proof.
  intros Ha Ht. unfold remove_inner. rewrite Ha. simpl. rewrite Ht.
  case_decide as Hd.
  - rewrite lookup_delete_Some. split.
    + intros [Hne Hu]. right. by split; [intros ->|].
    + intros [(_ & -> & Hx)|[Hne Hu]]; [done|]. by split; [intros ->|].
  - rewrite lookup_insert_Some. split.
    + intros [[<- <-]|[Hne Hu]]; [by left|right]. by split; [intros ->|].
    + intros [(-> & -> & Hx)|[Hne Hu]]; [by left|right]. by split; [intros ->|].
Qed.

Lemma remove_asks_ok (a : Z) g : asks_ok g -> asks_ok (snd (remove_inner a g)).
Proof.
  intros Hok. destruct (by_asker g !! a) as [t|] eqn:Ea.
  - pose proof Hok as [H1 H2 H3]. pose proof (proj1 (H1 a t) Ea) as (y & Hy & Hay).
    pose proof (fun u x => remove_by_target a t y g u x Ea Hy) as Hb.
    assert (Hk : forall b, by_asker (snd (remove_inner a g)) !! b =
      if decide (b = a) then None else by_asker g !! b).
    { intros b. unfold remove_inner. rewrite Ea. simpl. case_decide as E;
        [subst; by rewrite lookup_delete_eq|by rewrite lookup_delete_ne]. }
    constructor.
    + intros b u. rewrite Hk. split.
      * case_decide as Hba; [done|]. intros (s & Hs & Hin)%H1.
        destruct (decide (u = t)) as [->|Hut].
        -- assert (s = y) as -> by congruence. exists (y ∖ {[a]}). split; [|set_solver].
           apply Hb. left. split_and!; [done..|]. intros E.
           assert (b ∈ y ∖ {[a]}) as Hc by set_solver. rewrite E in Hc. set_solver.
        -- exists s. split; [|done]. apply Hb. by right.
      * intros (s & Hs & Hin). apply Hb in Hs as [(-> & -> & _)|[Hut Hs]].
        -- rewrite decide_False by set_solver. apply H1. exists y. split; [done|set_solver].
        -- assert (by_asker g !! b = Some u) as Hbu by (apply H1; by exists s).
           rewrite decide_False; [done|]. intros ->. congruence.
    + intros b. rewrite Hk. unfold remove_inner. rewrite Ea. simpl.
      case_decide as E; [subst; rewrite lookup_delete_eq; by split; intros [? ?]|].
      by rewrite lookup_delete_ne.
    + intros u Hu. apply Hb in Hu as [(_ & _ & Hu)|[_ Hu]]; [done|by apply (H3 u)].
  - destruct Hok as [H1 H2 H3]. unfold remove_inner. rewrite Ea. constructor; simpl; [done| |done].
    intros b. destruct (decide (b = a)) as [->|Hba].
    + rewrite lookup_delete_eq, Ea. by split; intros [? ?].
    + by rewrite lookup_delete_ne.
Qed.

Lemma take_asks_ok (t : Z) g : asks_ok g -> asks_ok (snd (take_inner t g)).
Proof.
  intros Hok. unfold take_inner. destruct (by_target g !! t) as [s|] eqn:Et; [|done].
  destruct Hok as [H1 H2 H3].
  assert (Hin : forall a, a ∈ elements s <-> by_asker g !! a = Some t).
  { intros a. rewrite elem_of_elements, H1. split; [by exists s|]. intros (s' & Hs' & ?).
    congruence. }
  constructor; simpl.
  - intros a u. rewrite lookup_delete_all. split.
    + case_decide as Ha; [done|]. intros Hu. pose proof (proj1 (H1 a u) Hu) as (s' & Hs' & ?).
      exists s'. split; [|done]. rewrite lookup_delete_ne; [done|].
      intros <-. apply Ha, Hin. done.
    + intros (s' & [Hne Hs']%lookup_delete_Some & Ha).
      assert (by_asker g !! a = Some u) as Hu by (apply H1; by exists s').
      rewrite decide_False; [done|]. rewrite Hin. congruence.
  - intros a. rewrite !lookup_delete_all. case_decide; [by split; intros [? ?]|apply H2].
  - intros u [_ Hu]%lookup_delete_Some. by apply (H3 u).
Qed.

Lemma ask_run_ok ops : asks_ok (ask_run ops).
Proof.
  unfold ask_run. induction ops as [|o ops IH] using rev_ind.
  - constructor; simpl.
    + intros a t. rewrite lookup_empty. split; [done|]. intros (s & Hs & _).
      by rewrite lookup_empty in Hs.
    + intros a. by rewrite !lookup_empty.
    + intros t. by rewrite lookup_empty.
  - rewrite fold_left_app. simpl. destruct o; simpl.
    + by apply insert_asks_ok.
    + by apply remove_asks_ok.
    + by apply take_asks_ok.
Qed.

(** No asker is orphaned. After any sequence of index operations: a second request
    of a flow that still waits is refused and changes nothing; an accepted one makes it
    wait for its target; when a target exits exactly the flows that wait for it are
    answered, each once, none of them waits any more and every other flow waits as
    before. *)
Lemma asks_exact ops (a t rid b : Z) :
  let g := ask_run ops in
  (match fst (insert_inner a t rid g) with
   | Ok _ => by_asker g !! a = None /\
       forall x, by_asker (snd (insert_inner a t rid g)) !! x =
         if decide (x = a) then Some t else by_asker g !! x
   | Err _ => is_Some (by_asker g !! a) /\ snd (insert_inner a t rid g) = g
   end) /\
  NoDup (fst (take_inner t g)) /\
  (b ∈ fst (take_inner t g) <-> by_asker g !! b = Some t) /\
  by_asker (snd (take_inner t g)) !! b =
    (if decide (by_asker g !! b = Some t) then None else by_asker g !! b).
Proof.
  intros g. pose proof (ask_run_ok ops) as Hok. fold g in Hok. pose proof Hok as [H1 H2 H3].
  split.
  - unfold insert_inner. destruct (request_ids g !! a) eqn:Ea; simpl.
    + split; [|done]. apply H2. by rewrite Ea.
    + split; [by apply ask_not_waiting|]. intros x. case_decide as E;
        [subst; by rewrite lookup_insert_eq|by rewrite lookup_insert_ne].
  - assert (Hin : forall s, by_target g !! t = Some s ->
      forall x, x ∈ elements s <-> by_asker g !! x = Some t).
    { intros s Hs x. rewrite elem_of_elements, H1. split; [by exists s|].
      intros (s' & Hs' & ?). congruence. }
    unfold take_inner. destruct (by_target g !! t) as [s|] eqn:Et; simpl.
    + specialize (Hin s eq_refl). split_and!; [apply NoDup_elements|apply Hin|].
      rewrite lookup_delete_all. repeat case_decide; try done; exfalso; naive_solver.
    + assert (by_asker g !! b <> Some t) as Hn by (intros (s & Hs & _)%H1; congruence).
      split_and!; [constructor| |by rewrite decide_False].
      split; [by intros ?%elem_of_nil|done].
Qed.

(** ** Witnesses *)

