(* ===== verification/Mailbox.v ===== *)
(** Mailboxes: selective waits, the bounded hop queue with its byte budget, the
    parked receiver and the parked senders.  Models scheduler/mailbox/. *)

From S2P Require Import Prelude Values Sync Process.

(** ** Selective waits *)

Module WaitFilter.

(** [scheduler/mailbox/mod.rs] [WaitFilter] *)
Inductive t :=
| Any
| Tag (expected_tag : Z)
| Correlation (expect_request_id : Z) (expect_sender : option Z)
| TaggedCorrelation (tg expect_request_id : Z).

#[global] Instance eq_dec : EqDecision t.
Proof. solve_decision. Defined.

(** [scheduler/mailbox/mod.rs] [WaitFilter::matches] *)
Definition matches (f : t) (value : Value.t) : bool :=
  match f with
  | Any => true
  | Tag expected_tag =>
    match Value.as_message value with
    | Some m => tag m =? expected_tag
    | None => false
    end
  | Correlation expect_request_id expect_sender =>
    match Value.as_message value with
    | Some m =>
      let id_ok := request_id m =? expect_request_id in
      let sender_ok := match expect_sender with
                       | Some s => sender m =? s
                       | None => true
                       end in
      id_ok && sender_ok
    | None => false
    end
  | TaggedCorrelation tg expect_request_id =>
    match Value.as_message value with
    | Some m => (tag m =? tg) && (request_id m =? expect_request_id)
    | None => false
    end
  end.

End WaitFilter.

(** ** Configuration *)

(** [scheduler/mailbox/policy.rs] [OverflowPolicy] *)
Inductive OverflowPolicy := Reject | DropNewest | DropOldest.

Module MailboxCapacity.

(** [scheduler/mailbox/capacity.rs] [MailboxCapacity] *)
Definition t : Type := Z.

(** [scheduler/mailbox/capacity.rs:18-21] [MailboxCapacity::MIN .. DEFAULT] *)
Definition MIN : Z := 1.
Definition MAX : Z := Z.shiftl 1 20.
Definition DEFAULT : t := 256.

(** [scheduler/mailbox/capacity.rs] [MailboxCapacity::new] *)
Definition new (value : Z) : option t :=
  if (value <? MIN) || (MAX <? value) then None else Some value.

(** [scheduler/mailbox/capacity.rs:32-40] [MailboxCapacity::get, get_u32] *)
Definition get (c : t) : Z := c.

End MailboxCapacity.

Module MailboxBytes.

(** [scheduler/mailbox/capacity.rs] [MailboxBytes] *)
Definition t : Type := Z.

(** [scheduler/mailbox/capacity.rs:80-85] [MailboxBytes::MIN .. DEFAULT] *)
Definition MIN : Z := Z.shiftl 1 10.
Definition MAX : Z := Z.shiftl 1 30.
Definition DEFAULT : t := Z.shiftl 1 22.

(** [scheduler/mailbox/capacity.rs] [MailboxBytes::new] *)
Definition new (value : Z) : option t :=
  if (value <? MIN) || (MAX <? value) then None else Some value.

(** [scheduler/mailbox/capacity.rs] [MailboxBytes::get] *)
Definition get (c : t) : Z := c.

End MailboxBytes.

Module MailboxConfig.

(** [scheduler/mailbox/policy.rs] [MailboxConfig] *)
Record t := mk {
  capacity : MailboxCapacity.t;
  bytes : MailboxBytes.t;
  overflow : OverflowPolicy }.

(** [scheduler/mailbox/policy.rs] [MailboxConfig::DEFAULT] *)
Definition DEFAULT : t := mk MailboxCapacity.DEFAULT MailboxBytes.DEFAULT Reject.

(** [scheduler/mailbox/policy.rs] [MailboxConfig::new] *)
Definition new (capacity : MailboxCapacity.t) (overflow : OverflowPolicy) : t :=
  mk capacity MailboxBytes.DEFAULT overflow.

(** [scheduler/mailbox/policy.rs] [MailboxConfig::with_bytes] *)
Definition with_bytes (c : t) (bytes : MailboxBytes.t) : t :=
  mk (capacity c) bytes (overflow c).

End MailboxConfig.

(** [scheduler/mailbox/mod.rs] [MailboxFullReason] *)
Inductive MailboxFullReason := MessageLimit | ByteLimit.
#[export] Instance full_reason_eq_dec : EqDecision MailboxFullReason.
Proof. solve_decision. Defined.

(** [scheduler/mailbox/queue.rs] [EnqueueEffect] *)
Inductive EnqueueEffect := Enqueued | DroppedNewestHop | DroppedOldestHop.

(** ** The queue *)

(** The allocator behind [VecDeque::reserve]: the capacity it grows to from
    [current] when [needed] slots are asked for, at least those. *)
Class Allocator := {
  grow : Z -> Z -> Z;
  grow_enough current needed : needed <= grow current needed }.

(** Amortised growth, as [alloc]'s [RawVec] does it. *)
#[global] Instance raw_vec : Allocator | 100.
Proof.
  refine {| grow := fun current needed => Z.max (Z.max (2 * current) needed) 4 |}.
  intros. lia.
Defined.

Module VecDeque.

(** A [VecDeque<Value>]: its elements, front first, and its physical capacity. *)
Record t := mk { items : list Value.t; cap : Z }.

Definition new : t := mk [] 0.
Definition len (d : t) : Z := Z.of_nat (length (items d)).

Definition reserve `{Allocator} (d : t) (additional : Z) : t :=
  let needed := len d + additional in
  if cap d <? needed then mk (items d) (grow (cap d) needed) else d.

Definition push_back `{Allocator} (d : t) (v : Value.t) : t :=
  let c := if len d =? cap d then grow (cap d) (len d + 1) else cap d in
  mk (items d ++ [v]) c.

Definition pop_front (d : t) : option Value.t * t :=
  match items d with
  | [] => (None, d)
  | v :: rest => (Some v, mk rest (cap d))
  end.

Definition remove (d : t) (i : nat) : option Value.t * t :=
  match items d !! i with
  | None => (None, d)
  | Some v => (Some v, mk (delete i (items d)) (cap d))
  end.

End VecDeque.

(** [scheduler/mailbox/queue.rs] [reserve_for_push] *)
Definition reserve_for_push `{Allocator} (queue : VecDeque.t) (capacity : Z)
  : bool * VecDeque.t :=
  if VecDeque.len queue <? VecDeque.cap queue then (true, queue)
  else
    let current := VecDeque.cap queue in
    let next := Z.min (Z.min (Z.max current 1 * 2) usize_max) capacity in
    if next <=? current then (VecDeque.len queue <? capacity, queue)
    else (true, VecDeque.reserve queue (next - current)).

Module MailboxQueue.

(** [scheduler/mailbox/queue.rs] [MailboxQueue] *)
Record t := mk {
  inner : VecDeque.t;
  limit : Z;
  bytes : Z;
  byte_limit : Z }.

Definition with_inner (q : t) (d : VecDeque.t) : t := mk d (limit q) (bytes q) (byte_limit q).
Definition with_bytes (q : t) (b : Z) : t := mk (inner q) (limit q) b (byte_limit q).

(** The queued hops, front first. *)
Definition hops (q : t) : list Value.t := VecDeque.items (inner q).

Section queue.
Context `{ValueLayout, Allocator}.

(** [scheduler/mailbox/queue.rs] [MailboxQueue::new] *)
Definition new (limit byte_limit : Z) : t := mk VecDeque.new limit 0 byte_limit.

(** [scheduler/mailbox/queue.rs] [MailboxQueue::len] *)
Definition len (q : t) : Z := VecDeque.len (inner q).

(** [scheduler/mailbox/queue.rs] [MailboxQueue::is_full] *)
Definition is_full (q : t) : bool := limit q <=? len q.

(** [scheduler/mailbox/queue.rs] [MailboxQueue::would_exceed_bytes] *)
Definition would_exceed_bytes (q : t) (cost : Z) : bool :=
  byte_limit q <? sat_add_u64 (bytes q) cost.

(** [scheduler/mailbox/queue.rs] [MailboxQueue::take] *)
Definition take (q : t) (filter : WaitFilter.t) : option Value.t * t :=
  let (value, d) :=
    match filter with
    | WaitFilter.Any => VecDeque.pop_front (inner q)
    | other =>
      match position (WaitFilter.matches other) (hops q) with
      | None => (None, inner q)
      | Some idx => VecDeque.remove (inner q) idx
      end
    end in
  let q' := with_inner q d in
  match value with
  | Some v => (value, with_bytes q' (sat_sub_u64 (bytes q') (Value.memory_size v)))
  | None => (value, q')
  end.

(** [scheduler/mailbox/queue.rs:123-129] [MailboxQueue::enqueue]: the eviction loop of
    [DropOldest], one iteration per element of [items]. *)
Fixpoint evict (cost : Z) (items : list Value.t) (q : t) (dropped : bool) : bool * t :=
  match items with
  | [] => (dropped, q)
  | _ :: rest =>
    if is_full q || would_exceed_bytes q cost then
      match VecDeque.pop_front (inner q) with
      | (Some old, d) =>
        evict cost rest
          (with_bytes (with_inner q d) (sat_sub_u64 (bytes q) (Value.memory_size old))) true
      | (None, _) => (dropped, q)
      end
    else (dropped, q)
  end.

(** [self.bytes += cost; self.inner.push_back(value)]. *)
Definition charge_and_push (q : t) (cost : Z) (value : Value.t) : t :=
  with_inner (with_bytes q (sat_add_u64 (bytes q) cost)) (VecDeque.push_back (inner q) value).

(** [scheduler/mailbox/queue.rs] [MailboxQueue::enqueue] *)
Definition enqueue (q : t) (value : Value.t) (policy : OverflowPolicy)
  : result EnqueueEffect MailboxFullReason * t :=
  let cost := Value.memory_size value in
  if negb (is_full q) && negb (would_exceed_bytes q cost) then
    let (ok, d) := reserve_for_push (inner q) (limit q) in
    if negb ok then (Err MessageLimit, with_inner q d)
    else (Ok Enqueued, charge_and_push (with_inner q d) cost value)
  else
    let reason := if is_full q then MessageLimit else ByteLimit in
    match policy with
    | Reject => (Err reason, q)
    | DropNewest => (Ok DroppedNewestHop, q)
    | DropOldest =>
      let (dropped, q') := evict cost (hops q) q false in
      if would_exceed_bytes q' cost then (Err ByteLimit, q')
      else (Ok (if dropped then DroppedOldestHop else Enqueued), charge_and_push q' cost value)
    end.

(** [scheduler/mailbox/queue.rs] [MailboxQueue::force_push] *)
Definition force_push (q : t) (value : Value.t) : t :=
  let cost := Value.memory_size value in
  let cap := Z.max (limit q) (sat_add_u64 (len q) 1) in
  let (_, d) := reserve_for_push (inner q) cap in
  charge_and_push (with_inner q d) cost value.

End queue.
End MailboxQueue.

(** ** The mailbox *)

Module MailboxStats.

(** [scheduler/mailbox/metrics.rs] [MailboxStats] *)
Record t := mk {
  enqueued : Z;
  dequeued : Z;
  rejected : Z;
  rejected_byte_limit : Z;
  dropped_newest : Z;
  dropped_oldest : Z;
  queued_messages : Z;
  queued_bytes : Z }.

Definition default : t := mk 0 0 0 0 0 0 0 0.

Definition inc_enqueued (s : t) : t :=
  mk (sat_add_u64 (enqueued s) 1) (dequeued s) (rejected s) (rejected_byte_limit s)
    (dropped_newest s) (dropped_oldest s) (queued_messages s) (queued_bytes s).
Definition inc_dequeued (s : t) : t :=
  mk (enqueued s) (sat_add_u64 (dequeued s) 1) (rejected s) (rejected_byte_limit s)
    (dropped_newest s) (dropped_oldest s) (queued_messages s) (queued_bytes s).
Definition inc_rejected (s : t) : t :=
  mk (enqueued s) (dequeued s) (sat_add_u64 (rejected s) 1) (rejected_byte_limit s)
    (dropped_newest s) (dropped_oldest s) (queued_messages s) (queued_bytes s).
Definition inc_rejected_byte_limit (s : t) : t :=
  mk (enqueued s) (dequeued s) (rejected s) (sat_add_u64 (rejected_byte_limit s) 1)
    (dropped_newest s) (dropped_oldest s) (queued_messages s) (queued_bytes s).
Definition inc_dropped_newest (s : t) : t :=
  mk (enqueued s) (dequeued s) (rejected s) (rejected_byte_limit s)
    (sat_add_u64 (dropped_newest s) 1) (dropped_oldest s) (queued_messages s) (queued_bytes s).
Definition inc_dropped_oldest (s : t) : t :=
  mk (enqueued s) (dequeued s) (rejected s) (rejected_byte_limit s)
    (dropped_newest s) (sat_add_u64 (dropped_oldest s) 1) (queued_messages s) (queued_bytes s).
Definition with_occupancy (s : t) (hops bytes : Z) : t :=
  mk (enqueued s) (dequeued s) (rejected s) (rejected_byte_limit s)
    (dropped_newest s) (dropped_oldest s) hops bytes.

End MailboxStats.

(** [scheduler/mailbox/mod.rs] [WaitingSender] *)
Record WaitingSender (H : Type) := mk_waiting { wflow : Flow.t H; wmessage : Value.t }.
Arguments mk_waiting {H} _ _.
Arguments wflow {H} _.
Arguments wmessage {H} _.

(** [scheduler/mailbox/mod.rs] [Delivery] *)
Inductive Delivery (H : Type) :=
| Queued
| QueuedDropOldest
| HopDropped
| Handoff (flow : Flow.t H).
Arguments Queued {H}.
Arguments QueuedDropOldest {H}.
Arguments HopDropped {H}.
Arguments Handoff {H} flow.

(** [scheduler/mailbox/mod.rs] [ParkSender] *)
Inductive ParkSender (H : Type) :=
| Parked
| Closed (flow : Flow.t H).
Arguments Parked {H}.
Arguments Closed {H} flow.

(** [scheduler/mailbox/mod.rs] [MailboxFull] *)
Record MailboxFull := mk_full { reason : MailboxFullReason }.

(** [scheduler/mailbox/mod.rs] [WaitEpoch] *)
Definition WaitEpoch : Type := Z.

Module MailboxInner.

(** [scheduler/mailbox/mod.rs] [MailboxInner] *)
Record t (H : Type) := mk {
  queue : MailboxQueue.t;
  parked : option (Flow.t H);
  parked_filter : WaitFilter.t;
  wait_epoch : Z;
  stats : MailboxStats.t;
  waiting_senders : list (WaitingSender H);
  closed : bool }.
Arguments mk {H} _ _ _ _ _ _ _.
Arguments queue {H} _.
Arguments parked {H} _.
Arguments parked_filter {H} _.
Arguments wait_epoch {H} _.
Arguments stats {H} _.
Arguments waiting_senders {H} _.
Arguments closed {H} _.

Section updates.
Context {H : Type}.
Implicit Type i : t H.
Definition with_queue i q : t H :=
  mk q (parked i) (parked_filter i) (wait_epoch i) (stats i) (waiting_senders i) (closed i).
Definition with_parked i p : t H :=
  mk (queue i) p (parked_filter i) (wait_epoch i) (stats i) (waiting_senders i) (closed i).
Definition with_filter i f : t H :=
  mk (queue i) (parked i) f (wait_epoch i) (stats i) (waiting_senders i) (closed i).
Definition with_epoch i e : t H :=
  mk (queue i) (parked i) (parked_filter i) e (stats i) (waiting_senders i) (closed i).
Definition with_stats i s : t H :=
  mk (queue i) (parked i) (parked_filter i) (wait_epoch i) s (waiting_senders i) (closed i).
Definition with_waiting i w : t H :=
  mk (queue i) (parked i) (parked_filter i) (wait_epoch i) (stats i) w (closed i).
Definition with_closed i c : t H :=
  mk (queue i) (parked i) (parked_filter i) (wait_epoch i) (stats i) (waiting_senders i) c.
End updates.

End MailboxInner.
Import MailboxInner.

Module Mailbox.

(** [scheduler/mailbox/mod.rs] [Mailbox] *)
Record t (H : Type) := mk { inner : mutex (MailboxInner.t H); config : MailboxConfig.t }.
Arguments mk {H} _ _.
Arguments inner {H} _.
Arguments config {H} _.

Section mailbox.
Context {H : Type} `{ValueLayout, Allocator}.
Implicit Types (i : MailboxInner.t H) (mb : t H).

(** [scheduler/mailbox/mod.rs] [Mailbox::with_config] *)
Definition with_config (c : MailboxConfig.t) : t H :=
  mk (mutex_new
        (MailboxInner.mk
           (MailboxQueue.new (MailboxCapacity.get (MailboxConfig.capacity c))
              (MailboxBytes.get (MailboxConfig.bytes c)))
           None WaitFilter.Any 0 MailboxStats.default [] false)) c.

(** [scheduler/mailbox/mod.rs] [Mailbox::new] *)
Definition new : t H := with_config MailboxConfig.DEFAULT.

(** One critical section of a method, under its name. *)
Definition locked {B} mb (where_ : string) (f : MailboxInner.t H -> B * MailboxInner.t H)
  : result B RuntimeError * t H :=
  let (r, m) := with_lock (inner mb) where_ f in (r, mk m (config mb)).

(** [scheduler/mailbox/mod.rs] [Mailbox::stats] *)
Definition stats_locked i : MailboxStats.t * MailboxInner.t H :=
  (MailboxStats.with_occupancy (stats i) (MailboxQueue.len (queue i))
     (MailboxQueue.bytes (queue i)), i).
Definition stats mb := locked mb "Mailbox::stats" stats_locked.

(** [scheduler/mailbox/mod.rs] [enqueue_locked] *)
Definition enqueue_locked (policy : OverflowPolicy) (value : Value.t) i
  : result (Delivery H) MailboxFull * MailboxInner.t H :=
  let (r, q) := MailboxQueue.enqueue (queue i) value policy in
  let i := with_queue i q in
  let s := MailboxInner.stats i in
  match r with
  | Ok Enqueued => (Ok Queued, with_stats i (MailboxStats.inc_enqueued s))
  | Ok DroppedOldestHop =>
    (Ok QueuedDropOldest,
     with_stats i (MailboxStats.inc_enqueued (MailboxStats.inc_dropped_oldest s)))
  | Ok DroppedNewestHop => (Ok HopDropped, with_stats i (MailboxStats.inc_dropped_newest s))
  | Err reason =>
    let s := MailboxStats.inc_rejected s in
    let s := match reason with
             | ByteLimit => MailboxStats.inc_rejected_byte_limit s
             | MessageLimit => s
             end in
    (Err (mk_full reason), with_stats i s)
  end.

(** The hop goes to the parked flow: [push] and [push_system]. *)
Definition hand_off i : MailboxInner.t H :=
  let i := with_filter i WaitFilter.Any in
  with_stats i (MailboxStats.inc_enqueued (MailboxStats.inc_dequeued (MailboxInner.stats i))).

(** [scheduler/mailbox/mod.rs] [Mailbox::push] *)
Definition push_locked (policy : OverflowPolicy) (value : Value.t) i
  : result (Delivery H) MailboxFull * MailboxInner.t H :=
  match parked i with
  | Some flow =>
    let i := with_parked i None in
    if WaitFilter.matches (parked_filter i) value then (Ok (Handoff flow), hand_off i)
    else enqueue_locked policy value (with_parked i (Some flow))
  | None => enqueue_locked policy value i
  end.
Definition push mb (value : Value.t) :=
  locked mb "Mailbox::push" (push_locked (MailboxConfig.overflow (config mb)) value).

(** [scheduler/mailbox/mod.rs] [Mailbox::try_pop_filter] *)
Definition try_pop_locked (filter : WaitFilter.t) i : option Value.t * MailboxInner.t H :=
  let (got, q) := MailboxQueue.take (queue i) filter in
  let i := with_queue i q in
  match got with
  | Some _ => (got, with_stats i (MailboxStats.inc_dequeued (MailboxInner.stats i)))
  | None => (got, i)
  end.
Definition try_pop_filter mb (filter : WaitFilter.t) :=
  locked mb "Mailbox::try_pop_filter" (try_pop_locked filter).

(** [scheduler/mailbox/mod.rs] [Mailbox::try_pop] *)
Definition try_pop mb := try_pop_filter mb WaitFilter.Any.

(** [scheduler/mailbox/mod.rs] [Mailbox::try_pop_match] *)
Definition try_pop_match mb (tag : Z) := try_pop_filter mb (WaitFilter.Tag tag).

(** [scheduler/mailbox/mod.rs] [with_pending] *)
Definition with_pending (flow : Flow.t H) (value : Value.t) : Flow.t H :=
  Flow.with_pending_message flow (Some value).

(** [scheduler/mailbox/mod.rs] [Mailbox::park_filter] *)
Definition park_locked (flow : Flow.t H) (filter : WaitFilter.t) i
  : result WaitEpoch (Flow.t H) * MailboxInner.t H :=
  let (got, q) := MailboxQueue.take (queue i) filter in
  let i := with_queue i q in
  match got with
  | Some value =>
    (Err (with_pending flow value),
     with_stats i (MailboxStats.inc_dequeued (MailboxInner.stats i)))
  | None =>
    let epoch := wrap_u 64 (wait_epoch i + 1) in
    (Ok epoch, with_parked (with_filter (with_epoch i epoch) filter) (Some flow))
  end.
Definition park_filter mb (flow : Flow.t H) (filter : WaitFilter.t) :=
  locked mb "Mailbox::park_filter" (park_locked flow filter).

(** [scheduler/mailbox/mod.rs] [Mailbox::park] *)
Definition park mb flow := park_filter mb flow WaitFilter.Any.

(** [scheduler/mailbox/mod.rs] [Mailbox::park_match] *)
Definition park_match mb flow (tag : Z) := park_filter mb flow (WaitFilter.Tag tag).

(** [scheduler/mailbox/mod.rs] [Mailbox::take_parked_at] *)
Definition take_at_locked (e : WaitEpoch) i : option (Flow.t H) * MailboxInner.t H :=
  if negb (wait_epoch i =? e) then (None, i)
  else
    match parked i with
    | Some flow => (Some flow, with_filter (with_parked i None) WaitFilter.Any)
    | None => (None, i)
    end.
Definition take_parked_at mb (e : WaitEpoch) :=
  locked mb "Mailbox::take_parked_at" (take_at_locked e).

(** [scheduler/mailbox/mod.rs] [Mailbox::take_parked] *)
Definition take_locked i : option (Flow.t H) * MailboxInner.t H :=
  let i := with_filter i WaitFilter.Any in
  (parked i, with_parked i None).
Definition take_parked mb := locked mb "Mailbox::take_parked" take_locked.

(** [scheduler/mailbox/mod.rs] [Mailbox::push_system] *)
Definition push_system_locked (value : Value.t) i : Delivery H * MailboxInner.t H :=
  let queue_it i :=
    let i := with_queue i (MailboxQueue.force_push (queue i) value) in
    (Queued, with_stats i (MailboxStats.inc_enqueued (MailboxInner.stats i))) in
  match parked i with
  | Some flow =>
    let i := with_parked i None in
    if WaitFilter.matches (parked_filter i) value then (Handoff flow, hand_off i)
    else queue_it (with_parked i (Some flow))
  | None => queue_it i
  end.
Definition push_system mb (value : Value.t) :=
  locked mb "Mailbox::push_system" (push_system_locked value).

(** [scheduler/mailbox/mod.rs] [Mailbox::close] *)
Definition close_locked i : list (Flow.t H) * MailboxInner.t H :=
  let i := with_closed i true in
  (map wflow (waiting_senders i), with_waiting i []).
Definition close mb := locked mb "Mailbox::close" close_locked.

(** [scheduler/mailbox/mod.rs] [Mailbox::park_sender]: a poisoned mailbox reports
    the fault and gives the flow back. *)
Definition park_sender_locked (flow : Flow.t H) (message : Value.t) i
  : ParkSender H * MailboxInner.t H :=
  if closed i then (Closed flow, i)
  else (Parked, with_waiting i (waiting_senders i ++ [mk_waiting flow message])).
Definition park_sender mb (flow : Flow.t H) (message : Value.t) : ParkSender H * t H :=
  let (r, mb') := locked mb "Mailbox::park_sender" (park_sender_locked flow message) in
  match r with
  | Ok p => (p, mb')
  | Err _ => (Closed flow, mb')
  end.

(** [scheduler/mailbox/mod.rs] [Mailbox::admit_waiting_sender] *)
Definition admit_locked i : option (Flow.t H) * MailboxInner.t H :=
  if closed i then (None, i)
  else
    match waiting_senders i with
    | [] => (None, i)
    | waiter :: rest =>
      let (r, i') := enqueue_locked Reject (wmessage waiter) (with_waiting i rest) in
      match r with
      | Ok _ => (Some (wflow waiter), i')
      | Err _ => (None, with_waiting i' (waiter :: waiting_senders i'))
      end
    end.
Definition admit_waiting_sender mb := locked mb "Mailbox::admit_waiting_sender" admit_locked.

(** [scheduler/mailbox/mod.rs] [Mailbox::take_waiting_sender] *)
Definition take_waiting_locked (sender : FlowId.t) i : option (Flow.t H) * MailboxInner.t H :=
  match position (fun w => Flow.id (wflow w) =? sender) (waiting_senders i) with
  | Some pos =>
    (wflow <$> waiting_senders i !! pos, with_waiting i (delete pos (waiting_senders i)))
  | None => (None, i)
  end.
Definition take_waiting_sender mb (sender : FlowId.t) :=
  locked mb "Mailbox::take_waiting_sender" (take_waiting_locked sender).

End mailbox.
End Mailbox.
