(* ===== verification/MailboxTheory.v ===== *)
(** Theorems on mailboxes: the queue refines a bounded FIFO whose byte budget is
    recomputed from its hops, no wakeup is lost, no flow is lost, a stale deadline
    takes nobody. *)

From S2P Require Import Prelude Capability F64 Values Isa Sync Quota Native Vm Process Mailbox.

(** ** The abstract queue *)

Section spec.
Context `{ValueLayout}.

(** The bytes charged to a list of hops. *)
Definition charge (l : list Value.t) : Z :=
  foldr (fun v acc => Value.memory_size v + acc) 0 l.

Lemma charge_app l k : charge (l ++ k) = charge l + charge k.
Proof. unfold charge. induction l as [|v l IH]; simpl; [done|lia]. Qed.

Lemma charge_nonneg l : 0 <= charge l.
Proof.
  unfold charge. induction l as [|v l IH]; simpl; [lia|].
  pose proof (memory_size_pos v). lia.
Qed.

Lemma charge_delete l i v :
  l !! i = Some v -> charge (delete i l) = charge l - Value.memory_size v.
Proof.
  revert i. induction l as [|x l IH]; intros [|i]; simpl; [done..| |].
  - intros [= ->]. lia.
  - intros Hi. apply IH in Hi. unfold charge in *. lia.
Qed.

(** One more hop of [cost] bytes keeps both bounds. *)
Definition fits (limit byte_limit cost : Z) (l : list Value.t) : bool :=
  (Z.of_nat (length l) <? limit) && (charge l + cost <=? byte_limit).

(** The longest suffix of the queue that leaves room. *)
Fixpoint make_room (limit byte_limit cost : Z) (l : list Value.t) : list Value.t :=
  match l with
  | [] => []
  | _ :: rest => if fits limit byte_limit cost l then l else make_room limit byte_limit cost rest
  end.

(** What a push into a bounded FIFO does, on the hops alone. *)
Definition spec_enqueue (limit byte_limit : Z) (l : list Value.t) (v : Value.t)
    (policy : OverflowPolicy) : result EnqueueEffect MailboxFullReason * list Value.t :=
  let cost := Value.memory_size v in
  if fits limit byte_limit cost l then (Ok Enqueued, l ++ [v])
  else
    match policy with
    | Reject => (Err (if Z.of_nat (length l) <? limit then ByteLimit else MessageLimit), l)
    | DropNewest => (Ok DroppedNewestHop, l)
    | DropOldest =>
      let l' := make_room limit byte_limit cost l in
      if byte_limit <? cost then (Err ByteLimit, [])
      else (Ok DroppedOldestHop, l' ++ [v])
    end.

(** The first hop a filter accepts, and the queue without it. *)
Definition spec_take (filter : WaitFilter.t) (l : list Value.t) : option Value.t * list Value.t :=
  match position (WaitFilter.matches filter) l with
  | Some i => (l !! i, delete i l)
  | None => (None, l)
  end.

Lemma make_room_suffix limit bl cost l :
  exists k, make_room limit bl cost l = drop k l.
Proof.
  induction l as [|v l [k IH]]; simpl; [by exists 0%nat|].
  destruct (fits _ _ _ _); [by exists 0%nat|]. by exists (S k).
Qed.

Lemma make_room_fits limit bl cost l :
  1 <= limit -> cost <= bl -> fits limit bl cost (make_room limit bl cost l) = true.
Proof.
  intros Hl Hc. induction l as [|v l IH]; cbn [make_room].
  - unfold fits. apply andb_true_iff. simpl. rewrite Z.ltb_lt, Z.leb_le. lia.
  - by destruct (fits _ _ _ (v :: l)) eqn:E.
Qed.

Lemma make_room_oversize limit bl cost l :
  bl < cost -> make_room limit bl cost l = [].
Proof.
  intros Hc. induction l as [|v l IH]; cbn [make_room]; [done|].
  replace (fits _ _ _ (v :: l)) with false; [done|]. symmetry.
  apply andb_false_iff. right. pose proof (charge_nonneg (v :: l)). lia.
Qed.

Lemma spec_take_Some f l v l' :
  spec_take f l = (Some v, l') ->
  exists i, l !! i = Some v /\ WaitFilter.matches f v = true /\ l' = delete i l /\
    (forall j y, (j < i)%nat -> l !! j = Some y -> WaitFilter.matches f y = false).
Proof.
  unfold spec_take. destruct (position _ l) as [i|] eqn:E; [|done].
  destruct (position_Some _ _ _ E) as (x & Hx & Hm & Hb).
  rewrite Hx. intros [= <- <-]. by exists i.
Qed.

Lemma spec_take_None f l l' :
  spec_take f l = (None, l') ->
  l' = l /\ Forall (fun v => WaitFilter.matches f v = false) l.
Proof.
  unfold spec_take. destruct (position _ l) as [i|] eqn:E.
  - destruct (position_Some _ _ _ E) as (x & Hx & _). by rewrite Hx.
  - intros [= <-]. by rewrite <- position_None.
Qed.
End spec.

(** ** The queue implements it *)

Section queue.
Context `{ValueLayout, Allocator}.
Implicit Type q : MailboxQueue.t.

(** The limits are a configuration's, and the running byte count is the charge of
    the queued hops. *)
Definition queue_ok q : Prop :=
  1 <= MailboxQueue.limit q <= MailboxCapacity.MAX /\
  1 <= MailboxQueue.byte_limit q <= MailboxBytes.MAX /\
  MailboxQueue.bytes q = charge (MailboxQueue.hops q) /\
  charge (MailboxQueue.hops q) <= u64_max /\
  0 <= VecDeque.len (MailboxQueue.inner q) <= VecDeque.cap (MailboxQueue.inner q).

(** Both bounds hold. *)
Definition within_bounds q : Prop :=
  MailboxQueue.len q <= MailboxQueue.limit q /\
  MailboxQueue.bytes q <= MailboxQueue.byte_limit q.

Lemma exceed_charge q cost :
  queue_ok q -> 0 <= cost ->
  MailboxQueue.would_exceed_bytes q cost =
  negb (charge (MailboxQueue.hops q) + cost <=? MailboxQueue.byte_limit q).
Proof.
  intros (_ & Hb & Hc & _ & _) Hcost. unfold MailboxQueue.would_exceed_bytes, sat_add_u64.
  rewrite Hc. assert (MailboxBytes.MAX < u64_max) by done. lia.
Qed.

Lemma fits_eq q cost :
  queue_ok q -> 0 <= cost ->
  negb (MailboxQueue.is_full q) && negb (MailboxQueue.would_exceed_bytes q cost) =
  fits (MailboxQueue.limit q) (MailboxQueue.byte_limit q) cost (MailboxQueue.hops q).
Proof.
  intros Hq Hcost. rewrite exceed_charge by done.
  unfold MailboxQueue.is_full, fits, MailboxQueue.len, VecDeque.len.
  fold (MailboxQueue.hops q). lia.
Qed.

(** Below its limit, a queue is never refused its slot, and reserving does not
    touch the hops. *)
Lemma reserve_for_push_ok (d : VecDeque.t) limit :
  VecDeque.len d < limit -> limit <= usize_max -> VecDeque.len d <= VecDeque.cap d ->
  fst (reserve_for_push d limit) = true.
Proof.
  intros Hl Hm Hc. unfold reserve_for_push.
  destruct (Z.ltb_spec (VecDeque.len d) (VecDeque.cap d)); [done|].
  destruct (Z.leb_spec (Z.min (Z.min (Z.max (VecDeque.cap d) 1 * 2) usize_max) limit)
              (VecDeque.cap d)); simpl; [|done].
  apply Z.ltb_lt. done.
Qed.

Lemma reserve_for_push_items (d : VecDeque.t) limit :
  VecDeque.items (snd (reserve_for_push d limit)) = VecDeque.items d.
Proof. unfold reserve_for_push, VecDeque.reserve. by repeat case_match. Qed.

Lemma reserve_for_push_cap (d : VecDeque.t) limit :
  VecDeque.len d <= VecDeque.cap d ->
  VecDeque.len (snd (reserve_for_push d limit)) <=
  VecDeque.cap (snd (reserve_for_push d limit)).
Proof.
  intros Hc. unfold reserve_for_push, VecDeque.reserve.
  repeat case_match; simpl; try done.
  unfold VecDeque.len in *; simpl.
  pose proof (grow_enough (VecDeque.cap d) (Z.of_nat (length (VecDeque.items d)) +
    (Z.min (Z.min (Z.max (VecDeque.cap d) 1 * 2) usize_max) limit - VecDeque.cap d))).
  lia.
Qed.

Lemma push_back_cap (d : VecDeque.t) v :
  VecDeque.len d <= VecDeque.cap d ->
  VecDeque.len (VecDeque.push_back d v) <= VecDeque.cap (VecDeque.push_back d v).
Proof.
  intros Hc. unfold VecDeque.push_back, VecDeque.len in *; simpl.
  rewrite length_app. simpl. pose proof (grow_enough (VecDeque.cap d)
    (Z.of_nat (length (VecDeque.items d)) + 1)).
  case_match; lia.
Qed.

(** Appending a charged hop. *)
Lemma charge_and_push_ok q v :
  queue_ok q -> charge (MailboxQueue.hops q) + Value.memory_size v <= u64_max ->
  queue_ok (MailboxQueue.charge_and_push q (Value.memory_size v) v) /\
  MailboxQueue.hops (MailboxQueue.charge_and_push q (Value.memory_size v) v) =
  MailboxQueue.hops q ++ [v].
Proof.
  intros (Hl & Hb & Hc & _ & Hcap) Hm.
  assert (Hh : MailboxQueue.hops (MailboxQueue.charge_and_push q (Value.memory_size v) v) =
    MailboxQueue.hops q ++ [v]) by done.
  split; [|done]. unfold queue_ok. rewrite Hh, charge_app.
  replace (charge [v]) with (Value.memory_size v) by (unfold charge; simpl; lia).
  cbn [MailboxQueue.limit MailboxQueue.byte_limit MailboxQueue.bytes MailboxQueue.inner
       MailboxQueue.charge_and_push MailboxQueue.with_inner MailboxQueue.with_bytes].
  split_conj. unfold sat_add_u64. split_and!; try done; try lia.
  - unfold VecDeque.len. lia.
  - by apply push_back_cap.
Qed.

Lemma with_reserved_ok q n :
  queue_ok q ->
  queue_ok (MailboxQueue.with_inner q (snd (reserve_for_push (MailboxQueue.inner q) n))) /\
  MailboxQueue.hops
    (MailboxQueue.with_inner q (snd (reserve_for_push (MailboxQueue.inner q) n))) =
  MailboxQueue.hops q.
Proof.
  intros (Hl & Hb & Hc & Hm & Hcap).
  assert (Hh : MailboxQueue.hops
    (MailboxQueue.with_inner q (snd (reserve_for_push (MailboxQueue.inner q) n))) =
    MailboxQueue.hops q) by apply reserve_for_push_items.
  split; [|done]. unfold queue_ok. rewrite Hh. simpl.
  split_and!; try done; try lia.
  - unfold VecDeque.len. lia.
  - apply reserve_for_push_cap. lia.
Qed.

(** Removing hops leaves a queue in order. *)
Lemma shrink_ok q (d : VecDeque.t) b :
  queue_ok q -> VecDeque.cap d = VecDeque.cap (MailboxQueue.inner q) ->
  (length (VecDeque.items d) <= length (MailboxQueue.hops q))%nat ->
  b = charge (VecDeque.items d) -> charge (VecDeque.items d) <= charge (MailboxQueue.hops q) ->
  queue_ok (MailboxQueue.with_bytes (MailboxQueue.with_inner q d) b).
Proof.
  intros (Hl & Hb & Hc & Hm & Hcap) Hd Hlen Hbytes Hch. unfold queue_ok, MailboxQueue.hops in *.
  simpl. rewrite Hd. unfold VecDeque.len in *. split_and!; try done; lia.
Qed.

Lemma take_refines q f :
  queue_ok q ->
  queue_ok (snd (MailboxQueue.take q f)) /\
  (fst (MailboxQueue.take q f), MailboxQueue.hops (snd (MailboxQueue.take q f))) =
  spec_take f (MailboxQueue.hops q).
Proof.
  intros Hq. pose proof Hq as (_ & _ & Hc & Hm & _).
  assert (Hpop : forall i v d, MailboxQueue.hops q !! i = Some v ->
    d = VecDeque.mk (delete i (MailboxQueue.hops q)) (VecDeque.cap (MailboxQueue.inner q)) ->
    queue_ok (MailboxQueue.with_bytes (MailboxQueue.with_inner q d)
      (sat_sub_u64 (MailboxQueue.bytes q) (Value.memory_size v)))).
  { intros i v d Hi ->. pose proof (charge_delete _ _ _ Hi) as Hd.
    pose proof (memory_size_pos v). pose proof (charge_nonneg (delete i (MailboxQueue.hops q))).
    apply shrink_ok; simpl; try done; unfold sat_sub_u64; try lia.
    rewrite length_delete by eauto. lia. }
  unfold MailboxQueue.take, spec_take. destruct f as [|t|r s|t r];
    [|destruct (position _ (MailboxQueue.hops q)) as [i|] eqn:E; [|by split; [destruct q|]];
      destruct (position_Some _ _ _ E) as (v & Hv & _);
      unfold VecDeque.remove; unfold MailboxQueue.hops in *; rewrite Hv; simpl;
      split; [by eapply Hpop|done] ..].
  unfold VecDeque.pop_front. fold (MailboxQueue.hops q).
  destruct (MailboxQueue.hops q) as [|v l] eqn:E; simpl.
  - split; [by destruct q|]. unfold MailboxQueue.hops in *. simpl. by rewrite E.
  - split; [|done]. by apply (Hpop 0%nat v).
Qed.

Lemma evict_refines cost items q d :
  queue_ok q -> 0 <= cost -> MailboxQueue.hops q = items ->
  let r := MailboxQueue.evict cost items q d in
  queue_ok (snd r) /\
  MailboxQueue.limit (snd r) = MailboxQueue.limit q /\
  MailboxQueue.byte_limit (snd r) = MailboxQueue.byte_limit q /\
  MailboxQueue.hops (snd r) =
    make_room (MailboxQueue.limit q) (MailboxQueue.byte_limit q) cost items /\
  fst r = d || negb (Value.is_empty items ||
    fits (MailboxQueue.limit q) (MailboxQueue.byte_limit q) cost items).
Proof.
  revert q d. induction items as [|v l IH]; intros q d Hq Hcost Hl; simpl.
  - rewrite orb_false_r. by split_and!.
  - cbn [make_room]. rewrite <- Hl, <- fits_eq by done.
    destruct (MailboxQueue.is_full q || MailboxQueue.would_exceed_bytes q cost) eqn:E;
      rewrite <- negb_orb, E; simpl; [|by rewrite orb_false_r].
    unfold VecDeque.pop_front. fold (MailboxQueue.hops q). rewrite Hl.
    pose proof Hq as (_ & _ & Hc & _ & _). rewrite Hl in Hc.
    pose proof (charge_nonneg l) as Hn. pose proof (memory_size_pos v) as Hv.
    change (charge (v :: l)) with (Value.memory_size v + charge l) in Hc.
    destruct (IH (MailboxQueue.with_bytes (MailboxQueue.with_inner q
      (VecDeque.mk l (VecDeque.cap (MailboxQueue.inner q))))
      (sat_sub_u64 (MailboxQueue.bytes q) (Value.memory_size v))) true)
      as (H1 & H2 & H3 & H4 & H5); [|done..|].
    + apply shrink_ok; simpl; try done; rewrite ?Hl; simpl; unfold sat_sub_u64; lia.
    + simpl in *. rewrite H5, orb_true_r. by split_and!.
Qed.

Lemma fits_bounds limit bl cost l :
  fits limit bl cost l = true -> Z.of_nat (length l) < limit /\ charge l + cost <= bl.
Proof. unfold fits. lia. Qed.

(** What [evict] followed by a push leaves, once the hop does not fit at first. *)
Lemma drop_oldest_refines q v :
  queue_ok q ->
  fits (MailboxQueue.limit q) (MailboxQueue.byte_limit q) (Value.memory_size v)
    (MailboxQueue.hops q) = false ->
  let '(dropped, q') := MailboxQueue.evict (Value.memory_size v) (MailboxQueue.hops q) q false in
  let l' := make_room (MailboxQueue.limit q) (MailboxQueue.byte_limit q) (Value.memory_size v)
              (MailboxQueue.hops q) in
  queue_ok q' /\ MailboxQueue.hops q' = l' /\
  MailboxQueue.limit q' = MailboxQueue.limit q /\
  MailboxQueue.byte_limit q' = MailboxQueue.byte_limit q /\
  MailboxQueue.would_exceed_bytes q' (Value.memory_size v) =
    (MailboxQueue.byte_limit q <? Value.memory_size v) /\
  (Value.memory_size v <= MailboxQueue.byte_limit q -> dropped = true).
Proof.
  intros Hq Hf. pose proof (memory_size_pos v) as Hv. pose proof Hq as (Hl & _).
  assert (0 <= Value.memory_size v) as Hv0 by lia.
  pose proof (evict_refines (Value.memory_size v) _ q false Hq Hv0 eq_refl) as He.
  destruct (MailboxQueue.evict _ _ q false) as [dropped q'].
  simpl in He. destruct He as (Hq' & Hli & Hbl & Hh & Hd). split_and!; try done.
  - rewrite exceed_charge, Hh, Hbl by (done || lia).
    destruct (Z.ltb_spec (MailboxQueue.byte_limit q) (Value.memory_size v)).
    + rewrite make_room_oversize by done. simpl. lia.
    + assert (fits (MailboxQueue.limit q) (MailboxQueue.byte_limit q) (Value.memory_size v)
        (make_room (MailboxQueue.limit q) (MailboxQueue.byte_limit q) (Value.memory_size v)
          (MailboxQueue.hops q)) = true) as Hfit by (apply make_room_fits; lia).
      apply fits_bounds in Hfit. lia.
  - intros Hsz. rewrite Hd, Hf, orb_false_r.
    destruct (MailboxQueue.hops q) eqn:E; [|done].
    pose proof (make_room_fits (MailboxQueue.limit q)
      (MailboxQueue.byte_limit q) (Value.memory_size v) []) as Hfit.
    cbn [make_room] in Hfit. rewrite Hf in Hfit. discriminate Hfit; lia.
Qed.

(** Pushing what fits keeps the queue in order and within its bounds. *)
Lemma push_fitting q q' v :
  queue_ok q' -> MailboxQueue.limit q' = MailboxQueue.limit q ->
  MailboxQueue.byte_limit q' = MailboxQueue.byte_limit q ->
  fits (MailboxQueue.limit q) (MailboxQueue.byte_limit q) (Value.memory_size v)
    (MailboxQueue.hops q') = true ->
  let q'' := MailboxQueue.charge_and_push q' (Value.memory_size v) v in
  queue_ok q'' /\ MailboxQueue.hops q'' = MailboxQueue.hops q' ++ [v] /\ within_bounds q''.
Proof.
  intros Hq' Hl Hb Hf q''. destruct (fits_bounds _ _ _ _ Hf) as [Hlen Hch].
  pose proof Hq' as (_ & HB & _).
  assert (MailboxBytes.MAX < u64_max) by done.
  destruct (charge_and_push_ok q' v Hq' ltac:(lia)) as [Hok Hh].
  fold q'' in Hok, Hh. split_and!; [done..|].
  unfold within_bounds, MailboxQueue.len, VecDeque.len. fold (MailboxQueue.hops q'').
  destruct Hok as (_ & _ & -> & _). rewrite Hh, charge_app, length_app.
  change (MailboxQueue.limit q'') with (MailboxQueue.limit q').
  change (MailboxQueue.byte_limit q'') with (MailboxQueue.byte_limit q').
  unfold charge in *. simpl in *. lia.
Qed.

(** A push is a push into the abstract queue. *)
Lemma enqueue_exact q v policy :
  queue_ok q ->
  let r := MailboxQueue.enqueue q v policy in
  (fst r, MailboxQueue.hops (snd r)) =
    spec_enqueue (MailboxQueue.limit q) (MailboxQueue.byte_limit q)
      (MailboxQueue.hops q) v policy /\
  queue_ok (snd r) /\ (within_bounds q -> within_bounds (snd r)).
Proof.
  intros Hq. pose proof (memory_size_pos v) as Hv.
  unfold MailboxQueue.enqueue, spec_enqueue.
  rewrite fits_eq by (done || lia).
  destruct (fits _ _ _ _) eqn:Hf.
  - destruct (with_reserved_ok q (MailboxQueue.limit q) Hq) as [Hr Hh].
    pose proof (fits_bounds _ _ _ _ Hf) as [Hlen _]. pose proof Hq as (Hl & _ & _ & _ & Hcap).
    assert (MailboxCapacity.MAX < usize_max) by done.
    pose proof (reserve_for_push_ok (MailboxQueue.inner q) (MailboxQueue.limit q)
      Hlen ltac:(lia) ltac:(lia)) as Hok.
    destruct (reserve_for_push _ _) as [ok d]. simpl in *. subst ok. simpl.
    edestruct (push_fitting q) as (Q1 & Q2 & Q3); [exact Hr|done..|by rewrite Hh|].
    rewrite Q2, Hh. by split_and!.
  - destruct policy.
    + simpl. split_and!; [|done..]. f_equal. f_equal.
      unfold MailboxQueue.is_full, MailboxQueue.len, VecDeque.len. fold (MailboxQueue.hops q).
      destruct (Z.leb_spec (MailboxQueue.limit q) (Z.of_nat (length (MailboxQueue.hops q)))),
        (Z.ltb_spec (Z.of_nat (length (MailboxQueue.hops q))) (MailboxQueue.limit q));
        done || lia.
    + by split_and!.
    + pose proof (drop_oldest_refines q v Hq Hf) as Hd.
      destruct (MailboxQueue.evict _ _ _ _) as [dropped q'].
      destruct Hd as (Q1 & Q2 & Q3 & Q4 & -> & Q6).
      destruct (Z.ltb_spec (MailboxQueue.byte_limit q) (Value.memory_size v)) as [Hc|Hc].
      * simpl. rewrite Q2, make_room_oversize by done. split_and!; [done..|].
        unfold within_bounds, MailboxQueue.len, VecDeque.len. fold (MailboxQueue.hops q').
        destruct Q1 as (Hx & Hy & -> & _). rewrite Q2, make_room_oversize by done.
        simpl. lia.
      * rewrite Q6 by done. simpl. pose proof Hq as (Hl & _).
        edestruct (push_fitting q) as (Q7 & Q8 & Q9); [exact Q1|done..| |].
        { rewrite Q2. apply make_room_fits; lia. }
        rewrite Q8, Q2. by split_and!.
Qed.

(** C24: a mailbox queue is a bounded FIFO: a push, whatever the overflow policy, and
    a selective take have the outcome, and leave the hops, of the abstract queue that
    recomputes the byte budget from its hops at every operation. So the running byte
    count never drifts, DropOldest evicts the shortest prefix that makes room, a take
    returns the oldest hop the filter accepts and skips the others in place, and a
    queue within its two bounds stays within them. *)
Theorem queue_refines_fifo q v policy f :
  queue_ok q ->
  let e := MailboxQueue.enqueue q v policy in
  let t := MailboxQueue.take q f in
  (fst e, MailboxQueue.hops (snd e)) =
    spec_enqueue (MailboxQueue.limit q) (MailboxQueue.byte_limit q)
      (MailboxQueue.hops q) v policy /\
  (fst t, MailboxQueue.hops (snd t)) = spec_take f (MailboxQueue.hops q) /\
  queue_ok (snd e) /\ queue_ok (snd t) /\ (within_bounds q -> within_bounds (snd e)).
Proof.
  intros Hq. destruct (enqueue_exact q v policy Hq) as (? & ? & ?).
  destruct (take_refines q f Hq). by split_and!.
Qed.
End queue.

(** ** Mailboxes under their mutex *)

Section mailbox.
Context {H : Type} `{ValueLayout, Allocator}.
Implicit Types (i : MailboxInner.t H) (mb : Mailbox.t H).

Definition hops_of i : list Value.t := MailboxQueue.hops (MailboxInner.queue i).

(** No hop a parked flow waits for is in the queue. *)
Definition no_missed_hop i : Prop :=
  MailboxInner.parked i <> None ->
  Forall (fun v => WaitFilter.matches (MailboxInner.parked_filter i) v = false) (hops_of i).

Definition inner_ok i : Prop := queue_ok (MailboxInner.queue i) /\ no_missed_hop i.

(** The flows a mailbox keeps: the parked receiver and the parked senders. *)
Definition held i : list FlowId.t :=
  option_list (Flow.id <$> MailboxInner.parked i) ++
  map (fun w => Flow.id (wflow w)) (MailboxInner.waiting_senders i).

Definition handed (d : Delivery H) : list FlowId.t :=
  match d with Handoff flow => [Flow.id flow] | _ => [] end.
Definition returned (r : result WaitEpoch (Flow.t H)) : list FlowId.t :=
  match r with Err flow => [Flow.id flow] | Ok _ => [] end.
Definition refused (p : ParkSender H) : list FlowId.t :=
  match p with Closed flow => [Flow.id flow] | Parked => [] end.
Definition taken (o : option (Flow.t H)) : list FlowId.t := option_list (Flow.id <$> o).

Lemma idle_ok i : queue_ok (MailboxInner.queue i) -> MailboxInner.parked i = None -> inner_ok i.
Proof. intros Hq Hp. split; [done|]. intros Hc. by rewrite Hp in Hc. Qed.

(** A push only keeps queued hops and adds the pushed one. *)
Lemma enqueue_forall q v policy (P : Value.t -> Prop) :
  queue_ok q -> Forall P (MailboxQueue.hops q) -> P v ->
  Forall P (MailboxQueue.hops (snd (MailboxQueue.enqueue q v policy))).
Proof.
  intros Hq Hl Hv. pose proof (enqueue_exact q v policy Hq) as [E _].
  apply (f_equal snd) in E. simpl in E. rewrite E. unfold spec_enqueue.
  destruct (fits _ _ _ _); [simpl; by apply Forall_app_2; [|constructor]|].
  destruct policy; simpl; [done..|]. destruct (_ <? _); simpl; [constructor|].
  apply Forall_app_2; [|by constructor].
  destruct (make_room_suffix (MailboxQueue.limit q) (MailboxQueue.byte_limit q)
    (Value.memory_size v) (MailboxQueue.hops q)) as [k ->]. by apply Forall_drop.
Qed.

Lemma take_forall q f (P : Value.t -> Prop) :
  queue_ok q -> Forall P (MailboxQueue.hops q) ->
  Forall P (MailboxQueue.hops (snd (MailboxQueue.take q f))).
Proof.
  intros Hq Hl. destruct (take_refines q f Hq) as [_ E]. apply (f_equal snd) in E.
  simpl in E. rewrite E. unfold spec_take. destruct (position _ _); simpl; [|done].
  by apply Forall_delete.
Qed.

Lemma force_push_ok q v :
  queue_ok q -> charge (MailboxQueue.hops q) + Value.memory_size v <= u64_max ->
  queue_ok (MailboxQueue.force_push q v) /\
  MailboxQueue.hops (MailboxQueue.force_push q v) = MailboxQueue.hops q ++ [v].
Proof.
  intros Hq Hm. unfold MailboxQueue.force_push.
  set (n := Z.max _ _). destruct (with_reserved_ok q n Hq) as [Hr Hh].
  destruct (reserve_for_push _ n) as [b d]. simpl in *. rewrite <- Hh in *.
  by apply charge_and_push_ok.
Qed.

(** *** Each critical section *)

Lemma enqueue_locked_ok policy v i :
  queue_ok (MailboxInner.queue i) ->
  (MailboxInner.parked i <> None ->
   WaitFilter.matches (MailboxInner.parked_filter i) v = false) ->
  no_missed_hop i ->
  let r := Mailbox.enqueue_locked policy v i in
  inner_ok (snd r) /\ held (snd r) = held i /\
  MailboxInner.parked (snd r) = MailboxInner.parked i /\
  MailboxInner.waiting_senders (snd r) = MailboxInner.waiting_senders i /\
  (forall d, fst r = Ok d -> handed d = []) /\
  MailboxInner.queue (snd r) = snd (MailboxQueue.enqueue (MailboxInner.queue i) v policy).
Proof.
  intros Hq Hv Hn. unfold Mailbox.enqueue_locked.
  pose proof (enqueue_exact (MailboxInner.queue i) v policy Hq) as (_ & Hq' & _).
  assert (Hf : MailboxInner.parked i <> None ->
    Forall (fun v => WaitFilter.matches (MailboxInner.parked_filter i) v = false)
      (MailboxQueue.hops (snd (MailboxQueue.enqueue (MailboxInner.queue i) v policy)))).
  { intros Hp. apply enqueue_forall; auto. }
  destruct (MailboxQueue.enqueue _ v policy) as [r q'].
  destruct r as [[]|[]]; simpl; split_and!; try done; by intros ? [= <-].
Qed.

Lemma push_locked_ok policy v i :
  inner_ok i ->
  let r := Mailbox.push_locked policy v i in
  inner_ok (snd r) /\
  held i = (match fst r with Ok d => handed d | Err _ => [] end) ++ held (snd r).
Proof.
  intros [Hq Hn]. unfold Mailbox.push_locked. destruct (MailboxInner.parked i) as [flow|] eqn:E.
  - destruct (WaitFilter.matches _ v) eqn:Hm.
    + simpl. split; [by apply idle_ok|]. unfold held. simpl. by rewrite E.
    + simpl in Hm.
      destruct (enqueue_locked_ok policy v
        (MailboxInner.with_parked (MailboxInner.with_parked i None) (Some flow)) Hq)
        as (Q1 & Q2 & _ & _ & Q3 & _); [done|intros ?; apply Hn; by rewrite E|].
      split; [done|]. rewrite Q2. destruct (fst _) eqn:Er; [rewrite (Q3 _ eq_refl)|];
        unfold held; simpl; by rewrite E.
  - destruct (enqueue_locked_ok policy v i Hq) as (Q1 & Q2 & _ & _ & Q3 & _); [done..|].
    split; [done|]. rewrite Q2. destruct (fst _) eqn:Er; [by rewrite (Q3 _ eq_refl)|done].
Qed.

Lemma push_system_locked_ok v i :
  inner_ok i -> charge (hops_of i) + Value.memory_size v <= u64_max ->
  let r := Mailbox.push_system_locked v i in
  inner_ok (snd r) /\ held i = handed (fst r) ++ held (snd r).
Proof.
  intros [Hq Hn] Hc. destruct (force_push_ok _ v Hq Hc) as [Hq' Hh].
  unfold Mailbox.push_system_locked, held.
  destruct (MailboxInner.parked i) as [flow|] eqn:E; simpl.
  - destruct (WaitFilter.matches _ v) eqn:Hm; simpl; [split; [by apply idle_ok|done]|].
    split; [split; [done|]|done]. intros _. unfold hops_of. simpl. rewrite Hh.
    apply Forall_app_2; [apply Hn; by rewrite E|]. by constructor.
  - rewrite E. split; [by apply idle_ok|done].
Qed.

Lemma try_pop_locked_ok f i :
  inner_ok i ->
  let r := Mailbox.try_pop_locked f i in inner_ok (snd r) /\ held (snd r) = held i.
Proof.
  intros [Hq Hn]. unfold Mailbox.try_pop_locked.
  pose proof (take_refines _ f Hq) as [Hq' _].
  assert (Hf : MailboxInner.parked i <> None ->
    Forall (fun v => WaitFilter.matches (MailboxInner.parked_filter i) v = false)
      (MailboxQueue.hops (snd (MailboxQueue.take (MailboxInner.queue i) f)))).
  { intros Hp. apply take_forall; auto. }
  destruct (MailboxQueue.take _ f) as [[v|] q']; simpl; by split_and!.
Qed.

(** Parking re-checks the queue in the same critical section: the flow is parked
    only when no queued hop matches. *)
Lemma park_locked_ok flow f i :
  inner_ok i -> MailboxInner.parked i = None ->
  let r := Mailbox.park_locked flow f i in
  inner_ok (snd r) /\ Flow.id flow :: held i ≡ₚ returned (fst r) ++ held (snd r).
Proof.
  intros [Hq Hn] Hp. unfold Mailbox.park_locked.
  pose proof (take_refines _ f Hq) as [Hq' E].
  destruct (MailboxQueue.take _ f) as [[v|] q'] eqn:Et; simpl in *; unfold held; simpl;
    rewrite Hp; simpl.
  - split; [by apply idle_ok|done].
  - split; [split; [done|]|done]. intros _. symmetry in E.
    apply spec_take_None in E as [E HF].
    unfold hops_of. simpl. by rewrite E.
Qed.

Lemma take_at_locked_ok e i :
  inner_ok i ->
  let r := Mailbox.take_at_locked e i in
  inner_ok (snd r) /\ held i = taken (fst r) ++ held (snd r).
Proof.
  intros Hi. unfold Mailbox.take_at_locked. destruct (negb _); [done|].
  destruct (MailboxInner.parked i) eqn:E; simpl; [|done].
  split; [by apply idle_ok; [apply Hi|]|]. unfold held. simpl. by rewrite E.
Qed.

Lemma take_locked_ok i :
  inner_ok i ->
  let r := Mailbox.take_locked i in
  inner_ok (snd r) /\ held i = taken (fst r) ++ held (snd r).
Proof.
  intros [Hq Hn]. unfold Mailbox.take_locked. simpl. split; [by apply idle_ok|done].
Qed.

Lemma close_locked_ok i :
  inner_ok i ->
  let r := Mailbox.close_locked i in
  inner_ok (snd r) /\ held i ≡ₚ map Flow.id (fst r) ++ held (snd r).
Proof.
  intros Hi. unfold Mailbox.close_locked, held. simpl. split; [done|].
  rewrite app_nil_r, Permutation_app_comm, map_map. done.
Qed.

Lemma park_sender_locked_ok flow v i :
  inner_ok i ->
  let r := Mailbox.park_sender_locked flow v i in
  inner_ok (snd r) /\ Flow.id flow :: held i ≡ₚ refused (fst r) ++ held (snd r).
Proof.
  intros Hi. unfold Mailbox.park_sender_locked. destruct (MailboxInner.closed i); [done|].
  split; [done|]. unfold held; simpl. rewrite map_app. simpl.
  rewrite app_assoc. by rewrite Permutation_cons_append.
Qed.

Lemma admit_locked_ok i :
  inner_ok i -> MailboxInner.parked i = None ->
  let r := Mailbox.admit_locked i in
  inner_ok (snd r) /\ held i = taken (fst r) ++ held (snd r).
Proof.
  intros [Hq Hn] Hp. unfold Mailbox.admit_locked. destruct (MailboxInner.closed i); [done|].
  destruct (MailboxInner.waiting_senders i) as [|w ws] eqn:E; [done|].
  destruct (enqueue_locked_ok Reject (wmessage w) (MailboxInner.with_waiting i ws) Hq)
    as (Q1 & Q2 & Q3 & Q4 & _ & Q6); [by simpl; rewrite Hp|apply idle_ok; done|].
  destruct (Mailbox.enqueue_locked _ _ _) as [[d|e] i']; simpl in *.
  - split; [done|]. rewrite Q2. unfold held. simpl. by rewrite Hp, E.
  - split; [apply idle_ok; simpl; [apply Q1|by rewrite Q3]|].
    unfold held. simpl. by rewrite Q3, Q4, Hp, E.
Qed.

Lemma take_waiting_locked_ok s i :
  inner_ok i ->
  let r := Mailbox.take_waiting_locked s i in
  inner_ok (snd r) /\ held i ≡ₚ taken (fst r) ++ held (snd r).
Proof.
  intros Hi. unfold Mailbox.take_waiting_locked.
  destruct (position _ _) as [pos|] eqn:E; [|done].
  split; [done|]. destruct (position_Some _ _ _ E) as (w & Hw & _).
  unfold taken, held. simpl. rewrite Hw. simpl.
  rewrite (delete_Permutation _ _ _ Hw) at 1. simpl. by rewrite Permutation_middle.
Qed.

(** The parks a call installs: one, or none when it found a hop. *)
Definition installed (r : result WaitEpoch (Flow.t H)) : Z :=
  match r with Ok _ => 1 | Err _ => 0 end.

(** *** Runs of a mailbox

    One step is one call that gets the lock, by whichever thread; [ins] and [outs]
    are the flows given to the mailbox and given back, [n] how many parks it installs.  The two calls the worker
    makes on behalf of the owning flow, parking it and admitting a sender after its
    pop, happen while that flow runs, so nothing is parked.  [system] allows system
    hops, whose charge stays addressable. *)
Inductive step (system : bool) mb
  : list FlowId.t -> list FlowId.t -> Z -> Mailbox.t H -> Prop :=
| step_push v r mb' :
  Mailbox.push mb v = (Ok r, mb') ->
  step system mb [] (match r with Ok d => handed d | Err _ => [] end) 0 mb'
| step_pop f r mb' : Mailbox.try_pop_filter mb f = (Ok r, mb') -> step system mb [] [] 0 mb'
| step_park flow f r mb' :
  MailboxInner.parked (guarded (Mailbox.inner mb)) = None ->
  Mailbox.park_filter mb flow f = (Ok r, mb') ->
  step system mb [Flow.id flow] (returned r) (installed r) mb'
| step_deadline e r mb' :
  Mailbox.take_parked_at mb e = (Ok r, mb') -> step system mb [] (taken r) 0 mb'
| step_kill r mb' : Mailbox.take_parked mb = (Ok r, mb') -> step system mb [] (taken r) 0 mb'
| step_system v d mb' :
  system = true -> charge (hops_of (guarded (Mailbox.inner mb))) + Value.memory_size v <= u64_max ->
  Mailbox.push_system mb v = (Ok d, mb') -> step system mb [] (handed d) 0 mb'
| step_close r mb' :
  Mailbox.close mb = (Ok r, mb') -> step system mb [] (map Flow.id r) 0 mb'
| step_park_sender flow v mb' p :
  poisoned (Mailbox.inner mb) = false ->
  Mailbox.park_sender mb flow v = (p, mb') -> step system mb [Flow.id flow] (refused p) 0 mb'
| step_admit r mb' :
  MailboxInner.parked (guarded (Mailbox.inner mb)) = None ->
  Mailbox.admit_waiting_sender mb = (Ok r, mb') -> step system mb [] (taken r) 0 mb'
| step_take_sender s r mb' :
  Mailbox.take_waiting_sender mb s = (Ok r, mb') -> step system mb [] (taken r) 0 mb'
| step_stats r mb' : Mailbox.stats mb = (Ok r, mb') -> step system mb [] [] 0 mb'.

Inductive reachable (system : bool) (c : MailboxConfig.t)
  : list FlowId.t -> list FlowId.t -> Mailbox.t H -> Prop :=
| reach_start : reachable system c [] [] (Mailbox.with_config c)
| reach_step ins outs mb ins' outs' n mb' :
  reachable system c ins outs mb -> step system mb ins' outs' n mb' ->
  reachable system c (ins' ++ ins) (outs' ++ outs) mb'.

(** The configurations the embedder's constructors accept. *)
Definition config_ok (c : MailboxConfig.t) : Prop :=
  MailboxCapacity.new (MailboxConfig.capacity c) = Some (MailboxConfig.capacity c) /\
  MailboxBytes.new (MailboxConfig.bytes c) = Some (MailboxConfig.bytes c).

Lemma locked_inv {B} mb w (f : MailboxInner.t H -> B * MailboxInner.t H) b mb' :
  Mailbox.locked mb w f = (Ok b, mb') ->
  f (guarded (Mailbox.inner mb)) = (b, guarded (Mailbox.inner mb')) /\
  poisoned (Mailbox.inner mb) = false /\ poisoned (Mailbox.inner mb') = false /\
  Mailbox.config mb' = Mailbox.config mb.
Proof.
  unfold Mailbox.locked, with_lock, lock. destruct (poisoned _) eqn:E; [done|].
  destruct (f _) as [b' i']. by intros [= <- <-].
Qed.

(** What every step preserves, and how it moves flows. *)
Lemma mailbox_step_ok system mb ins outs n mb' :
  step system mb ins outs n mb' -> inner_ok (guarded (Mailbox.inner mb)) ->
  inner_ok (guarded (Mailbox.inner mb')) /\
  ins ++ held (guarded (Mailbox.inner mb)) ≡ₚ outs ++ held (guarded (Mailbox.inner mb')).
Proof.
  intros Hs Hi. destruct Hs as [v r mb' E|f r mb' E|flow f r mb' Hp E|e r mb' E|r mb' E
    |v d mb' _ Hc E|r mb' E|flow v mb' p Hu E|r mb' Hp E|s r mb' E|r mb' E].
  - apply locked_inv in E as (E & _).
    destruct (push_locked_ok (MailboxConfig.overflow (Mailbox.config mb)) v _ Hi) as [Q1 Q2].
    rewrite E in Q1, Q2. simpl in *. by rewrite Q2.
  - apply locked_inv in E as (E & _). destruct (try_pop_locked_ok f _ Hi) as [Q1 Q2].
    rewrite E in Q1, Q2. simpl in *. by rewrite Q2.
  - apply locked_inv in E as (E & _). destruct (park_locked_ok flow f _ Hi Hp) as [Q1 Q2].
    by rewrite E in Q1, Q2.
  - apply locked_inv in E as (E & _). destruct (take_at_locked_ok e _ Hi) as [Q1 Q2].
    rewrite E in Q1, Q2. simpl in *. by rewrite Q2.
  - apply locked_inv in E as (E & _). destruct (take_locked_ok _ Hi) as [Q1 Q2].
    rewrite E in Q1, Q2. simpl in *. by rewrite Q2.
  - apply locked_inv in E as (E & _). destruct (push_system_locked_ok v _ Hi Hc) as [Q1 Q2].
    rewrite E in Q1, Q2. simpl in *. by rewrite Q2.
  - apply locked_inv in E as (E & _). destruct (close_locked_ok _ Hi) as [Q1 Q2].
    by rewrite E in Q1, Q2.
  - unfold Mailbox.park_sender in E.
    destruct (Mailbox.locked _ _ _) as [[b|e] mb''] eqn:El.
    + injection E as <- <-. apply locked_inv in El as (El & _).
      destruct (park_sender_locked_ok flow v _ Hi) as [Q1 Q2]. by rewrite El in Q1, Q2.
    + unfold Mailbox.locked in El. rewrite with_lock_ok in El by done. done.
  - apply locked_inv in E as (E & _). destruct (admit_locked_ok _ Hi Hp) as [Q1 Q2].
    rewrite E in Q1, Q2. simpl in *. by rewrite Q2.
  - apply locked_inv in E as (E & _). destruct (take_waiting_locked_ok s _ Hi) as [Q1 Q2].
    by rewrite E in Q1, Q2.
  - apply locked_inv in E as ([= _ E] & _). by rewrite <- E.
Qed.

Lemma start_ok c : config_ok c -> inner_ok (guarded (Mailbox.inner (Mailbox.with_config c))).
Proof.
  intros [Hc Hb]. apply idle_ok; [|done]. unfold queue_ok. simpl.
  unfold MailboxCapacity.new, MailboxBytes.new in *.
  change MailboxCapacity.MIN with 1 in *. change MailboxBytes.MIN with 1024 in *.
  unfold MailboxCapacity.get, MailboxBytes.get, VecDeque.len. simpl.
  repeat case_match; try done. split_and!; try done; try lia.
Qed.

Lemma reachable_ok system c ins outs mb :
  config_ok c -> reachable system c ins outs mb ->
  inner_ok (guarded (Mailbox.inner mb)) /\ ins ≡ₚ outs ++ held (guarded (Mailbox.inner mb)).
Proof.
  intros Hc. induction 1 as [|ins outs mb ins' outs' n mb' _ IH Hs].
  - by split; [apply start_ok|].
  - destruct IH as [Hi IH]. destruct (mailbox_step_ok _ _ _ _ _ _ Hs Hi) as [Hi' Hm]. split; [done|].
    rewrite IH. rewrite (Permutation_app_swap_app ins' outs), Hm.
    by rewrite Permutation_app_swap_app, app_assoc.
Qed.

(** *** Limits, bounds and epochs along a run *)

Definition limits q : Z * Z := (MailboxQueue.limit q, MailboxQueue.byte_limit q).

Lemma evict_limits cost items q d : limits (snd (MailboxQueue.evict cost items q d)) = limits q.
Proof.
  revert q d. induction items as [|v l IH]; intros q d; simpl; [done|].
  case_match; [|done]. unfold VecDeque.pop_front.
  destruct (VecDeque.items _); simpl; [done|]. by rewrite IH.
Qed.

Lemma enqueue_limits q v policy :
  limits (snd (MailboxQueue.enqueue q v policy)) = limits q.
Proof.
  unfold MailboxQueue.enqueue. case_match.
  - destruct (reserve_for_push _ _) as [[] d]; done.
  - destruct policy; [done..|].
    pose proof (evict_limits (Value.memory_size v) (MailboxQueue.hops q) q false) as E.
    destruct (MailboxQueue.evict _ _ _ _) as [b q']. simpl in E. by case_match.
Qed.

Lemma take_limits q f : limits (snd (MailboxQueue.take q f)) = limits q.
Proof. unfold MailboxQueue.take. repeat case_match; done. Qed.

Lemma take_bounds q f :
  queue_ok q -> within_bounds q -> within_bounds (snd (MailboxQueue.take q f)).
Proof.
  intros Hq [Hl Hb]. pose proof (take_refines q f Hq) as [(_ & _ & Hc & _) E].
  pose proof (take_limits q f) as Hlim. injection Hlim as Hl' Hb'.
  apply (f_equal snd) in E. simpl in E. pose proof Hq as (_ & _ & Hc0 & _).
  unfold within_bounds, MailboxQueue.len, VecDeque.len in *.
  fold (MailboxQueue.hops q) in *. fold (MailboxQueue.hops (snd (MailboxQueue.take q f))).
  rewrite Hc, E, Hl', Hb'. unfold spec_take. destruct (position _ _) as [i|] eqn:Ep; simpl; [|lia].
  destruct (position_Some _ _ _ Ep) as (v & Hv & _).
  rewrite (charge_delete _ _ _ Hv), length_delete by eauto.
  pose proof (memory_size_pos v). lia.
Qed.

(** What one critical section leaves of the limits, the epoch and the bounds. *)
Definition frame (n : Z) i i' : Prop :=
  limits (MailboxInner.queue i') = limits (MailboxInner.queue i) /\
  MailboxInner.wait_epoch i' =
    (if n =? 0 then MailboxInner.wait_epoch i else wrap_u 64 (MailboxInner.wait_epoch i + n)) /\
  (within_bounds (MailboxInner.queue i) -> within_bounds (MailboxInner.queue i')).

Lemma frame_refl i i' :
  MailboxInner.queue i' = MailboxInner.queue i ->
  MailboxInner.wait_epoch i' = MailboxInner.wait_epoch i -> frame 0 i i'.
Proof. unfold frame. by intros -> ->. Qed.

Lemma enqueue_locked_frame policy v i :
  queue_ok (MailboxInner.queue i) -> frame 0 i (snd (Mailbox.enqueue_locked policy v i)).
Proof.
  intros Hq. unfold Mailbox.enqueue_locked.
  pose proof (enqueue_limits (MailboxInner.queue i) v policy) as El.
  pose proof (enqueue_exact (MailboxInner.queue i) v policy Hq) as (_ & _ & Hb).
  destruct (MailboxQueue.enqueue _ v policy) as [[[]|[]] q']; by split_and!.
Qed.

Lemma push_locked_frame policy v i :
  queue_ok (MailboxInner.queue i) -> frame 0 i (snd (Mailbox.push_locked policy v i)).
Proof.
  intros Hq. unfold Mailbox.push_locked. destruct (MailboxInner.parked i) as [flow|].
  - case_match; [by apply frame_refl|].
    apply (enqueue_locked_frame policy v
      (MailboxInner.with_parked (MailboxInner.with_parked i None) (Some flow)) Hq).
  - by apply enqueue_locked_frame.
Qed.

Lemma take_frame f i j :
  queue_ok (MailboxInner.queue i) ->
  MailboxInner.queue j = snd (MailboxQueue.take (MailboxInner.queue i) f) ->
  MailboxInner.wait_epoch j = MailboxInner.wait_epoch i -> frame 0 i j.
Proof.
  intros Hq Ej Ee. unfold frame. rewrite Ej, Ee. split_and!; [apply take_limits|done|].
  by apply take_bounds.
Qed.

Lemma try_pop_locked_frame f i :
  queue_ok (MailboxInner.queue i) -> frame 0 i (snd (Mailbox.try_pop_locked f i)).
Proof.
  intros Hq. apply (take_frame f); [done|..]; unfold Mailbox.try_pop_locked;
    by destruct (MailboxQueue.take _ f) as [[v|] q'].
Qed.

Lemma park_locked_frame flow f i :
  queue_ok (MailboxInner.queue i) ->
  let r := Mailbox.park_locked flow f i in frame (installed (fst r)) i (snd r).
Proof.
  intros Hq. pose proof (take_frame f i
    (MailboxInner.with_queue i (snd (MailboxQueue.take (MailboxInner.queue i) f)))
    Hq eq_refl eq_refl) as (Hl & _ & Hb).
  unfold Mailbox.park_locked.
  by destruct (MailboxQueue.take _ f) as [[v|] q']; split_and!.
Qed.

Lemma admit_locked_frame i :
  queue_ok (MailboxInner.queue i) -> frame 0 i (snd (Mailbox.admit_locked i)).
Proof.
  intros Hq. unfold Mailbox.admit_locked. destruct (MailboxInner.closed i); [by apply frame_refl|].
  destruct (MailboxInner.waiting_senders i) as [|w ws]; [by apply frame_refl|].
  pose proof (enqueue_locked_frame Reject (wmessage w) (MailboxInner.with_waiting i ws) Hq) as Hf.
  by destruct (Mailbox.enqueue_locked _ _ _) as [[d|e] i'].
Qed.

(** A call that leaves the queue and the epoch alone. *)
Lemma other_frames i :
  (forall e, frame 0 i (snd (Mailbox.take_at_locked e i))) /\
  frame 0 i (snd (Mailbox.take_locked i)) /\ frame 0 i (snd (Mailbox.close_locked i)) /\
  (forall flow v, frame 0 i (snd (Mailbox.park_sender_locked flow v i))) /\
  (forall s, frame 0 i (snd (Mailbox.take_waiting_locked s i))).
Proof.
  unfold Mailbox.take_at_locked, Mailbox.park_sender_locked, Mailbox.take_waiting_locked.
  split_and!; intros; repeat case_match; by apply frame_refl.
Qed.

Lemma push_system_frame v i :
  let j := snd (Mailbox.push_system_locked v i) in
  limits (MailboxInner.queue j) = limits (MailboxInner.queue i) /\
  MailboxInner.wait_epoch j = MailboxInner.wait_epoch i.
Proof.
  assert (forall q, limits (MailboxQueue.force_push q v) = limits q) as Hf.
  { intros q. unfold MailboxQueue.force_push. by destruct (reserve_for_push _ _). }
  unfold Mailbox.push_system_locked. destruct (MailboxInner.parked i); [case_match; [done|]|];
    simpl; by rewrite Hf.
Qed.

Lemma frame_weaken (P : Prop) n i i' :
  frame n i i' ->
  limits (MailboxInner.queue i') = limits (MailboxInner.queue i) /\
  MailboxInner.wait_epoch i' =
    (if n =? 0 then MailboxInner.wait_epoch i else wrap_u 64 (MailboxInner.wait_epoch i + n)) /\
  (P -> within_bounds (MailboxInner.queue i) -> within_bounds (MailboxInner.queue i')).
Proof. intros (? & ? & ?). by split_and!. Qed.

Lemma step_frame system mb ins outs n mb' :
  step system mb ins outs n mb' -> inner_ok (guarded (Mailbox.inner mb)) ->
  let i := guarded (Mailbox.inner mb) in let i' := guarded (Mailbox.inner mb') in
  limits (MailboxInner.queue i') = limits (MailboxInner.queue i) /\
  MailboxInner.wait_epoch i' =
    (if n =? 0 then MailboxInner.wait_epoch i else wrap_u 64 (MailboxInner.wait_epoch i + n)) /\
  (system = false -> within_bounds (MailboxInner.queue i) -> within_bounds (MailboxInner.queue i')).
Proof.
  intros Hs [Hq Hi]. destruct (other_frames (guarded (Mailbox.inner mb)))
    as (Fe & Ft & Fc & Fp & Fw).
  destruct Hs as [v r mb' E|f r mb' E|flow f r mb' Hp E|e r mb' E|r mb' E
    |v d mb' -> Hc E|r mb' E|flow v mb' p Hu E|r mb' Hp E|s r mb' E|r mb' E].
  - apply locked_inv in E as (E & _). apply frame_weaken.
    pose proof (push_locked_frame (MailboxConfig.overflow (Mailbox.config mb)) v _ Hq) as F.
    by rewrite E in F.
  - apply locked_inv in E as (E & _). apply frame_weaken.
    pose proof (try_pop_locked_frame f _ Hq) as F. by rewrite E in F.
  - apply locked_inv in E as (E & _). apply frame_weaken.
    pose proof (park_locked_frame flow f _ Hq) as F. by rewrite E in F.
  - apply locked_inv in E as (E & _). apply frame_weaken. specialize (Fe e). by rewrite E in Fe.
  - apply locked_inv in E as (E & _). apply frame_weaken. by rewrite E in Ft.
  - apply locked_inv in E as (E & _). destruct (push_system_frame v (guarded (Mailbox.inner mb)))
      as [F1 F2]. rewrite E in F1, F2. by split_and!.
  - apply locked_inv in E as (E & _). apply frame_weaken. by rewrite E in Fc.
  - unfold Mailbox.park_sender in E.
    destruct (Mailbox.locked _ _ _) as [[b|e] mb''] eqn:El; injection E as <- <-.
    + apply locked_inv in El as (El & _). apply frame_weaken. specialize (Fp flow v).
      by rewrite El in Fp.
    + unfold Mailbox.locked in El. rewrite with_lock_ok in El by done. done.
  - apply locked_inv in E as (E & _). apply frame_weaken.
    pose proof (admit_locked_frame _ Hq) as F. by rewrite E in F.
  - apply locked_inv in E as (E & _). apply frame_weaken. specialize (Fw s). by rewrite E in Fw.
  - apply locked_inv in E as ([= _ E] & _). apply frame_weaken, frame_refl; by rewrite E.
Qed.

(** A run between two points, with the parks it installs. *)
Inductive runs (system : bool) mb : Z -> Mailbox.t H -> Prop :=
| runs_refl : runs system mb 0 mb
| runs_step n mb1 ins outs k mb2 :
  runs system mb n mb1 -> step system mb1 ins outs k mb2 -> runs system mb (n + k) mb2.

Lemma step_parks system mb ins outs n mb' :
  step system mb ins outs n mb' -> n = 0 \/ n = 1.
Proof. destruct 1; try by left. destruct r; [by right|by left]. Qed.

Lemma runs_epoch system mb n mb' :
  runs system mb n mb' -> inner_ok (guarded (Mailbox.inner mb)) ->
  in_u 64 (MailboxInner.wait_epoch (guarded (Mailbox.inner mb))) ->
  0 <= n /\ inner_ok (guarded (Mailbox.inner mb')) /\
  MailboxInner.wait_epoch (guarded (Mailbox.inner mb')) =
    wrap_u 64 (MailboxInner.wait_epoch (guarded (Mailbox.inner mb)) + n).
Proof.
  intros Hr Hi He. induction Hr as [|n mb1 ins outs k mb2 _ IH Hs].
  - split_and!; [done..|]. rewrite Z.add_0_r. symmetry. by apply wrap_u_id.
  - destruct IH as (Hn & Hi1 & E1). destruct (mailbox_step_ok _ _ _ _ _ _ Hs Hi1) as [Hi2 _].
    pose proof (step_frame _ _ _ _ _ _ Hs Hi1) as (_ & E2 & _).
    destruct (step_parks _ _ _ _ _ _ Hs) as [-> | ->]; simpl in E2.
    + split_and!; [lia|done|]. by rewrite E2, E1, Z.add_0_r.
    + split_and!; [lia|done|]. rewrite E2, E1. unfold wrap_u.
      rewrite Zplus_mod_idemp_l. by rewrite Z.add_assoc.
Qed.

Lemma reachable_bounds c ins outs mb :
  config_ok c -> reachable false c ins outs mb ->
  inner_ok (guarded (Mailbox.inner mb)) /\
  limits (MailboxInner.queue (guarded (Mailbox.inner mb))) =
    (MailboxConfig.capacity c, MailboxConfig.bytes c) /\
  within_bounds (MailboxInner.queue (guarded (Mailbox.inner mb))).
Proof.
  intros Hc. induction 1 as [|ins outs mb ins' outs' n mb' _ IH Hs].
  - pose proof (start_ok c Hc) as Hi. split_and!; [done..|].
    destruct Hi as [((Hl & _) & (Hb & _) & _) _]. split; simpl in *; [|lia].
    unfold MailboxQueue.len, VecDeque.len. simpl. lia.
  - destruct IH as (Hi & Hl & Hw). destruct (mailbox_step_ok _ _ _ _ _ _ Hs Hi) as [Hi' _].
    pose proof (step_frame _ _ _ _ _ _ Hs Hi) as (El & _ & Hw').
    split_and!; [done|by rewrite El|by apply Hw'].
Qed.

Lemma reachable_runs system c ins outs mb :
  reachable system c ins outs mb -> exists n, runs system (Mailbox.with_config c) n mb.
Proof.
  induction 1 as [|ins outs mb ins' outs' n mb' _ [k IH] Hs]; [by eexists; apply runs_refl|].
  eexists. by eapply runs_step.
Qed.

Lemma reachable_epoch system c ins outs mb :
  config_ok c -> reachable system c ins outs mb ->
  in_u 64 (MailboxInner.wait_epoch (guarded (Mailbox.inner mb))).
Proof.
  intros Hc Hr. destruct (reachable_runs _ _ _ _ _ Hr) as [n Hn].
  destruct (runs_epoch _ _ _ _ Hn (start_ok c Hc)) as (_ & _ & ->); [done|].
  by apply wrap_u_range.
Qed.

(** Between two parks the parked flow stays or leaves. *)
Lemma enqueue_locked_parked policy v i :
  MailboxInner.parked (snd (Mailbox.enqueue_locked policy v i)) = MailboxInner.parked i.
Proof.
  unfold Mailbox.enqueue_locked.
  by destruct (MailboxQueue.enqueue _ v policy) as [[[]|[]] q'].
Qed.

Definition kept_or_gone i j : Prop :=
  MailboxInner.parked j = MailboxInner.parked i \/ MailboxInner.parked j = None.

Lemma locked_parked i :
  (forall p v, kept_or_gone i (snd (Mailbox.push_locked p v i))) /\
  (forall f, kept_or_gone i (snd (Mailbox.try_pop_locked f i))) /\
  (forall e, kept_or_gone i (snd (Mailbox.take_at_locked e i))) /\
  (forall v, kept_or_gone i (snd (Mailbox.push_system_locked v i))) /\
  (forall flow v, kept_or_gone i (snd (Mailbox.park_sender_locked flow v i))) /\
  (forall s, kept_or_gone i (snd (Mailbox.take_waiting_locked s i))) /\
  kept_or_gone i (snd (Mailbox.admit_locked i)).
Proof.
  unfold kept_or_gone, Mailbox.push_locked, Mailbox.try_pop_locked, Mailbox.take_at_locked,
    Mailbox.push_system_locked, Mailbox.park_sender_locked, Mailbox.take_waiting_locked,
    Mailbox.admit_locked.
  split_and!; intros.
  1: destruct (MailboxInner.parked i) eqn:E; [case_match; [by right|]|];
       left; by rewrite enqueue_locked_parked.
  6: { do 2 (case_match; [by left|]).
       pose proof (enqueue_locked_parked Reject (wmessage w) (MailboxInner.with_waiting i l)) as E.
       left. by destruct (Mailbox.enqueue_locked _ _ _) as [[] j]. }
  all: repeat case_match; simpl; auto.
Qed.

Lemma step_parked system mb ins outs n mb' :
  step system mb ins outs n mb' -> n = 0 ->
  kept_or_gone (guarded (Mailbox.inner mb)) (guarded (Mailbox.inner mb')).
Proof.
  intros Hs Hn. destruct (locked_parked (guarded (Mailbox.inner mb)))
    as (F1 & F2 & F3 & F4 & F5 & F6 & F7).
  destruct Hs as [v r mb' E|f r mb' E|flow f r mb' Hp E|e r mb' E|r mb' E
    |v d mb' _ _ E|r mb' E|flow v mb' p Hu E|r mb' Hp E|s r mb' E|r mb' E].
  8: { unfold Mailbox.park_sender in E.
    destruct (Mailbox.locked _ _ _) as [[b|e] mb''] eqn:El; injection E as <- <-.
    + apply locked_inv in El as (El & _). specialize (F5 flow v). by rewrite El in F5.
    + unfold Mailbox.locked in El. rewrite with_lock_ok in El by done. done. }
  all: apply locked_inv in E as (E & _).
  - specialize (F1 (MailboxConfig.overflow (Mailbox.config mb)) v). by rewrite E in F1.
  - specialize (F2 f). by rewrite E in F2.
  - unfold Mailbox.park_locked in E. destruct (MailboxQueue.take _ f) as [[v|] q'];
      injection E as <- E'; [|done]. right. by rewrite <- E'.
  - specialize (F3 e). by rewrite E in F3.
  - unfold Mailbox.take_locked in E. injection E as _ <-. by right.
  - specialize (F4 v). by rewrite E in F4.
  - unfold Mailbox.close_locked in E. injection E as _ <-. by left.
  - by rewrite E in F7.
  - specialize (F6 s). by rewrite E in F6.
  - injection E as _ <-. by left.
Qed.

Lemma runs_nonneg system mb n mb' : runs system mb n mb' -> 0 <= n.
Proof.
  induction 1 as [|n mb1 ins outs k mb2 _ IH Hs]; [done|].
  destruct (step_parks _ _ _ _ _ _ Hs); lia.
Qed.

Lemma runs_parked system mb n mb' :
  runs system mb n mb' -> n = 0 ->
  kept_or_gone (guarded (Mailbox.inner mb)) (guarded (Mailbox.inner mb')).
Proof.
  intros Hr Hn. induction Hr as [|n mb1 ins outs k mb2 Hr IH Hs]; [by left|].
  pose proof (runs_nonneg _ _ _ _ Hr) as Hn0.
  assert (k = 0) as -> by (destruct (step_parks _ _ _ _ _ _ Hs); lia).
  unfold kept_or_gone.
  destruct (step_parked _ _ _ _ _ _ Hs eq_refl) as [-> | E]; [apply IH; lia|by right].
Qed.

(** *** Properties *)

(** C23: no lost wakeup. Along every sequence of mailbox calls, by any threads, from
    creation on: while a flow is parked no hop its filter accepts is in the queue
    (parking re-checks the queue under the lock a push takes), and pushing a hop it
    accepts, from the user or from the system, hands over that very flow, unparks it
    and leaves the queue alone. *)
Theorem no_lost_wakeup system c ins outs mb flow :
  config_ok c -> reachable system c ins outs mb ->
  let i := guarded (Mailbox.inner mb) in
  MailboxInner.parked i = Some flow -> poisoned (Mailbox.inner mb) = false ->
  Forall (fun v => WaitFilter.matches (MailboxInner.parked_filter i) v = false) (hops_of i) /\
  forall v, WaitFilter.matches (MailboxInner.parked_filter i) v = true ->
    exists mb', Mailbox.push mb v = (Ok (Ok (Handoff flow)), mb') /\
      Mailbox.push_system mb v = (Ok (Handoff flow), mb') /\
      MailboxInner.parked (guarded (Mailbox.inner mb')) = None /\
      hops_of (guarded (Mailbox.inner mb')) = hops_of i.
Proof.
  intros Hc Hr i Hp Hu. destruct (reachable_ok _ _ _ _ _ Hc Hr) as [[_ Hn] _].
  split; [apply Hn; fold i; by rewrite Hp|]. intros v Hm.
  unfold Mailbox.push, Mailbox.push_system, Mailbox.locked.
  rewrite !with_lock_ok by done. fold i.
  unfold Mailbox.push_locked, Mailbox.push_system_locked. rewrite Hp. simpl. rewrite Hm. simpl.
  eexists. by split_and!.
Qed.


(** C26: the memory contract. Without system hops a mailbox never holds more hops
    than its capacity nor more bytes than its budget, and the occupancy [stats]
    reports is exactly the number of queued hops and their total size. *)
Theorem mailbox_bounded c ins outs mb :
  config_ok c -> reachable false c ins outs mb -> poisoned (Mailbox.inner mb) = false ->
  let q := hops_of (guarded (Mailbox.inner mb)) in
  Z.of_nat (length q) <= MailboxConfig.capacity c /\
  charge q <= MailboxConfig.bytes c /\
  exists s, Mailbox.stats mb = (Ok s, mb) /\
    MailboxStats.queued_messages s = Z.of_nat (length q) /\
    MailboxStats.queued_bytes s = charge q.
Proof.
  intros Hc Hr Hu q. destruct (reachable_bounds _ _ _ _ Hc Hr)
    as ([(_ & _ & Hb & _) _] & Hl & [Hw1 Hw2]).
  injection Hl as Hl1 Hl2. rewrite Hl1 in Hw1. rewrite Hb, Hl2 in Hw2.
  split_and!; [done..|]. unfold Mailbox.stats, Mailbox.locked. rewrite with_lock_ok by done.
  exists (fst (Mailbox.stats_locked (guarded (Mailbox.inner mb)))).
  split; [|split; [reflexivity|exact Hb]].
  simpl. f_equal. destruct mb as [[p i] cf]. simpl in *. by subst p.
Qed.

(** C27: a deadline acts on its own wait only. If parking a flow returned epoch [e],
    then after any calls that install fewer than 2^64 further parks: once another
    park was installed [take_parked_at e] takes nobody and changes nothing, filter
    included; before that it takes the flow that park installed, if it is still
    parked, and nobody otherwise. *)
Theorem stale_deadline system c ins outs mb flow f e mb1 n mb2 :
  config_ok c -> reachable system c ins outs mb ->
  MailboxInner.parked (guarded (Mailbox.inner mb)) = None ->
  Mailbox.park_filter mb flow f = (Ok (Ok e), mb1) ->
  runs system mb1 n mb2 -> n < 2 ^ 64 -> poisoned (Mailbox.inner mb2) = false ->
  let i := guarded (Mailbox.inner mb2) in
  if n =? 0 then
    MailboxInner.parked i = None /\ Mailbox.take_parked_at mb2 e = (Ok None, mb2) \/
    MailboxInner.parked i = Some flow /\
    exists mb3, Mailbox.take_parked_at mb2 e = (Ok (Some flow), mb3) /\
      MailboxInner.parked (guarded (Mailbox.inner mb3)) = None
  else Mailbox.take_parked_at mb2 e = (Ok None, mb2).
Proof.
  intros Hc Hr Hp Hk Hn Hlt Hu i.
  pose proof (reachable_ok _ _ _ _ _ Hc Hr) as [Hi _].
  pose proof (mailbox_step_ok system _ _ _ _ _ (step_park _ _ _ _ _ _ Hp Hk) Hi) as [Hi1 _].
  apply locked_inv in Hk as (Hk & _).
  unfold Mailbox.park_locked in Hk. destruct (MailboxQueue.take _ f) as [[v|] q']; [done|].
  injection Hk as <- Hk. set (w := wrap_u 64 _).
  assert (in_u 64 w) as Hw by by apply wrap_u_range.
  assert (MailboxInner.wait_epoch (guarded (Mailbox.inner mb1)) = w) as E1 by by rewrite <- Hk.
  destruct (runs_epoch _ _ _ _ Hn Hi1) as (H0n & _ & E2); [by rewrite E1|].
  rewrite E1 in E2. fold i in E2.
  assert (mb2 = Mailbox.mk (unlock i) (Mailbox.config mb2)) as Emb.
  { unfold i. destruct mb2 as [[p j] cf]. simpl in *. by subst p. }
  unfold Mailbox.take_parked_at, Mailbox.locked. rewrite with_lock_ok by done. fold i.
  unfold Mailbox.take_at_locked. rewrite E2. destruct (Z.eqb_spec n 0) as [->|Hnz].
  - rewrite Z.add_0_r, (wrap_u_id _ w), Z.eqb_refl by done. simpl.
    destruct (runs_parked _ _ _ _ Hn eq_refl) as [E|E]; fold i in E; rewrite E.
    + rewrite <- Hk. right. simpl. split; [done|]. eexists. by split.
    + left. split; [done|]. by rewrite Emb at 2.
  - rewrite (proj2 (Z.eqb_neq (wrap_u 64 (w + n)) w)); simpl; [by rewrite Emb at 2|].
    unfold wrap_u, in_u in *. intros Heq.
    rewrite <- (Z.mod_small w (2 ^ 64)) in Heq at 2 by done.
    pose proof (Z.div_mod (w + n) (2 ^ 64)). pose proof (Z.div_mod w (2 ^ 64)). nia.
Qed.

End mailbox.

(** ** Two sequences worth knowing, on the x86-64 layout *)

Section sequences.
Context {H : Type}.

(** A one-hop inbox that rejects when full. *)
Definition one_slot : MailboxConfig.t := MailboxConfig.new 1 Reject.

(** The wait of a sender is not re-checked. A refused sender is parked in a second
    critical section ([push], then [park_sender]) that does not look at the queue
    again, and a waiting sender is admitted only after a pop that found a hop. So for
    any receiver, sender and hop there is a sequence of calls in which the push is
    refused, the receiver drains the inbox in between, and both flows end up parked in
    the mailbox with its queue empty: the receiver waiting for any hop, the sender
    holding one. Two flows that could proceed wait for each other. *)
Lemma sender_stranded (recv snd : Flow.t H) (v : Value.t) :
  exists mb1 mb2 mb3 mb4 mb5 mb6 mb7,
    Mailbox.push (Mailbox.with_config one_slot) Value.Unit = (Ok (Ok Queued), mb1) /\
    Mailbox.push mb1 v = (Ok (Err (mk_full MessageLimit)), mb2) /\
    Mailbox.try_pop mb2 = (Ok (Some Value.Unit), mb3) /\
    Mailbox.admit_waiting_sender mb3 = (Ok None, mb4) /\
    Mailbox.try_pop mb4 = (Ok None, mb5) /\
    Mailbox.park mb5 recv = (Ok (Ok 1), mb6) /\
    Mailbox.park_sender mb6 snd v = (Parked, mb7) /\
    hops_of (guarded (Mailbox.inner mb7)) = [] /\
    MailboxInner.parked (guarded (Mailbox.inner mb7)) = Some recv /\
    WaitFilter.matches (MailboxInner.parked_filter (guarded (Mailbox.inner mb7))) v = true /\
    MailboxInner.waiting_senders (guarded (Mailbox.inner mb7)) = [mk_waiting snd v].
Proof. do 7 eexists. repeat (split; [vm_compute; reflexivity|]). vm_compute. reflexivity. Qed.

(** under DropOldest a hop larger than the whole byte budget empties the inbox and
    is refused all the same: every queued hop is evicted, the push answers
    [MailboxFull], and the evictions are not counted in [dropped_oldest]. *)
Lemma drop_oldest_flushes (mb : Mailbox.t H) (v : Value.t) :
  poisoned (Mailbox.inner mb) = false ->
  queue_ok (MailboxInner.queue (guarded (Mailbox.inner mb))) ->
  MailboxInner.parked (guarded (Mailbox.inner mb)) = None ->
  MailboxConfig.overflow (Mailbox.config mb) = DropOldest ->
  MailboxQueue.byte_limit (MailboxInner.queue (guarded (Mailbox.inner mb))) <
    Value.memory_size v ->
  let r := Mailbox.push mb v in
  fst r = Ok (Err (mk_full ByteLimit)) /\
  hops_of (guarded (Mailbox.inner (snd r))) = [] /\
  MailboxStats.dropped_oldest (MailboxInner.stats (guarded (Mailbox.inner (snd r)))) =
    MailboxStats.dropped_oldest (MailboxInner.stats (guarded (Mailbox.inner mb))).
Proof.
  intros Hu Hq Hp Hd Hv. unfold Mailbox.push, Mailbox.locked. rewrite with_lock_ok by done.
  unfold Mailbox.push_locked, Mailbox.enqueue_locked. rewrite Hp, Hd. simpl.
  pose proof (enqueue_exact _ v DropOldest Hq) as [E _].
  unfold spec_enqueue in E. rewrite (proj2 (Z.ltb_lt _ _) Hv) in E.
  pose proof (charge_nonneg (MailboxQueue.hops (MailboxInner.queue (guarded (Mailbox.inner mb))))).
  replace (fits _ _ _ _) with false in E by (symmetry; apply andb_false_iff; right; lia).
  destruct (MailboxQueue.enqueue _ v DropOldest) as [x q']. simpl in E.
  injection E as -> E. simpl. split_and!; done.
Qed.
End sequences.

(** ** Witnesses *)

Section witnesses.

Definition some_flow (i : FlowId.t) : Flow.t unit :=
  Flow.mk i
    (mk_vm Chunk.default NativeTable.empty (NativeGate.mk false [] 0 0%N 0 0%N) [] 0 0 None)
    0%N 0%N Never 0%N None None None None
    (Cap.mk (CapTarget.Flow i) CapRights.NONE None 0) 0%N 0%N.

Definition tagged (t : Z) : Value.t := Value.Message (Msg.new 1 7 t Value.Unit).

(** A fresh mailbox of [one_slot], and one whose owner parked for tag 3 while a hop of
    tag 5 is queued. *)
Definition fresh_mb : Mailbox.t unit := Mailbox.with_config one_slot.
Definition queued_mb : Mailbox.t unit := snd (Mailbox.push fresh_mb (tagged 5)).
Definition parked_mb : Mailbox.t unit :=
  snd (Mailbox.park_match queued_mb (some_flow 9) 3).

Lemma one_slot_ok : config_ok one_slot.
Proof. by split. Qed.

Lemma queued_mb_reachable : reachable false one_slot [] [] queued_mb.
Proof.
  refine (reach_step false one_slot [] [] fresh_mb [] [] 0 queued_mb (reach_start _ _) _).
  by apply (step_push false fresh_mb (tagged 5) (Ok Queued)).
Qed.

Lemma parked_mb_reachable : reachable false one_slot [9] [] parked_mb.
Proof.
  refine (reach_step false one_slot [] [] queued_mb [9] [] 1 parked_mb queued_mb_reachable _).
  by apply (step_park false queued_mb (some_flow 9) (WaitFilter.Tag 3) (Ok 1)).
Qed.

Lemma queue_refines_fifo_witness :
  let q := MailboxInner.queue (guarded (Mailbox.inner parked_mb)) in
  fst (MailboxQueue.enqueue q (tagged 6) DropOldest) = Ok DroppedOldestHop /\
  fst (MailboxQueue.take q (WaitFilter.Tag 5)) = Some (tagged 5) /\
  snd (spec_enqueue 1 MailboxBytes.DEFAULT [tagged 5] (tagged 6) DropOldest) = [tagged 6].
Proof.
  intros q. assert (queue_ok q) as Hq by (unfold queue_ok; vm_compute; intuition congruence).
  destruct (queue_refines_fifo q (tagged 6) DropOldest (WaitFilter.Tag 5) Hq) as (E & T & _).
  split_and!; [refine (eq_trans (f_equal fst E) _)|refine (eq_trans (f_equal fst T) _)|];
    by vm_compute.
Defined.

Lemma no_lost_wakeup_witness :
  exists mb', Mailbox.push parked_mb (tagged 3) = (Ok (Ok (Handoff (some_flow 9))), mb').
Proof.
  destruct (no_lost_wakeup false one_slot [9] [] parked_mb (some_flow 9) one_slot_ok
    parked_mb_reachable eq_refl eq_refl) as [_ Hm].
  destruct (Hm (tagged 3) eq_refl) as (mb' & Hp & _). by exists mb'.
Defined.


Lemma mailbox_bounded_witness :
  Z.of_nat (length (hops_of (guarded (Mailbox.inner parked_mb)))) <= 1.
Proof.
  destruct (mailbox_bounded one_slot [9] [] parked_mb one_slot_ok parked_mb_reachable eq_refl)
    as [Hl _]. exact Hl.
Defined.

Lemma stale_deadline_witness :
  Mailbox.take_parked_at parked_mb 1 <> (Ok None, parked_mb).
Proof.
  destruct (stale_deadline false one_slot [] [] queued_mb (some_flow 9) (WaitFilter.Tag 3) 1
    parked_mb 0 parked_mb one_slot_ok queued_mb_reachable eq_refl eq_refl (runs_refl _ _) eq_refl eq_refl)
    as [[Hp _]|(_ & mb3 & Ht & _)]; [discriminate Hp|]. rewrite Ht. discriminate.
Defined.

Definition dropping_mb : Mailbox.t unit :=
  snd (Mailbox.push (Mailbox.with_config
    (MailboxConfig.with_bytes (MailboxConfig.new 4 DropOldest) 1024)) (tagged 5)).
Definition huge : Value.t := Value.Bytes 1%N (replicate 1024 Byte.x00).

Lemma drop_oldest_flushes_witness :
  length (hops_of (guarded (Mailbox.inner dropping_mb))) = 1%nat /\
  hops_of (guarded (Mailbox.inner (snd (Mailbox.push dropping_mb huge)))) = [].
Proof.
  assert (queue_ok (MailboxInner.queue (guarded (Mailbox.inner dropping_mb)))) as Hq
    by (unfold queue_ok; vm_compute; intuition congruence).
  destruct (drop_oldest_flushes dropping_mb huge eq_refl Hq eq_refl eq_refl
    ltac:(by vm_compute)) as (_ & Hh & _). by split.
Defined.
End witnesses.
