(* ===== verification/Oneshot.v ===== *)
(** The completion channel of a flow and the handle that reads it.  Models
    scheduler/oneshot.rs and scheduler/handle.rs.

    A method runs its critical section on the slot's mutex; besides its answer a sender's
    method says whether it notified the condition variable.  A blocking wait gives
    the mutex up: what the other threads do to it meanwhile is an argument. *)

From S2P Require Import Prelude Sync Vm Process.

(** [scheduler/oneshot.rs] [Slot] *)
Inductive Slot (A : Type) :=
| SPending
| SReady (value : A)
| SAbandoned
| STaken.
Arguments SPending {A}.
Arguments SReady {A} value.
Arguments SAbandoned {A}.
Arguments STaken {A}.

(** [scheduler/oneshot.rs] [JoinState] *)
Inductive JoinState (A : Type) := Ready (value : A) | Pending.
Arguments Ready {A} value.
Arguments Pending {A}.

(** [scheduler/oneshot.rs] [collect] *)
Definition collect {A} (slot : Slot A) : option (result A RuntimeError) * Slot A :=
  match slot with
  | SReady value => (Some (Ok value), STaken)
  | SPending => (None, SPending)
  | SAbandoned => (Some (Err (Abandoned "oneshot")), SAbandoned)
  | STaken => (Some (Err (AlreadyCollected "oneshot")), STaken)
  end.

(** [result.map(JoinState::Ready)]. *)
Definition map_ready {A} (r : result A RuntimeError) : result (JoinState A) RuntimeError :=
  let? v := r in Ok (Ready v).

(** [scheduler/oneshot.rs] [Inner]: the mutex; the condition variable has no data. *)
Definition Inner (A : Type) : Type := mutex (Slot A).

(** [scheduler/oneshot.rs] [channel]: the shared slot and the sender's [sent] flag. *)
Definition channel {A} : Inner A * bool := (mutex_new SPending, false).

Module Sender.
Section sender.
Context {A : Type}.

(** What a method of the sender did: whether it notified, the fault it reported. *)
Record effect := mk_effect { notified : bool; fault : option RuntimeError }.

(** [scheduler/oneshot.rs] [Sender::drop] *)
Definition drop (sent : bool) (m : Inner A) : effect * Inner A :=
  if sent then (mk_effect false None, m)
  else match lock m "oneshot::disconnect" with
  | Ok SPending => (mk_effect true None, unlock SAbandoned)
  | Ok slot => (mk_effect false None, unlock slot)
  | Err e => (mk_effect false (Some e), m)
  end.

(** [scheduler/oneshot.rs:147-160] [Sender::send]: the body of [send], before the sender it consumed is dropped: [sent] is set once
    the value is stored.  Its debug assertion holds: a sender that has not sent finds the
    slot pending ([holds_pending] below). *)
Definition send_body (value : A) (m : Inner A) : bool * effect * Inner A :=
  match lock m "oneshot::send" with
  | Ok _ => (true, mk_effect true None, unlock (SReady value))
  | Err e => (false, mk_effect false (Some e), m)
  end.

(** [scheduler/oneshot.rs] [Sender::send] *)
Definition send (value : A) (m : Inner A) : list effect * Inner A :=
  let '(sent, e, m1) := send_body value m in
  let (e', m2) := drop sent m1 in
  ([e; e'], m2).

End sender.
End Sender.

Module Receiver.
Section receiver.
Context {A : Type}.

(** [scheduler/oneshot.rs] [Receiver::try_join] *)
Definition try_join (m : Inner A) : result (JoinState A) RuntimeError * Inner A :=
  match lock m "oneshot::try_join" with
  | Err e => (Err e, m)
  | Ok slot =>
    match collect slot with
    | (Some r, slot) => (map_ready r, unlock slot)
    | (None, slot) => (Ok Pending, unlock slot)
    end
  end.

(** One turn of a waiting loop: the clock read before waiting, and what other threads do
    to the slot until the waiter holds it again.  A spurious wakeup is a turn whose
    [during] does nothing. *)
Record turn := mk_turn { now : Z; during : Inner A -> Inner A }.

(** [deadline.checked_duration_since(now)]. *)
Definition checked_duration_since (deadline now : Z) : option Z :=
  if now <=? deadline then Some (deadline - now) else None.

(** [scheduler/oneshot.rs:221-243] [Receiver::join_deadline]: the loop of [join_deadline]; [None] when it still waits after the given turns. *)
Fixpoint join_deadline_loop (deadline : Z) (turns : list turn) (slot : Slot A)
  : option (result (JoinState A) RuntimeError * Inner A) :=
  match collect slot with
  | (Some r, slot) => Some (map_ready r, unlock slot)
  | (None, slot) =>
    match turns with
    | [] => None
    | t :: turns =>
      match checked_duration_since deadline (now t) with
      | None => Some (Ok Pending, unlock slot)
      | Some remaining =>
        if remaining =? 0 then Some (Ok Pending, unlock slot)
        else
          match wait_timeout (during t) (unlock slot) "oneshot::join_deadline" with
          | (Err e, m) => Some (Err e, m)
          | (Ok slot, _) => join_deadline_loop deadline turns slot
          end
      end
    end
  end.

(** [scheduler/oneshot.rs:219-220] [Receiver::join_deadline] *)
Definition join_deadline (deadline : Z) (turns : list turn) (m : Inner A)
  : option (result (JoinState A) RuntimeError * Inner A) :=
  match lock m "oneshot::join_deadline" with
  | Err e => Some (Err e, m)
  | Ok slot => join_deadline_loop deadline turns slot
  end.

(** [scheduler/oneshot.rs] [Receiver::wait_forever] *)
Fixpoint wait_loop (turns : list (Inner A -> Inner A)) (slot : Slot A)
  : option (result A RuntimeError * Inner A) :=
  match collect slot with
  | (Some r, slot) => Some (r, unlock slot)
  | (None, slot) =>
    match turns with
    | [] => None
    | during :: turns =>
      match wait during (unlock slot) "oneshot::wait" with
      | (Err e, m) => Some (Err e, m)
      | (Ok slot, _) => wait_loop turns slot
      end
    end
  end.
Definition wait_forever (turns : list (Inner A -> Inner A)) (m : Inner A)
  : option (result A RuntimeError * Inner A) :=
  match lock m "oneshot::join" with
  | Err e => Some (Err e, m)
  | Ok slot => wait_loop turns slot
  end.

(** [scheduler/oneshot.rs] [Receiver::join_timeout]: [instant_max] bounds the clock. *)
Definition join_timeout (instant_max start timeout : Z) (turns : list turn) (m : Inner A)
  : option (result (JoinState A) RuntimeError * Inner A) :=
  if start + timeout <=? instant_max then join_deadline (start + timeout) turns m
  else match wait_forever (map during turns) m with
  | Some (r, m) => Some (map_ready r, m)
  | None => None
  end.

(** [scheduler/oneshot.rs] [Receiver::join] *)
Definition join (turns : list (Inner A -> Inner A)) (m : Inner A)
  : option (result A RuntimeError * Inner A) := wait_forever turns m.

End receiver.
Arguments mk_turn {A} _ _.
Arguments now {A} _.
Arguments during {A} _ _.
End Receiver.

Module FlowHandle.

(** [scheduler/handle.rs] [FlowHandle::settle] *)
Definition settle (state : result (JoinState FlowOutcome) RuntimeError) : option FlowOutcome :=
  match state with
  | Ok (Ready outcome) => Some outcome
  | Ok Pending => None
  | Err e => Some (Failed (error_string e))
  end.

(** [scheduler/handle.rs] [FlowHandle::join]: outer [None] while it blocks. *)
Definition join (turns : list (Inner FlowOutcome -> Inner FlowOutcome)) (m : Inner FlowOutcome)
  : option (FlowOutcome * Inner FlowOutcome) :=
  match Receiver.join turns m with
  | Some (Ok outcome, m) => Some (outcome, m)
  | Some (Err e, m) => Some (Failed (error_string e), m)
  | None => None
  end.

(** [scheduler/handle.rs] [FlowHandle::try_join] *)
Definition try_join (m : Inner FlowOutcome) : option FlowOutcome * Inner FlowOutcome :=
  let (r, m) := Receiver.try_join m in (settle r, m).

(** [scheduler/handle.rs] [FlowHandle::join_timeout] *)
Definition join_timeout instant_max start timeout turns (m : Inner FlowOutcome)
  : option (option FlowOutcome * Inner FlowOutcome) :=
  match Receiver.join_timeout instant_max start timeout turns m with
  | Some (r, m) => Some (settle r, m)
  | None => None
  end.

(** [scheduler/handle.rs] [FlowHandle::join_deadline] *)
Definition join_deadline deadline turns (m : Inner FlowOutcome)
  : option (option FlowOutcome * Inner FlowOutcome) :=
  match Receiver.join_deadline deadline turns m with
  | Some (r, m) => Some (settle r, m)
  | None => None
  end.

End FlowHandle.

(** ** The channel as threads use it

    The sender's thread stores the value (or the abandonment) under the lock and
    notifies after dropping it; the joiner checks the slot and starts waiting in one
    critical section.  Between any two of these steps other steps may run. *)
Module Channel.
Section channel.
Context {A : Type}.

Inductive sender_state := SHolds | SMustNotify | SGone.
Inductive joiner_state := JIdle | JBlocked | JWoken | JDone (r : result A RuntimeError).

Record t := mk { slot : Slot A; sender : sender_state; joiner : joiner_state }.

Definition init : t := mk SPending SHolds JIdle.

(** [Receiver::wait_forever]: under the lock, take what is there or block. *)
Definition check (s : Slot A) : joiner_state * Slot A :=
  match collect s with
  | (Some r, s') => (JDone r, s')
  | (None, s') => (JBlocked, s')
  end.

Inductive step : t -> t -> Prop :=
| step_send v s j :
    step (mk s SHolds j)
      (mk (guarded (snd (Sender.send_body v (unlock s)))) SMustNotify j)
| step_drop s j :
    step (mk s SHolds j)
      (mk (guarded (snd (Sender.drop false (unlock s))))
         (if Sender.notified (fst (Sender.drop false (unlock s))) then SMustNotify else SGone) j)
| step_notify s j :
    step (mk s SMustNotify j)
      (mk s SGone (match j with JBlocked => JWoken | _ => j end))
| step_join s p : step (mk s p JIdle) (mk (snd (check s)) p (fst (check s)))
| step_spurious s p : step (mk s p JBlocked) (mk s p JWoken)
| step_wake s p : step (mk s p JWoken) (mk (snd (check s)) p (fst (check s)))
| step_poll s p j :
    step (mk s p j) (mk (guarded (snd (Receiver.try_join (unlock s)))) p j).

End channel.
Arguments t : clear implicits.
Arguments joiner_state : clear implicits.
End Channel.

(** ** Theory *)

Section theory.
Context {A : Type}.
Implicit Types (m : Inner A) (v : A) (s : Slot A).

(** The answers of [n] polls, in order. *)
Fixpoint polls (n : nat) m : list (result (JoinState A) RuntimeError) * Inner A :=
  match n with
  | O => ([], m)
  | S n => let (r, m1) := Receiver.try_join m in
           let (rs, m2) := polls n m1 in (r :: rs, m2)
  end.

(** A slot whose polls answer [r] and leave it alone. *)
Lemma polls_stable r s n :
  Receiver.try_join (unlock s) = (r, unlock s) ->
  polls n (unlock s) = (replicate n r, unlock s).
Proof. intros E. induction n as [|n IH]; simpl; [done|]. by rewrite E, IH. Qed.

Lemma send_pending v :
  Sender.send v (unlock SPending) =
  ([Sender.mk_effect true None; Sender.mk_effect false None], unlock (SReady v)).
Proof. reflexivity. Qed.

(** The waiting loop answers by the first turn whose clock is at or past the deadline;
    it answers [Pending] only then, and the slot is intact. *)
Lemma deadline_loop_bounded d turns s t :
  t ∈ turns -> d <= Receiver.now t ->
  is_Some (Receiver.join_deadline_loop d turns s).
Proof.
  revert s. induction turns as [|u turns IH]; intros s Ht Hd; [by apply elem_of_nil in Ht|].
  destruct s; simpl; try by eexists. unfold Receiver.checked_duration_since.
  destruct (Z.leb_spec (Receiver.now u) d); [|by eexists].
  destruct (Z.eqb_spec (d - Receiver.now u) 0); [by eexists|].
  apply elem_of_cons in Ht as [->|Ht]; [lia|].
  destruct (lock _ _) as [s'|e]; [by apply IH|by eexists].
Qed.

Lemma deadline_loop_pending d turns s m :
  Receiver.join_deadline_loop d turns s = Some (Ok Pending, m) ->
  m = unlock SPending /\ exists t, t ∈ turns /\ d <= Receiver.now t.
Proof.
  revert s. induction turns as [|u turns IH]; intros s; destruct s; simpl; try done.
  unfold Receiver.checked_duration_since.
  destruct (Z.leb_spec (Receiver.now u) d) as [Hle|Hle].
  - destruct (Z.eqb_spec (d - Receiver.now u) 0) as [E|_].
    + intros [= <-]. split; [done|]. exists u. split; [by left|lia].
    + destruct (lock _ _) as [s'|e] eqn:E; [|done]. intros H.
      apply IH in H as [-> (t & Ht & Hd)]. split; [done|]. exists t. by split; [right|].
  - intros [= <-]. split; [done|]. exists u. split; [by left|lia].
Qed.

(** What holds between the steps of the sender's thread and of the joiner's. *)
Record chan_ok (c : Channel.t A) : Prop := {
  holds_pending : Channel.sender c = Channel.SHolds -> Channel.slot c = SPending;
  gone_settled : Channel.sender c <> Channel.SHolds -> Channel.slot c <> SPending;
  blocked_pending :
    Channel.joiner c = Channel.JBlocked -> Channel.sender c <> Channel.SGone }.

Lemma chan_ok_init : chan_ok Channel.init.
Proof. by split. Qed.

Lemma chan_ok_check s p :
  chan_ok (Channel.mk s p Channel.JIdle) ->
  chan_ok (Channel.mk (snd (Channel.check s)) p (fst (Channel.check s))).
Proof.
  intros [H1 H2 H3]; simpl in *.
  destruct s; split; simpl; intros Hp; try done; try (by specialize (H1 Hp)).
  - by apply H2.
  - intros ->. by apply H2.
Qed.

Lemma chan_ok_idle s p j : chan_ok (Channel.mk s p j) -> chan_ok (Channel.mk s p Channel.JIdle).
Proof. intros [H1 H2 H3]; by split. Qed.

Lemma chan_ok_step c c' : chan_ok c -> Channel.step c c' -> chan_ok c'.
Proof.
  intros Hok Hs. destruct Hs as [v s j|s j|s j|s p|s p|s p|s p j].
  - split; simpl; by intros.
  - destruct Hok as [H1 H2 H3]; simpl in *. rewrite (H1 eq_refl). by split.
  - destruct Hok as [H1 H2 H3]; simpl in *. split; simpl; [done| |by destruct j].
    intros _. by apply H2.
  - by apply chan_ok_check.
  - destruct Hok as [H1 H2 H3]; simpl in *. by split.
  - by apply chan_ok_check, (chan_ok_idle _ _ Channel.JWoken).
  - destruct Hok as [H1 H2 H3]; simpl in *. split; simpl; try done; intros Hp.
    + by rewrite (H1 Hp).
    + specialize (H2 Hp). by destruct s.
Qed.

Lemma chan_ok_reachable c : rtc Channel.step Channel.init c -> chan_ok c.
Proof.
  intros H. remember Channel.init as c0 eqn:E.
  assert (chan_ok c0) as H0 by (subst; apply chan_ok_init). clear E.
  induction H as [|x y z Hs _ IH]; [done|]. by apply IH, (chan_ok_step x).
Qed.

End theory.

(** C16: A flow's outcome is handed out exactly once: every poll before it is sent
    answers [Pending], the first one after answers the value, and each later one
    [AlreadyCollected], never [Abandoned]. *)
Theorem outcome_handed_out_once {A} (v : A) n k :
  let (before, m) := polls n (fst channel) in
  let (effects, m) := Sender.send v m in
  let (after, m) := polls (S k) m in
  before = replicate n (Ok Pending) /\
  after = Ok (Ready v) :: replicate k (Err (AlreadyCollected "oneshot")) /\
  map Sender.fault effects = [None; None] /\ m = unlock STaken.
Proof.
  simpl. change (mutex_new SPending) with (unlock (@SPending A)).
  rewrite (polls_stable (Ok Pending)) by done. rewrite send_pending. simpl.
  change (mk_mutex false (@STaken A)) with (unlock (@STaken A)).
  by rewrite (polls_stable (Err (AlreadyCollected "oneshot"))).
Qed.



(** A bounded join is bounded: whatever wakes it meanwhile, spurious wakeups
    included, it has answered by the first turn whose clock reaches the deadline; it gives
    up only at or after the deadline, and then the receiver is intact. *)
Lemma join_deadline_bounded {A} d (turns : list (Receiver.turn (A := A))) m t
    (Ht : t ∈ turns) (Hd : d <= Receiver.now t) :
  exists r m', Receiver.join_deadline d turns m = Some (r, m') /\
    (r = Ok Pending ->
     m' = unlock SPending /\ exists u, u ∈ turns /\ d <= Receiver.now u).
Proof.
  unfold Receiver.join_deadline. destruct (lock m _) as [s|e].
  - destruct (deadline_loop_bounded d turns s t Ht Hd) as [[r m'] E].
    exists r, m'. split; [done|]. intros ->. by eapply deadline_loop_pending.
  - by eexists _, _.
Qed.

Lemma join_deadline_bounded_witness :
  let spurious at_ := Receiver.mk_turn at_ (fun m : Inner Z => m) in
  spurious 10 ∈ [spurious 3; spurious 7; spurious 10] /\ 10 <= 10 /\
  exists r m', Receiver.join_deadline 10 [spurious 3; spurious 7; spurious 10] (fst channel) =
    Some (r, m') /\
    (r = Ok Pending ->
     m' = unlock SPending /\
     exists u, u ∈ [spurious 3; spurious 7; spurious 10] /\ 10 <= Receiver.now u).
Proof.
  intros spurious.
  assert (spurious 10 ∈ [spurious 3; spurious 7; spurious 10]) as Hin
    by (right; right; left).
  assert (10 <= 10) as Hd by lia.
  split; [exact Hin|]. split; [exact Hd|].
  exact (join_deadline_bounded 10 _ (fst channel) _ Hin Hd).
Defined.

(** A value sent into a poisoned slot is lost with two faults and no notification: a
    later join answers [PoisonedLock]; nobody is told [Abandoned], and a joiner already
    waiting is not woken. *)
Lemma send_poisoned {A} (v : A) (s : Slot A) :
  Sender.send v (poison s) =
    ([Sender.mk_effect false (Some (PoisonedLock "oneshot::send"));
      Sender.mk_effect false (Some (PoisonedLock "oneshot::disconnect"))], poison s) /\
  Receiver.join [] (snd (Sender.send v (poison s))) =
    Some (Err (PoisonedLock "oneshot::join"), poison s).
Proof. done. Qed.
