(* ===== verification/Shared.v ===== *)
(** The state a runtime's threads share, and the operations every scheduler function is
    built from.  Models scheduler/metrics.rs, the data of timer.rs and the struct [Shared]
    of runtime.rs.

    What the code holds behind an [Arc] (mailboxes, flow metrics, completion slots,
    supervisor queues) lives in a store indexed by references.  A scheduler function is a
    [W A]: it threads this state, and [None] is a panic of the thread that runs it. *)

From S2P Require Import Prelude Capability Values Sync Quota Native Vm Process CapTable.
From S2P Require Import Lifecycle Mailbox Oneshot.

(** ** Metrics *)

Module RuntimeMetrics.

(** [scheduler/metrics.rs] [RuntimeMetrics]: the counters of a build without the JIT. *)
Record t := mk {
  processes_spawned : Z;
  processes_completed : Z;
  processes_failed : Z;
  messages_sent : Z;
  steals : Z;
  reschedules : Z }.

#[global] Instance eta : Eta t := fun m =>
  mk (processes_spawned m) (processes_completed m) (processes_failed m) (messages_sent m)
    (steals m) (reschedules m).

Definition default : t := mk 0 0 0 0 0 0.

(** [scheduler/metrics.rs] [RuntimeMetrics::inc] *)
Definition inc (counter : Z) : Z := wrap_u 64 (counter + 1).

(** [scheduler/metrics.rs:33-53] [RuntimeMetrics::snapshot]: a value of the same shape. *)
Definition snapshot (m : t) : t :=
  mk (processes_spawned m) (processes_completed m) (processes_failed m) (messages_sent m)
    (steals m) (reschedules m).

(** [scheduler/metrics.rs:77-101] [RuntimeMetricsSnapshot::fmt] *)
Definition to_string (m : t) : string :=
  "spawned=" +:+ pretty (processes_spawned m) +:+ " completed=" +:+
  pretty (processes_completed m) +:+ " failed=" +:+ pretty (processes_failed m) +:+
  " messages=" +:+ pretty (messages_sent m) +:+ " steals=" +:+ pretty (steals m) +:+
  " reschedules=" +:+ pretty (reschedules m).

End RuntimeMetrics.

#[export] Instance eta_flow_metrics : Eta FlowMetrics := fun m =>
  mk_flow_metrics (instructions m) (messages_sent m) (messages_received m) (reschedules m).

(** ** Timer entries *)

(** An [Instant], in nanoseconds of the monotone clock; a [duration] is in
    milliseconds.  Adding a delay the VM can ask for stays within [Instant]'s range. *)
Definition instant : Type := Z.
Definition after (now : instant) (delay : duration) : instant := now + delay * 1000000.

(** [scheduler/timer.rs] [TimerPayload]: the mailbox is its reference. *)
Inductive TimerPayload (H : Type) :=
| WakeSleeper (flow : Flow.t H)
| WakeReceiver (pid : FlowId.t) (mailbox : N) (dest_reg : Z) (epoch : WaitEpoch).
Arguments WakeSleeper {H} flow.
Arguments WakeReceiver {H} pid mailbox dest_reg epoch.

(** [scheduler/timer.rs] [TimerEntry] *)
Record TimerEntry (H : Type) := mk_entry { deadline : instant; tpayload : TimerPayload H }.
Arguments mk_entry {H} _ _.
Arguments deadline {H} _.
Arguments tpayload {H} _.

(** [scheduler/timer.rs:74-78] [TimerWheel]: the entries of the heap, in no order that
    matters, and the flag; the condition variable has no data. *)
Record TimerWheel (H : Type) := mk_wheel {
  heap : mutex (list (TimerEntry H));
  stopping : mutex bool }.
Arguments mk_wheel {H} _ _.
Arguments heap {H} _.
Arguments stopping {H} _.
#[export] Instance eta_wheel H : Eta (TimerWheel H) := fun t => mk_wheel (heap t) (stopping t).

(** ** Supervisor queues *)

(** [scheduler/supervisor.rs] [ChildExit] *)
Record ChildExit := mk_exit { exit_id : FlowId.t; exit_outcome : FlowOutcome }.

(** ** The shared state *)

Module RuntimeConfig.

(** [scheduler/runtime.rs:32-63] [RuntimeConfig]: what the threads read of it. *)
Record t := mk {
  quantum : Z;
  mailbox : MailboxConfig.t;
  max_flows : Z;
  quota : QuotaConfig.t }.

(** [scheduler/runtime.rs] [DEFAULT_QUANTUM] *)
Definition DEFAULT_QUANTUM : Z := 10000.

(** [scheduler/runtime.rs] [RuntimeConfig::default] *)
Definition default : t := mk DEFAULT_QUANTUM MailboxConfig.DEFAULT 0 QuotaConfig.default.

End RuntimeConfig.

Module Shared.

(** [scheduler/runtime.rs] [Shared]: also the process-wide counters of ids
    (process.rs, monitor.rs, link.rs), the stores of what is shared through [Arc]s, the
    faults reported, oldest first, and the state of the operating system. *)
Record t (H R : Type) := mk {
  injector : list (Flow.t H);
  deques : list (list (Flow.t H));
  directory : list (mutex (gmap Z N));
  caps : CapTable.t;
  timer : TimerWheel H;
  notify : mutex unit;
  metrics : RuntimeMetrics.t;
  shutdown : bool;
  config : RuntimeConfig.t;
  quota_table : mutex (gmap Z N);
  monitors : mutex (gmap Z MonitorEntry);
  links : mutex (gmap Z Link);
  registry : mutex Registry.t;
  kill_signals : mutex (gmap Z FlowExitReason.t);
  waiting_send_at : mutex (gmap Z FlowId.t);
  ask_waits : mutex AskWaitIndex.inner;
  host_next_request_id : Z;
  next_flow : Z;
  next_monitor : Z;
  next_link : Z;
  mailboxes : gmap N (Mailbox.t H);
  flow_metrics : gmap N FlowMetrics;
  completions : gmap N (Inner FlowOutcome);
  supervisors : gmap N (mutex (list ChildExit));
  wld : world H;
  os : R;
  faults : list RuntimeError }.
Arguments mk {H R}.
Arguments injector {H R} _.
Arguments deques {H R} _.
Arguments directory {H R} _.
Arguments caps {H R} _.
Arguments timer {H R} _.
Arguments notify {H R} _.
Arguments metrics {H R} _.
Arguments shutdown {H R} _.
Arguments config {H R} _.
Arguments quota_table {H R} _.
Arguments monitors {H R} _.
Arguments links {H R} _.
Arguments registry {H R} _.
Arguments kill_signals {H R} _.
Arguments waiting_send_at {H R} _.
Arguments ask_waits {H R} _.
Arguments host_next_request_id {H R} _.
Arguments next_flow {H R} _.
Arguments next_monitor {H R} _.
Arguments next_link {H R} _.
Arguments mailboxes {H R} _.
Arguments flow_metrics {H R} _.
Arguments completions {H R} _.
Arguments supervisors {H R} _.
Arguments wld {H R} _.
Arguments os {H R} _.
Arguments faults {H R} _.

#[global] Instance eta H R : Eta (t H R) := fun s =>
  mk (injector s) (deques s) (directory s) (caps s) (timer s) (notify s) (metrics s)
    (shutdown s) (config s) (quota_table s) (monitors s) (links s) (registry s)
    (kill_signals s) (waiting_send_at s) (ask_waits s) (host_next_request_id s)
    (next_flow s) (next_monitor s) (next_link s) (mailboxes s) (flow_metrics s)
    (completions s) (supervisors s) (wld s) (os s) (faults s).

End Shared.
Import Shared.

#[export] Instance eta_flow H : Eta (Flow.t H) := fun f =>
  Flow.mk (Flow.id f) (Flow.fvm f) (Flow.mailbox f) (Flow.metrics f) (Flow.restart_policy f)
    (Flow.completion f) (Flow.pending_message f) (Flow.last_receive_dest f)
    (Flow.pending_send f) (Flow.supervisor f) (Flow.authority f) (Flow.cell f)
    (Flow.fquota f).
#[export] Instance eta_world H : Eta (world H) := fun w =>
  mk_world (cells w) (quotas w) (next_arc w) (host w).

(** The flows a mailbox holds: parked on it, or waiting to send to it. *)
Definition mailbox_flows {H} (i : MailboxInner.t H) : list (Flow.t H) :=
  option_list (MailboxInner.parked i) ++ map wflow (MailboxInner.waiting_senders i).
Definition held_flows {H R} (s : Shared.t H R) : list (Flow.t H) :=
  concat (map (fun x => mailbox_flows (guarded (Mailbox.inner (snd x))))
            (map_to_list (mailboxes s))).

(** ** Scheduler functions *)

Section ops.
Context {H R : Type} `{ValueLayout, Allocator}.
(** The operating system's generator and monotone clock; whether the build has overflow
    checks and debug assertions. *)
Context (getrandom : R -> option (list byte) * R) (clock : R -> instant * R) (checks : bool).
Implicit Types (s : Shared.t H R) (f : Flow.t H).

Definition W (A : Type) : Type := Shared.t H R -> option A * Shared.t H R.

Definition ret {A} (a : A) : W A := fun s => (Some a, s).
Definition bind {A B} (m : W A) (k : A -> W B) : W B := fun s =>
  match m s with
  | (Some a, s') => k a s'
  | (None, s') => (None, s')
  end.
Definition panic {A} : W A := fun s => (None, s).
Definition gets {A} (g : Shared.t H R -> A) : W A := fun s => (Some (g s), s).
Definition modify (g : Shared.t H R -> Shared.t H R) : W unit := fun s => (Some tt, g s).

Notation "'let*' x ':=' m 'in' k" := (bind m (fun x => k))
  (at level 10, x pattern, m at level 200, k at level 200).

(** [scheduler/error.rs] [report_fault]: the counter is the number of faults. *)
Definition report_fault (e : RuntimeError) : W unit :=
  modify (fun s => s <| faults ::= fun l => l ++ [e] |>).

(** [if let Err(e) = m { report_fault(e); }]. *)
Definition reporting {A} (m : W (result A RuntimeError)) : W unit :=
  let* r := m in
  match r with Ok _ => ret tt | Err e => report_fault e end.

(** A method of a store of the state. *)
Definition on_quotas {B} (g : mutex (gmap Z N) -> B * mutex (gmap Z N)) : W B := fun s =>
  let (b, m) := g (quota_table s) in (Some b, s <| quota_table := m |>).
Definition on_monitors {B} (g : mutex (gmap Z MonitorEntry) -> B * mutex (gmap Z MonitorEntry))
  : W B := fun s =>
  let (b, m) := g (monitors s) in (Some b, s <| monitors := m |>).
Definition on_links {B} (g : mutex (gmap Z Link) -> B * mutex (gmap Z Link)) : W B := fun s =>
  let (b, m) := g (links s) in (Some b, s <| links := m |>).
Definition on_registry {B} (g : mutex Registry.t -> B * mutex Registry.t) : W B := fun s =>
  let (b, m) := g (registry s) in (Some b, s <| registry := m |>).
Definition on_kills {B} (g : KillSignals.t -> B * KillSignals.t) : W B := fun s =>
  let (b, m) := g (kill_signals s) in (Some b, s <| kill_signals := m |>).
Definition on_waiting {B} (g : WaitingSendIndex.t -> B * WaitingSendIndex.t) : W B := fun s =>
  let (b, m) := g (waiting_send_at s) in (Some b, s <| waiting_send_at := m |>).
Definition on_asks {B} (g : AskWaitIndex.t -> B * AskWaitIndex.t) : W B := fun s =>
  let (b, m) := g (ask_waits s) in (Some b, s <| ask_waits := m |>).

(** A method of the directory, and of the mailbox behind a reference. *)
Definition on_directory {B}
    (g : list (mutex (gmap Z N)) -> option B * list (mutex (gmap Z N))) : W B := fun s =>
  let (b, d) := g (directory s) in (b, s <| directory := d |>).
Definition mailbox_at s (m : N) : Mailbox.t H := default Mailbox.new (mailboxes s !! m).
Definition on_mailbox {B} (m : N) (g : Mailbox.t H -> B * Mailbox.t H) : W B := fun s =>
  let (b, mb) := g (mailbox_at s m) in (Some b, s <| mailboxes ::= <[m := mb]> |>).

(** A method of the capability table. *)
Definition on_caps {A E} (op : CapTable.Op (R := R) E A) : W (result A E) := fun s =>
  let '(r, (tb, e)) := op (caps s, mk_env (cells (wld s)) (os s)) in
  (Some r, s <| caps := tb |> <| wld ::= fun w => with_cells w (ecells e) |>
             <| os := erng e |>).

(** A reading of the clock. *)
Definition now : W instant := fun s =>
  let (n, o) := clock (os s) in (Some n, s <| os := o |>).

(** A method of the quota behind a reference; the second form may panic. *)
Definition on_quota {B} (q : N) (g : FlowQuota.t -> B * FlowQuota.t) : W B := fun s =>
  let (b, q') := g (quotas (wld s) !!! q) in
  (Some b, s <| wld ::= fun w => with_quotas w (<[q := q']> (quotas w)) |>).
Definition on_quota_opt {B} (q : N) (g : FlowQuota.t -> option B * FlowQuota.t) : W B :=
  let* r := on_quota q g in
  match r with Some b => ret b | None => panic end.

(** [FlowQuota::check_send] with its two readings of the clock. *)
Definition check_send (q : N) : W (result unit QuotaError) :=
  let* t := now in
  let* t' := now in
  on_quota_opt q (fun fq => FlowQuota.check_send checks fq t t').

(** A method of the VM of a flow. *)
Definition on_vm {A} f (m : Vm.R H A) : W (result A Fault.t * Flow.t H) := fun s =>
  let (r, st) := m (mk_state (Flow.fvm f) (wld s)) in
  match r with
  | Some a => (Some (a, f <| Flow.fvm := vm st |>), s <| wld := Vm.wld st |>)
  | None => (None, s <| wld := Vm.wld st |>)
  end.

(** [let _ = flow.vm.resume_with(dest, value);]. *)
Definition resume f (dest : Z) (value : Value.t) : W (Flow.t H) :=
  let* x := on_vm f (resume_with checks dest value) in
  ret (snd x).

(** The counters of a flow. *)
Definition flow_counter f (g : FlowMetrics -> FlowMetrics) : W unit :=
  modify (fun s => s <| flow_metrics ::= alter g (Flow.metrics f) |>).
Definition count_received f : W unit :=
  flow_counter f (fun m => m <| messages_received ::= RuntimeMetrics.inc |>).
Definition count_sent f : W unit :=
  flow_counter f (fun m => m <| messages_sent ::= RuntimeMetrics.inc |>).

Definition inject f : W unit := modify (fun s => s <| injector ::= fun l => l ++ [f] |>).
(** [local.push(flow)] of worker [me]. *)
Definition push_local (me : nat) f : W unit :=
  modify (fun s => s <| deques ::= alter (fun d => d ++ [f]) me |>).

(** [scheduler/runtime.rs] [wake_workers]: the lock is only tested. *)
Definition wake_workers : W unit := fun s =>
  match lock (notify s) "wake_workers" with
  | Ok _ => (Some tt, s)
  | Err e => report_fault e s
  end.

(** A method of the completion channel's sender, which reports its faults. *)
Definition slot_at s (c : N) : Inner FlowOutcome := default (fst channel) (completions s !! c).
Definition report_all (es : list Sender.effect) s : Shared.t H R :=
  s <| faults ::= fun l => l ++ omap Sender.fault es |>.

(** [scheduler/process.rs] [Flow::complete] *)
Definition complete f (outcome : FlowOutcome) : W unit := fun s =>
  let (es, m) := Sender.send outcome (slot_at s (Flow.completion f)) in
  (Some tt, report_all es s <| completions ::= <[Flow.completion f := m]> |>).

(** A flow that goes out of scope without an outcome: its sender is dropped. *)
Definition drop_flow f : W unit := fun s =>
  let (e, m) := Sender.drop false (slot_at s (Flow.completion f)) in
  (Some tt, report_all [e] s <| completions ::= <[Flow.completion f := m]> |>).

(** [scheduler/supervisor.rs] [SupervisorLink::notify] *)
Definition notify_supervisor (sup : N) (id : FlowId.t) (outcome : FlowOutcome) : W unit := fun s =>
  match supervisors s !! sup with
  | None => (Some tt, s)
  | Some q =>
    let (r, q') := on q "SupervisorLink::notify" (fun l => (tt, l ++ [mk_exit id outcome])) in
    reporting (ret r) (s <| supervisors ::= <[sup := q']> |>)
  end.

(** [shared.directory.lookup(id)]. *)
Definition lookup_mailbox (id : FlowId.t) : W (result (option N) RuntimeError) :=
  on_directory (Directory.lookup id).

End ops.

Notation "'let*' x ':=' m 'in' k" := (bind m (fun x => k))
  (at level 10, x pattern, m at level 200, k at level 200) : rust_scope.
