(* ===== verification/SharedTheory.v ===== *)
(** How scheduler functions move flows: a flow is in exactly one place, and a flow that
    leaves every place has had its handle answered.  Rules for the monad [W] and for the
    primitives of Shared. *)

From S2P Require Import Prelude Capability Values Sync Quota Native Vm Process CapTable.
From S2P Require Import Lifecycle Mailbox Oneshot Shared.
Import Shared.

Create HintDb quiet.

Section theory.
Context {H R : Type} `{ValueLayout, Allocator} (checks : bool) (workers : nat).
Implicit Types (s : Shared.t H R) (f : Flow.t H) (fs ins : list (Flow.t H)).
#[local] Abbreviation W := (W (H := H) (R := R)).

(** A flow that was spawned has a frame until its outermost one returns. *)
Definition running f : Prop := frames (Flow.fvm f) <> [].

(** A flow is known by its id, its handle's slot and the mailbox it owns. *)
Definition key f : Z * N * N := (Flow.id f, Flow.completion f, Flow.mailbox f).
Definition keys fs : list (Z * N * N) := map key fs.

(** The sleepers of the timer. *)
Definition sleepers s : list (Flow.t H) :=
  omap (fun e => match tpayload e with WakeSleeper f => Some f | _ => None end)
    (guarded (heap (timer s))).

(** Where a live flow can be when no worker runs it. *)
Definition population s : list (Z * N * N) :=
  keys (injector s) ++ keys (concat (deques s)) ++ keys (sleepers s) ++ keys (held_flows s).

(** The handle of [f] has an answer, or a fault to report. *)
Definition answered s f : Prop :=
  poisoned (slot_at s (Flow.completion f)) = true \/
  guarded (slot_at s (Flow.completion f)) <> SPending.

(** The flows no mailbox holds. *)
Definition free s : list (Flow.t H) := injector s ++ concat (deques s) ++ sleepers s.

Record good s : Prop := {
  good_dir : length (directory s) = Directory.SHARDS;
  good_deques : length (deques s) = workers;
  good_held : Forall running (held_flows s);
  good_free : Forall running (free s);
  good_home : forall m mb f, mailboxes s !! m = Some mb ->
    MailboxInner.parked (guarded (Mailbox.inner mb)) = Some f -> Flow.mailbox f = m }.

(** [good_home], decided. *)
Definition homes s : bool := forallb (fun x : N * Mailbox.t H =>
  match MailboxInner.parked (guarded (Mailbox.inner (snd x))) with
  | Some f => N.eqb (Flow.mailbox f) (fst x)
  | None => true
  end) (map_to_list (mailboxes s)).

Lemma homes_home s : homes s = true -> forall m mb f, mailboxes s !! m = Some mb ->
  MailboxInner.parked (guarded (Mailbox.inner mb)) = Some f -> Flow.mailbox f = m.
Proof.
  unfold homes. rewrite forallb_forall. intros Hs m mb f Hm Hf.
  apply elem_of_map_to_list, list_elem_of_In in Hm. specialize (Hs _ Hm). simpl in Hs.
  rewrite Hf in Hs. by apply N.eqb_eq.
Qed.

(** From [s] holding [ins] to [s'] holding [outs]: nobody appears or vanishes, except
    those whose handle is answered. With [strict] the mailboxes never gain a flow. *)
Record moves (strict : bool) ins (outs : list (Flow.t H)) s s' : Prop := {
  moved : exists gone, Forall (answered s') gone /\
    keys ins ++ population s ≡ₚ keys outs ++ keys gone ++ population s';
  kept_answered : forall f, answered s f -> answered s' f;
  kept_boxes : dom (mailboxes s) ⊆ dom (mailboxes s');
  shrunk : strict = true ->
    (length outs + length (held_flows s') <= length ins + length (held_flows s))%nat }.

Definition triple {A} (strict : bool) ins (m : W A) (outs : A -> list (Flow.t H)) : Prop :=
  forall s, good s -> Forall running ins ->
  exists a s', m s = (Some a, s') /\ good s' /\ Forall running (outs a) /\
    moves strict ins (outs a) s s'.

(** *** Rules *)

Lemma moves_refl b fs s : moves b fs fs s s.
Proof. split; [exists []; by split|done|done|lia]. Qed.

Lemma moves_trans b l1 l2 l3 s1 s2 s3 :
  moves b l1 l2 s1 s2 -> moves b l2 l3 s2 s3 -> moves b l1 l3 s1 s3.
Proof.
  intros [(g1 & Ha1 & E1) K1 B1 S1] [(g2 & Ha2 & E2) K2 B2 S2]. split.
  - exists (g1 ++ g2). split.
    + apply Forall_app. split; [|done]. eapply Forall_impl; [exact Ha1|]. intros. by apply K2.
    + unfold keys in *. rewrite map_app, E1.
      rewrite (Permutation_app_swap_app (map key l2)), E2.
      rewrite (Permutation_app_swap_app (map key g1)). by rewrite <- !app_assoc.
  - intros f Hf. by apply K2, K1.
  - by etransitivity.
  - intros Hb. specialize (S1 Hb). specialize (S2 Hb). lia.
Qed.

Lemma moves_frame b fs ins outs s s' : moves b ins outs s s' -> moves b (fs ++ ins) (fs ++ outs) s s'.
Proof.
  intros [(g & Ha & E) K B S].
  split; [|done|done|rewrite !length_app; intros Hb; specialize (S Hb); lia].
  exists g. split; [done|]. unfold keys in *. by rewrite !map_app, <- !app_assoc, E.
Qed.

Lemma triple_ret b {A} (a : A) (outs : A -> list (Flow.t H)) : triple b (outs a) (ret a) outs.
Proof. intros s Hs Hr. exists a, s. split_and!; try done. apply moves_refl. Qed.

Lemma triple_give b {A} (a : A) ins (outs : A -> list (Flow.t H)) :
  outs a = ins -> triple b ins (ret a) outs.
Proof. intros <-. apply triple_ret. Qed.

Lemma triple_bind b {A B} ins (m : W A) mid (k : A -> W B) outs :
  triple b ins m mid -> (forall a, triple b (mid a) (k a) outs) -> triple b ins (bind m k) outs.
Proof.
  intros Hm Hk s Hs Hr. destruct (Hm s Hs Hr) as (a & s1 & E & Hs1 & Hr1 & M1).
  destruct (Hk a s1 Hs1 Hr1) as (c & s2 & E2 & Hs2 & Hr2 & M2).
  exists c, s2. unfold bind. rewrite E. split_and!; try done. by eapply moves_trans.
Qed.

Lemma triple_frame b {A} fs ins (m : W A) outs :
  triple b ins m outs -> triple b (fs ++ ins) m (fun a => fs ++ outs a).
Proof.
  intros Hm s Hs Hr. apply Forall_app in Hr as [Hf Hr].
  destruct (Hm s Hs Hr) as (a & s1 & E & Hs1 & Hr1 & M1).
  exists a, s1. split_and!; try done; [by apply Forall_app|by apply moves_frame].
Qed.

Lemma moves_perm b ins ins' outs outs' s s' :
  ins ≡ₚ ins' -> outs ≡ₚ outs' -> moves b ins' outs' s s' -> moves b ins outs s s'.
Proof.
  intros E1 E2 [(g & Ha & E) K B S]. split; [|done|done|by rewrite E1, E2].
  exists g. split; [done|]. unfold keys in *. by rewrite E1, E2.
Qed.

Lemma triple_perm b {A} ins ins' (m : W A) outs outs' :
  ins ≡ₚ ins' -> (forall a, outs a ≡ₚ outs' a) -> triple b ins' m outs' -> triple b ins m outs.
Proof.
  intros E1 E2 Hm s Hs Hr. rewrite E1 in Hr. destruct (Hm s Hs Hr) as (a & s1 & E & ? & Hr1 & M1).
  exists a, s1. split_and!; try done; [by rewrite E2|by apply (moves_perm b _ ins' _ (outs' a))].
Qed.

(** The function takes and gives nothing; it takes [f] and keeps it; it gives [mid]. *)
Definition quiet {A} (m : W A) : Prop := forall b, triple b [] m (fun _ => []).

Lemma triple_quiet b {A} ins (m : W A) : quiet m -> triple b ins m (fun _ => ins).
Proof.
  intros Hm. apply (triple_perm b ins (ins ++ []) m _ (fun _ => ins ++ []));
    [by rewrite app_nil_r|intros; by rewrite app_nil_r|].
  by apply triple_frame.
Qed.

Lemma triple_after_quiet b {A B} ins (m : W A) (k : A -> W B) outs :
  quiet m -> (forall a, triple b ins (k a) outs) -> triple b ins (bind m k) outs.
Proof. intros Hm Hk. eapply triple_bind; [by apply triple_quiet|done]. Qed.

Lemma triple_consume b {A B} f ins (m : W A) (k : A -> W B) outs :
  triple b [f] m (fun _ => []) -> (forall a, triple b ins (k a) outs) ->
  triple b (f :: ins) (bind m k) outs.
Proof.
  intros Hm Hk. eapply triple_bind; [|exact Hk].
  eapply (triple_perm b _ (ins ++ [f]) _ _ (fun _ => ins ++ []));
    [by rewrite Permutation_app_comm|intros; by rewrite app_nil_r|by apply triple_frame].
Qed.

Lemma triple_produce b {A B} ins (m : W A) mid (k : A -> W B) outs :
  triple b [] m mid -> (forall a, triple b (mid a ++ ins) (k a) outs) ->
  triple b ins (bind m k) outs.
Proof.
  intros Hm Hk. eapply triple_bind; [|exact Hk].
  eapply (triple_perm b _ (ins ++ []) _ _ (fun a => ins ++ mid a));
    [by rewrite app_nil_r|intros; apply Permutation_app_comm|by apply triple_frame].
Qed.

Lemma triple_alter b {A B} f ins (m : W A) (g : A -> Flow.t H) (k : A -> W B) outs :
  triple b [f] m (fun a => [g a]) -> (forall a, triple b (g a :: ins) (k a) outs) ->
  triple b (f :: ins) (bind m k) outs.
Proof.
  intros Hm Hk. eapply triple_bind; [|exact Hk].
  eapply (triple_perm b _ (ins ++ [f]) _ _ (fun a => ins ++ [g a]));
    [by rewrite Permutation_app_comm|intros; by rewrite Permutation_app_comm
    |by apply triple_frame].
Qed.

Lemma quiet_ret {A} (a : A) : quiet (ret a).
Proof. intros b. by apply (triple_ret b a (fun _ => [])). Qed.

Lemma quiet_bind {A B} (m : W A) (k : A -> W B) :
  quiet m -> (forall a, quiet (k a)) -> quiet (bind m k).
Proof. intros Hm Hk b. apply triple_after_quiet; [done|]. intros a. by apply Hk. Qed.

(** What a function answers when it returns. *)
Definition yields {A} (Q : A -> Prop) (m : W A) : Prop := forall s a s', m s = (Some a, s') -> Q a.

Lemma yields_ret {A} (Q : A -> Prop) a : Q a -> yields Q (ret a).
Proof. by intros Ha s b s' [= <- _]. Qed.

Lemma yields_bind {A B} (Q : A -> Prop) (Q' : B -> Prop) (m : W A) (k : A -> W B) :
  yields Q m -> (forall a, Q a -> yields Q' (k a)) -> yields Q' (bind m k).
Proof.
  intros Hm Hk s b s'. unfold bind. destruct (m s) as [[a|] s1] eqn:E; [|done].
  by apply Hk, (Hm s a s1).
Qed.

Lemma yields_any {A B} (Q' : B -> Prop) (m : W A) (k : A -> W B) :
  (forall a, yields Q' (k a)) -> yields Q' (bind m k).
Proof. intros Hk. by apply (yields_bind (fun _ => True)). Qed.

(** *** Primitives that move nothing *)

(** [s'] differs from [s] in tables only. *)
Record same_places s s' : Prop := {
  same_injector : injector s' = injector s;
  same_deques : deques s' = deques s;
  same_timer : timer s' = timer s;
  same_mailboxes : mailboxes s' = mailboxes s;
  same_completions : completions s' = completions s;
  same_shards : length (directory s') = length (directory s) }.

Lemma same_places_moves b s s' : same_places s s' -> moves b [] [] s s'.
Proof.
  intros [E1 E2 E3 E4 E5 _].
  assert (held_flows s' = held_flows s) as Eh by (unfold held_flows; by rewrite E4).
  split; [|unfold answered, slot_at; by rewrite E5|by rewrite E4|by rewrite Eh].
  exists []. split; [done|]. simpl. unfold population, sleepers. by rewrite E1, E2, E3, Eh.
Qed.

Lemma quiet_same {A} (m : W A) :
  (forall s, good s -> exists a, fst (m s) = Some a /\ same_places s (snd (m s))) -> quiet m.
Proof.
  intros Hm b s Hs _. destruct (Hm s Hs) as (a & Ea & Hp). exists a, (snd (m s)).
  split_and!; [by rewrite <- Ea, <- surjective_pairing| |done|by apply same_places_moves].
  destruct Hp as [E1 E2 E3 E4 _ E6], Hs as [D1 D2 D3 DF D4].
  split; [by rewrite E6|by rewrite E2| | |by rewrite E4].
  - unfold held_flows. by rewrite E4.
  - unfold free, sleepers. by rewrite E1, E2, E3.
Qed.

Ltac same := intros; unfold update; simpl; eexists; split; [reflexivity|by split].

Lemma quiet_report e : quiet (report_fault e).
Proof. apply quiet_same. same. Qed.

Lemma quiet_reporting {A} (m : W (result A RuntimeError)) : quiet m -> quiet (reporting m).
Proof.
  intros Hm. apply quiet_bind; [done|]. intros [a|e]; [apply quiet_ret|apply quiet_report].
Qed.

Lemma quiet_gets {A} (g : Shared.t H R -> A) : quiet (gets g).
Proof. apply quiet_same. same. Qed.

Lemma quiet_modify g : (forall s, same_places s (g s)) -> quiet (modify g).
Proof. intros Hg. apply quiet_same. intros s _. by exists tt. Qed.

Ltac stored := intros; apply quiet_same; intros s _;
  match goal with g : _ -> _ |- _ => unfold on_quotas, on_monitors, on_links, on_registry,
    on_kills, on_waiting, on_asks; destruct (g _) end; by eexists.

Lemma quiet_on_quotas {B} (g : _ -> B * _) : quiet (on_quotas g).
Proof. stored. Qed.
Lemma quiet_on_monitors {B} (g : _ -> B * _) : quiet (on_monitors g).
Proof. stored. Qed.
Lemma quiet_on_links {B} (g : _ -> B * _) : quiet (on_links g).
Proof. stored. Qed.
Lemma quiet_on_registry {B} (g : _ -> B * _) : quiet (on_registry g).
Proof. stored. Qed.
Lemma quiet_on_kills {B} (g : _ -> B * _) : quiet (on_kills g).
Proof. stored. Qed.
Lemma quiet_on_waiting {B} (g : _ -> B * _) : quiet (on_waiting g).
Proof. stored. Qed.
Lemma quiet_on_asks {B} (g : _ -> B * _) : quiet (on_asks g).
Proof. stored. Qed.

Lemma quiet_on_caps {A E} (op : CapTable.Op (R := R) E A) : quiet (on_caps op).
Proof.
  apply quiet_same. intros s _. unfold on_caps. destruct (op _) as [r [tb e]]. by exists r.
Qed.

Lemma quiet_wake : quiet wake_workers.
Proof.
  apply quiet_same. intros s _. unfold wake_workers.
  destruct (lock _ _); exists tt; by split.
Qed.

Lemma shard_lt id : (Directory.shard_for id < Directory.SHARDS)%nat.
Proof.
  unfold Directory.shard_for. pose proof (Z.mod_pos_bound (FlowId.as_u64 id) 64 ltac:(lia)).
  change (Z.of_nat Directory.SHARDS) with 64. change Directory.SHARDS with (Z.to_nat 64). lia.
Qed.

Lemma quiet_on_shard {B} id w (g : gmap Z N -> B * gmap Z N) :
  quiet (on_directory (fun d => Directory.with_shard d id w g)).
Proof.
  apply quiet_same. intros s [Hd _ _ _ _]. unfold on_directory, Directory.with_shard.
  assert (is_Some (directory s !! Directory.shard_for id)) as [m Em]
    by (apply lookup_lt_is_Some_2; rewrite Hd; apply shard_lt).
  destruct (_ !! _) as [m'|]; [|done]. clear m Em. rename m' into m. destruct (on m w g) as [r m']. exists r. split; [done|].
  split; try done. simpl. by rewrite length_insert.
Qed.

Lemma quiet_lookup id : quiet (lookup_mailbox id).
Proof. apply quiet_on_shard. Qed.

Lemma quiet_notify sup id o : quiet (notify_supervisor sup id o).
Proof.
  apply quiet_same. intros s _. unfold notify_supervisor.
  destruct (supervisors s !! sup) as [q|]; [|by exists tt].
  destruct (on q _ _) as [[u|e] q']; exists tt; by split.
Qed.

Lemma quiet_now clock : quiet (now clock).
Proof.
  apply quiet_same. intros s _. unfold now. destruct (clock _) as [n o]. by exists n.
Qed.

Lemma quiet_on_quota {B} q (g : FlowQuota.t -> B * FlowQuota.t) : quiet (on_quota q g).
Proof.
  apply quiet_same. intros s _. unfold on_quota. destruct (g _) as [c q']. by exists c.
Qed.

Lemma quiet_counter f g : quiet (flow_counter f g).
Proof. apply quiet_modify. by split. Qed.

(** *** Primitives that move flows *)

(** The same flows by id, and running if they were. *)
Definition reshuffle fs fs' : Prop := keys fs ≡ₚ keys fs' /\ (Forall running fs -> Forall running fs').

Lemma reshuffle_refl fs : reshuffle fs fs.
Proof. by split. Qed.

Lemma reshuffle_perm fs fs' : fs ≡ₚ fs' -> reshuffle fs fs'.
Proof. intros E. split; [unfold keys; by rewrite E|by rewrite E]. Qed.

Lemma reshuffle_length fs fs' : reshuffle fs fs' -> length fs = length fs'.
Proof. intros [E _]. apply Permutation_length in E. unfold keys in E. by rewrite !length_map in E. Qed.

(** Replacing one mailbox. *)
Definition box_flows s (m : N) : list (Flow.t H) :=
  mailbox_flows (guarded (Mailbox.inner (mailbox_at s m))).

Lemma held_insert s m mb :
  held_flows (s <| mailboxes ::= <[m := mb]> |>) ++ box_flows s m ≡ₚ
  held_flows s ++ mailbox_flows (guarded (Mailbox.inner mb)).
Proof.
  unfold held_flows, box_flows, mailbox_at. simpl. destruct (mailboxes s !! m) as [old|] eqn:E.
  - assert (map_to_list (<[m := mb]> (mailboxes s)) ≡ₚ
            (m, mb) :: map_to_list (delete m (mailboxes s))) as ->.
    { rewrite <- insert_delete_eq. by apply map_to_list_insert, lookup_delete_eq. }
    rewrite <- (map_to_list_delete _ _ _ E). simpl. solve_Permutation.
  - rewrite map_to_list_insert by done. simpl. rewrite app_nil_r. apply Permutation_app_comm.
Qed.

(** Balance of keys: [ins] and [l] become [outs] and [l'], the mailbox [l] was replaced. *)
Lemma balance {A} (p q ins outs h h' l l' : list A) :
  h' ++ l ≡ₚ h ++ l' -> ins ++ l ≡ₚ outs ++ l' ->
  ins ++ p ++ q ++ h ≡ₚ outs ++ p ++ q ++ h'.
Proof.
  intros E1 E2. apply (Permutation_app_inv_r (l ++ l')).
  transitivity ((p ++ q) ++ (ins ++ l) ++ (h ++ l')); [solve_Permutation|].
  rewrite E2, <- E1. solve_Permutation.
Qed.

Lemma box_running s m : Forall running (held_flows s) -> Forall running (box_flows s m).
Proof.
  unfold box_flows, mailbox_at. destruct (mailboxes s !! m) as [old|] eqn:E; [|done]. simpl.
  unfold held_flows. apply elem_of_map_to_list in E. rewrite Forall_concat, Forall_forall.
  intros Hh. apply Hh, list_elem_of_In, in_map_iff. exists (m, old). split; [done|].
  by apply list_elem_of_In.
Qed.

(** A method parks nobody but the owner of the mailbox. *)
Definition parks_home (m : N) (i i' : MailboxInner.t H) : Prop :=
  forall f, MailboxInner.parked i' = Some f -> MailboxInner.parked i = Some f \/ Flow.mailbox f = m.

Lemma home_insert s m mb :
  (forall m mb f, mailboxes s !! m = Some mb ->
     MailboxInner.parked (guarded (Mailbox.inner mb)) = Some f -> Flow.mailbox f = m) ->
  parks_home m (guarded (Mailbox.inner (mailbox_at s m))) (guarded (Mailbox.inner mb)) ->
  forall m' mb' f, <[m := mb]> (mailboxes s) !! m' = Some mb' ->
    MailboxInner.parked (guarded (Mailbox.inner mb')) = Some f -> Flow.mailbox f = m'.
Proof.
  intros Ho Hk m' mb' f Hm Hf. apply lookup_insert_Some in Hm as [[<- <-]|[_ Hm]]; [|by eapply Ho].
  destruct (Hk f Hf) as [Hp|]; [|done]. unfold mailbox_at in Hp.
  destruct (mailboxes s !! m) as [old|] eqn:E; [by eapply Ho|done].
Qed.

Lemma moves_on_mailbox b {B} ins m (g : Mailbox.t H -> B * Mailbox.t H) outs s :
  let mb := mailbox_at s m in
  reshuffle (ins ++ mailbox_flows (guarded (Mailbox.inner mb)))
    (outs (fst (g mb)) ++ mailbox_flows (guarded (Mailbox.inner (snd (g mb))))) ->
  parks_home m (guarded (Mailbox.inner mb)) (guarded (Mailbox.inner (snd (g mb)))) ->
  good s -> Forall running ins ->
  exists a s', on_mailbox m g s = (Some a, s') /\ good s' /\ Forall running (outs a) /\
    moves b ins (outs a) s s'.
Proof.
  intros mb0 [Ep Er] Hk [Hd Hw Hh Hfree Ho] Hr. subst mb0. unfold on_mailbox.
  destruct (g (mailbox_at s m)) as [x mb]; simpl in Ep, Er, Hk.
  pose proof (held_insert s m mb) as Eh. unfold box_flows in Eh.
  set (s' := s <| mailboxes ::= <[m := mb]> |>) in *.
  pose proof (box_running s m Hh) as Hbox. unfold box_flows in Hbox.
  assert (Forall running (held_flows s')) as Hh'.
  { assert (Forall running (outs x ++ mailbox_flows (guarded (Mailbox.inner mb)))) as Hn
      by (apply Er, Forall_app; by split).
    apply Forall_app in Hn as [_ Hn].
    assert (Forall running (held_flows s' ++ mailbox_flows (guarded (Mailbox.inner (mailbox_at s m)))))
      as Ha by (rewrite Eh; by apply Forall_app).
    by apply Forall_app in Ha as [? _]. }
  assert (Forall running (outs x)) as Hx.
  { assert (Forall running (outs x ++ mailbox_flows (guarded (Mailbox.inner mb)))) as Hn
      by (apply Er, Forall_app; by split). by apply Forall_app in Hn as [? _]. }
  exists x, s'. split_and!; [done| |done|].
  { split; [done..|]. by apply home_insert. }
  split; [|done|simpl; set_solver|].
  - exists []. split; [done|]. unfold population. simpl.
    apply (Permutation_map key) in Eh. rewrite !map_app in Eh.
    unfold keys in Ep. rewrite !map_app in Ep. change (sleepers s') with (sleepers s).
    pose proof (balance (keys (injector s)) (keys (concat (deques s)) ++ keys (sleepers s))
                  _ _ _ _ _ _ Eh Ep) as Hb.
    unfold keys in *. rewrite <- !app_assoc in Hb. exact Hb.
  - intros _. apply Permutation_length in Eh, Ep. unfold keys in Ep.
    rewrite !length_app, !length_map, ?length_app in *. lia.
Qed.

Lemma triple_on_mailbox b {B} ins m (g : Mailbox.t H -> B * Mailbox.t H) outs :
  (forall mb, reshuffle (ins ++ mailbox_flows (guarded (Mailbox.inner mb)))
                (outs (fst (g mb)) ++ mailbox_flows (guarded (Mailbox.inner (snd (g mb)))))) ->
  (forall mb, parks_home m (guarded (Mailbox.inner mb)) (guarded (Mailbox.inner (snd (g mb))))) ->
  triple b ins (on_mailbox m g) outs.
Proof. intros Hg Hk s Hs Hr. by apply moves_on_mailbox. Qed.

Lemma pop_cons f s s' :
  population s' ≡ₚ key f :: population s ->
  keys [f] ++ population s ≡ₚ keys [] ++ keys [] ++ population s'.
Proof. intros E. simpl. by symmetry. Qed.

Lemma triple_inject b f : triple b [f] (inject f) (fun _ => []).
Proof.
  intros s [Hd Hw Hh Hfree Ho] Hr. eexists tt, _. split; [reflexivity|].
  split_and!; [split; try done|done|].
  { unfold free in *. simpl. rewrite !Forall_app in *. tauto. }
  split; [|done|done|unfold held_flows; simpl; lia].
  exists []. split; [done|]. apply pop_cons. unfold population, keys. simpl.
  rewrite map_app. simpl. solve_Permutation.
Qed.

Lemma concat_push f (ds : list (list (Flow.t H))) me d :
  ds !! me = Some d -> concat (alter (fun d => d ++ [f]) me ds) ≡ₚ f :: concat ds.
Proof.
  revert me. induction ds as [|d' ds IH]; intros [|me] E; simpl in *; simplify_eq.
  - rewrite <- app_assoc. simpl. by rewrite Permutation_middle.
  - change (d' ++ concat (alter (fun d0 => d0 ++ [f]) me ds) ≡ₚ f :: d' ++ concat ds).
    rewrite (IH _ E). by rewrite Permutation_middle.
Qed.

Lemma triple_push_local b me f :
  (me < workers)%nat -> triple b [f] (push_local me f) (fun _ => []).
Proof.
  intros Hme s [Hd Hw Hh Hfree Ho] Hr. eexists tt, _. split; [reflexivity|].
  destruct (lookup_lt_is_Some_2 (deques s) me) as [d Ed]; [by rewrite Hw|].
  split_and!; [split; simpl; [done|by rewrite length_alter|done| |done]|done|].
  { unfold free in *. simpl. rewrite (concat_push _ _ _ _ Ed).
    rewrite !Forall_app in *. rewrite Forall_cons. apply Forall_inv in Hr. tauto. }
  split; [|done|done|unfold held_flows; simpl; lia]. exists []. split; [done|].
  apply pop_cons. unfold population, keys. simpl.
  assert (map key (concat (alter (fun d => d ++ [f]) me (deques s))) ≡ₚ
          key f :: map key (concat (deques s))) as ->.
  { by rewrite (concat_push _ _ _ _ Ed). }
  solve_Permutation.
Qed.

(** Sending or dropping the sender only ever settles a slot. *)
Lemma settle_slot s c m :
  poisoned m = true \/ guarded m <> SPending ->
  forall f, answered s f -> answered (s <| completions ::= <[c := m]> |>) f.
Proof.
  intros Hm f Hf. unfold answered, slot_at in *. simpl.
  destruct (decide (Flow.completion f = c)) as [<-|Hc].
  - by rewrite lookup_insert_eq.
  - by rewrite lookup_insert_ne.
Qed.

Lemma send_settles (v : FlowOutcome) (m : Inner FlowOutcome) :
  poisoned (snd (Sender.send v m)) = true \/ guarded (snd (Sender.send v m)) <> SPending.
Proof.
  unfold Sender.send, Sender.send_body, Sender.drop, lock.
  destruct (poisoned m) eqn:E; simpl; [rewrite ?E; by left|by right].
Qed.

Lemma drop_settles (m : Inner FlowOutcome) :
  poisoned (snd (Sender.drop false m)) = true \/ guarded (snd (Sender.drop false m)) <> SPending.
Proof.
  unfold Sender.drop, lock. destruct (poisoned m) eqn:E; simpl; [by left|].
  right. by destruct (guarded m).
Qed.

Lemma triple_settle b f es m s :
  good s -> poisoned m = true \/ guarded m <> SPending ->
  let s' := report_all es s <| completions ::= <[Flow.completion f := m]> |> in
  good s' /\ moves b [f] [] s s' /\ answered s' f.
Proof.
  intros [Hd Hw Hh Hfree Ho] Hm s'.
  assert (answered s' f) as Ha
    by (unfold answered, slot_at; simpl; by rewrite lookup_insert_eq).
  split_and!; [by split| |done]. split; [|exact (settle_slot (report_all es s) _ _ Hm)|done|unfold held_flows; simpl; lia].
  exists [f]. split; [by constructor|done].
Qed.

Lemma triple_complete b f o : triple b [f] (complete f o) (fun _ => []).
Proof.
  intros s Hs Hr. unfold complete. pose proof (send_settles o (slot_at s (Flow.completion f))) as Hm.
  destruct (Sender.send _ _) as [es m]. destruct (triple_settle b f es m s Hs Hm) as (? & ? & _).
  by eexists tt, _.
Qed.

Lemma triple_drop b f : triple b [f] (drop_flow f) (fun _ => []).
Proof.
  intros s Hs Hr. unfold drop_flow. pose proof (drop_settles (slot_at s (Flow.completion f))) as Hm.
  destruct (Sender.drop _ _) as [e m]. destruct (triple_settle b f [e] m s Hs Hm) as (? & ? & _).
  by eexists tt, _.
Qed.

(** A method of the VM of a flow that returns and keeps a frame. *)
Lemma triple_on_vm b {A} f (m : Vm.R H A) :
  (forall st, frames (vm st) <> [] ->
     exists r st', m st = (Some r, st') /\ frames (vm st') <> []) ->
  triple b [f] (on_vm f m) (fun x => [snd x]).
Proof.
  intros Hm s [Hd Hw Hh Hfree Ho] Hr. rewrite Forall_singleton in Hr.
  destruct (Hm (mk_state (Flow.fvm f) (wld s)) Hr) as (r & st & E & Hf).
  unfold on_vm. rewrite E. eexists _, _. split; [reflexivity|]. simpl.
  split_and!; [done|by apply Forall_singleton|].
  split; [|done|done|unfold held_flows; simpl; lia]. by exists [].
Qed.

Lemma resume_keeps_frame d v (st : state H) :
  frames (vm st) <> [] ->
  exists r st', resume_with checks d v st = (Some r, st') /\ frames (vm st') <> [].
Proof.
  intros Hf. unfold resume_with, set_reg, r_bind.
  assert (exists r st1, charge_register_store d v st = (Some r, st1) /\ vm st1 = vm st) as
    (r & st1 & -> & Ev).
  { unfold charge_register_store, charge_heap_value.
    repeat case_match; simplify_eq; by eexists _, _. }
  destruct r as [u|e]; [|exists (Err e), st1; by rewrite Ev].
  unfold current. rewrite Ev. destruct (frames (vm st)) as [|top rest]; [done|].
  destruct (get _ _); simpl; by eexists _, _.
Qed.

Lemma triple_resume b f d v : triple b [f] (resume checks f d v) (fun f' => [f']).
Proof.
  eapply triple_bind; [apply triple_on_vm, resume_keeps_frame|].
  intros [r f']. by apply (triple_ret b f' (fun f' => [f'])).
Qed.

(** *** Mailbox methods *)

Definition handed_flow (d : Delivery H) : list (Flow.t H) :=
  match d with Handoff f => [f] | _ => [] end.
Definition ok_or {A E} (dflt : list (Flow.t H)) (g : A -> list (Flow.t H)) (r : result A E) :=
  match r with Ok a => g a | Err _ => dflt end.

Lemma triple_locked b {B} ins m w (f : MailboxInner.t H -> B * MailboxInner.t H) outs :
  (forall i, reshuffle (ins ++ mailbox_flows i) (outs (fst (f i)) ++ mailbox_flows (snd (f i)))) ->
  (forall i, parks_home m i (snd (f i))) ->
  triple b ins (on_mailbox m (fun mb => Mailbox.locked mb w f)) (ok_or ins outs).
Proof.
  intros Hf Hp. apply triple_on_mailbox; intros mb; unfold Mailbox.locked, with_lock, lock;
    (destruct (poisoned (Mailbox.inner mb)); [apply reshuffle_refl || by left|]).
  - specialize (Hf (guarded (Mailbox.inner mb))). by destruct (f _).
  - specialize (Hp (guarded (Mailbox.inner mb))). by destruct (f _).
Qed.

(** A method that parks nobody. *)
Lemma parks_none m i i' :
  MailboxInner.parked i' = MailboxInner.parked i \/ MailboxInner.parked i' = None ->
  parks_home m i i'.
Proof. intros [E|E] f Hf; [left; by rewrite <- E|by rewrite E in Hf]. Qed.

Lemma enqueue_keeps_parked p v (i : MailboxInner.t H) :
  MailboxInner.parked (snd (Mailbox.enqueue_locked p v i)) = MailboxInner.parked i.
Proof. unfold Mailbox.enqueue_locked. by destruct (MailboxQueue.enqueue _ _ _) as [[[]|[]] q]. Qed.

Lemma enqueue_locked_flows p v (i : MailboxInner.t H) :
  ok_or [] handed_flow (fst (Mailbox.enqueue_locked p v i)) ++
    mailbox_flows (snd (Mailbox.enqueue_locked p v i)) = mailbox_flows i.
Proof. unfold Mailbox.enqueue_locked. by destruct (MailboxQueue.enqueue _ _ _) as [[[]|[]] q]. Qed.

Lemma push_locked_parked p v (i : MailboxInner.t H) :
  MailboxInner.parked (snd (Mailbox.push_locked p v i)) = MailboxInner.parked i \/
  MailboxInner.parked (snd (Mailbox.push_locked p v i)) = None.
Proof.
  unfold Mailbox.push_locked. destruct (MailboxInner.parked i) as [f|] eqn:E.
  - destruct (WaitFilter.matches _ _); [by right|left; by rewrite enqueue_keeps_parked].
  - left. by rewrite enqueue_keeps_parked.
Qed.

Lemma push_locked_flows p v (i : MailboxInner.t H) :
  mailbox_flows i = ok_or [] handed_flow (fst (Mailbox.push_locked p v i)) ++
    mailbox_flows (snd (Mailbox.push_locked p v i)).
Proof.
  unfold Mailbox.push_locked. destruct (MailboxInner.parked i) as [f|] eqn:E.
  - destruct (WaitFilter.matches _ _).
    + unfold mailbox_flows. simpl. by rewrite E.
    + rewrite enqueue_locked_flows. unfold mailbox_flows. simpl. by rewrite E.
  - by rewrite enqueue_locked_flows.
Qed.

Lemma triple_push b m v :
  triple b [] (on_mailbox m (fun mb => Mailbox.push mb v)) (ok_or [] (ok_or [] handed_flow)).
Proof.
  apply triple_on_mailbox; intros mb; unfold Mailbox.push, Mailbox.locked, with_lock, lock;
    (destruct (poisoned (Mailbox.inner mb)); [apply reshuffle_refl || by left|]).
  - apply reshuffle_perm. simpl.
    rewrite (push_locked_flows (MailboxConfig.overflow (Mailbox.config mb)) v).
    by destruct (Mailbox.push_locked _ _ _).
  - simpl. apply parks_none.
    pose proof (push_locked_parked (MailboxConfig.overflow (Mailbox.config mb)) v
      (guarded (Mailbox.inner mb))) as Hp. by destruct (Mailbox.push_locked _ _ _).
Qed.

Lemma triple_push_system b m v :
  triple b [] (on_mailbox m (fun mb => Mailbox.push_system mb v)) (ok_or [] handed_flow).
Proof.
  apply (triple_locked b [] m _ _ handed_flow); intros i.
  2:{ apply parks_none. unfold Mailbox.push_system_locked.
      destruct (MailboxInner.parked i) eqn:E; [destruct (WaitFilter.matches _ _)|]; simpl; auto. }
  apply reshuffle_perm. unfold Mailbox.push_system_locked, mailbox_flows. destruct (MailboxInner.parked i) eqn:E.
  - destruct (WaitFilter.matches _ _); simpl; by rewrite ?E.
  - simpl. by rewrite E.
Qed.

Lemma triple_take_parked b m :
  triple b [] (on_mailbox m Mailbox.take_parked) (ok_or [] option_list).
Proof.
  apply (triple_locked b [] m _ Mailbox.take_locked option_list); intros i.
  - by apply reshuffle_perm.
  - apply parks_none. by right.
Qed.

Lemma triple_close b m :
  triple b [] (on_mailbox m Mailbox.close) (ok_or [] (fun l => l)).
Proof.
  apply (triple_locked b [] m _ Mailbox.close_locked (fun l => l)); intros i; [|apply parks_none; by left].
  apply reshuffle_perm. unfold mailbox_flows. simpl. rewrite app_nil_r. apply Permutation_app_comm.
Qed.

Lemma triple_take_waiting b m id :
  triple b [] (on_mailbox m (fun mb => Mailbox.take_waiting_sender mb id))
    (ok_or [] option_list).
Proof.
  apply (triple_locked b [] m _ (Mailbox.take_waiting_locked id) option_list); intros i.
  2:{ apply parks_none. left. unfold Mailbox.take_waiting_locked. by destruct (position _ _). }
  apply reshuffle_perm. unfold Mailbox.take_waiting_locked, mailbox_flows.
  destruct (position _ _) as [pos|] eqn:E; [|done].
  destruct (position_Some _ _ _ E) as (w & Hw & _). simpl. rewrite Hw. simpl.
  rewrite (delete_Permutation _ _ _ Hw) at 1. simpl. by rewrite Permutation_middle.
Qed.

Lemma triple_take_at b m e :
  triple b [] (on_mailbox m (fun mb => Mailbox.take_parked_at mb e)) (ok_or [] option_list).
Proof.
  apply (triple_locked b [] m _ (Mailbox.take_at_locked e) option_list); intros i.
  2:{ apply parks_none. unfold Mailbox.take_at_locked.
      destruct (negb _); [by left|]. destruct (MailboxInner.parked i) eqn:E; rewrite ?E; auto. }
  apply reshuffle_perm. unfold Mailbox.take_at_locked, mailbox_flows.
  destruct (negb _); [done|]. destruct (MailboxInner.parked i) eqn:E; simpl; by rewrite ?E.
Qed.

Lemma triple_try_pop b m (f : WaitFilter.t) :
  triple b [] (on_mailbox m (fun mb => Mailbox.try_pop_filter mb f)) (ok_or [] (fun _ => [])).
Proof.
  apply (triple_locked b [] m _ (Mailbox.try_pop_locked f) (fun _ => [])); intros i.
  2:{ apply parks_none. left. unfold Mailbox.try_pop_locked.
      by destruct (MailboxQueue.take _ _) as [[v|] q]. }
  apply reshuffle_perm. unfold Mailbox.try_pop_locked.
  by destruct (MailboxQueue.take _ _) as [[v|] q].
Qed.

End theory.

#[export] Hint Resolve quiet_ret quiet_report quiet_reporting quiet_gets quiet_on_quotas
  quiet_on_monitors quiet_on_links quiet_on_registry quiet_on_kills quiet_on_waiting
  quiet_on_asks quiet_on_caps quiet_wake quiet_on_shard quiet_lookup quiet_notify quiet_now
  quiet_on_quota quiet_counter : quiet.

(** Runs of quiet operations; one step past a quiet operation. *)
Ltac quiet :=
  repeat first
    [ solve [eauto 3 with quiet]
    | apply quiet_reporting
    | apply quiet_bind; [|intros ?]
    | match goal with |- quiet _ (match ?x with _ => _ end) => destruct x end ].
Ltac skip := apply triple_after_quiet; [quiet|intros ?].
Ltac finish := solve [by apply triple_give | apply triple_quiet; quiet].
