(* ===== verification/Timer.v ===== *)
(** The timer: sleeping flows and receive deadlines, woken in order of deadline by one
    thread.  Models scheduler/timer.rs (its data is in Shared). *)

From S2P Require Import Prelude Values Sync Quota Native Vm Process Lifecycle Mailbox Oneshot.
From S2P Require Import Shared.
Import Shared.

(** [BinaryHeap<Reverse<TimerEntry>>]: which of the entries of least deadline is on top is
    the heap's business. *)
Class MinHeap := {
  top_index : list instant -> nat;
  top_least ds i d : top_index ds = i -> ds !! i = Some d -> Forall (fun d' => d <= d') ds;
  top_exists d ds : (top_index (d :: ds) < length (d :: ds))%nat }.

Fixpoint first_least (ds : list instant) : nat * instant :=
  match ds with
  | [] => (0%nat, 0)
  | [d] => (0%nat, d)
  | d :: ds =>
    let (i, m) := first_least ds in
    if d <=? m then (0%nat, d) else (S i, m)
  end.

Section timer.
Context {H R : Type} `{ValueLayout, Allocator, MinHeap}.
Context (clock : R -> instant * R) (checks : bool).
Implicit Types (s : Shared.t H R) (f : Flow.t H) (entries : list (TimerEntry H)).
#[local] Abbreviation W := (W (H := H) (R := R)).

(** [heap.peek()], and [heap.pop()]: the entry on top and the rest. *)
Definition peek entries : option (TimerEntry H) := entries !! top_index (map deadline entries).
Definition pop entries : list (TimerEntry H) := delete (top_index (map deadline entries)) entries.

Definition set_heap (h : mutex (list (TimerEntry H))) s : Shared.t H R :=
  s <| timer ::= fun t => t <| heap := h |> |>.

(** The flow an entry owns, which goes out of scope with it. *)
Definition drop_entry (e : TimerEntry H) : W unit :=
  match tpayload e with
  | WakeSleeper flow => drop_flow flow
  | WakeReceiver _ _ _ _ => ret tt
  end.

(** [scheduler/timer.rs] [TimerWheel::push] *)
Definition push (e : TimerEntry H) : W unit :=
  let* h := gets (fun s => heap (timer s)) in
  match lock h "TimerWheel::push" with
  | Ok entries => modify (set_heap (unlock (entries ++ [e])))
  | Err x => let* _ := report_fault x in drop_entry e
  end.

(** [scheduler/timer.rs] [TimerWheel::schedule_sleep] *)
Definition schedule_sleep (delay : duration) f : W unit :=
  let* t := now clock in
  push (mk_entry (after t delay) (WakeSleeper f)).

(** [scheduler/timer.rs] [TimerWheel::schedule_receive_timeout] *)
Definition schedule_receive_timeout (delay : duration) (pid : FlowId.t) (mailbox : N)
    (dest_reg : Z) (epoch : WaitEpoch) : W unit :=
  let* t := now clock in
  push (mk_entry (after t delay) (WakeReceiver pid mailbox dest_reg epoch)).

(** [scheduler/timer.rs:227-257] [TimerWheel::fire]: the deadline of a receive: [debug_assert_eq!(flow.id, pid)] panics in a build with
    debug assertions. *)
Definition fire_receiver (pid : FlowId.t) (mailbox : N) (dest_reg : Z) (epoch : WaitEpoch)
  : W unit :=
  let* p := on_mailbox mailbox (fun mb => Mailbox.take_parked_at mb epoch) in
  match p with
  | Ok (Some flow) =>
    if checks && negb (Flow.id flow =? pid) then panic
    else
      let* _ := reporting (on_asks (AskWaitIndex.remove_asker (Flow.id flow))) in
      let* flow := resume checks flow dest_reg Value.Unit in
      inject flow
  | Ok None => ret tt
  | Err e => report_fault e
  end.

(** [scheduler/timer.rs] [TimerWheel::fire] *)
Definition fire (e : TimerEntry H) : W unit :=
  let* _ := match tpayload e with
            | WakeSleeper flow => inject flow
            | WakeReceiver pid mailbox dest_reg epoch =>
              fire_receiver pid mailbox dest_reg epoch
            end in
  let* l := gets (fun s => lock (notify s) "TimerWheel::fire/notify") in
  match l with Ok _ => ret tt | Err x => report_fault x end.

(** What one turn of [drive] ends with: it fired an entry, it waits on the condition
    variable (idle, or until the next deadline), or the thread stops. *)
Inductive turn := Fired | WaitIdle | WaitFor (d : Z) | Stopped.

(** [scheduler/timer.rs:153-214] [TimerWheel::drive]: one turn, up to the wait. *)
Definition drive_turn : W turn :=
  let* t := gets timer in
  match lock (heap t) "TimerWheel::drive" with
  | Err e => let* _ := report_fault e in ret Stopped
  | Ok entries =>
    match lock (stopping t) "TimerWheel::drive/shutdown" with
    | Err e => let* _ := report_fault e in ret Stopped
    | Ok true => ret Stopped
    | Ok false =>
      match peek entries with
      | None => ret WaitIdle
      | Some top =>
        let* t := now clock in
        if deadline top <=? t then
          let* _ := modify (set_heap (unlock (pop entries))) in
          let* _ := fire top in
          ret Fired
        else ret (WaitFor (deadline top - t))
      end
    end
  end.

(** The end of a wait: the guard comes back, or its poison. *)
Definition after_wait (where_ : string) : W turn :=
  let* h := gets (fun s => heap (timer s)) in
  match lock h where_ with
  | Ok _ => ret WaitIdle
  | Err e => let* _ := report_fault e in ret Stopped
  end.

(** [n] turns of the timer's thread; between two of them a wait may pass. *)
(** [scheduler/timer.rs] [TimerWheel::drive] *)
Fixpoint drive (n : nat) : W bool :=
  match n with
  | O => ret true
  | S n =>
    let* r := drive_turn in
    let* r := match r with
              | WaitIdle => after_wait "TimerWheel::idle"
              | WaitFor _ => after_wait "TimerWheel::wait"
              | r => ret r
              end in
    match r with
    | Stopped => ret false
    | _ => drive n
    end
  end.

End timer.
