(* ===== verification/Finalize.v ===== *)
(** The end of a flow: the single choke point that unregisters it, notifies its
    monitors, spreads its exit over its links and completes it.  Models
    scheduler/finalize.rs (its stores are in Lifecycle). *)

From S2P Require Import Prelude Capability Values Sync Quota Native Vm Process CapTable.
From S2P Require Import Lifecycle Mailbox Oneshot Shared.
Import Shared.

(** [scheduler/finalize.rs] [PendingExit] *)
Record PendingExit (H : Type) := mk_pending {
  pflow : Flow.t H;
  poutcome : FlowOutcome;
  preason : FlowExitReason.t }.
Arguments mk_pending {H} _ _ _.
Arguments pflow {H} _.
Arguments poutcome {H} _.
Arguments preason {H} _.

(** [FlowId]'s [Display]. *)
Definition flow_name (id : FlowId.t) : string := "flow#" +:+ pretty (FlowId.as_u64 id).

Section finalize.
Context {H R : Type} `{ValueLayout, Allocator}.
Context (checks : bool).
Implicit Types (f : Flow.t H) (work : list (PendingExit H)).
#[local] Abbreviation W := (W (H := H) (R := R)).

(** [let Some(dest) = flow.last_receive_dest]: the hop goes to the register it waits for. *)
Definition deliver_to f (hop : Value.t) : W (Flow.t H) :=
  match Flow.last_receive_dest f with
  | Some dest =>
    let* f := resume checks f dest hop in
    let* _ := count_received f in
    ret f
  | None => ret f
  end.

Definition make_runnable f : W unit :=
  let* _ := inject f in wake_workers.

(** [scheduler/finalize.rs] [deliver_down] *)
Definition deliver_down (event : DownEvent) : W unit :=
  let hop := Value.Message (Msg.down (dmonitor event) (FlowId.as_u64 (dtarget event))
                              (FlowExitReason.as_u64 (dreason event))) in
  let* m := lookup_mailbox (downer event) in
  match m with
  | Err e => report_fault e
  | Ok None => ret tt
  | Ok (Some mailbox) =>
    let* d := on_mailbox mailbox (fun mb => Mailbox.push_system mb hop) in
    match d with
    | Ok (Handoff owner) =>
      let* _ := on_asks (AskWaitIndex.remove_asker (Flow.id owner)) in
      let* owner := deliver_to owner hop in
      make_runnable owner
    | Ok _ => ret tt
    | Err e => report_fault e
    end
  end.

(** One asker of [wake_orphaned_asks]. *)
Definition wake_asker (hop : Value.t) (asker : FlowId.t) : W unit :=
  let* m := lookup_mailbox asker in
  match m with
  | Err e => report_fault e
  | Ok None => ret tt
  | Ok (Some mailbox) =>
    let* p := on_mailbox mailbox Mailbox.take_parked in
    match p with
    | Ok (Some flow) => let* flow := deliver_to flow hop in make_runnable flow
    | Ok None => ret tt
    | Err e => report_fault e
    end
  end.

(** [for x in l { f(x) }]. *)
Fixpoint for_each {A} (g : A -> W unit) (l : list A) : W unit :=
  match l with
  | [] => ret tt
  | x :: l => let* _ := g x in for_each g l
  end.

(** [scheduler/finalize.rs] [wake_orphaned_asks] *)
Definition wake_orphaned_asks (target : FlowId.t) (reason : FlowExitReason.t) : W unit :=
  let* r := on_asks (AskWaitIndex.take_waiters_of target) in
  match r with
  | Err e => report_fault e
  | Ok waiters =>
    let hop := Value.Message (Msg.linked_exit (FlowId.as_u64 target)
                                (FlowExitReason.as_u64 reason)) in
    for_each (wake_asker hop) waiters
  end.

(** [scheduler/finalize.rs:365-393] [extract_for_kill]: the second half of [extract_for_kill]: the flow may be a sender waiting elsewhere. *)
Definition extract_waiting (id : FlowId.t) : W (option (Flow.t H)) :=
  let* t := on_waiting (WaitingSendIndex.get id) in
  match t with
  | Err e => let* _ := report_fault e in ret None
  | Ok None => ret None
  | Ok (Some target) =>
    let* m := lookup_mailbox target in
    match m with
    | Err e => let* _ := report_fault e in ret None
    | Ok None => ret None
    | Ok (Some mb) =>
      let* x := on_mailbox mb (fun mb => Mailbox.take_waiting_sender mb id) in
      match x with
      | Ok (Some sender) =>
        let* _ := reporting (on_waiting (WaitingSendIndex.remove id)) in
        ret (Some sender)
      | Ok None => ret None
      | Err e => let* _ := report_fault e in ret None
      end
    end
  end.

(** [scheduler/finalize.rs:338-363] [extract_for_kill] *)
Definition extract_for_kill (id : FlowId.t) (reason : FlowExitReason.t)
  : W (option (Flow.t H)) :=
  let* m := lookup_mailbox id in
  match m with
  | Err e => let* _ := report_fault e in ret None
  | Ok None => ret None
  | Ok (Some mailbox) =>
    let* k := on_kills (KillSignals.set id reason) in
    match k with
    | Err e => let* _ := report_fault e in ret None
    | Ok _ =>
      let* p := on_mailbox mailbox Mailbox.take_parked in
      match p with
      | Ok (Some parked) => ret (Some parked)
      | Ok None => extract_waiting id
      | Err e => let* _ := report_fault e in extract_waiting id
      end
    end
  end.

(** [scheduler/finalize.rs] [collect_link_exit] *)
Definition collect_link_exit (peer : FlowId.t) work : W (list (PendingExit H)) :=
  let* x := extract_for_kill peer FlowExitReason.Link in
  match x with
  | Some flow => ret (mk_pending flow (Failed "linked exit (link)") FlowExitReason.Link :: work)
  | None => ret work
  end.

(** The loop over the peers of an abnormal exit. *)
Fixpoint collect_link_exits (peers : list (LinkId * FlowId.t)) work
  : W (list (PendingExit H)) :=
  match peers with
  | [] => ret work
  | (_, peer) :: peers =>
    let* work := collect_link_exit peer work in collect_link_exits peers work
  end.

(** The senders stranded by the closing of the mailbox of [id]. *)
Fixpoint queue_senders (id : FlowId.t) (senders : list (Flow.t H)) work
  : W (list (PendingExit H)) :=
  match senders with
  | [] => ret work
  | sender :: senders =>
    let* _ := reporting (on_waiting (WaitingSendIndex.remove (Flow.id sender))) in
    queue_senders id senders
      (mk_pending sender (Failed ("send target " +:+ flow_name id +:+ " exited"))
         FlowExitReason.Fault :: work)
  end.

(** [scheduler/finalize.rs:197-213] [finalize_one]: closing the mailbox. *)
Definition close_mailbox (id : FlowId.t) work : W (list (PendingExit H)) :=
  let* m := lookup_mailbox id in
  match m with
  | Ok (Some mailbox) =>
    let* r := on_mailbox mailbox Mailbox.close in
    match r with
    | Ok senders => queue_senders id senders work
    | Err e => let* _ := report_fault e in ret work
    end
  | _ => ret work
  end.

(** [scheduler/finalize.rs:217-231] [finalize_one]: what the tables forget. *)
Definition unregister_all (id : FlowId.t) : W unit :=
  let* _ := reporting (on_caps (CapTable.revoke_flow id)) in
  let* _ := reporting (on_quotas (fun m => QuotaTable.remove m (FlowId.as_u64 id))) in
  let* _ := reporting (on_directory (Directory.unregister id)) in
  let* _ := reporting (on_monitors (MonitorStore.remove_owned_by id)) in
  reporting (on_registry (RegistryStore.unregister_flow id)).

(** [scheduler/finalize.rs:233-242] [finalize_one]: the DOWN hops. *)
Definition notify_monitors (id : FlowId.t) (reason : FlowExitReason.t) : W unit :=
  let* d := on_monitors (MonitorStore.notify_target_exit id reason) in
  let* downs := match d with
                | Ok events => ret events
                | Err e => let* _ := report_fault e in ret []
                end in
  for_each deliver_down downs.

(** [scheduler/finalize.rs:244-255] [finalize_one]: the links. *)
Definition spread_exit (id : FlowId.t) (reason : FlowExitReason.t) work
  : W (list (PendingExit H)) :=
  let* l := on_links (LinkStore.remove_links_of id) in
  let* peers := match l with
                | Ok list => ret list
                | Err e => let* _ := report_fault e in ret []
                end in
  if FlowExitReason.is_abnormal reason then collect_link_exits peers work else ret work.

Definition count_end (outcome : FlowOutcome) : W unit :=
  modify (fun s => s <| metrics ::= fun m =>
    match outcome with
    | Completed _ => m <| RuntimeMetrics.processes_completed ::= RuntimeMetrics.inc |>
    | Failed _ => m <| RuntimeMetrics.processes_failed ::= RuntimeMetrics.inc |>
    end |>).

(** [scheduler/finalize.rs:257-266] [finalize_one]: the counters, the supervisor, the handle. *)
Definition settle_flow (p : PendingExit H) : W unit :=
  let* _ := count_end (poutcome p) in
  let* _ := match Flow.supervisor (pflow p) with
            | Some link => notify_supervisor link (Flow.id (pflow p)) (poutcome p)
            | None => ret tt
            end in
  complete (pflow p <| Flow.supervisor := None |>) (poutcome p).

(** [scheduler/finalize.rs:186-255] [finalize_one]: what happens before the flow is
    completed; gives the new work list. *)
Definition teardown (id : FlowId.t) (reason : FlowExitReason.t) work
  : W (list (PendingExit H)) :=
  let* _ := reporting (on_kills (KillSignals.take id)) in
  let* _ := reporting (on_waiting (WaitingSendIndex.remove id)) in
  let* _ := reporting (on_asks (AskWaitIndex.remove_asker id)) in
  let* work := close_mailbox id work in
  let* _ := wake_orphaned_asks id reason in
  let* _ := unregister_all id in
  let* _ := notify_monitors id reason in
  spread_exit id reason work.

(** [scheduler/finalize.rs] [finalize_one]: a flow refused is dropped. *)
Definition finalize_one (p : PendingExit H) work : W (list (PendingExit H)) :=
  let id := Flow.id (pflow p) in
  if FlowId.is_host id then
    let* _ := report_fault CannotFinalizeHostFlow in
    let* _ := drop_flow (pflow p) in
    ret work
  else
    let* work := teardown id (preason p) work in
    let* _ := settle_flow p in
    ret work.

(** [scheduler/finalize.rs:167-169] [finalize_flow]: the work list, last in first out; [false] when [fuel] ran out. *)
Fixpoint finalize_loop (fuel : nat) work : W bool :=
  match work with
  | [] => ret true
  | p :: work =>
    match fuel with
    | O => ret false
    | S fuel =>
      let* work := finalize_one p work in
      finalize_loop fuel work
    end
  end.

(** [scheduler/finalize.rs] [finalize_flow]: every turn settles one flow and queues
    flows the mailboxes held, so their number bounds the loop. *)
Definition finalize_flow f (outcome : FlowOutcome) (reason : FlowExitReason.t) : W bool :=
  fun s => finalize_loop (S (length (held_flows s))) [mk_pending f outcome reason] s.

(** [scheduler/finalize.rs] [request_kill] *)
Definition request_kill (id : FlowId.t) (reason : FlowExitReason.t) : W bool :=
  let* x := extract_for_kill id reason in
  match x with
  | Some flow =>
    finalize_flow flow (Failed ("killed (" +:+ FlowExitReason.to_string reason +:+ ")")) reason
  | None => ret true
  end.

End finalize.
