(* ===== verification/FinalizeTheory.v ===== *)
(** Theorems about the end of a flow: the work list terminates, no flow is lost on the
    way, every flow finalized has its handle answered, and nothing of it remains. *)

From S2P Require Import Prelude Capability Values Sync Quota Native Vm Process CapTable.
From S2P Require Import Lifecycle Mailbox Oneshot Shared SharedTheory Finalize.
Import Shared.

Section theory.
Context {H R : Type} `{ValueLayout, Allocator} (checks : bool) (workers : nat).
Implicit Types (s : Shared.t H R) (f : Flow.t H) (work : list (PendingExit H)).
#[local] Abbreviation W := (W (H := H) (R := R)).
#[local] Abbreviation triple := (triple (H := H) (R := R) workers).
#[local] Abbreviation quiet := (quiet (H := H) (R := R) workers).

(** *** Flows move, none is lost *)

Lemma triple_deliver_to b f hop : triple b [f] (deliver_to checks f hop) (fun f' => [f']).
Proof.
  unfold deliver_to. destruct (Flow.last_receive_dest f) as [d|].
  - eapply triple_alter; [apply triple_resume|]. intros f'. skip. finish.
  - finish.
Qed.

Lemma triple_make_runnable b f : triple b [f] (make_runnable f) (fun _ => []).
Proof. apply triple_consume; [apply triple_inject|]. intros _. finish. Qed.

Lemma triple_hand_over b f hop :
  triple b [f] (let* f' := deliver_to checks f hop in make_runnable f') (fun _ => []).
Proof.
  eapply triple_alter; [apply triple_deliver_to|]. intros f'. apply triple_make_runnable.
Qed.

Lemma quiet_deliver_down e : quiet (deliver_down checks e).
Proof.
  intros b. unfold deliver_down. skip. destruct a as [[m|]|]; [|finish..].
  eapply triple_bind; [apply triple_push_system|]. intros [[| | |f]|]; simpl; try finish.
  skip. apply triple_hand_over.
Qed.

Lemma quiet_wake_asker hop a : quiet (wake_asker checks hop a).
Proof.
  intros b. unfold wake_asker. skip. destruct a0 as [[m|]|]; [|finish..].
  eapply triple_bind; [apply triple_take_parked|]. intros [[f|]|]; simpl; try finish.
  apply triple_hand_over.
Qed.

Lemma quiet_for_each {A} (g : A -> W unit) l : (forall x, quiet (g x)) -> quiet (for_each g l).
Proof.
  intros Hg. induction l as [|x l IH]; simpl; [apply quiet_ret|].
  apply quiet_bind; [apply Hg|done].
Qed.

Lemma quiet_wake_orphaned_asks t r : quiet (wake_orphaned_asks checks t r).
Proof.
  unfold wake_orphaned_asks. apply quiet_bind; [quiet|]. intros [w|]; [|quiet].
  apply quiet_for_each. intros x. apply quiet_wake_asker.
Qed.

Lemma triple_extract_waiting b id : triple b [] (extract_waiting id) option_list.
Proof.
  unfold extract_waiting. skip. destruct a as [[t|]|].
  - skip. destruct a as [[m|]|].
    + eapply triple_bind; [apply triple_take_waiting|]. intros [[f|]|]; simpl.
      * skip. finish.
      * finish.
      * skip. finish.
    + finish.
    + skip. finish.
  - finish.
  - skip. finish.
Qed.

Lemma triple_extract b id r : triple b [] (extract_for_kill id r) option_list.
Proof.
  unfold extract_for_kill. skip. destruct a as [[m|]|]; [|finish|skip; finish].
  skip. destruct a as [u|e]; [|skip; finish].
  eapply triple_bind; [apply triple_take_parked|]. intros [[f|]|]; simpl.
  - finish.
  - apply triple_extract_waiting.
  - skip. apply triple_extract_waiting.
Qed.

#[local] Abbreviation flows w := (map pflow w).

Lemma triple_collect b peer work :
  triple b (flows work) (collect_link_exit peer work) (fun w => flows w).
Proof.
  eapply triple_produce; [apply triple_extract|]. intros [f|]; finish.
Qed.

Lemma triple_collects b peers work :
  triple b (flows work) (collect_link_exits peers work) (fun w => flows w).
Proof.
  revert work. induction peers as [|[l peer] peers IH]; intros work; simpl; [finish|].
  eapply triple_bind; [apply triple_collect|]. intros w. apply IH.
Qed.

Lemma triple_queue_senders b id senders work :
  triple b (senders ++ flows work) (queue_senders id senders work) (fun w => flows w).
Proof.
  revert work. induction senders as [|f senders IH]; intros work; simpl; [finish|].
  skip. eapply triple_perm; [| |apply IH]; [|done]. simpl. apply Permutation_middle.
Qed.

Lemma triple_close_mailbox b id work :
  triple b (flows work) (close_mailbox id work) (fun w => flows w).
Proof.
  unfold close_mailbox. skip. destruct a as [[m|]|]; [|finish..].
  eapply triple_produce; [apply triple_close|]. intros [l|e]; simpl.
  - apply triple_queue_senders.
  - skip. finish.
Qed.

Lemma quiet_unregister_all id : quiet (unregister_all id).
Proof. unfold unregister_all, Directory.unregister, Directory.lookup. quiet. Qed.

Lemma quiet_notify_monitors id r : quiet (notify_monitors checks id r).
Proof.
  unfold notify_monitors. apply quiet_bind; [quiet|]. intros d. apply quiet_bind; [quiet|].
  intros l. apply quiet_for_each. apply quiet_deliver_down.
Qed.

Lemma triple_spread_exit b id r work :
  triple b (flows work) (spread_exit id r work) (fun w => flows w).
Proof.
  unfold spread_exit. skip. skip. destruct (FlowExitReason.is_abnormal r); [|finish].
  apply triple_collects.
Qed.

Lemma triple_teardown b id r work :
  triple b (flows work) (teardown checks id r work) (fun w => flows w).
Proof.
  unfold teardown. do 3 skip. eapply triple_bind; [apply triple_close_mailbox|]. intros w.
  apply triple_after_quiet; [apply quiet_wake_orphaned_asks|intros _].
  apply triple_after_quiet; [apply quiet_unregister_all|intros _].
  apply triple_after_quiet; [apply quiet_notify_monitors|intros _].
  apply triple_spread_exit.
Qed.

(** *** The work list *)

(** Settling a flow leaves the mailboxes alone. *)
Lemma held_settle (p : PendingExit H) s : held_flows (snd (settle_flow p s)) = held_flows s.
Proof.
  unfold settle_flow, bind, count_end, modify. simpl.
  destruct (Flow.supervisor (pflow p)) as [l|]; simpl.
  - unfold notify_supervisor. simpl. destruct (supervisors s !! l) as [q|]; simpl.
    + destruct (on q _ _) as [[u|e] q']; simpl; unfold complete; by destruct (Sender.send _ _).
    + unfold complete. by destruct (Sender.send _ _).
  - unfold complete. by destruct (Sender.send _ _).
Qed.

Lemma complete_answers f o s : answered (snd (complete f o s)) f.
Proof.
  unfold complete. pose proof (send_settles o (slot_at s (Flow.completion f))) as Hm.
  destruct (Sender.send _ _) as [es m]. unfold answered, slot_at. simpl. by rewrite lookup_insert_eq.
Qed.

Lemma drop_answers f s : answered (snd (drop_flow f s)) f.
Proof.
  unfold drop_flow. pose proof (drop_settles (slot_at s (Flow.completion f))) as Hm.
  destruct (Sender.drop _ _) as [es m]. unfold answered, slot_at. simpl. by rewrite lookup_insert_eq.
Qed.

Lemma drop_total f s : fst (drop_flow f s) = Some tt.
Proof. unfold drop_flow. by destruct (Sender.drop _ _). Qed.

Lemma held_drop f s : held_flows (snd (drop_flow f s)) = held_flows s.
Proof. unfold drop_flow. by destruct (Sender.drop _ _). Qed.

Lemma settle_answers (p : PendingExit H) s :
  answered (snd (settle_flow p s)) (pflow p).
Proof.
  unfold settle_flow, bind, count_end, modify. simpl.
  destruct (Flow.supervisor (pflow p)) as [l|]; simpl; [|exact (complete_answers (pflow p) _ _)].
  unfold notify_supervisor. simpl. destruct (supervisors s !! l) as [q|]; simpl.
  - destruct (on q _ _) as [[u|e] q']; simpl; exact (complete_answers (pflow p) _ _).
  - exact (complete_answers (pflow p) _ _).
Qed.

Lemma triple_settle_flow b (p : PendingExit H) :
  triple b [pflow p] (settle_flow p) (fun _ => []).
Proof.
  unfold settle_flow, count_end. apply triple_after_quiet; [by apply quiet_modify|intros _].
  skip. exact (triple_complete workers b (pflow p) (poutcome p)).
Qed.

Lemma triple_finalize_one b (p : PendingExit H) work :
  triple b (flows (p :: work)) (finalize_one checks p work) (fun w => flows w).
Proof.
  unfold finalize_one. destruct (FlowId.is_host _).
  - skip. apply triple_consume; [apply triple_drop|intros _; finish].
  - eapply triple_bind.
    { apply (triple_frame workers b [pflow p]), triple_teardown. }
    intros w. apply triple_consume; [apply triple_settle_flow|intros _; finish].
Qed.

(** One turn: the flow taken off the list is answered, and the list and the mailboxes
    together hold one flow less. *)
Lemma finalize_one_counts (p : PendingExit H) work s w s' :
  good workers s -> Forall running (flows work) -> finalize_one checks p work s = (Some w, s') ->
  (length w + length (held_flows s') <= length work + length (held_flows s))%nat /\
  answered s' (pflow p).
Proof.
  intros Hs Hr. unfold finalize_one. destruct (FlowId.is_host _).
  - unfold bind. set (s1 := snd (report_fault CannotFinalizeHostFlow s)).
    change (report_fault CannotFinalizeHostFlow s) with (Some tt, s1). cbv iota beta.
    rewrite (surjective_pairing (drop_flow (pflow p) s1)), drop_total. intros [= <- <-].
    split; [rewrite held_drop; unfold held_flows; simpl; lia|apply drop_answers].
  - destruct (triple_teardown true (Flow.id (pflow p)) (preason p) work s Hs Hr)
      as (w1 & s1 & E & _ & _ & [_ _ _ Hc]).
    unfold bind at 1. rewrite E. unfold bind. intros Ew.
    pose proof (settle_answers p s1) as Ha. pose proof (held_settle p s1) as Hh.
    destruct (settle_flow p s1) as [[u|] s2]; simpl in *; [|done].
    injection Ew as <- <-. rewrite Hh. split; [|done]. specialize (Hc eq_refl). by rewrite !length_map in Hc.
Qed.

(** Enough fuel: one turn per flow on the list or in a mailbox. *)
Lemma finalize_loop_ends fuel work s :
  (length work + length (held_flows s) <= fuel)%nat ->
  good workers s -> Forall running (flows work) ->
  exists s', finalize_loop checks fuel work s = (Some true, s') /\ good workers s' /\
    moves false (flows work) [] s s'.
Proof.
  revert work s. induction fuel as [|fuel IH]; intros [|p work] s Hf Hs Hr; simpl in Hf; try lia;
    [exists s; split_and!; [done|done|apply moves_refl]..|].
  simpl. destruct (triple_finalize_one false p work s Hs Hr) as (w & s1 & E & Hs1 & Hw & M1).
  assert (Forall running (flows work)) as Hr' by (by inversion Hr).
  destruct (finalize_one_counts p work s w s1 Hs Hr' E) as [Hc _].
  destruct (IH w s1) as (s2 & E2 & Hs2 & M2); [lia|done|done|].
  exists s2. unfold bind. rewrite E. split_and!; [done|done|by eapply moves_trans].
Qed.

Lemma finalize_running_ends f o r s :
  good workers s -> running f ->
  exists s', finalize_flow checks f o r s = (Some true, s') /\ good workers s' /\
    moves false [f] [] s s' /\ answered s' f.
Proof.
  intros Hs Hr. unfold finalize_flow. simpl.
  assert (Forall running (flows [mk_pending f o r])) as Hr1 by (by repeat constructor).
  destruct (triple_finalize_one false (mk_pending f o r) [] s Hs Hr1)
    as (w & s1 & E & Hs1 & Hw & M1).
  destruct (finalize_one_counts (mk_pending f o r) [] s w s1 Hs (Forall_nil_2 _) E) as [Hc Ha].
  destruct (finalize_loop_ends (length (held_flows s)) w s1) as (s2 & E2 & Hs2 & M2);
    [simpl in Hc; lia|done|done|].
  exists s2. unfold bind. rewrite E. split_and!; [done|done|by eapply moves_trans|].
  by apply M2.
Qed.

(** Whether the flow itself still has a frame does not matter: its VM is not looked at. *)
Lemma finalize_flow_ends f o r s :
  good workers s ->
  exists s', finalize_flow checks f o r s = (Some true, s') /\ good workers s' /\
    moves false [f] [] s s' /\ answered s' f.
Proof.
  intros Hs. pose (g := f <| Flow.fvm := with_frames (Flow.fvm f) [Frame.new 0 0 None] |>).
  destruct (finalize_running_ends g o r s Hs) as (s' & E & Hs' & M & A); [done|].
  exists s'. split; [exact E|]. split_and!; [done| |exact A].
  destruct M as [(gone & Hg & Hp) K B S]. split; [by exists gone|done|done|done].
Qed.

Lemma triple_finalize_flow f o r : triple false [f] (finalize_flow checks f o r) (fun _ => []).
Proof.
  intros s Hs _. destruct (finalize_flow_ends f o r s Hs) as (s' & E & Hs' & M & _).
  by exists true, s'.
Qed.

Lemma triple_request_kill id r : triple false [] (request_kill checks id r) (fun _ => []).
Proof.
  unfold request_kill. eapply triple_bind; [apply triple_extract|]. intros [f|]; simpl.
  - apply triple_finalize_flow.
  - finish.
Qed.

End theory.
