(* ===== verification/Forgets.v ===== *)
(** What the tables of a runtime say about a flow, and that its finalization erases all
    of it for good. *)

From S2P Require Import Prelude Capability Values Sync Quota Native Vm Process CapTable.
From S2P Require Import Lifecycle LifecycleTheory Mailbox Oneshot Shared SharedTheory.
From S2P Require Import Finalize FinalizeTheory.
Import Shared.

Section forgets.
Context {H R : Type} `{ValueLayout, Allocator} (checks : bool).
Implicit Types (s : Shared.t H R) (f : Flow.t H) (id : Z) (work : list (PendingExit H)).
#[local] Abbreviation W := (W (H := H) (R := R)).

(** The tables that mention flows. *)
Inductive part :=
| PKill | PWaiting | PAsker | PTarget | PDir | PQuota | POwner | PWatched | PName | PLink | PCap.

Definition forgets (p : part) id s : Prop :=
  match p with
  | PKill => guarded (kill_signals s) !! id = None
  | PWaiting => guarded (waiting_send_at s) !! id = None
  | PAsker => AskWaitIndex.request_ids (guarded (ask_waits s)) !! id = None /\
      AskWaitIndex.by_asker (guarded (ask_waits s)) !! id = None
  | PTarget => AskWaitIndex.by_target (guarded (ask_waits s)) !! id = None
  | PDir => forall m, directory s !! Directory.shard_for id = Some m -> guarded m !! id = None
  | PQuota => guarded (quota_table s) !! id = None
  | POwner => forall k e, guarded (monitors s) !! k = Some e -> mowner e <> id
  | PWatched => forall k e, guarded (monitors s) !! k = Some e -> mtarget e <> id
  | PName => Registry.by_flow (guarded (registry s)) !! id = None /\
      forall n e, Registry.by_name (guarded (registry s)) !! n = Some e -> nflow e <> id
  | PLink => forall k l, guarded (links s) !! k = Some l -> LinkTable.peer_of id l = None
  | PCap => flow_cells (guarded (CapTable.inner (caps s))) !! id = None /\
      forall c en, entries (guarded (CapTable.inner (caps s))) !! c = Some en ->
        CapTable.keeps id (c, en)
  end.

(** No table is poisoned, and the two maps of the registry agree. *)
Record healthy s : Prop := {
  ok_kills : poisoned (kill_signals s) = false;
  ok_waiting : poisoned (waiting_send_at s) = false;
  ok_asks : poisoned (ask_waits s) = false;
  ok_quotas : poisoned (quota_table s) = false;
  ok_monitors : poisoned (monitors s) = false;
  ok_registry : poisoned (registry s) = false;
  ok_links : poisoned (links s) = false;
  ok_caps : poisoned (CapTable.inner (caps s)) = false;
  ok_shards : Forall (fun m => poisoned m = false) (directory s);
  ok_names : names_ok (guarded (registry s)) }.

(** From [s] to [s'] no table learns anything about a flow. *)
Record loses s s' : Prop := {
  loses_health : healthy s -> healthy s';
  loses_part : forall id p, forgets p id s -> forgets p id s' }.

Definition mono {A} (m : W A) : Prop := forall s, loses s (snd (m s)).

Lemma loses_refl s : loses s s.
Proof. by split. Qed.

Lemma loses_trans s1 s2 s3 : loses s1 s2 -> loses s2 s3 -> loses s1 s3.
Proof. intros [A1 B1] [A2 B2]. split; auto. Qed.

Lemma mono_ret {A} (a : A) : mono (ret a).
Proof. intros s. apply loses_refl. Qed.

Lemma mono_bind {A B} (m : W A) (k : A -> W B) :
  mono m -> (forall a, mono (k a)) -> mono (bind m k).
Proof.
  intros Hm Hk s. unfold bind. specialize (Hm s). destruct (m s) as [[a|] s1]; [|done].
  simpl in Hm. eapply loses_trans; [exact Hm|apply Hk].
Qed.

(** *** Functions that leave the tables alone *)

Ltac untouched := split; [intros []; by split|by intros ? []].

Lemma mono_report e : mono (report_fault e).
Proof. intros s. untouched. Qed.

Lemma mono_reporting {A} (m : W (result A RuntimeError)) : mono m -> mono (reporting m).
Proof. intros Hm. apply mono_bind; [done|]. intros [a|e]; [apply mono_ret|apply mono_report]. Qed.

Lemma mono_inject f : mono (inject f).
Proof. intros s. untouched. Qed.

Lemma mono_push_local me f : mono (push_local me f).
Proof. intros s. untouched. Qed.

Lemma mono_wake : mono wake_workers.
Proof.
  intros s. unfold wake_workers. destruct (lock _ _); [apply loses_refl|apply mono_report].
Qed.

Lemma mono_complete f o : mono (complete f o).
Proof. intros s. unfold complete. destruct (Sender.send _ _). untouched. Qed.

Lemma mono_drop f : mono (drop_flow f).
Proof. intros s. unfold drop_flow. destruct (Sender.drop _ _). untouched. Qed.

Lemma mono_notify sup id o : mono (notify_supervisor sup id o).
Proof.
  intros s. unfold notify_supervisor. destruct (supervisors s !! sup) as [q|]; [|apply loses_refl].
  destruct (on q _ _) as [[u|e] q']; untouched.
Qed.

Lemma mono_on_mailbox {B} m (g : Mailbox.t H -> B * Mailbox.t H) : mono (on_mailbox m g).
Proof. intros s. unfold on_mailbox. destruct (g _). untouched. Qed.

Lemma mono_on_vm {A} f (m : Vm.R H A) : mono (on_vm f m).
Proof. intros s. unfold on_vm. destruct (m _) as [[a|] st]; untouched. Qed.

Lemma mono_resume f d v : mono (resume checks f d v).
Proof. apply mono_bind; [apply mono_on_vm|]. intros x. apply mono_ret. Qed.

Lemma mono_counter f g : mono (flow_counter f g).
Proof. intros s. untouched. Qed.

Lemma mono_count_end o : mono (count_end o).
Proof. intros s. untouched. Qed.

(** *** Functions that remove *)

Ltac forget tac :=
  split; [intros []; split; simpl; done|];
  intros id p Hp; destruct p; simpl in *; try done; tac.

Lemma lookup_delete_None_2 {A} (m : gmap Z A) i j : m !! i = None -> delete j m !! i = None.
Proof. intros Hi. apply lookup_delete_None. by right. Qed.

Lemma mono_kill_take i : mono (on_kills (KillSignals.take i)).
Proof.
  intros s. unfold on_kills, KillSignals.take, on, with_lock, lock.
  destruct (poisoned _); [untouched|]. forget ltac:(by apply lookup_delete_None_2).
Qed.

Lemma mono_waiting_remove i : mono (on_waiting (WaitingSendIndex.remove i)).
Proof.
  intros s. unfold on_waiting, WaitingSendIndex.remove, on, with_lock, lock.
  destruct (poisoned _); [untouched|]. forget ltac:(by apply lookup_delete_None_2).
Qed.

Lemma mono_waiting_get i : mono (on_waiting (WaitingSendIndex.get i)).
Proof.
  intros s. unfold on_waiting, WaitingSendIndex.get, on, with_lock, lock.
  destruct (poisoned _); [untouched|]. forget ltac:(done).
Qed.

Lemma remove_inner_forgets (a i : Z) g :
  (AskWaitIndex.request_ids g !! i = None ->
   AskWaitIndex.request_ids (snd (AskWaitIndex.remove_inner a g)) !! i = None) /\
  (AskWaitIndex.by_asker g !! i = None ->
   AskWaitIndex.by_asker (snd (AskWaitIndex.remove_inner a g)) !! i = None) /\
  (AskWaitIndex.by_target g !! i = None ->
   AskWaitIndex.by_target (snd (AskWaitIndex.remove_inner a g)) !! i = None).
Proof.
  unfold AskWaitIndex.remove_inner. destruct (AskWaitIndex.by_asker g !! a) as [t|] eqn:Ea; simpl.
  - split_and!; [by apply lookup_delete_None_2..|]. intros Hi.
    destruct (AskWaitIndex.by_target g !! t) as [x|] eqn:Et; [|done].
    case_decide; [by apply lookup_delete_None_2|]. rewrite lookup_insert_ne; [done|congruence].
  - split_and!; [by apply lookup_delete_None_2|done..].
Qed.

Lemma mono_remove_asker i : mono (on_asks (AskWaitIndex.remove_asker i)).
Proof.
  intros s. unfold on_asks, AskWaitIndex.remove_asker, on, with_lock, lock.
  destruct (poisoned _); [untouched|].
  pose proof (fun j => remove_inner_forgets i j (guarded (ask_waits s))) as Hr.
  destruct (AskWaitIndex.remove_inner _ _) as [r g]. simpl in *.
  forget ltac:(destruct (Hr id) as (? & ? & ?); naive_solver).
Qed.

Lemma mono_take_waiters i : mono (on_asks (AskWaitIndex.take_waiters_of i)).
Proof.
  intros s. unfold on_asks, AskWaitIndex.take_waiters_of, on, with_lock, lock.
  destruct (poisoned _); [untouched|]. unfold AskWaitIndex.take_inner.
  destruct (AskWaitIndex.by_target _ !! (i : Z)) as [x|]; [|forget ltac:(done)].
  forget ltac:(try by apply lookup_delete_None_2).
  destruct Hp as [Ha Hb]. by rewrite !lookup_delete_all, Ha, Hb; repeat case_decide.
Qed.

Lemma mono_lookup i : mono (lookup_mailbox i).
Proof.
  intros s. unfold lookup_mailbox, on_directory, Directory.lookup, Directory.with_shard.
  destruct (directory s !! Directory.shard_for i) as [m|] eqn:E; [|untouched].
  unfold on, with_lock, lock. destruct (poisoned m) eqn:Em; simpl.
  - rewrite list_insert_id by done. untouched.
  - assert (<[Directory.shard_for i := unlock (guarded m)]> (directory s) = directory s) as ->.
    { apply list_insert_id. rewrite E. by destruct m; simpl in *; subst. }
    untouched.
Qed.

Lemma mono_quota_remove i : mono (on_quotas (fun m => QuotaTable.remove m i)).
Proof.
  intros s. unfold on_quotas, QuotaTable.remove, with_lock, lock.
  destruct (poisoned _); [untouched|]. forget ltac:(by apply lookup_delete_None_2).
Qed.

Lemma mono_unregister i : mono (on_directory (Directory.unregister i)).
Proof.
  intros s. unfold on_directory, Directory.unregister, Directory.with_shard.
  destruct (directory s !! Directory.shard_for i) as [m|] eqn:E; [|untouched].
  unfold on, with_lock, lock. destruct (poisoned m) eqn:Em; simpl.
  - rewrite list_insert_id by done. untouched.
  - split; [intros []; split; simpl; try done; by apply Forall_insert|].
    intros id p Hp. destruct p; simpl in *; try done. intros m'.
    destruct (decide (Directory.shard_for i = Directory.shard_for id)) as [Ei|Ei].
    + rewrite <- Ei in *. rewrite list_lookup_insert_eq by (by eapply lookup_lt_Some).
      intros [= <-]. simpl. apply lookup_delete_None_2. by apply Hp.
    + rewrite list_lookup_insert_ne by done. apply Hp.
Qed.

Lemma mono_remove_owned i : mono (on_monitors (MonitorStore.remove_owned_by i)).
Proof.
  intros s. unfold on_monitors, MonitorStore.remove_owned_by, on, with_lock, lock.
  destruct (poisoned _); [untouched|]. unfold MonitorTable.remove_owned_by.
  forget ltac:(intros k e He; apply map_lookup_filter_Some in He as [He _]; by eapply Hp).
Qed.

Lemma mono_target_exit i r : mono (on_monitors (MonitorStore.notify_target_exit i r)).
Proof.
  intros s. unfold on_monitors, MonitorStore.notify_target_exit, on, with_lock, lock.
  destruct (poisoned _); [untouched|]. unfold MonitorTable.notify_target_exit.
  forget ltac:(intros k e He; apply map_lookup_filter_Some in He as [He _]; by eapply Hp).
Qed.

Lemma mono_remove_links i : mono (on_links (LinkStore.remove_links_of i)).
Proof.
  intros s. unfold on_links, LinkStore.remove_links_of, on, with_lock, lock.
  destruct (poisoned _); [untouched|]. unfold LinkTable.remove_links_of.
  forget ltac:(intros k e He; apply map_lookup_filter_Some in He as [He _]; by eapply Hp).
Qed.

Lemma mono_unregister_names i : mono (on_registry (RegistryStore.unregister_flow i)).
Proof.
  intros s. unfold on_registry, RegistryStore.unregister_flow, on, with_lock, lock.
  destruct (poisoned _) eqn:Ep; [untouched|]. split.
  - intros []; split; simpl; try done. by apply unregister_flow_names_ok.
  - intros id p Hp. destruct p; simpl in *; try done. revert Hp.
    unfold Registry.unregister_flow. destruct (Registry.by_flow _ !! (i : Z)) as [names|]; [|done]. simpl.
    intros [Hf Hn]. split; [by apply lookup_delete_None_2|].
    intros n e. rewrite lookup_delete_all. case_decide; [done|]. apply Hn.
Qed.

Lemma mono_revoke i : mono (on_caps (CapTable.revoke_flow i)).
Proof.
  intros s. unfold on_caps, CapTable.revoke_flow, CapTable.locked, lock.
  destruct (poisoned (CapTable.inner (caps s))) eqn:Ep; simpl.
  - split; [intros []; by split|by intros id []].
  - forget ltac:(idtac). destruct Hp as [Hc He]. split; [by apply lookup_delete_None_2|].
    intros c en Hen. apply map_lookup_filter_Some in Hen as [Hen _]. by eapply He.
Qed.

(** *** Compositions *)

Create HintDb mono.
#[local] Hint Resolve mono_ret mono_report mono_inject mono_push_local mono_wake mono_complete
  mono_drop mono_notify mono_on_mailbox mono_on_vm mono_resume mono_counter mono_count_end
  mono_kill_take mono_waiting_remove mono_waiting_get mono_remove_asker mono_take_waiters
  mono_lookup mono_quota_remove mono_unregister mono_remove_owned mono_target_exit
  mono_remove_links mono_unregister_names mono_revoke : mono.

Ltac mono :=
  repeat first
    [ solve [eauto 2 with mono]
    | apply mono_reporting
    | apply mono_bind; [|intros ?]
    | match goal with |- mono (match ?x with _ => _ end) => destruct x end ].

Lemma mono_for_each {A} (g : A -> W unit) l : (forall x, mono (g x)) -> mono (for_each g l).
Proof.
  intros Hg. induction l as [|x l IH]; simpl; [apply mono_ret|]. by apply mono_bind.
Qed.

Lemma mono_deliver_to f hop : mono (deliver_to checks f hop).
Proof. unfold deliver_to, count_received. mono. Qed.

Lemma mono_make_runnable f : mono (make_runnable f).
Proof. unfold make_runnable. mono. Qed.
#[local] Hint Resolve mono_deliver_to mono_make_runnable : mono.

Lemma mono_deliver_down e : mono (deliver_down checks e).
Proof. unfold deliver_down. mono. Qed.

Lemma mono_wake_orphaned t r : mono (wake_orphaned_asks checks t r).
Proof.
  unfold wake_orphaned_asks. apply mono_bind; [mono|]. intros [w|]; [|mono].
  apply mono_for_each. intros a. unfold wake_asker. mono.
Qed.

Lemma mono_queue_senders id senders work : mono (queue_senders id senders work).
Proof.
  revert work. induction senders as [|f l IH]; intros work; simpl; [mono|].
  apply mono_bind; [mono|done].
Qed.
#[local] Hint Resolve mono_queue_senders : mono.

Lemma mono_close_mailbox id work : mono (close_mailbox id work).
Proof. unfold close_mailbox. mono. Qed.

Lemma mono_notify_monitors id r : mono (notify_monitors checks id r).
Proof.
  unfold notify_monitors. apply mono_bind; [mono|]. intros d. apply mono_bind; [mono|].
  intros l. apply mono_for_each. apply mono_deliver_down.
Qed.

Lemma mono_settle (p : PendingExit H) : mono (settle_flow p).
Proof. unfold settle_flow. mono. Qed.

(** *** Forgotten for good *)

Definition forgotten id s : Prop := forall p, forgets p id s.

(** Whoever was forgotten stays forgotten. *)
Record endures s s' : Prop := {
  endures_health : healthy s -> healthy s';
  endures_forgotten : forall id, forgotten id s -> forgotten id s' }.

Lemma endures_trans s1 s2 s3 : endures s1 s2 -> endures s2 s3 -> endures s1 s3.
Proof. intros [A1 B1] [A2 B2]. split; auto. Qed.

Definition lasting {A} (m : W A) : Prop := forall s, endures s (snd (m s)).

Lemma lasting_mono {A} (m : W A) : mono m -> lasting m.
Proof.
  intros Hm s. destruct (Hm s) as [A1 B1]. split; [done|]. intros id Hf p. apply B1, Hf.
Qed.

Lemma lasting_bind {A B} (m : W A) (k : A -> W B) :
  lasting m -> (forall a, lasting (k a)) -> lasting (bind m k).
Proof.
  intros Hm Hk s. unfold bind. specialize (Hm s).
  destruct (m s) as [[a|] s1]; [|done]. eapply endures_trans; [exact Hm|apply Hk].
Qed.

Lemma found_not_forgotten i s m s1 :
  lookup_mailbox i s = (Some (Ok (Some m)), s1) ->
  forall id, forgotten id s1 -> id <> i.
Proof.
  unfold lookup_mailbox, on_directory, Directory.lookup, Directory.with_shard.
  destruct (directory s !! Directory.shard_for i) as [x|] eqn:E; [|done].
  unfold on, with_lock, lock. destruct (poisoned x); [done|]. simpl.
  intros [= Hi <-] id Hf ->. specialize (Hf PDir). simpl in Hf.
  rewrite list_lookup_insert_eq in Hf by (by eapply lookup_lt_Some).
  specialize (Hf _ eq_refl). simpl in Hf. unfold FlowId.as_u64 in Hi. congruence.
Qed.

Lemma lasting_kill_set i r s :
  (forall id, forgotten id s -> id <> i) ->
  endures s (snd (on_kills (KillSignals.set i r) s)).
Proof.
  intros Hne. unfold on_kills, KillSignals.set, on, with_lock, lock.
  destruct (poisoned (kill_signals s)); simpl.
  - split; [intros []; by split|]. intros id Hf p. specialize (Hf p). by destruct p.
  - split; [intros []; by split|]. intros id Hf p. pose proof (Hne id Hf).
    specialize (Hf p). destruct p; simpl; try done. by rewrite lookup_insert_ne.
Qed.

Lemma lasting_extract i r : lasting (extract_for_kill i r).
Proof.
  intros s. unfold extract_for_kill. unfold bind at 1.
  pose proof (lasting_mono _ (mono_lookup i) s) as L1.
  destruct (lookup_mailbox i s) as [[[[m|]|e]|] s1] eqn:E; try done.
  - eapply endures_trans; [exact L1|].
    pose proof (lasting_kill_set i r s1 (found_not_forgotten _ _ _ _ E)) as L2.
    unfold bind at 1. destruct (on_kills _ s1) as [[k|] s2]; [|done].
    eapply endures_trans; [exact L2|]. simpl.
    destruct k as [u|e]; apply lasting_mono; unfold extract_waiting; mono.
  - eapply endures_trans; [exact L1|]. apply lasting_mono. mono.
Qed.

Lemma lasting_collects peers work : lasting (collect_link_exits peers work).
Proof.
  revert work. induction peers as [|[l i] peers IH]; intros work; simpl; [apply lasting_mono; mono|].
  apply lasting_bind; [|done]. unfold collect_link_exit.
  apply lasting_bind; [apply lasting_extract|]. intros [f|]; apply lasting_mono; mono.
Qed.

Lemma lasting_spread id r work : lasting (spread_exit id r work).
Proof.
  unfold spread_exit. apply lasting_bind; [apply lasting_mono; mono|]. intros l.
  apply lasting_bind; [apply lasting_mono; mono|]. intros peers.
  destruct (FlowExitReason.is_abnormal r); [apply lasting_collects|apply lasting_mono; mono].
Qed.

(** *** What one finalization erases *)

Definition erases {A} (p : part) id (m : W A) : Prop :=
  forall s, healthy s -> forgets p id (snd (m s)).

Ltac healthily := intros s []; unfold on_kills, on_waiting, on_asks, on_quotas, on_monitors,
  on_registry, on_links, KillSignals.take, WaitingSendIndex.remove, AskWaitIndex.remove_asker,
  AskWaitIndex.take_waiters_of, QuotaTable.remove, MonitorStore.remove_owned_by,
  MonitorStore.notify_target_exit, RegistryStore.unregister_flow, LinkStore.remove_links_of, on;
  rewrite with_lock_ok by done; simpl.

Lemma erases_kill id : erases PKill id (on_kills (KillSignals.take id)).
Proof. healthily. apply lookup_delete_eq. Qed.

Lemma erases_waiting id : erases PWaiting id (on_waiting (WaitingSendIndex.remove id)).
Proof. healthily. apply lookup_delete_eq. Qed.

Lemma erases_asker id : erases PAsker id (on_asks (AskWaitIndex.remove_asker id)).
Proof.
  healthily. unfold AskWaitIndex.remove_inner.
  destruct (AskWaitIndex.by_asker (guarded (ask_waits s)) !! (id : Z)) as [t|] eqn:E;
    simpl; split;
    (apply lookup_delete_eq || done).
Qed.

Lemma erases_target id : erases PTarget id (on_asks (AskWaitIndex.take_waiters_of id)).
Proof.
  healthily. unfold AskWaitIndex.take_inner.
  destruct (AskWaitIndex.by_target (guarded (ask_waits s)) !! (id : Z)) as [t|] eqn:E;
    simpl; [|done].
  apply lookup_delete_eq.
Qed.

Lemma erases_quota id : erases PQuota id (on_quotas (fun m => QuotaTable.remove m id)).
Proof. healthily. apply lookup_delete_eq. Qed.

Lemma erases_owner id : erases POwner id (on_monitors (MonitorStore.remove_owned_by id)).
Proof.
  healthily. unfold MonitorTable.remove_owned_by. intros k e He.
  apply map_lookup_filter_Some in He as [_ Hn]. unfold MonitorTable.not_owned_by in Hn. simpl in Hn.
  intros E. apply Hn. by apply Z.eqb_eq.
Qed.

Lemma erases_watched id r : erases PWatched id (on_monitors (MonitorStore.notify_target_exit id r)).
Proof.
  healthily. intros k e He.
  apply map_lookup_filter_Some in He as [_ Hn]. unfold MonitorTable.watches in Hn. simpl in Hn.
  intros E. apply Hn. by apply Z.eqb_eq.
Qed.

Lemma erases_links id : erases PLink id (on_links (LinkStore.remove_links_of id)).
Proof.
  healthily. intros k l Hl.
  apply map_lookup_filter_Some in Hl as [_ Hn]. unfold LinkTable.touches in Hn. simpl in Hn.
  destruct (LinkTable.peer_of id l); [by destruct Hn|done].
Qed.

Lemma erases_names id : erases PName id (on_registry (RegistryStore.unregister_flow id)).
Proof.
  healthily. split.
  - unfold Registry.unregister_flow.
    destruct (Registry.by_flow (guarded (registry s)) !! (id : Z)) eqn:E; simpl; [apply lookup_delete_eq|done].
  - intros n e He. rewrite unregister_flow_names in He by done.
    destruct (Registry.by_name (guarded (registry s)) !! n) as [x|]; [|done].
    destruct (Z.eqb_spec (nflow x) id); congruence.
Qed.

Lemma erases_caps id : erases PCap id (on_caps (CapTable.revoke_flow id)).
Proof.
  intros s []. unfold on_caps, CapTable.revoke_flow, CapTable.locked, lock.
  rewrite ok_caps0. simpl. split; [apply lookup_delete_eq|].
  intros c en Hc. by apply map_lookup_filter_Some in Hc as [_ ?].
Qed.

Lemma erases_dir id : erases PDir id (on_directory (Directory.unregister id)).
Proof.
  intros s []. unfold on_directory, Directory.unregister, Directory.with_shard.
  destruct (directory s !! Directory.shard_for id) as [m|] eqn:E; simpl; [|congruence].
  assert (poisoned m = false) as Hm by by eapply (Forall_lookup_1 _ _ _ _ ok_shards0).
  unfold on. rewrite with_lock_ok by done. simpl. intros m'.
  rewrite list_lookup_insert_eq by (by eapply lookup_lt_Some). intros [= <-]. simpl.
  apply lookup_delete_eq.
Qed.

Lemma erases_first {A B} p id (m : W A) (k : A -> W B) :
  erases p id m -> (forall a, mono (k a)) -> erases p id (bind m k).
Proof.
  intros Hm Hk s Hs. unfold bind. specialize (Hm s Hs). destruct (m s) as [[a|] s1]; [|done].
  by apply (Hk a).
Qed.

Lemma erases_reporting {A} p id (m : W (result A RuntimeError)) :
  erases p id m -> erases p id (reporting m).
Proof. intros Hm. apply erases_first; [done|]. intros [a|e]; mono. Qed.

(** The state after a function that returns. *)
Lemma bind_inv {A B} (m : W A) (k : A -> W B) s b s' :
  bind m k s = (Some b, s') -> exists a s1, m s = (Some a, s1) /\ k a s1 = (Some b, s').
Proof. unfold bind. destruct (m s) as [[a|] s1]; [|done]. intros E. by exists a, s1. Qed.

(** One step of a sequence: the facts [ps] about [id] so far, and those it adds. *)
Lemma forward {A} (ps qs : list part) id (m : W A) s a s' :
  m s = (Some a, s') -> mono m -> Forall (fun p => erases p id m) qs -> healthy s ->
  Forall (fun p => forgets p id s) ps ->
  healthy s' /\ Forall (fun p => forgets p id s') (qs ++ ps).
Proof.
  intros E Hm Hq Hs Hp. specialize (Hm s). rewrite E in Hm. destruct Hm as [Hh Hf]. split; [auto|].
  apply Forall_app. split.
  - eapply Forall_impl; [exact Hq|]. intros p He. specialize (He s Hs). by rewrite E in He.
  - eapply Forall_impl; [exact Hp|]. intros p. apply Hf.
Qed.

Lemma unregister_all_erases id s a s' (ps : list part) :
  unregister_all id s = (Some a, s') -> healthy s -> Forall (fun p => forgets p id s) ps ->
  healthy s' /\ Forall (fun p => forgets p id s') ([PName; POwner; PDir; PQuota; PCap] ++ ps).
Proof.
  unfold unregister_all. intros E Hs Hp.
  apply bind_inv in E as (? & s1 & E1 & E). apply bind_inv in E as (? & s2 & E2 & E).
  apply bind_inv in E as (? & s3 & E3 & E). apply bind_inv in E as (? & s4 & E4 & E).
  destruct (forward _ [PCap] id _ _ _ _ E1 ltac:(mono)
    ltac:(apply Forall_singleton, erases_reporting, erases_caps) Hs Hp) as [H1' P1].
  destruct (forward _ [PQuota] id _ _ _ _ E2 ltac:(mono)
    ltac:(apply Forall_singleton, erases_reporting, erases_quota) H1' P1) as [H2' P2].
  destruct (forward _ [PDir] id _ _ _ _ E3 ltac:(mono)
    ltac:(apply Forall_singleton, erases_reporting, erases_dir) H2' P2) as [H3' P3].
  destruct (forward _ [POwner] id _ _ _ _ E4 ltac:(mono)
    ltac:(apply Forall_singleton, erases_reporting, erases_owner) H3' P3) as [H4' P4].
  exact (forward _ [PName] id _ _ _ _ E ltac:(mono)
    ltac:(apply Forall_singleton, erases_reporting, erases_names) H4' P4).
Qed.

Lemma spread_exit_erases id r work s w s' :
  spread_exit id r work s = (Some w, s') -> healthy s ->
  (forall p, p <> PLink -> forgets p id s) -> healthy s' /\ forgotten id s'.
Proof.
  unfold spread_exit. intros E Hs Hp. apply bind_inv in E as (l & s1 & E1 & E).
  assert (healthy s1 /\ forgotten id s1) as [Hs1 Hf1].
  { pose proof (mono_remove_links id s) as [Hh Hl]. pose proof (erases_links id s Hs) as He.
    rewrite E1 in Hh, Hl, He. split; [by apply Hh|]. intros p.
    destruct p; (exact He || (apply Hl, Hp; done)). }
  assert (endures s1 s') as [Hh Hf]; [|split; auto].
  assert (lasting (fun s => (let* peers := match l with
    | Ok list => ret list
    | Err e => let* _ := report_fault e in ret []
    end in
    if FlowExitReason.is_abnormal r then collect_link_exits peers work else ret work) s)) as Hl.
  { apply lasting_bind; [apply lasting_mono; mono|]. intros peers.
    destruct (FlowExitReason.is_abnormal r); [apply lasting_collects|apply lasting_mono; mono]. }
  specialize (Hl s1). cbv beta in Hl. by rewrite E in Hl.
Qed.

Lemma teardown_erases id r work s w s' :
  teardown checks id r work s = (Some w, s') -> healthy s -> healthy s' /\ forgotten id s'.
Proof.
  unfold teardown. intros E Hs.
  apply bind_inv in E as (? & s1 & E1 & E). apply bind_inv in E as (? & s2 & E2 & E).
  apply bind_inv in E as (? & s3 & E3 & E). apply bind_inv in E as (? & s4 & E4 & E).
  apply bind_inv in E as (? & s5 & E5 & E). apply bind_inv in E as (? & s6 & E6 & E).
  apply bind_inv in E as (? & s7 & E7 & E).
  destruct (forward [] [PKill] id _ _ _ _ E1 ltac:(mono)
    ltac:(apply Forall_singleton, erases_reporting, erases_kill) Hs ltac:(done)) as [H1' P1].
  destruct (forward _ [PWaiting] id _ _ _ _ E2 ltac:(mono)
    ltac:(apply Forall_singleton, erases_reporting, erases_waiting) H1' P1) as [H2' P2].
  destruct (forward _ [PAsker] id _ _ _ _ E3 ltac:(mono)
    ltac:(apply Forall_singleton, erases_reporting, erases_asker) H2' P2) as [H3' P3].
  destruct (forward _ [] id _ _ _ _ E4 (mono_close_mailbox _ _) ltac:(done) H3' P3) as [H4' P4].
  destruct (forward _ [PTarget] id _ _ _ _ E5 (mono_wake_orphaned _ _)
    ltac:(apply Forall_singleton, erases_first;
          [apply erases_target|intros [l|e]; [apply mono_for_each; intros a; unfold wake_asker|];
           mono]) H4' P4) as [H5' P5].
  destruct (unregister_all_erases id _ _ _ _ E6 H5' P5) as [H6' P6].
  destruct (forward _ [PWatched] id _ _ _ _ E7 (mono_notify_monitors _ _)
    ltac:(apply Forall_singleton, erases_first; [apply erases_watched|];
          intros l; apply mono_bind; [mono|]; intros d; apply mono_for_each;
          apply mono_deliver_down) H6' P6) as [H7' P7].
  simpl in P7. rewrite !Forall_cons in P7. apply (spread_exit_erases _ _ _ _ _ _ E H7').
  intros []; tauto.
Qed.

Lemma finalize_one_lasting (p : PendingExit H) work : lasting (finalize_one checks p work).
Proof.
  unfold finalize_one. destruct (FlowId.is_host _); [apply lasting_mono; mono|].
  apply lasting_bind; [|intros w; apply lasting_mono; apply mono_bind; [apply mono_settle|mono]].
  unfold teardown. do 3 (apply lasting_bind; [apply lasting_mono; mono|intros _]).
  apply lasting_bind; [apply lasting_mono, mono_close_mailbox|intros w].
  apply lasting_bind; [apply lasting_mono, mono_wake_orphaned|intros _].
  apply lasting_bind; [apply lasting_mono; unfold unregister_all; mono|intros _].
  apply lasting_bind; [apply lasting_mono, mono_notify_monitors|intros _].
  apply lasting_spread.
Qed.

Lemma finalize_loop_lasting fuel work : lasting (finalize_loop checks fuel work).
Proof.
  revert work. induction fuel as [|fuel IH]; intros [|p work]; simpl;
    try (apply lasting_mono, mono_ret).
  apply lasting_bind; [apply finalize_one_lasting|done].
Qed.

Lemma finalize_flow_erases f o r s b s' :
  finalize_flow checks f o r s = (Some b, s') -> healthy s -> FlowId.is_host (Flow.id f) = false ->
  healthy s' /\ forgotten (Flow.id f) s'.
Proof.
  unfold finalize_flow. simpl. unfold finalize_one. simpl. intros E Hs Hh. rewrite Hh in E.
  apply bind_inv in E as (w & s1 & E1 & E).
  apply bind_inv in E1 as (w1 & s2 & E2 & E1).
  destruct (teardown_erases _ _ _ _ _ _ E2 Hs) as [Hs2 Hf2].
  apply bind_inv in E1 as (u & s3 & E3 & E1). injection E1 as <- <-.
  pose proof (lasting_mono _ (mono_settle (mk_pending f o r)) s2) as [A1 B1].
  pose proof (finalize_loop_lasting (length (held_flows s)) w1 s3) as [A2 B2].
  rewrite E3 in A1, B1. rewrite E in A2, B2. split; [auto|]. by apply B2, B1.
Qed.

End forgets.
