(* ===== verification/Authenticate.v ===== *)
(** The choke point every hop passes before it is delivered: the sender is stamped, a
    reply address is granted, and the tokens of the payload are issued again for the
    recipient.  Models the first part of scheduler/worker.rs. *)

From S2P Require Import Prelude Capability Values Sync Quota Native Vm Process CapTable.
From S2P Require Import Lifecycle Mailbox Oneshot Shared.
Import Shared.

Section authenticate.
Context {H R : Type} `{ValueLayout, Allocator}.
Context (getrandom : R -> option (list byte) * R) (checks : bool).
Implicit Types (s : Shared.t H R) (f : Flow.t H) (value : Value.t).
#[local] Abbreviation W := (W (H := H) (R := R)).

(** [m?] in a function that fails with [E]. *)
Definition try_ {A B E} (m : W (result A E)) (k : A -> W (result B E)) : W (result B E) :=
  let* r := m in
  match r with
  | Ok a => k a
  | Err e => ret (Err e)
  end.

(** [scheduler/worker.rs] [reissue_caps_in_value] *)
Fixpoint reissue_caps_in_value (sender recipient : FlowId.t) (value : Value.t)
  : W (result Value.t CapError.t) :=
  match value with
  | Value.Cap id =>
    if CapId.is_none id then ret (Ok (Value.Cap id))
    else
      try_ (on_caps (CapTable.delegate getrandom id sender recipient)) (fun new_id =>
      ret (Ok (Value.Cap new_id)))
  | Value.Message m =>
    try_ (reissue_caps_in_value sender recipient (payload m)) (fun new_inner =>
    ret (Ok (Value.Message (Msg.with_payload m new_inner))))
  | other => ret (Ok other)
  end.

(** [scheduler/worker.rs] [reissue_caps_from_host] *)
Fixpoint reissue_caps_from_host (recipient : FlowId.t) (value : Value.t)
  : W (result Value.t CapError.t) :=
  match value with
  | Value.Cap id =>
    if CapId.is_none id then ret (Ok (Value.Cap id))
    else
      try_ (on_caps (CapTable.reissue_for getrandom id recipient)) (fun new_id =>
      ret (Ok (Value.Cap new_id)))
  | Value.Message m =>
    try_ (reissue_caps_from_host recipient (payload m)) (fun new_inner =>
    ret (Ok (Value.Message (Msg.with_payload m new_inner))))
  | other => ret (Ok other)
  end.

Definition with_request_id (m : Message) (rid : Z) : Message :=
  {| Values.sender := Values.sender m; reply_cap := reply_cap m; request_id := rid;
     tag := tag m; payload := payload m |}.

(** [if message.request_id == 0 { message.request_id = vm.fresh_request_id(); }]: the
    draw never faults. *)
Definition assign_request_id f (m : Message) : W (Message * Flow.t H) :=
  if request_id m =? 0 then
    let* x := on_vm f fresh_request_id in
    match x with
    | (Ok rid, f) => ret (with_request_id m rid, f)
    | (Err _, f) => ret (m, f)
    end
  else ret (m, f).

(** [scheduler/worker.rs] [authenticate_outgoing_message]: on the flow that sends. *)
Definition authenticate_outgoing_message f (recipient : FlowId.t) (m : Message)
  : W (result Message CapError.t * Flow.t H) :=
  let sender := Flow.id f in
  let* x := assign_request_id f m in
  let (m, f) := x in
  let* r :=
    try_ (reissue_caps_in_value sender recipient (payload m)) (fun payload =>
    try_ (on_caps (CapTable.map_err CapError.from_runtime
            (CapTable.mint_or_reuse getrandom recipient sender CapRights.SEND))) (fun reply =>
    ret (Ok (Msg.authenticate (Msg.with_payload m payload) (FlowId.as_u64 sender) reply)))) in
  ret (r, f).

(** [scheduler/worker.rs] [authenticate_host_outgoing_message] *)
Definition authenticate_host_outgoing_message (recipient : FlowId.t) (m : Message)
  : W (result Message CapError.t) :=
  let* m :=
    if request_id m =? 0 then
      let* rid := gets host_next_request_id in
      let* _ := modify (fun s => s <| host_next_request_id ::= fun n => wrap_u 64 (n + 1) |>) in
      ret (with_request_id m (if rid =? 0 then 1 else rid))
    else ret m in
  try_ (reissue_caps_from_host recipient (payload m)) (fun payload =>
  ret (Ok (Msg.authenticate (Msg.with_payload m payload) (FlowId.as_u64 FlowId.HOST) CapId.NONE))).

End authenticate.
