(* ===== verification/Runtime.v ===== *)
(** The embedder's view: building a runtime, spawning flows, sending to them, relating,
    naming, killing and administering them.  Models scheduler/runtime.rs. *)

From S2P Require Import Prelude Capability Values Isa Verify Sync Quota Native Vm Process.
From S2P Require Import CapTable Lifecycle Mailbox Oneshot Shared Finalize Authenticate.
Import Shared.

(** [scheduler/error.rs] [SpawnError] *)
Inductive SpawnError :=
| BadFunction (index table_size : Z)
| VerifyFailed (e : VerifyError)
| SpawnInvalidCapability
| SpawnUnavailable
| FlowLimit (current max : Z)
| SpawnDenied (msg : string)
| NameTaken (name : list byte)
| ThreadSpawnFailed (msg : string)
| VmInit (msg : string).

(** [scheduler/error.rs:162-191] [SpawnError::fmt]: [debug] is the quoted form [{:?}] of a
    string, which only [NameTaken] uses. *)
Definition spawn_error_string (debug : list byte -> string) (e : SpawnError) : string :=
  match e with
  | BadFunction index table_size =>
    "spawn: function index " +:+ pretty index +:+ " out of range (table size " +:+
    pretty table_size +:+ ")"
  | VerifyFailed err => "chunk verification failed: " +:+ verify_error_string err
  | SpawnInvalidCapability => "spawn: argument capability is unknown or not held"
  | SpawnUnavailable => "spawn: runtime table unavailable"
  | FlowLimit current max =>
    "spawn: live flow limit reached (" +:+ pretty current +:+ "/" +:+ pretty max +:+ ")"
  | SpawnDenied msg => "spawn: " +:+ msg
  | NameTaken name => "spawn: registry name " +:+ debug name +:+ " already taken"
  | ThreadSpawnFailed msg => "failed to spawn runtime thread: " +:+ msg
  | VmInit msg => "vm init failed: " +:+ msg
  end.

(** [scheduler/error.rs:193-202] [SpawnError::from] *)
Definition spawn_error_from (fault : Fault.t) : SpawnError :=
  match fault with
  | Fault.BadFunction index table_size => BadFunction index table_size
  | other => VmInit (Fault.display other)
  end.

(** [scheduler/spawn.rs:19-27] [ConfinedSpawnError::fmt] *)
Definition confined_error_string (e : ConfinedSpawnError) : string :=
  match e with
  | RateLimited => "spawn rate exceeded"
  | SourceCapRevoked => "parent capability revoked"
  | MissingSpawnRight => "parent lacks SPAWN right"
  end.

(** [scheduler/runtime.rs] [SendError] *)
Inductive SendError :=
| NoLiveFlow (id : FlowId.t)
| NotAHop (got : string)
| Full (flow : FlowId.t) (reason : MailboxFullReason)
| HopCapability.

(** [scheduler/runtime.rs] [BytecodeSpawn]: the quota is its reference. *)
Record BytecodeSpawn := mk_bytecode_spawn {
  bauthority : Cap.t;
  bcell : RevocationCell.ref;
  bquota : N;
  requested_rights : CapRights.t }.

(** [scheduler/runtime.rs] [flow_id_from_u64] *)
Definition flow_id_from_u64 (raw : Z) : FlowId.t := raw.

(** [scheduler/handle.rs] [FlowHandle]: the receiver is the slot's reference. *)
Record FlowHandle := mk_handle { hid : FlowId.t; hreceiver : N }.

(** [scheduler/runtime.rs:219-243] [Runtime::with_natives_and_config]: the shared state of
    a runtime with [workers] workers, in a process whose counters are at their start. *)
Definition shared_new {H R} (workers : nat) (config : RuntimeConfig.t) (w : world H) (o : R)
  : Shared.t H R :=
  let (caps, cells) := CapTable.new (cells w) in
  Shared.mk [] (replicate workers []) Directory.new caps
    (mk_wheel (mutex_new []) (mutex_new false)) (mutex_new tt) RuntimeMetrics.default false
    config QuotaTable.new (mutex_new MonitorTable.new) (mutex_new LinkTable.new)
    (mutex_new Registry.new) (mutex_new ∅) (mutex_new ∅) AskWaitIndex.new 1 NEXT_FLOW_ID 1 1
    ∅ ∅ ∅ ∅ (with_cells w cells) o [].

Section runtime.
Context {H R : Type} `{ValueLayout, Allocator}.
Context (getrandom : R -> option (list byte) * R) (clock : R -> instant * R) (checks : bool).
Implicit Types (s : Shared.t H R) (f : Flow.t H).
#[local] Abbreviation W := (W (H := H) (R := R)).

(** [scheduler/runtime.rs] [grant_caps_in_args] *)
Fixpoint grant_caps_in_args (parent : option FlowId.t) (child : FlowId.t) (args : list Value.t)
  : W (result (list Value.t) SpawnError) :=
  match args with
  | [] => ret (Ok [])
  | arg :: args =>
    try_ (match arg with
          | Value.Cap id =>
            let* granted := on_caps (match parent with
                                     | None => CapTable.reissue_for getrandom id child
                                     | Some p => CapTable.delegate getrandom id p child
                                     end) in
            match granted with
            | Ok cap => ret (Ok (Value.Cap cap))
            | Err _ => ret (Err SpawnInvalidCapability)
            end
          | other => ret (Ok other)
          end) (fun arg =>
    try_ (grant_caps_in_args parent child args) (fun out =>
    ret (Ok (arg :: out))))
  end.

(** [Directory::len], with the fault it reports. *)
Definition directory_len : W Z := fun s =>
  let n := Directory.len (directory s) in
  if existsb poisoned (directory s) then
    (let* _ := report_fault (PoisonedLock "Directory::len") in ret n) s
  else (Some n, s).

(** [scheduler/process.rs:46-51] [next_flow_id]: on the counter of the process. *)
Definition take_flow_id : W FlowId.t := fun s =>
  let (id, n) := next_flow_id (next_flow s) in (Some id, s <| next_flow := n |>).

(** The revocation counters, as the authority of a flow is read and made. *)
Definition on_cells {B} (g : RevocationCell.store -> B) : W B := gets (fun s => g (cells (wld s))).

(** [scheduler/runtime.rs:788-805] [spawn_on]: the child's authority. *)
Definition child_authority (id : FlowId.t) (cell : RevocationCell.ref) (native_count : Z)
    (bytecode : option BytecodeSpawn) : W (result Cap.t SpawnError) :=
  match bytecode with
  | None =>
    let* cap := on_cells (fun cs =>
      Cap.root (CapTarget.Flow (FlowId.as_u64 id)) CapRights.ROOT
        (Some (NativeMask.full native_count)) cs cell) in
    ret (Ok cap)
  | Some ctx =>
    let* cs := on_cells (fun cs => cs) in
    let* t := now clock in
    let* t' := now clock in
    let* r := on_quota_opt (bquota ctx) (fun q =>
      exec_spawn_authority checks cs (bauthority ctx) (bcell ctx) q t t' (FlowId.as_u64 id)
        (requested_rights ctx) None cell) in
    ret (match r with
         | Ok cap => Ok cap
         | Err e => Err (SpawnDenied (confined_error_string e))
         end)
  end.

(** A fresh [Arc]. *)
Definition new_mailbox : W N := fun s =>
  let m : N := fresh (dom (mailboxes s)) in
  (Some m, s <| mailboxes ::= <[m := Mailbox.with_config (RuntimeConfig.mailbox (config s))]> |>).
Definition new_channel : W N := fun s =>
  let c : N := fresh (dom (completions s)) in
  (Some c, s <| completions ::= <[c := fst channel]> |>).
Definition new_flow_metrics : W N := fun s =>
  let m : N := fresh (dom (flow_metrics s)) in
  (Some m, s <| flow_metrics ::= <[m := mk_flow_metrics 0 0 0 0]> |>).
Definition new_quota : W N :=
  let* t := now clock in
  fun s =>
    let q : N := fresh (dom (quotas (wld s))) in
    (Some q, s <| wld ::= fun w => with_quotas w
       (<[q := FlowQuota.from_config (RuntimeConfig.quota (config s)) t]> (quotas w)) |>).

(** [scheduler/runtime.rs:807-815] [spawn_on]: the child's VM and quota. *)
Definition child_vm (chunk : Chunk.t) (natives : NativeTable.t H) (authority : Cap.t)
    (cell : RevocationCell.ref) (function : Z) (args : list Value.t)
  : W (result (Vm H * N) SpawnError) :=
  let* gate := gets (fun s =>
    NativeGate.from_authority authority cell (CapTable.native_cell (caps s))
      (NativeTable.len natives) (cells (wld s))) in
  let* quota := new_quota in
  match with_native_gate chunk natives gate function args with
  | Err e => ret (Err (spawn_error_from e))
  | Ok v => fun s =>
    let (r, st) := set_quota quota (mk_state v (wld s)) in
    let s := s <| wld := Vm.wld st |> in
    match r with
    | None => (None, s)
    | Some (Err e) => (Some (Err (spawn_error_from e)), s)
    | Some (Ok _) => (Some (Ok (vm st, quota)), s)
    end
  end.

(** [scheduler/runtime.rs:816-835] [spawn_on]: the child is registered and made runnable. *)
Definition launch (id : FlowId.t) (v : Vm H) (quota : N) (authority : Cap.t)
    (cell : RevocationCell.ref) (restart_policy : RestartPolicy) (supervisor : option N)
  : W (result FlowHandle SpawnError) :=
  let* mailbox := new_mailbox in
  let* r := on_directory (Directory.register id mailbox) in
  match r with
  | Err e => let* _ := report_fault e in ret (Err SpawnUnavailable)
  | Ok _ =>
    let* r := on_quotas (fun m => QuotaTable.insert m (FlowId.as_u64 id) quota) in
    match r with
    | Err e => let* _ := report_fault e in ret (Err SpawnUnavailable)
    | Ok _ =>
      let* completion := new_channel in
      let* fm := new_flow_metrics in
      let* t := now clock in
      let* flow := (fun s =>
        let (flow, w) := Flow.new (wld s) t id v mailbox restart_policy completion fm in
        (Some flow, s <| wld := w |>)) in
      let flow := flow <| Flow.authority := authority |> <| Flow.cell := cell |>
                       <| Flow.fquota := quota |> <| Flow.supervisor := supervisor |> in
      let* _ := modify (fun s => s <| metrics ::= fun m =>
        m <| RuntimeMetrics.processes_spawned ::= RuntimeMetrics.inc |> |>) in
      let* _ := make_runnable flow in
      ret (Ok (mk_handle id completion))
    end
  end.

(** [scheduler/runtime.rs] [spawn_on] *)
Definition spawn_on (chunk : Chunk.t) (natives : NativeTable.t H) (function : Z)
    (args : list Value.t) (restart_policy : RestartPolicy) (supervisor : option N)
    (parent : option FlowId.t) (bytecode : option BytecodeSpawn)
  : W (result FlowHandle SpawnError) :=
  let* max := gets (fun s => RuntimeConfig.max_flows (config s)) in
  let* current := (if 0 <? max then directory_len else ret 0) in
  if (0 <? max) && (max <=? current) then ret (Err (FlowLimit current max))
  else
    let* id := take_flow_id in
    let* cell := on_caps (CapTable.bind_flow id) in
    match cell with
    | Err _ => ret (Err SpawnUnavailable)
    | Ok cell =>
      try_ (child_authority id cell (NativeTable.len natives) bytecode) (fun authority =>
      try_ (grant_caps_in_args parent id args) (fun args =>
      try_ (child_vm chunk natives authority cell function args) (fun vq =>
      launch id (fst vq) (snd vq) authority cell restart_policy supervisor)))
    end.

(** *** The runtime and its spawner *)

(** [scheduler/runtime.rs] [RuntimeSpawner]: the shared state is threaded. *)
Record RuntimeSpawner := mk_spawner { schunk : Chunk.t; snatives : NativeTable.t H }.

(** [scheduler/runtime.rs] [Runtime]: the image, the natives and the trust level. *)
Record Runtime := mk_runtime {
  chunk : Chunk.t;
  natives : NativeTable.t H;
  trust_level : TrustLevel }.

(** [scheduler/runtime.rs] [RuntimeSpawner::spawn] *)
Definition spawner_spawn (sp : RuntimeSpawner) (function : Z) (args : list Value.t)
    (restart_policy : RestartPolicy) : W (result FlowHandle SpawnError) :=
  spawn_on (schunk sp) (snatives sp) function args restart_policy None None None.

(** [scheduler/runtime.rs] [RuntimeSpawner::spawn_linked] *)
Definition spawn_linked (sp : RuntimeSpawner) (function : Z) (args : list Value.t)
    (restart_policy : RestartPolicy) (supervisor : N) : W (result FlowHandle SpawnError) :=
  spawn_on (schunk sp) (snatives sp) function args restart_policy (Some supervisor) None None.

Implicit Type rt : Runtime.

(** [scheduler/runtime.rs] [Runtime::with_natives_and_config]: the image is verified before
    anything is started. *)
Definition with_natives_and_config (image : Chunk.t) (table : NativeTable.t H) (trust : TrustLevel)
    (workers : nat) (cfg : RuntimeConfig.t) (w : world H) (o : R)
  : result (Runtime * Shared.t H R) SpawnError :=
  match verify_with image {| Verify.trust := trust |} with
  | Err e => Err (VerifyFailed e)
  | Ok _ => Ok (mk_runtime image table trust, shared_new (Nat.max workers 1) cfg w o)
  end.

(** [scheduler/runtime.rs] [Runtime::spawn] *)
Definition spawn rt (function : Z) (args : list Value.t) : W (result FlowHandle SpawnError) :=
  spawn_on (chunk rt) (natives rt) function args Never None None None.

(** [scheduler/runtime.rs] [Runtime::spawner] *)
Definition spawner rt : RuntimeSpawner := mk_spawner (chunk rt) (natives rt).

(** [scheduler/runtime.rs] [Runtime::function_index] *)
Definition function_index rt (name : list byte) : option Z :=
  (fun i => wrap_u 32 (Z.of_nat i)) <$>
    position (fun d => bytes_eqb (FunctionDef.name d) name) (Chunk.functions (chunk rt)).

(** [scheduler/runtime.rs] [Runtime::live_flows] *)
Definition live_flows : W Z := directory_len.

(** [scheduler/runtime.rs] [Runtime::send] *)
Definition send (target : FlowId.t) (message : Value.t) : W (result unit SendError) :=
  match Value.as_message message with
  | None => ret (Err (NotAHop (Value.type_name message)))
  | Some msg =>
    let* m := lookup_mailbox target in
    match m with
    | Ok None => ret (Err (NoLiveFlow target))
    | Err e => let* _ := report_fault e in ret (Err (NoLiveFlow target))
    | Ok (Some mailbox) =>
      let* a := authenticate_host_outgoing_message getrandom target msg in
      match a with
      | Err _ => ret (Err HopCapability)
      | Ok m =>
        let stamped := Value.Message m in
        let* d := on_mailbox mailbox (fun mb => Mailbox.push mb stamped) in
        match d with
        | Ok (Ok (Handoff flow)) =>
          let* _ := on_asks (AskWaitIndex.remove_asker (Flow.id flow)) in
          let* flow := match Flow.last_receive_dest flow with
                       | Some dest => resume checks flow dest stamped
                       | None => ret flow
                       end in
          let* _ := make_runnable flow in
          ret (Ok tt)
        | Ok (Ok _) => ret (Ok tt)
        | Ok (Err full) => ret (Err (Full target (reason full)))
        | Err e => let* _ := report_fault e in ret (Err (NoLiveFlow target))
        end
      end
    end
  end.

(** [scheduler/runtime.rs] [Runtime::unavailable] *)
Definition unavailable (e : RuntimeError) : W LifecycleError :=
  let* _ := report_fault e in ret Unavailable.

(** [m.map_err(|e| self.unavailable(e))]. *)
Definition or_unavailable {A} (m : W (result A RuntimeError)) : W (result A LifecycleError) :=
  let* r := m in
  match r with
  | Ok a => ret (Ok a)
  | Err e => let* x := unavailable e in ret (Err x)
  end.

(** A store's answer that may be a lifecycle error itself. *)
Definition flatten {A} (m : W (result (result A LifecycleError) RuntimeError))
  : W (result A LifecycleError) := try_ (or_unavailable m) ret.

(** [scheduler/runtime.rs] [Runtime::require_live] *)
Definition require_live (id : FlowId.t) : W (result unit LifecycleError) :=
  try_ (or_unavailable (lookup_mailbox id)) (fun m =>
  match m with
  | Some _ => ret (Ok tt)
  | None => ret (Err (NoSuchFlow id))
  end).

(** [scheduler/runtime.rs] [Runtime::mint_cap] *)
Definition mint_cap (flow : FlowId.t) : W (result CapId.t LifecycleError) :=
  try_ (require_live flow) (fun _ =>
  or_unavailable (on_caps (CapTable.mint getrandom flow flow CapRights.ADDRESSING))).

(** [scheduler/runtime.rs] [Runtime::grant_cap] *)
Definition grant_cap (holder target : FlowId.t) : W (result CapId.t LifecycleError) :=
  try_ (require_live holder) (fun _ =>
  try_ (require_live target) (fun _ =>
  or_unavailable (on_caps (CapTable.mint getrandom holder target CapRights.ADDRESSING)))).

(** [MonitorStore::create] and [LinkStore::link] on the process-wide counters. *)
Definition create_monitor (owner target : FlowId.t) : W (result MonitorRef RuntimeError) := fun s =>
  let '(r, (m, c)) := MonitorStore.create (next_monitor s) owner target (monitors s) in
  (Some r, s <| monitors := m |> <| next_monitor := c |>).
Definition create_link (a b : FlowId.t)
  : W (result (result LinkId LifecycleError) RuntimeError) := fun s =>
  let '(r, (m, c)) := LinkStore.link (next_link s) a b (links s) in
  (Some r, s <| links := m |> <| next_link := c |>).

(** [scheduler/runtime.rs] [Runtime::monitor] *)
Definition monitor (owner target : FlowId.t) : W (result MonitorRef LifecycleError) :=
  if owner =? target then ret (Err SelfRelation)
  else
    try_ (require_live owner) (fun _ =>
    try_ (require_live target) (fun _ =>
    try_ (or_unavailable (create_monitor owner target)) (fun mon =>
    let* live := require_live target in
    let* _ := match live with
              | Err _ =>
                let* _ := on_monitors (MonitorStore.remove_owned owner mon) in
                deliver_down checks (mk_down mon owner target FlowExitReason.Fault)
              | Ok _ => ret tt
              end in
    ret (Ok mon)))).

(** [scheduler/runtime.rs] [Runtime::demonitor] *)
Definition demonitor (owner : FlowId.t) (monitor : MonitorRef) : W (result unit LifecycleError) :=
  try_ (require_live owner) (fun _ =>
  flatten (on_monitors (MonitorStore.remove_owned owner monitor))).

(** [scheduler/runtime.rs] [Runtime::link] *)
Definition link (a b : FlowId.t) : W (result LinkId LifecycleError) :=
  if a =? b then ret (Err SelfRelation)
  else
    try_ (require_live a) (fun _ =>
    try_ (require_live b) (fun _ =>
    flatten (create_link a b))).

(** [scheduler/runtime.rs] [Runtime::unlink] *)
Definition unlink (owner : FlowId.t) (link : LinkId) : W (result unit LifecycleError) :=
  try_ (require_live owner) (fun _ =>
  flatten (on_links (LinkStore.unlink_owned owner link))).

(** [scheduler/runtime.rs] [Runtime::register_name] *)
Definition register_name (name : list byte) (cap : CapId.t) : W (result unit LifecycleError) :=
  try_ (or_unavailable (on_caps (CapTable.lookup cap))) (fun entry =>
  match entry with
  | None => ret (Err InvalidCapability)
  | Some e =>
    match Capability.target e with
    | None => ret (Err InvalidCapability)
    | Some target =>
      try_ (require_live target) (fun _ =>
      flatten (on_registry (RegistryStore.register name cap target)))
    end
  end).

(** [scheduler/runtime.rs] [Runtime::whereis] *)
Definition whereis (name : list byte) : W (result (option CapId.t) LifecycleError) :=
  or_unavailable (on_registry (RegistryStore.whereis name)).

(** [scheduler/runtime.rs] [Runtime::unregister_name] *)
Definition unregister_name (name : list byte) : W (result bool LifecycleError) :=
  or_unavailable (on_registry (RegistryStore.unregister name)).

(** [scheduler/runtime.rs] [Runtime::kill] *)
Definition kill (id : FlowId.t) : W (result unit LifecycleError) :=
  try_ (require_live id) (fun _ =>
  let* _ := request_kill checks id FlowExitReason.Killed in
  ret (Ok tt)).

(** [scheduler/runtime.rs] [Runtime::mint_admin_cap] *)
Definition mint_admin_cap (holder : FlowId.t) : W (result CapId.t LifecycleError) :=
  try_ (require_live holder) (fun _ =>
  let* cap := gets (fun s => Cap.root CapTarget.Scheduler CapRights.ADMIN None (cells (wld s))
                               (CapTable.scheduler_cell (caps s))) in
  or_unavailable (on_caps (CapTable.grant getrandom holder cap))).

(** [scheduler/runtime.rs] [Runtime::require_admin] *)
Definition require_admin (holder : FlowId.t) (cap : CapId.t) : W (result unit LifecycleError) :=
  let* r := on_caps (CapTable.resolve cap holder CapRights.ADMIN) in
  match r with
  | Err _ => ret (Err InvalidCapability)
  | Ok entry =>
    let* c := gets (fun s => check_admin (cells (wld s)) (Capability.cap entry)
                               (CapTable.scheduler_cell (caps s))) in
    ret (match c with Ok _ => Ok tt | Err _ => Err InvalidCapability end)
  end.

(** [scheduler/runtime.rs] [Runtime::admin_kill] *)
Definition admin_kill (holder : FlowId.t) (cap : CapId.t) (target : FlowId.t)
  : W (result unit LifecycleError) :=
  try_ (require_admin holder cap) (fun _ => kill target).

(** What the three top-ups share: the live quota of [target] is changed by [g]. *)
Definition top_up (holder : FlowId.t) (cap : CapId.t) (target : FlowId.t)
    (g : FlowQuota.t -> FlowQuota.t) : W (result unit LifecycleError) :=
  try_ (require_admin holder cap) (fun _ =>
  try_ (or_unavailable (on_quotas (fun m => QuotaTable.get m (FlowId.as_u64 target)))) (fun q =>
  match q with
  | None => ret (Err (NoSuchFlow target))
  | Some q =>
    let* _ := on_quota q (fun fq => (tt, g fq)) in
    ret (Ok tt)
  end)).

(** [scheduler/runtime.rs] [Runtime::admin_top_up_cpu] *)
Definition admin_top_up_cpu holder cap target (extra : Z) :=
  top_up holder cap target (fun q => FlowQuota.top_up_cpu q extra).

(** [scheduler/runtime.rs] [Runtime::admin_top_up_mem] *)
Definition admin_top_up_mem holder cap target (extra : Z) :=
  top_up holder cap target (fun q => FlowQuota.top_up_mem q extra).

(** [scheduler/runtime.rs] [Runtime::admin_top_up_send] *)
Definition admin_top_up_send holder cap target (extra : Z) :=
  top_up holder cap target (fun q => FlowQuota.top_up_send q extra).

(** [scheduler/runtime.rs] [Runtime::reload_chunk] *)
Definition reload_chunk rt (image : Chunk.t) : result unit SpawnError * Runtime :=
  match verify_with image {| Verify.trust := trust_level rt |} with
  | Err e => (Err (VerifyFailed e), rt)
  | Ok _ => (Ok tt, mk_runtime image (natives rt) (trust_level rt))
  end.

(** [scheduler/timer.rs] [TimerWheel::shutdown] *)
Definition stop_timer : W unit :=
  let* r := (fun s =>
    let (r, m) := with_lock (stopping (timer s)) "TimerWheel::shutdown" (fun _ => (tt, true)) in
    (Some r, s <| timer ::= fun t => t <| stopping := m |> |>)) in
  reporting (ret r).

(** [scheduler/runtime.rs] [Runtime::request_shutdown] *)
Definition request_shutdown : W unit :=
  let* _ := modify (fun s => s <| shutdown := true |>) in
  let* _ := stop_timer in
  let* l := gets (fun s => lock (notify s) "Runtime::request_shutdown") in
  match l with Ok _ => ret tt | Err e => report_fault e end.

End runtime.
Arguments mk_spawner {H} _ _.
Arguments mk_runtime {H} _ _ _.
