(* ===== verification/Worker.v ===== *)
(** The worker: it drives a flow for a quantum and applies what its VM asks for, through
    the capability table, the quotas, the mailboxes and the lifecycle stores.  Models
    scheduler/worker.rs (the authentication of hops is in Authenticate).

    A handler of a [VmResult] answers [Some flow] when the loop goes on with the flow and
    [None] when the flow has left the worker. *)

From S2P Require Import Prelude Capability Values Isa Sync Quota Native Vm Process CapTable.
From S2P Require Import Lifecycle Mailbox Oneshot Shared Timer Finalize Authenticate Runtime.
Import Shared.

(** [scheduler/link_admin.rs:16-24] [LinkError::fmt] *)
Definition link_error_string (e : LinkError.t) : string :=
  match e with
  | LinkError.WrongTarget => "cap does not target this flow"
  | LinkError.MissingRight => "cap lacks LINK/MONITOR right"
  | LinkError.CapRevoked => "capability revoked"
  end.

(** [scheduler/worker.rs] [receive_filter] *)
Definition receive_filter (match_tag match_request_id : option Z) : WaitFilter.t :=
  match match_tag, match_request_id with
  | Some tag, Some rid => WaitFilter.TaggedCorrelation tag rid
  | Some tag, None => WaitFilter.Tag tag
  | None, Some rid => WaitFilter.Correlation rid None
  | None, None => WaitFilter.Any
  end.

(** [scheduler/worker.rs:823-826] [DeliverStatus] *)
Inductive DeliverStatus := Delivered | TargetFull.

Section worker.
Context {H R : Type} `{ValueLayout, Allocator}.
Context (getrandom : R -> option (list byte) * R) (clock : R -> instant * R) (checks : bool).
(** The quoted form of a string in Rust's [Debug]; the worker's own deque. *)
Context (debug : list byte -> string) (me : nat).
Implicit Types (s : Shared.t H R) (f flow : Flow.t H).
#[local] Abbreviation W := (W (H := H) (R := R)).

(** [scheduler/worker.rs] [resolve_cap_held] *)
Definition resolve_cap_held (id : CapId.t) (holder : FlowId.t) (need : CapRights.t)
  : W (result FlowId.t CapError.t) :=
  try_ (on_caps (CapTable.resolve id holder need)) (fun entry =>
  ret (match Capability.target entry with
       | Some target => Ok target
       | None => Err CapError.WrongTarget
       end)).

(** [scheduler/worker.rs] [resolve_relation_cap] *)
Definition resolve_relation_cap (id : CapId.t) (holder : FlowId.t) (need : CapRights.t)
  : W (result FlowId.t string) :=
  let* r := on_caps (CapTable.resolve id holder need) in
  match r with
  | Err e => ret (Err (CapError.to_string e))
  | Ok entry =>
    match Capability.target entry with
    | None => ret (Err (CapError.to_string CapError.WrongTarget))
    | Some target =>
      let* c := on_caps (CapTable.flow_cell target) in
      match c with
      | Ok None => ret (Err (CapError.to_string CapError.Unknown))
      | Err e => ret (Err (error_string e))
      | Ok (Some cell) =>
        let* check := gets (fun s =>
          (if need =? CapRights.LINK then check_link else check_monitor)
            (cells (wld s)) (Capability.cap entry) cell (FlowId.as_u64 target)) in
        ret (match check with
             | Ok _ => Ok target
             | Err e => Err (link_error_string e)
             end)
      end
    end
  end.

(** *** Ends *)

(** [scheduler/worker.rs] [finish_ok] *)
Definition finish_ok flow (value : Value.t) : W bool :=
  finalize_flow checks flow (Completed value) FlowExitReason.Normal.

(** [scheduler/worker.rs] [finish_failed] *)
Definition finish_failed flow (msg : string) : W bool :=
  finalize_flow checks flow (Failed msg) FlowExitReason.Fault.

(** [finish_failed(shared, *flow, msg); return;]. *)
Definition fail_with flow (msg : string) : W (option (Flow.t H)) :=
  let* _ := finish_failed flow msg in ret None.

(** *** Parking *)

(** The filter's request id, as [park_ask] reads it. *)
Definition filter_request_id (filter : WaitFilter.t) : Z :=
  match filter with
  | WaitFilter.Correlation expect_request_id _ => expect_request_id
  | WaitFilter.TaggedCorrelation _ expect_request_id => expect_request_id
  | _ => 0
  end.

(** A park that found its hop: the flow takes it and is runnable again. *)
Definition resume_pending flow (dest_reg : Z) : W unit :=
  let* flow := match Flow.pending_message flow with
               | Some msg =>
                 let flow := flow <| Flow.pending_message := None |> in
                 let* flow := resume checks flow dest_reg msg in
                 let* _ := count_received flow in
                 ret flow
               | None => ret flow
               end in
  make_runnable flow.

(** [scheduler/worker.rs:965-984] [park_ask]: the target went away while the asker parked. *)
Definition unpark_orphan (mailbox : N) (asker target : FlowId.t) (dest_reg : Z) : W unit :=
  let* p := on_mailbox mailbox Mailbox.take_parked in
  match p with
  | Ok (Some parked) =>
    let* _ := on_asks (AskWaitIndex.remove_asker asker) in
    let hop := Value.Message (Msg.linked_exit (FlowId.as_u64 target)
                                (FlowExitReason.as_u64 FlowExitReason.Fault)) in
    let* parked := resume checks parked dest_reg hop in
    let* _ := count_received parked in
    make_runnable parked
  | _ => ret tt
  end.

Definition schedule_timeout (timeout : option duration) (pid : FlowId.t) (mailbox : N)
    (dest_reg : Z) (epoch : WaitEpoch) : W unit :=
  match timeout with
  | Some delay => schedule_receive_timeout clock delay pid mailbox dest_reg epoch
  | None => ret tt
  end.

(** [scheduler/worker.rs] [park_ask] *)
Definition park_ask flow (dest_reg : Z) (timeout : option duration) (filter : WaitFilter.t)
    (target : FlowId.t) : W unit :=
  let asker := Flow.id flow in
  let* r := on_asks (AskWaitIndex.insert asker target (filter_request_id filter)) in
  match r with
  | Ok (Err _) =>
    let* _ := finish_failed flow (CapError.to_string CapError.DuplicateRequestId) in ret tt
  | Err e =>
    let* _ := report_fault e in
    let* _ := finish_failed flow "ask-wait index" in ret tt
  | Ok (Ok _) =>
    let mailbox := Flow.mailbox flow in
    let* p := on_mailbox mailbox (fun mb => Mailbox.park_filter mb flow filter) in
    match p with
    | Ok (Ok epoch) =>
      let* m := lookup_mailbox target in
      match m with
      | Ok (Some _) => schedule_timeout timeout asker mailbox dest_reg epoch
      | _ => unpark_orphan mailbox asker target dest_reg
      end
    | Ok (Err flow) =>
      let* _ := on_asks (AskWaitIndex.remove_asker asker) in
      resume_pending flow dest_reg
    | Err e =>
      let* _ := drop_flow flow in
      let* _ := on_asks (AskWaitIndex.remove_asker asker) in
      report_fault e
    end
  end.

(** [scheduler/worker.rs] [park_on_mailbox] *)
Definition park_on_mailbox flow (dest_reg : Z) (timeout : option duration)
    (filter : WaitFilter.t) : W unit :=
  let mailbox := Flow.mailbox flow in
  let pid := Flow.id flow in
  let* p := on_mailbox mailbox (fun mb => Mailbox.park_filter mb flow filter) in
  match p with
  | Ok (Ok epoch) => schedule_timeout timeout pid mailbox dest_reg epoch
  | Ok (Err flow) => resume_pending flow dest_reg
  | Err e =>
    let* _ := drop_flow flow in
    report_fault e
  end.

(** The target of a waiting send is gone: the sender ends. *)
Definition target_gone flow : W unit :=
  let* _ := on_waiting (WaitingSendIndex.remove (Flow.id flow)) in
  let* _ := finish_failed flow "send target gone" in
  ret tt.

(** [Mailbox::park_sender], which reports its own fault. *)
Definition park_sender_at (mailbox : N) flow (stamped : Value.t) : W (ParkSender H) :=
  let* poison := gets (fun s => poisoned (Mailbox.inner (mailbox_at s mailbox))) in
  let* _ := (if poison then report_fault (PoisonedLock "Mailbox::park_sender") else ret tt) in
  on_mailbox mailbox (fun mb => Mailbox.park_sender mb flow stamped).

(** [scheduler/worker.rs] [park_waiting_send] *)
Definition park_waiting_send flow (target : FlowId.t) (stamped : Value.t)
    (pending : PendingSend) : W unit :=
  let flow := flow <| Flow.pending_send := Some pending |> in
  let* r := on_waiting (WaitingSendIndex.insert (Flow.id flow) target) in
  match r with
  | Err e =>
    let* _ := report_fault e in
    let* _ := finish_failed flow "waiting-send index" in ret tt
  | Ok _ =>
    let* m := lookup_mailbox target in
    match m with
    | Err e => let* _ := report_fault e in target_gone flow
    | Ok None => target_gone flow
    | Ok (Some mailbox) =>
      let* p := park_sender_at mailbox flow stamped in
      match p with
      | Parked => ret tt
      | Closed flow => target_gone flow
      end
    end
  end.

(** *** Delivery *)

(** [scheduler/worker.rs] [deliver] *)
Definition deliver (target : FlowId.t) (message : Value.t) : W DeliverStatus :=
  let* m := lookup_mailbox target in
  match m with
  | Ok None => ret Delivered
  | Err e => let* _ := report_fault e in ret Delivered
  | Ok (Some mailbox) =>
    let* d := on_mailbox mailbox (fun mb => Mailbox.push mb message) in
    match d with
    | Ok (Ok (Handoff flow)) =>
      let* _ := reporting (on_asks (AskWaitIndex.remove_asker (Flow.id flow))) in
      let* flow := deliver_to checks flow message in
      let* _ := push_local me flow in
      let* _ := wake_workers in
      ret Delivered
    | Ok (Ok _) => ret Delivered
    | Ok (Err _) => ret TargetFull
    | Err e => let* _ := report_fault e in ret Delivered
    end
  end.

(** [scheduler/worker.rs] [admit_waiting_on] *)
Definition admit_waiting_on (mailbox : N) : W unit :=
  let* a := on_mailbox mailbox Mailbox.admit_waiting_sender in
  match a with
  | Ok (Some sender) =>
    let* _ := reporting (on_waiting (WaitingSendIndex.remove (Flow.id sender))) in
    let pending := Flow.pending_send sender in
    let sender := sender <| Flow.pending_send := None |> in
    match pending with
    | Some (AskReply dest_reg expect_request_id expect_sender timeout) =>
      let filter := WaitFilter.Correlation expect_request_id (Some expect_sender) in
      park_ask sender dest_reg timeout filter (flow_id_from_u64 expect_sender)
    | _ =>
      let* _ := push_local me sender in
      wake_workers
    end
  | Ok None => ret tt
  | Err e => report_fault e
  end.

(** *** What a VM asks for *)

(** [let _ = flow.vm.resume_with(dest, value);] and the loop goes on. *)
Definition answer flow (dest : Z) (value : Value.t) : W (option (Flow.t H)) :=
  let* flow := resume checks flow dest value in ret (Some flow).

(** A token for the flow, or the end of the flow. *)
Definition answer_cap {E} (show : E -> string) flow (dest : Z) (r : result CapId.t E)
  : W (option (Flow.t H)) :=
  match r with
  | Ok cap => answer flow dest (Value.Cap cap)
  | Err e => fail_with flow (show e)
  end.

(** A relation's number in a register: [i64::MAX] when it does not fit. *)
Definition ref_value (n : Z) : Value.t := Value.Int (if in_ib 64 n then n else i64_max).

(** The number in a register of the top frame, as [Demonitor] and [Unlink] read it. *)
Definition ref_register flow (reg : Z) : option Z :=
  match top_registers (Flow.fvm flow) with
  | Some regs =>
    match get regs reg with
    | Some (Value.Int n) => if 0 <=? n then Some n else None
    | _ => None
    end
  | None => None
  end.

(** [scheduler/worker.rs:336-346] [drive_process, SelfPid] *)
Definition on_self_pid flow (dest_reg : Z) : W (option (Flow.t H)) :=
  let* r := on_caps (CapTable.mint getrandom (Flow.id flow) (Flow.id flow) CapRights.ADDRESSING) in
  answer_cap error_string flow dest_reg r.

(** [scheduler/worker.rs:347-393] [drive_process, Spawn] *)
Definition on_spawn flow (function : Z) (args : list Value.t) (dest_reg : Z)
    (requested : CapRights.t) : W (option (Flow.t H)) :=
  let ctx := mk_bytecode_spawn (Flow.authority flow) (Flow.cell flow) (Flow.fquota flow)
               requested in
  let* r := spawn_on getrandom clock checks (chunk_arc (Flow.fvm flow))
              (natives_arc (Flow.fvm flow)) function args (Flow.restart_policy flow) None
              (Some (Flow.id flow)) (Some ctx) in
  match r with
  | Ok child =>
    let* c := on_caps (CapTable.mint getrandom (Flow.id flow) (hid child) CapRights.ADDRESSING) in
    answer_cap error_string flow dest_reg c
  | Err e => fail_with flow (spawn_error_string debug e)
  end.

(** [scheduler/worker.rs:406-437] [drive_process, Send]: the checks [Send] and [Ask] share: the token, the send rate, the heap charge of the
    hop, its authentication.  The charge stays with the flow that goes on. *)
Definition prepare_hop flow (target_cap : CapId.t) (need : CapRights.t) (hop : Value.t)
    (msg : Message) : W (result (FlowId.t * Message * Flow.t H) unit) :=
  let stop flow msg : W (result (FlowId.t * Message * Flow.t H) unit) :=
    let* _ := finish_failed flow msg in ret (Err tt) in
  let* t := resolve_cap_held target_cap (Flow.id flow) need in
  match t with
  | Err e => stop flow (CapError.to_string e)
  | Ok target =>
    let* c := check_send clock checks (Flow.fquota flow) in
    match c with
    | Err e => stop flow (quota_error_display e)
    | Ok _ =>
      let hop_cost := Value.memory_size hop in
      let* a := on_quota (Flow.fquota flow) (fun q => FlowQuota.alloc q hop_cost) in
      match a with
      | Err e => stop flow (quota_error_display e)
      | Ok _ =>
        let* x := authenticate_outgoing_message getrandom flow target msg in
        match x with
        | (Ok m, flow) => ret (Ok (target, m, flow))
        | (Err e, flow) =>
          let* _ := on_quota (Flow.fquota flow) (fun q => (tt, FlowQuota.free q hop_cost)) in
          stop flow (CapError.to_string e)
        end
      end
    end
  end.

(** [RuntimeMetrics::inc(&shared.metrics.messages_sent)] and the flow's own counter. *)
Definition count_hop flow : W unit :=
  let* _ := modify (fun s => s <| metrics ::= fun m =>
    m <| RuntimeMetrics.messages_sent ::= RuntimeMetrics.inc |> |>) in
  count_sent flow.

Definition free_hop flow (hop : Value.t) : W unit :=
  on_quota (Flow.fquota flow) (fun q => (tt, FlowQuota.free q (Value.memory_size hop))).

(** [scheduler/worker.rs:394-462] [drive_process, Send] *)
Definition on_send flow (target_cap : CapId.t) (message : Value.t) : W (option (Flow.t H)) :=
  match Value.as_message message with
  | None => fail_with flow "Send invariant broken: hop is not Value::Message"
  | Some msg =>
    let* p := prepare_hop flow target_cap CapRights.SEND message msg in
    match p with
    | Err _ => ret None
    | Ok (target, m, flow) =>
      let stamped := Value.Message m in
      let* _ := count_hop flow in
      let* d := deliver target stamped in
      match d with
      | Delivered =>
        let* _ := free_hop flow message in
        ret (Some flow)
      | TargetFull =>
        let* _ := park_waiting_send flow target stamped FireAndForget in
        ret None
      end
    end
  end.

(** [scheduler/worker.rs:463-501] [drive_process, Receive] *)
Definition on_receive flow (dest_reg : Z) (timeout : option duration)
    (match_tag match_request_id : option Z) : W (option (Flow.t H)) :=
  if negb (CapRights.contains (Cap.rights (Flow.authority flow)) CapRights.RECV) then
    fail_with flow "receive denied: flow lacks RECV right"
  else
    let flow := flow <| Flow.last_receive_dest := Some dest_reg |> in
    let filter := receive_filter match_tag match_request_id in
    let* m := on_mailbox (Flow.mailbox flow) (fun mb => Mailbox.try_pop_filter mb filter) in
    match m with
    | Ok (Some msg) =>
      let* _ := count_received flow in
      let* flow := resume checks flow dest_reg msg in
      let* _ := admit_waiting_on (Flow.mailbox flow) in
      ret (Some flow)
    | Ok None =>
      let* _ := park_on_mailbox flow dest_reg timeout filter in
      ret None
    | Err e =>
      let* _ := report_fault e in
      let* _ := drop_flow flow in
      ret None
    end.

(** [scheduler/worker.rs:587-612] [drive_process, Ask]: waiting for the reply. *)
Definition await_reply flow (dest_reg : Z) (timeout : option duration) (filter : WaitFilter.t)
    (target : FlowId.t) : W (option (Flow.t H)) :=
  let* m := on_mailbox (Flow.mailbox flow) (fun mb => Mailbox.try_pop_filter mb filter) in
  match m with
  | Ok (Some reply) =>
    let* _ := count_received flow in
    answer flow dest_reg reply
  | Ok None =>
    let* _ := park_ask flow dest_reg timeout filter target in
    ret None
  | Err e =>
    let* _ := report_fault e in
    let* _ := drop_flow flow in
    ret None
  end.

(** [scheduler/worker.rs:502-613] [drive_process, Ask] *)
Definition on_ask flow (dest_reg : Z) (target_cap : CapId.t) (request : Value.t)
    (timeout : option duration) : W (option (Flow.t H)) :=
  match Value.as_message request with
  | None => fail_with flow "Ask invariant broken: request is not Value::Message"
  | Some req_msg =>
    let* p := prepare_hop flow target_cap CapRights.ASK request req_msg in
    match p with
    | Err _ => ret None
    | Ok (target, m, flow) =>
      let rid := Values.request_id m in
      let stamped := Value.Message m in
      let filter := WaitFilter.Correlation rid (Some (FlowId.as_u64 target)) in
      let flow := flow <| Flow.last_receive_dest := Some dest_reg |> in
      let* _ := count_hop flow in
      let* d := deliver target stamped in
      match d with
      | TargetFull =>
        let* _ := park_waiting_send flow target stamped
                    (AskReply dest_reg rid (FlowId.as_u64 target) timeout) in
        ret None
      | Delivered =>
        let* _ := free_hop flow request in
        await_reply flow dest_reg timeout filter target
      end
    end
  end.

(** [scheduler/worker.rs:614-642] [drive_process, Monitor] *)
Definition on_monitor flow (dest_reg : Z) (target_cap : CapId.t) : W (option (Flow.t H)) :=
  let* t := resolve_relation_cap target_cap (Flow.id flow) CapRights.MONITOR in
  match t with
  | Err e => fail_with flow e
  | Ok target =>
    if target =? Flow.id flow then fail_with flow "cannot monitor self"
    else
      let* r := create_monitor (Flow.id flow) target in
      match r with
      | Ok mon => answer flow dest_reg (ref_value mon)
      | Err e => fail_with flow (error_string e)
      end
  end.

(** The end of an operation that answers nothing. *)
Definition go_on flow (r : result (result unit LifecycleError) RuntimeError)
  : W (option (Flow.t H)) :=
  match r with
  | Ok (Ok _) => ret (Some flow)
  | Ok (Err e) => fail_with flow (lifecycle_error_string e)
  | Err e => fail_with flow (error_string e)
  end.

(** [scheduler/worker.rs:643-662] [drive_process, Demonitor] *)
Definition on_demonitor flow (monitor_reg : Z) : W (option (Flow.t H)) :=
  match ref_register flow monitor_reg with
  | None => fail_with flow "demonitor: expected Int ref"
  | Some raw =>
    let* r := on_monitors (MonitorStore.remove_owned (Flow.id flow) raw) in
    go_on flow r
  end.

(** [scheduler/worker.rs:663-695] [drive_process, Link] *)
Definition on_link flow (dest_reg : Z) (target_cap : CapId.t) : W (option (Flow.t H)) :=
  let* t := resolve_relation_cap target_cap (Flow.id flow) CapRights.LINK in
  match t with
  | Err e => fail_with flow e
  | Ok target =>
    if target =? Flow.id flow then fail_with flow "cannot link self"
    else
      let* r := create_link (Flow.id flow) target in
      match r with
      | Ok (Ok id) => answer flow dest_reg (ref_value id)
      | Ok (Err e) => fail_with flow (lifecycle_error_string e)
      | Err e => fail_with flow (error_string e)
      end
  end.

(** [scheduler/worker.rs:696-715] [drive_process, Unlink] *)
Definition on_unlink flow (link_reg : Z) : W (option (Flow.t H)) :=
  match ref_register flow link_reg with
  | None => fail_with flow "unlink: expected Int id"
  | Some raw =>
    let* r := on_links (LinkStore.unlink_owned (Flow.id flow) raw) in
    go_on flow r
  end.

(** [scheduler/worker.rs:716-753] [drive_process, RegisterName] *)
Definition on_register_name flow (name : list byte) : W (option (Flow.t H)) :=
  if negb (CapRights.contains (Cap.rights (Flow.authority flow)) CapRights.SEND) then
    fail_with flow "register_name denied: flow lacks SEND right"
  else
    match name with
    | [] => fail_with flow "register_name: name must be non-empty"
    | _ =>
      let* c := on_caps (CapTable.mint getrandom (Flow.id flow) (Flow.id flow)
                           CapRights.ADDRESSING) in
      match c with
      | Err e => fail_with flow (error_string e)
      | Ok cap =>
        let* r := on_registry (RegistryStore.register name cap (Flow.id flow)) in
        go_on flow r
      end
    end.

(** [scheduler/worker.rs:754-789] [drive_process, Whereis] *)
Definition on_whereis flow (dest_reg : Z) (name : list byte) : W (option (Flow.t H)) :=
  let* t := on_registry (RegistryStore.target name) in
  match t with
  | Err e => fail_with flow (error_string e)
  | Ok None => answer flow dest_reg Value.Unit
  | Ok (Some target) =>
    let* m := lookup_mailbox target in
    match m with
    | Err e => fail_with flow (error_string e)
    | Ok None => answer flow dest_reg Value.Unit
    | Ok (Some _) =>
      let* r := on_caps (CapTable.mint_or_reuse getrandom (Flow.id flow) target CapRights.SEND) in
      answer_cap error_string flow dest_reg r
    end
  end.

(** [scheduler/worker.rs:790-822] [drive_process, Delegate] *)
Definition on_delegate flow (dest_reg : Z) (src_cap : CapId.t) (want_rights : CapRights.t)
    (want_native_cap : option CapId.t) : W (option (Flow.t H)) :=
  let* want_native := match want_native_cap with
    | None => ret (Ok None)
    | Some id =>
      let* r := on_caps (CapTable.resolve id (Flow.id flow) CapRights.NATIVE) in
      ret (match r with
           | Ok entry => Ok (Cap.native_mask (Capability.cap entry))
           | Err e => Err e
           end)
    end in
  match want_native with
  | Err e => fail_with flow (CapError.to_string e)
  | Ok want_native =>
    let* r := on_caps (CapTable.attenuate getrandom src_cap (Flow.id flow) (Flow.id flow)
                         want_rights want_native) in
    answer_cap CapError.to_string flow dest_reg r
  end.

(** [scheduler/worker.rs:317-335] [drive_process]: the results of a quantum. *)
Definition on_result flow (r : VmResult.t) : W (option (Flow.t H)) :=
  match r with
  | VmResult.Complete value => let* _ := finish_ok flow value in ret None
  | VmResult.Trap fault => fail_with flow (Fault.display fault)
  | VmResult.Yield =>
    let* _ := modify (fun s => s <| metrics ::= fun m =>
      m <| RuntimeMetrics.reschedules ::= RuntimeMetrics.inc |> |>) in
    let* _ := flow_counter flow (fun m => m <| Process.reschedules ::= RuntimeMetrics.inc |>) in
    let* _ := push_local me flow in
    ret None
  | VmResult.Sleep delay => let* _ := schedule_sleep clock delay flow in ret None
  | VmResult.SelfPid dest_reg => on_self_pid flow dest_reg
  | VmResult.Spawn function args dest_reg requested => on_spawn flow function args dest_reg requested
  | VmResult.Send target_cap message => on_send flow target_cap message
  | VmResult.Receive dest_reg timeout match_tag match_request_id =>
    on_receive flow dest_reg timeout match_tag match_request_id
  | VmResult.Ask dest_reg target_cap request timeout =>
    on_ask flow dest_reg target_cap request timeout
  | VmResult.Monitor dest_reg target_cap => on_monitor flow dest_reg target_cap
  | VmResult.Demonitor monitor_reg => on_demonitor flow monitor_reg
  | VmResult.Link dest_reg target_cap => on_link flow dest_reg target_cap
  | VmResult.Unlink link_reg => on_unlink flow link_reg
  | VmResult.RegisterName (_, name) => on_register_name flow name
  | VmResult.Whereis dest_reg (_, name) => on_whereis flow dest_reg name
  | VmResult.Delegate dest_reg src_cap want_rights want_native_cap =>
    on_delegate flow dest_reg src_cap want_rights want_native_cap
  end.

(** A quantum of the VM, its panics caught: [None] is a caught panic. *)
Definition run_vm flow (slice : Z) : W (option VmResult.t * Flow.t H) := fun s =>
  let (r, st) := Vm.run checks (Z.to_nat slice) (mk_state (Flow.fvm flow) (wld s)) in
  (Some (r, flow <| Flow.fvm := vm st |>), s <| wld := Vm.wld st |>).

(** [scheduler/worker.rs:279-315] [drive_process]: one quantum, with its CPU charge;
    [Err] is the message the flow fails with. *)
Definition quantum_step flow : W (result VmResult.t string * Flow.t H) :=
  let* remaining := on_quota (Flow.fquota flow) (fun q => (FlowQuota.remaining_cpu q, q)) in
  if remaining <=? 0 then ret (Err (quota_error_display CpuExhausted), flow)
  else
    let* quantum := gets (fun s => RuntimeConfig.quantum (config s)) in
    let slice := wrap_u 32 (Z.min quantum remaining) in
    let before := instructions_executed (Flow.fvm flow) in
    let* x := run_vm flow slice in
    let (ran, flow) := x in
    let delta := sat_sub_u64 (instructions_executed (Flow.fvm flow)) before in
    let* c := on_quota_opt (Flow.fquota flow) (fun q =>
      FlowQuota.charge_cpu checks q (wrap_i 64 delta)) in
    match c with
    | Err e => ret (Err (quota_error_display e), flow)
    | Ok _ =>
      let* _ := flow_counter flow (fun m =>
        m <| instructions := instructions_executed (Flow.fvm flow) |>) in
      ret (match ran with
           | Some r => Ok r
           | None => Err "flow panicked"
           end, flow)
    end.

(** [scheduler/worker.rs:273-317] [drive_process]: one iteration of the loop; [Some] when
    it goes on with the flow. *)
Definition drive_once flow : W (option (Flow.t H)) :=
  let* stop := gets shutdown in
  if stop then let* _ := push_local me flow in ret None
  else
    let* x := quantum_step flow in
    match x with
    | (Ok r, flow) => on_result flow r
    | (Err msg, flow) => fail_with flow msg
    end.

(** [scheduler/worker.rs:273-317] [drive_process]: the loop; [false] when [fuel] ran out. *)
Fixpoint drive_loop (fuel : nat) flow : W bool :=
  match fuel with
  | O => ret false
  | S fuel =>
    let* next := drive_once flow in
    match next with
    | Some flow => drive_loop fuel flow
    | None => ret true
    end
  end.

(** [scheduler/worker.rs:241-271] [drive_process]: before the loop; [None] when the flow
    does not reach it. *)
Definition enter flow : W (option (Flow.t H)) :=
  let* flow := match Flow.pending_message flow with
               | Some msg =>
                 deliver_to checks (flow <| Flow.pending_message := None |>) msg
               | None => ret flow
               end in
  let* k := on_kills (KillSignals.take (Flow.id flow)) in
  match k with
  | Ok (Some reason) =>
    let* _ := finalize_flow checks flow
      (Failed ("linked exit (" +:+ FlowExitReason.to_string reason +:+ ")")) reason in
    ret None
  | Ok None => ret (Some flow)
  | Err e =>
    let* _ := report_fault e in
    let* _ := drop_flow flow in
    ret None
  end.

(** [scheduler/worker.rs:241-272] [drive_process] *)
Definition drive_process (fuel : nat) flow : W bool :=
  let* next := enter flow in
  match next with
  | Some flow => drive_loop fuel flow
  | None => ret true
  end.

(** *** Finding work *)

Definition pop_front {A} (l : list A) : option (A * list A) :=
  match l with [] => None | x :: l => Some (x, l) end.

(** [local.pop()] and [stealer.steal()] of the deque of worker [w]. *)
Definition pop_deque (w : nat) : W (option (Flow.t H)) := fun s =>
  match deques s !! w with
  | Some (f :: rest) => (Some (Some f), s <| deques ::= <[w := rest]> |>)
  | _ => (Some None, s)
  end.

(** [shared.injector.steal()]; a retry is not an answer. *)
Definition pop_injector : W (option (Flow.t H)) := fun s =>
  match injector s with
  | f :: rest => (Some (Some f), s <| injector := rest |>)
  | [] => (Some None, s)
  end.

(** [scheduler/worker.rs:206-218] [find_work]: the stealers, in order. *)
Fixpoint steal_from (ws : list nat) : W (option (Flow.t H)) :=
  match ws with
  | [] => ret None
  | w :: ws =>
    let* found := pop_deque w in
    match found with
    | Some f =>
      let* _ := modify (fun s => s <| metrics ::= fun m =>
        m <| RuntimeMetrics.steals ::= RuntimeMetrics.inc |> |>) in
      ret (Some f)
    | None => steal_from ws
    end
  end.

(** [scheduler/worker.rs] [find_work] *)
Definition find_work : W (option (Flow.t H)) :=
  let* found := pop_deque me in
  match found with
  | Some f => ret (Some f)
  | None =>
    let* found := pop_injector in
    match found with
    | Some f => ret (Some f)
    | None =>
      let* n := gets (fun s => length (deques s)) in
      steal_from (seq 0 n)
    end
  end.

(** [scheduler/worker.rs] [wait_for_work]: the wait itself changes nothing here. *)
Definition wait_for_work : W unit :=
  let* l := gets (fun s => lock (notify s) "worker::wait_for_work") in
  match l with Ok _ => ret tt | Err e => report_fault e end.

(** [scheduler/worker.rs] [run_worker]: one turn of the loop; [false] on shutdown. *)
Definition worker_turn (fuel : nat) : W bool :=
  let* stop := gets shutdown in
  if stop then ret false
  else
    let* found := find_work in
    match found with
    | Some flow => let* _ := drive_process fuel flow in ret true
    | None => let* _ := wait_for_work in ret true
    end.

End worker.
