(* ===== verification/Supervisor.v ===== *)
(** The supervisor: it restarts children under a strategy and an intensity limit.  Models
    scheduler/supervisor.rs (its event queue is in Shared).

    The supervisor's own thread is the only writer of its tables; a function takes its
    state and gives it back. *)

From S2P Require Import Prelude Capability Values Isa Sync Quota Native Vm Process CapTable.
From S2P Require Import Lifecycle Mailbox Oneshot Shared Finalize Authenticate Runtime.
Import Shared.

Module ChildSpec.

(** [scheduler/supervisor.rs] [ChildSpec] *)
Record t := mk {
  name : list byte;
  function : Z;
  args : list Value.t;
  restart : RestartPolicy }.

(** [scheduler/supervisor.rs] [ChildSpec::new] *)
Definition new (name : list byte) (function : Z) : t := mk name function [] OnFailure.

(** [scheduler/supervisor.rs] [ChildSpec::args] *)
Definition with_args (c : t) (a : list Value.t) : t := mk (name c) (function c) a (restart c).

(** [scheduler/supervisor.rs] [ChildSpec::restart] *)
Definition with_restart (c : t) (r : RestartPolicy) : t := mk (name c) (function c) (args c) r.

End ChildSpec.

(** [scheduler/supervisor.rs] [RestartStrategy] *)
Inductive RestartStrategy := OneForOne | OneForAll | RestForOne.

(** [scheduler/supervisor.rs] [SupervisorConfig]: the period in nanoseconds. *)
Record SupervisorConfig := mk_sup_config {
  max_restarts : Z;
  max_period : Z;
  strategy : RestartStrategy }.

(** [scheduler/supervisor.rs:20-21] [DEFAULT_MAX_RESTARTS, DEFAULT_MAX_PERIOD] *)
Definition DEFAULT_MAX_RESTARTS : Z := 3.
Definition DEFAULT_MAX_PERIOD : Z := 5 * 1000000000.

(** [scheduler/supervisor.rs] [SupervisorConfig::default] *)
Definition default_sup_config : SupervisorConfig :=
  mk_sup_config DEFAULT_MAX_RESTARTS DEFAULT_MAX_PERIOD OneForOne.

(** [scheduler/supervisor.rs] [LiveChild] *)
Record LiveChild := mk_live { spec : ChildSpec.t; expected_shutdown : bool }.

Module ChildTable.

(** [scheduler/supervisor.rs] [ChildTable] *)
Record t := mk { by_id : gmap Z LiveChild; order : list Z }.

(** [scheduler/supervisor.rs] [ChildTable::new] *)
Definition new : t := mk ∅ [].

(** [scheduler/supervisor.rs] [ChildTable::insert] *)
Definition insert (id : Z) (child : LiveChild) (c : t) : t :=
  mk (<[id := child]> (by_id c)) (order c ++ [id]).

(** [scheduler/supervisor.rs] [ChildTable::remove] *)
Definition remove (id : Z) (c : t) : option LiveChild * t :=
  (by_id c !! id, mk (delete id (by_id c)) (filter (fun x => x <> id) (order c))).

(** [scheduler/supervisor.rs] [ChildTable::len] *)
Definition len (c : t) : Z := Z.of_nat (size (by_id c)).

End ChildTable.

(** [scheduler/supervisor.rs] [Cascade] *)
Record Cascade := mk_cascade { waiting : gset Z; specs : list ChildSpec.t }.

Module Sup.

(** [scheduler/supervisor.rs:144-154] [Inner]: [self] is the reference of its event queue;
    the condition variable has no data. *)
Record t (H : Type) := mk {
  self : N;
  spawner : RuntimeSpawner (H := H);
  config : SupervisorConfig;
  children : mutex ChildTable.t;
  cascade : mutex (option Cascade);
  restart_times : mutex (list instant);
  intensity_exceeded : bool;
  shutdown : bool }.
Arguments mk {H}.
Arguments self {H} _.
Arguments spawner {H} _.
Arguments config {H} _.
Arguments children {H} _.
Arguments cascade {H} _.
Arguments restart_times {H} _.
Arguments intensity_exceeded {H} _.
Arguments shutdown {H} _.

#[global] Instance eta H : Eta (t H) := fun p =>
  mk (self p) (spawner p) (config p) (children p) (cascade p) (restart_times p)
    (intensity_exceeded p) (shutdown p).

(** [scheduler/supervisor.rs:203-214] [Supervisor::with_config] *)
Definition new {H} (self : N) (sp : RuntimeSpawner (H := H)) (c : SupervisorConfig) : t H :=
  mk self sp c (mutex_new ChildTable.new) (mutex_new None) (mutex_new []) false false.

End Sup.

(** ** Decisions *)

(** [scheduler/supervisor.rs] [should_restart] *)
Definition should_restart (policy : RestartPolicy) (outcome : FlowOutcome) : bool :=
  match policy with
  | Always => true
  | OnFailure => match outcome with Failed _ => true | Completed _ => false end
  | Never => false
  end.

(** [scheduler/supervisor.rs:355-362] [intensity_hit]: the loop that forgets the restarts
    before the window. *)
Fixpoint drop_before (window_start : instant) (times : list instant) : list instant :=
  match times with
  | t :: rest => if t <? window_start then drop_before window_start rest else times
  | [] => []
  end.

(** [scheduler/supervisor.rs:350-363] [intensity_hit]: on the restart times; [instant_min]
    is the clock's least reading. *)
Definition note_restart (instant_min : instant) (c : SupervisorConfig) (now : instant)
    (times : list instant) : bool * list instant :=
  let times := times ++ [now] in
  let window_start := if instant_min <=? now - max_period c then now - max_period c else now in
  let times := drop_before window_start times in
  (max_restarts c <? len_u32 times, times).

(** [scheduler/supervisor.rs:423-427] [handle_exit]: who was started after, or with, the
    child that ended, from the order left without it. *)
Definition later_of (st : RestartStrategy) (failed_idx : option nat) (order : list Z) : list Z :=
  match st, failed_idx with
  | OneForAll, _ => order
  | RestForOne, Some i => skipn i order
  | _, _ => []
  end.

(** [let v = later; specs.insert(i, failed)]: an index out of range would panic. *)
Definition insert_at {A} (i : nat) (x : A) (l : list A) : option (list A) :=
  if (i <=? length l)%nat then Some (take i l ++ x :: drop i l) else None.

(** [scheduler/supervisor.rs:467-475] [start_cascade]: the children of [later] are expected
    to end; their specs. *)
Definition expect_later (later : list Z) (c : ChildTable.t) : list ChildSpec.t * ChildTable.t :=
  (omap (fun id => spec <$> ChildTable.by_id c !! id) later,
   ChildTable.mk
     (fold_left (fun m id => alter (fun l => mk_live (spec l) true) id m) later
        (ChildTable.by_id c)) (ChildTable.order c)).

(** [scheduler/supervisor.rs:476-488] [start_cascade]: what to start again, in order. *)
Definition cascade_specs (st : RestartStrategy) (failed : ChildSpec.t) (failed_idx : option nat)
    (later_specs : list ChildSpec.t) : option (list ChildSpec.t) :=
  match st with
  | OneForAll => insert_at (default (length later_specs) failed_idx) failed later_specs
  | RestForOne => Some (failed :: later_specs)
  | OneForOne => Some [failed]
  end.

(** ** The supervisor's functions *)

Section supervisor.
Context {H R : Type} `{ValueLayout, Allocator}.
Context (getrandom : R -> option (list byte) * R) (clock : R -> instant * R) (checks : bool).
Context (instant_min : instant).
Implicit Types (s : Shared.t H R) (p : Sup.t H).
#[local] Abbreviation W := (W (H := H) (R := R)).

(** [scheduler/supervisor.rs] [register_child_name] *)
Definition register_child_name (id : FlowId.t) (name : list byte) : W (result unit SpawnError) :=
  let* c := on_caps (CapTable.mint getrandom id id CapRights.ADDRESSING) in
  match c with
  | Err e =>
    let* _ := report_fault e in
    ret (Err (VmInit "cap mint failed (poisoned lock)"))
  | Ok cap =>
    let* r := on_registry (RegistryStore.register name cap id) in
    match r with
    | Ok (Ok _) => ret (Ok tt)
    | Ok (Err AlreadyRegistered) => ret (Err (NameTaken name))
    | Ok (Err e) => ret (Err (VmInit (lifecycle_error_string e)))
    | Err e =>
      let* _ := report_fault e in
      ret (Err (VmInit "registry register failed (poisoned lock)"))
    end
  end.

(** [scheduler/supervisor.rs] [spawn_child] *)
Definition spawn_child p (sp : ChildSpec.t) : W (result FlowHandle SpawnError * Sup.t H) :=
  match lock (Sup.children p) "spawn_child" with
  | Err e =>
    let* _ := report_fault e in
    ret (Err (VmInit "supervisor child table poisoned"), p)
  | Ok children =>
    let* h := spawn_linked getrandom clock checks (Sup.spawner p) (ChildSpec.function sp)
                (ChildSpec.args sp) (ChildSpec.restart sp) (Sup.self p) in
    match h with
    | Err e => ret (Err e, p)
    | Ok handle =>
      let* n := match ChildSpec.name sp with
                | [] => ret (Ok tt)
                | name => register_child_name (hid handle) name
                end in
      match n with
      | Err e =>
        let* _ := request_kill checks (hid handle) FlowExitReason.Supervisor in
        ret (Err e, p)
      | Ok _ =>
        ret (Ok handle,
             p <| Sup.children := unlock (ChildTable.insert (hid handle) (mk_live sp false) children) |>)
      end
    end
  end.

(** [scheduler/supervisor.rs] [Supervisor::start_child] *)
Definition start_child p (sp : ChildSpec.t) : W (result FlowHandle SpawnError * Sup.t H) :=
  spawn_child p sp.

(** [scheduler/supervisor.rs] [Supervisor::live_children] *)
Definition live_children p : W Z :=
  match lock (Sup.children p) "Supervisor::live_children" with
  | Ok c => ret (ChildTable.len c)
  | Err e => let* _ := report_fault e in ret 0
  end.

(** [scheduler/supervisor.rs] [intensity_hit] *)
Definition intensity_hit p : W (bool * Sup.t H) :=
  let* t := now clock in
  match lock (Sup.restart_times p) "intensity_hit" with
  | Err e => let* _ := report_fault e in ret (true, p)
  | Ok times =>
    let (hit, times) := note_restart instant_min (Sup.config p) t times in
    let p := p <| Sup.restart_times := unlock times |> in
    ret (hit, if hit then p <| Sup.intensity_exceeded := true |> else p)
  end.

(** [scheduler/supervisor.rs:555-560] [finish_cascade]: the loop. *)
Fixpoint respawn p (l : list ChildSpec.t) : W (Sup.t H) :=
  match l with
  | [] => ret p
  | sp :: l =>
    if Sup.intensity_exceeded p then ret p
    else
      let* x := spawn_child p sp in
      respawn (snd x) l
  end.

(** [scheduler/supervisor.rs] [finish_cascade] *)
Definition finish_cascade p : W (Sup.t H) :=
  match lock (Sup.cascade p) "finish_cascade" with
  | Err e => let* _ := report_fault e in ret p
  | Ok None => ret p
  | Ok (Some c) => respawn (p <| Sup.cascade := unlock None |>) (specs c)
  end.

(** [scheduler/supervisor.rs] [on_cascade_progress] *)
Definition on_cascade_progress p (id : FlowId.t) : W (Sup.t H) :=
  match lock (Sup.cascade p) "on_cascade_progress" with
  | Err e => let* _ := report_fault e in ret p
  | Ok None => ret p
  | Ok (Some c) =>
    let left := waiting c ∖ {[id]} in
    let p := p <| Sup.cascade := unlock (Some (mk_cascade left (specs c))) |> in
    if decide (left = ∅) then finish_cascade p else ret p
  end.

(** [scheduler/supervisor.rs:503-505] [start_cascade]: the request to kill each of [later]. *)
Fixpoint kill_all (ids : list Z) : W unit :=
  match ids with
  | [] => ret tt
  | id :: ids =>
    let* _ := request_kill checks id FlowExitReason.Supervisor in
    kill_all ids
  end.

(** [scheduler/supervisor.rs:509-512] [start_cascade]: who of [ids] is still in the directory;
    a shard that cannot be read counts as gone. *)
Fixpoint still_live (ids : list Z) : W (list Z) :=
  match ids with
  | [] => ret []
  | id :: ids =>
    let* m := lookup_mailbox id in
    let* live := still_live ids in
    ret (match m with Ok (Some _) => id :: live | _ => live end)
  end.

(** [scheduler/supervisor.rs:503-522] [start_cascade]: the kills, and who is left to wait for. *)
Definition run_cascade p (later : list Z) : W (Sup.t H) :=
  let* _ := kill_all later in
  match lock (Sup.cascade p) "start_cascade.prune" with
  | Err e => let* _ := report_fault e in ret p
  | Ok None => finish_cascade p
  | Ok (Some c) =>
    let* live := still_live (elements (waiting c)) in
    let left := list_to_set live in
    let p := p <| Sup.cascade := unlock (Some (mk_cascade left (specs c))) |> in
    if decide (left = ∅) then finish_cascade p
    else match later with [] => finish_cascade p | _ => ret p end
  end.

(** [scheduler/supervisor.rs] [start_cascade] *)
Definition start_cascade p (failed : ChildSpec.t) (failed_idx : option nat) (later : list Z)
  : W (Sup.t H) :=
  match lock (Sup.children p) "start_cascade" with
  | Err e => let* _ := report_fault e in ret p
  | Ok children =>
    let (later_specs, children) := expect_later later children in
    match cascade_specs (strategy (Sup.config p)) failed failed_idx later_specs with
    | None => panic
    | Some sps =>
      let p := p <| Sup.children := unlock children |> in
      match lock (Sup.cascade p) "start_cascade.cascade" with
      | Err e => let* _ := report_fault e in ret p
      | Ok _ =>
        let c := mk_cascade (list_to_set later) sps in
        run_cascade (p <| Sup.cascade := unlock (Some c) |>) later
      end
    end
  end.

(** [scheduler/supervisor.rs] [handle_exit] *)
Definition handle_exit p (e : ChildExit) : W (Sup.t H) :=
  match lock (Sup.children p) "handle_exit" with
  | Err x => let* _ := report_fault x in ret p
  | Ok children =>
    let failed_idx := position (Z.eqb (exit_id e)) (ChildTable.order children) in
    let (live, children) := ChildTable.remove (exit_id e) children in
    let p := p <| Sup.children := unlock children |> in
    match live with
    | None => ret p
    | Some live =>
      let later := later_of (strategy (Sup.config p)) failed_idx (ChildTable.order children) in
      if expected_shutdown live then on_cascade_progress p (exit_id e)
      else if negb (should_restart (ChildSpec.restart (spec live)) (exit_outcome e)) then ret p
      else if Sup.intensity_exceeded p then ret p
      else
        let* x := intensity_hit p in
        let (hit, p) := x in
        if hit then ret p
        else match strategy (Sup.config p) with
        | OneForOne => let* x := spawn_child p (spec live) in ret (snd x)
        | OneForAll | RestForOne => start_cascade p (spec live) failed_idx later
        end
    end
  end.

(** [scheduler/supervisor.rs] [drive]: one turn of the thread; [None] once it stops, the
    same state when it waits. *)
Definition supervise p : W (option (Sup.t H)) :=
  if Sup.shutdown p then ret None
  else
    let* q := gets (fun s => default (mutex_new []) (supervisors s !! Sup.self p)) in
    match lock q "supervisor::drive" with
    | Err e => let* _ := report_fault e in ret None
    | Ok [] => ret (Some p)
    | Ok (e :: events) =>
      let* _ := modify (fun s => s <| supervisors ::= <[Sup.self p := unlock events]> |>) in
      let* p := handle_exit p e in
      ret (Some p)
    end.

(** [scheduler/supervisor.rs] [Supervisor::shutdown]: the thread's join is the host's. *)
Definition stop p : Sup.t H := p <| Sup.shutdown := true |>.

End supervisor.
