(* ===== verification/System.v ===== *)
(** The whole scheduler: the threads of a runtime (workers, the timer, supervisors) and its
    embedder take turns on the shared state.  Models how scheduler/runtime.rs starts them;
    the turns are the functions of Worker, Timer, Supervisor and Runtime.

    A turn is one iteration of a thread's loop: between two turns of a thread any other may
    act.  A turn whose function panics is no transition. *)

From S2P Require Import Prelude Capability Values Isa Sync Quota Native Vm Process CapTable.
From S2P Require Import Lifecycle Mailbox Oneshot Shared Timer Finalize Authenticate Runtime.
From S2P Require Import Worker Supervisor.
Import Shared.

Section system.
Context {H R : Type} `{ValueLayout, Allocator, MinHeap}.
Context (getrandom : R -> option (list byte) * R) (clock : R -> instant * R) (checks : bool).
Context (debug : list byte -> string) (instant_min : instant).
Implicit Types (s : Shared.t H R) (f : Flow.t H).
#[local] Abbreviation W := (W (H := H) (R := R)).

(** Where a worker's thread is: in [find_work], at the head of [drive_process] with the
    flow it found, or in its loop. *)
Inductive Hand := Idle | Found f | Driving f.

(** The shared state, the worker threads and the supervisors that were started. *)
Record System := mk_system {
  shared : Shared.t H R;
  hands : list Hand;
  sups : list (Sup.t H) }.

(** [scheduler/runtime.rs:243-268] [Runtime::with_natives_and_config]: the threads start. *)
Definition start (workers : nat) (cfg : RuntimeConfig.t) (w : world H) (o : R) : System :=
  mk_system (shared_new workers cfg w o) (replicate workers Idle) [].

(** What the embedder may ask of the runtime. *)
Inductive HostOp :=
| HSpawn (rt : Runtime (H := H)) (function : Z) (args : list Value.t)
| HSend (target : FlowId.t) (message : Value.t)
| HKill (id : FlowId.t)
| HMintCap (flow : FlowId.t)
| HGrantCap (holder target : FlowId.t)
| HMonitor (owner target : FlowId.t)
| HDemonitor (owner : FlowId.t) (mon : MonitorRef)
| HLink (a b : FlowId.t)
| HUnlink (owner : FlowId.t) (lnk : LinkId)
| HRegisterName (name : list byte) (cap : CapId.t)
| HWhereis (name : list byte)
| HUnregisterName (name : list byte)
| HMintAdminCap (holder : FlowId.t)
| HAdminKill (holder : FlowId.t) (cap : CapId.t) (target : FlowId.t)
| HTopUpCpu (holder : FlowId.t) (cap : CapId.t) (target : FlowId.t) (extra : Z)
| HTopUpMem (holder : FlowId.t) (cap : CapId.t) (target : FlowId.t) (extra : Z)
| HTopUpSend (holder : FlowId.t) (cap : CapId.t) (target : FlowId.t) (extra : Z)
| HShutdown.

Definition ignore {A} (m : W A) : W unit := let* _ := m in ret tt.

Definition host (op : HostOp) : W unit :=
  match op with
  | HSpawn rt function args => ignore (spawn getrandom clock checks rt function args)
  | HSend target message => ignore (send getrandom checks target message)
  | HKill id => ignore (kill checks id)
  | HMintCap flow => ignore (mint_cap getrandom flow)
  | HGrantCap holder target => ignore (grant_cap getrandom holder target)
  | HMonitor owner target => ignore (monitor checks owner target)
  | HDemonitor owner mon => ignore (demonitor owner mon)
  | HLink a b => ignore (link a b)
  | HUnlink owner lnk => ignore (unlink owner lnk)
  | HRegisterName name cap => ignore (register_name name cap)
  | HWhereis name => ignore (whereis name)
  | HUnregisterName name => ignore (unregister_name name)
  | HMintAdminCap holder => ignore (mint_admin_cap getrandom holder)
  | HAdminKill holder cap target => ignore (admin_kill checks holder cap target)
  | HTopUpCpu holder cap target extra => ignore (admin_top_up_cpu holder cap target extra)
  | HTopUpMem holder cap target extra => ignore (admin_top_up_mem holder cap target extra)
  | HTopUpSend holder cap target extra => ignore (admin_top_up_send holder cap target extra)
  | HShutdown => request_shutdown
  end.

(** Who acts: a worker looks for work, receives the flow it found or drives it for a
    quantum; the timer's thread turns; a supervisor is started, turns or starts a child; the
    embedder calls. *)
Inductive Action :=
| AFind (me : nat)
| AEnter (me : nat)
| ADrive (me : nat)
| ATimer
| ASupervisor (sp : RuntimeSpawner (H := H)) (cfg : SupervisorConfig)
| ASupervise (i : nat)
| AStartChild (i : nat) (spec : ChildSpec.t)
| AHost (op : HostOp).

Implicit Type c : System.

Definition lift {A} (m : W A) c (k : A -> Shared.t H R -> System) : option System :=
  match m (shared c) with
  | (Some a, s) => Some (k a s)
  | (None, _) => None
  end.

Definition set_hand c (me : nat) (h : Hand) s : System := mk_system s (<[me := h]> (hands c)) (sups c).
Definition set_sup c (i : nat) (p : Sup.t H) s : System := mk_system s (hands c) (<[i := p]> (sups c)).

(** The next position of a worker that goes on with the flow, or has none. *)
Definition go (h : Flow.t H -> Hand) (o : option (Flow.t H)) : Hand :=
  match o with Some f => h f | None => Idle end.

(** [scheduler/supervisor.rs:203-214] [Supervisor::with_config]: the queue of a new
    supervisor. *)
Definition new_queue : W N := fun s =>
  let q : N := fresh (dom (supervisors s)) in
  (Some q, s <| supervisors ::= <[q := mutex_new []]> |>).

(** [scheduler/worker.rs] [run_worker], among the other threads: [None] when the action is
    not possible. *)
Definition act (a : Action) c : option System :=
  match a with
  | AFind me =>
    match hands c !! me with
    | Some Idle =>
      if shutdown (shared c) then None
      else lift (find_work me) c (fun o => set_hand c me (go Found o))
    | _ => None
    end
  | AEnter me =>
    match hands c !! me with
    | Some (Found f) => lift (enter checks f) c (fun o => set_hand c me (go Driving o))
    | _ => None
    end
  | ADrive me =>
    match hands c !! me with
    | Some (Driving f) =>
      lift (drive_once getrandom clock checks debug me f) c (fun o => set_hand c me (go Driving o))
    | _ => None
    end
  | ATimer => lift (drive_turn clock checks) c (fun _ s => mk_system s (hands c) (sups c))
  | ASupervisor sp cfg =>
    lift new_queue c (fun q s => mk_system s (hands c) (sups c ++ [Sup.new q sp cfg]))
  | ASupervise i =>
    match sups c !! i with
    | Some p =>
      lift (supervise getrandom clock checks instant_min p) c
        (fun p' => set_sup c i (default (stop p) p'))
    | None => None
    end
  | AStartChild i spec =>
    match sups c !! i with
    | Some p =>
      lift (start_child getrandom clock checks p spec) c (fun x => set_sup c i (snd x))
    | None => None
    end
  | AHost op => lift (host op) c (fun _ s => mk_system s (hands c) (sups c))
  end.

(** One transition, and a schedule of several. *)
Definition step c c' : Prop := exists a, act a c = Some c'.

Fixpoint acts (l : list Action) c : option System :=
  match l with
  | [] => Some c
  | a :: l => match act a c with Some c' => acts l c' | None => None end
  end.

Lemma acts_steps l c c' : acts l c = Some c' -> rtc step c c'.
Proof.
  revert c. induction l as [|a l IH]; intros c; simpl; [intros [= <-]; apply rtc_refl|].
  destruct (act a c) as [c1|] eqn:E; [|done]. intros E'.
  apply rtc_l with c1; [by exists a|by apply IH].
Qed.

(** The flows in the workers' hands, and everybody. *)
Definition hand_flows (h : Hand) : list (Flow.t H) :=
  match h with Idle => [] | Found f | Driving f => [f] end.
Definition in_hand c : list (Flow.t H) := concat (map hand_flows (hands c)).

End system.
Arguments Idle {H}.
Arguments Found {H} f.
Arguments Driving {H} f.
Arguments mk_system {H R} _ _ _.
Arguments shared {H R} _.
Arguments hands {H R} _.
Arguments sups {H R} _.
