(* ===== verification/Demo.v ===== *)
(** A concrete runtime: one worker, counting random bytes and clock, and an image whose
    flows receive, send and fail.  The witnesses of the scheduler's theorems run in it. *)

From S2P Require Import Prelude Capability Values Isa Verify Sync Quota Native Vm Process.
From S2P Require Import CapTable Lifecycle Mailbox Oneshot Shared Finalize Runtime Timer Worker.
Import Shared.

Module Demo.

(** The operating system is a counter: each reading of the clock and each draw moves it. *)
Definition random (n : Z) : option (list byte) * Z := (Some (to_le 16 n), n + 1).
Definition clock (n : Z) : instant * Z := (n, n + 1).
Definition debug (_ : list byte) : string := "name".

(** [wait] receives and returns the hop; [post] sends its second argument twice to its
    first; [fail] reads a constant that is not there. *)
Definition image : Chunk.t := Chunk.mk (ascii_bytes "demo") [Value.Int 3]
  [ Instruction.abc Opcode.Receive 0 0 0; Instruction.abc Opcode.Return 0 0 0;
    Instruction.abc Opcode.Send 0 1 0; Instruction.abc Opcode.Send 0 1 0;
    Instruction.abc Opcode.Return 0 0 0;
    Instruction.a_imm Opcode.LoadConst 0 9; Instruction.abc Opcode.Return 0 0 0 ]
  [ FunctionDef.mk (ascii_bytes "wait") 0 0 1; FunctionDef.mk (ascii_bytes "post") 2 2 2;
    FunctionDef.mk (ascii_bytes "fail") 5 0 1 ].

(** Mailboxes of one hop that refuse the next. *)
Definition tight : RuntimeConfig.t :=
  RuntimeConfig.mk 1000 (MailboxConfig.mk 1 MailboxBytes.DEFAULT Reject) 0 QuotaConfig.default.

Definition init (cfg : RuntimeConfig.t) : Shared.t unit Z :=
  shared_new 1 cfg (mk_world RevocationCell.empty_store ∅ 0%N tt) 100.

Definition rt : Runtime (H := unit) := mk_runtime image NativeTable.empty Untrusted.

Abbreviation W := (W (H := unit) (R := Z)).

Definition spawn (function : Z) (args : list Value.t) : W FlowId.t :=
  let* h := spawn random clock true rt function args in
  match h with Ok h => ret (hid h) | Err _ => panic end.
Definition turn : W bool := worker_turn random clock true debug 0 10.

Definition state {A} (m : W A) (cfg : RuntimeConfig.t) : Shared.t unit Z := snd (m (init cfg)).

(** Three flows that wait: the second watches the first, the third is linked to it. *)
Definition trio : Shared.t unit Z :=
  state (let* a := spawn 0 [] in let* b := spawn 0 [] in let* c := spawn 0 [] in
         let* _ := monitor true b a in let* _ := link a c in
         let* _ := turn in let* _ := turn in turn) RuntimeConfig.default.

(** Flow 1 taken from its mailbox, and what it leaves. *)
Definition taken : option (Flow.t unit) := default None (fst (extract_for_kill 1 FlowExitReason.Killed trio)).
Definition rest : Shared.t unit Z := snd (extract_for_kill 1 FlowExitReason.Killed trio).

(** A flow that has not run yet and one about to send to it twice. *)
Definition letter : Value.t := Value.Message (Msg.new 0 7 5 (Value.Int 1)).
Definition crowded : Shared.t unit Z :=
  state (let* a := spawn 0 [] in
         let* c := mint_cap random a in
         match c with
         | Ok c => let* _ := spawn 1 [Value.Cap c; letter] in ret tt
         | Err _ => panic
         end) tight.

End Demo.
