(* ===== verification/EndTheory.v ===== *)
(** The end of a flow and the timer's turns, as contracts: what finalization promises to
    the handle, to the other flows and to the tables; when and in which order the timer
    fires. *)

From Stdlib Require Import Sorting.Sorted.
From S2P Require Import Prelude Capability Values Isa Sync Quota Native Vm Process CapTable.
From S2P Require Import Lifecycle LifecycleTheory Mailbox Oneshot Shared SharedTheory Timer.
From S2P Require Import Finalize FinalizeTheory Forgets Runtime Worker Demo.
Import Shared.

(** ** Finalization *)

Section finalization.
Context {H R : Type} `{ValueLayout, Allocator} (checks : bool).
Implicit Types (s : Shared.t H R) (f : Flow.t H).

(** C13: Finalizing a flow always terminates, with the fuel the model gives it (one turn per
    flow held in a mailbox, plus one): the flow's handle is answered, and every other flow
    is still in exactly one place (injector, deque, timer, mailbox) unless the exit took it
    along, in which case its own handle is answered too. *)
Theorem finalize_terminates (workers : nat) f o r s :
  good workers s ->
  exists s' gone, finalize_flow checks f o r s = (Some true, s') /\ good workers s' /\
    answered s' f /\ Forall (answered s') gone /\
    key f :: population s ≡ₚ keys gone ++ population s'.
Proof.
  intros Hs. destruct (finalize_flow_ends checks workers f o r s Hs)
    as (s' & E & Hs' & [(gone & Hg & Hp) _ _ _] & Ha).
  exists s', gone. by split_and!.
Qed.

(** C14: Once a flow that is not the host is finalized, no table mentions it: its pending
    kill, its waiting send, its asks (as asker and as target), its directory row, its quota
    row, the monitors it owns and those that watch it, its names, its links, and every
    capability that targets or is held by it are gone; and the tables stay unpoisoned. *)
Theorem nothing_remains f o r s b s' :
  finalize_flow checks f o r s = (Some b, s') -> healthy s ->
  FlowId.is_host (Flow.id f) = false ->
  healthy s' /\ forall p, forgets p (Flow.id f) s'.
Proof. apply finalize_flow_erases. Qed.

End finalization.


(** Flow 1 of the demo is killed: flow 3, linked to it, ends with it; flow 2, which
    watched it, is awake. *)
Lemma finalize_terminates_witness :
  match Demo.taken with
  | Some f => exists s' gone,
      finalize_flow true f (Failed "killed") FlowExitReason.Killed Demo.rest = (Some true, s') /\
      [1; 2; 3] ≡ₚ map Flow.id gone ++ [2] /\ map Flow.id (injector s') = [2] /\ Forall (answered s') gone
  | None => False
  end.
Proof.
  destruct Demo.taken as [f|] eqn:Ef; [|exfalso; by vm_compute in Ef].
  destruct (finalize_terminates true 1 f (Failed "killed") FlowExitReason.Killed Demo.rest)
    as (s' & gone & E & _ & _ & Hg & Hp).
  - split; [by vm_compute|by vm_compute|vm_compute; repeat constructor; discriminate
           |by vm_compute|].
    apply homes_home. by vm_compute.
  - exists s', gone. split; [done|].
    assert (map (fun k => fst (fst k)) (population s') = [2] /\ map Flow.id (injector s') = [2]) as [Ep Ei].
    { vm_compute in Ef. injection Ef as <-. vm_compute in E. injection E as <-. by vm_compute. }
    apply (Permutation_map (fun k => fst (fst k))) in Hp. rewrite map_app, Ep in Hp.
    split_and!; [|done..]. unfold keys in Hp. rewrite map_map in Hp.
    change (map (fun x => fst (fst (key x))) gone) with (map Flow.id gone) in Hp. rewrite <- Hp.
    vm_compute in Ef. injection Ef as <-. vm_compute. apply Permutation_skip, perm_swap.
Defined.

Lemma nothing_remains_witness :
  match Demo.taken with
  | Some f => exists b s',
      finalize_flow true f (Failed "killed") FlowExitReason.Killed Demo.rest = (Some b, s') /\
      forgets PDir 1 s' /\ is_Some (guarded (links Demo.rest) !! (1 : Z)) /\ forgets PLink 1 s'
  | None => False
  end.
Proof.
  destruct Demo.taken as [f|] eqn:Ef; [|exfalso; by vm_compute in Ef].
  assert (Flow.id f = 1) as Hid by (vm_compute in Ef; by injection Ef as <-).
  destruct (finalize_flow true f (Failed "killed") FlowExitReason.Killed Demo.rest) as [[b|] s'] eqn:E;
    [|exfalso; vm_compute in Ef; injection Ef as <-; by vm_compute in E].
  exists b, s'. split; [done|].
  destruct (nothing_remains true f _ _ Demo.rest b s' E) as [_ Hn].
  - split; [vm_compute; reflexivity..|by apply (bool_decide_unpack _); vm_compute|].
    assert (guarded (registry Demo.rest) = Registry.new) as -> by (vm_compute; reflexivity).
    apply (name_run_ok []).
  - by rewrite Hid.
  - rewrite Hid in Hn. split_and!; [apply Hn|by eexists; vm_compute|apply Hn].
Defined.

(** ** The timer *)

(** A heap that puts the first of the least deadlines on top. *)
Lemma first_least_spec ds d :
  let (i, m) := first_least (d :: ds) in
  (d :: ds) !! i = Some m /\ Forall (fun d' => m <= d') (d :: ds).
Proof.
  revert d. induction ds as [|d' ds IH]; intros d; [simpl; split; [done|constructor; [lia|done]]|].
  specialize (IH d'). cbn [first_least]. change (match ds with [] => (0%nat, d') | _ => _ end)
    with (first_least (d' :: ds)).
  destruct (first_least (d' :: ds)) as [i m]. destruct IH as [Hi Hm].
  destruct (Z.leb_spec d m).
  - split; [done|]. constructor; [lia|]. eapply Forall_impl; [exact Hm|]. simpl. lia.
  - split; [done|]. constructor; [lia|done].
Qed.

#[export] Instance first_min : MinHeap.
Proof.
  refine {| top_index ds := fst (first_least ds) |}.
  - intros [|d ds] i x Hi Hx; [done|]. pose proof (first_least_spec ds d) as Hs.
    destruct (first_least (d :: ds)) as [j m]. simpl in Hi. subst j. destruct Hs as [E Hs].
    assert (Some m = Some x) as [= <-] by (etransitivity; [symmetry; exact E|exact Hx]). done.
  - intros d ds. pose proof (first_least_spec ds d) as Hs.
    destruct (first_least (d :: ds)) as [j m]. destruct Hs as [E _].
    by apply lookup_lt_Some in E.
Defined.

Section timer.
Context {H R : Type} `{ValueLayout, Allocator, MinHeap}.
Context (clock : R -> instant * R) (checks : bool).
Implicit Types (s : Shared.t H R) (f : Flow.t H) (entries : list (TimerEntry H)).

Definition pending s : list (TimerEntry H) := guarded (heap (timer s)).

(** The sleeping flows of entries, in their order. *)
Definition sleepers_of entries : list (Flow.t H) :=
  omap (fun e => match tpayload e with WakeSleeper f => Some f | _ => None end) entries.

Definition before (e e' : TimerEntry H) : Prop := deadline e <= deadline e'.

Lemma peek_least entries e :
  peek entries = Some e -> entries ≡ₚ e :: pop entries /\ Forall (before e) (pop entries).
Proof.
  unfold peek, pop. set (i := top_index _). intros He.
  assert (Forall (before e) entries) as Hall.
  { assert (Forall (fun d => deadline e <= d) (map deadline entries)) as Hd.
    { eapply (top_least _ i); [done|]. by rewrite list_lookup_fmap, He. }
    by rewrite Forall_map in Hd. }
  pose proof (delete_Permutation _ _ _ He) as Hp. split; [done|].
  rewrite Hp in Hall. by apply Forall_cons in Hall as [_ ?].
Qed.

Lemma peek_some e entries : is_Some (peek (e :: entries)).
Proof.
  unfold peek. apply lookup_lt_is_Some_2. rewrite <- (length_map deadline). apply top_exists.
Qed.

(** What firing an entry does not touch, and what it gives the injector. *)
Definition fires (e : option (TimerEntry H)) s s' : Prop :=
  timer s' = timer s /\ os s' = os s /\
  exists woken, injector s' = injector s ++ woken /\
    sleepers_of (option_list e) `sublist_of` woken.

Lemma fires_still s s' :
  timer s' = timer s -> os s' = os s -> injector s' = injector s -> fires None s s'.
Proof. intros Ht Ho Hi. split_and!; [done..|]. exists []. by rewrite app_nil_r. Qed.

Lemma fires_trans e s1 s2 s3 : fires e s1 s2 -> fires None s2 s3 -> fires e s1 s3.
Proof.
  intros (Ht1 & Ho1 & w1 & E1 & S1) (Ht2 & Ho2 & w2 & E2 & _). split_and!; [congruence..|].
  exists (w1 ++ w2). rewrite E2, E1, app_assoc. split; [done|].
  by apply sublist_inserts_r.
Qed.

Lemma fires_report x s : fires None s (snd (report_fault x s)).
Proof. by apply fires_still. Qed.

Lemma fires_inject f s :
  fires None s (snd (inject f s)).
Proof. split_and!; [done..|]. exists [f]. split; [done|]. apply sublist_nil_l. Qed.

(** A function that only adds to the injector, whatever it answers. *)
Definition adds {A} (m : W (H := H) (R := R) A) : Prop := forall s, fires None s (snd (m s)).

Lemma adds_bind {A B} (m : W A) (k : A -> W B) :
  adds m -> (forall a, adds (k a)) -> adds (bind m k).
Proof.
  intros Hm Hk s. unfold bind. specialize (Hm s). destruct (m s) as [[a|] s1]; [|done].
  simpl in Hm. eapply fires_trans; [exact Hm|apply Hk].
Qed.

Lemma adds_ret {A} (a : A) : adds (ret a).
Proof. intros s. by apply fires_still. Qed.

Lemma adds_reporting {A} (m : W (result A RuntimeError)) : adds m -> adds (reporting m).
Proof. intros Hm. apply adds_bind; [done|]. intros [a|x]; [apply adds_ret|intros s; apply fires_report]. Qed.

Lemma adds_fire_receiver pid m d e : adds (fire_receiver checks pid m d e).
Proof.
  unfold fire_receiver. apply adds_bind.
  { intros s. unfold on_mailbox. destruct (Mailbox.take_parked_at _ _). by apply fires_still. }
  intros [[f|]|x]; [|apply adds_ret|intros s; apply fires_report].
  destruct (checks && _); [intros s; by apply fires_still|].
  apply adds_bind; [|intros _; apply adds_bind; [|intros f'; intros s; apply fires_inject]].
  - apply adds_reporting. intros s. unfold on_asks. destruct (AskWaitIndex.remove_asker _ _).
    by apply fires_still.
  - apply adds_bind; [|intros x; apply adds_ret]. intros s. unfold on_vm.
    destruct (resume_with _ _ _ _) as [[r|] st]; by apply fires_still.
Qed.

Lemma adds_fire_notify : adds (let* l := gets (fun s => lock (notify s) "TimerWheel::fire/notify") in
  match l with Ok _ => ret tt | Err x => report_fault x end).
Proof.
  intros s. unfold bind, gets. destruct (lock _ _); [by apply fires_still|apply fires_report].
Qed.

Lemma fire_fires e s : fires (Some e) s (snd (fire checks e s)).
Proof.
  unfold fire, bind at 1. destruct e as [d [f|pid m r ep]]; simpl.
  - eapply fires_trans; [|apply adds_fire_notify]. split_and!; [done..|]. by exists [f].
  - pose proof (adds_fire_receiver pid m r ep s) as Hr.
    destruct (fire_receiver checks pid m r ep s) as [[u|] s1]; [|exact Hr].
    exact (fires_trans None _ _ _ Hr (adds_fire_notify s1)).
Qed.

(** One turn: nothing fires and the entries stay, or a due entry of least deadline does. *)
Definition turn_fires (e : option (TimerEntry H)) s s' : Prop :=
  pending s ≡ₚ option_list e ++ pending s' /\
  match e with
  | Some e => Forall (before e) (pending s') /\
      deadline e <= fst (clock (os s)) /\ os s' = snd (clock (os s))
  | None => os s' = os s \/ os s' = snd (clock (os s))
  end /\
  exists woken, injector s' = injector s ++ woken /\
    sleepers_of (option_list e) `sublist_of` woken.

Lemma turn_still s s' :
  timer s' = timer s -> injector s' = injector s ->
  os s' = os s \/ os s' = snd (clock (os s)) -> turn_fires None s s'.
Proof.
  intros Ht Hi Ho. split_and!; [unfold pending; by rewrite Ht|done|].
  exists []. by rewrite app_nil_r.
Qed.

Lemma drive_turn_spec s :
  exists e, turn_fires e s (snd (drive_turn clock checks s)).
Proof.
  unfold drive_turn, bind at 1, gets.
  destruct (lock (heap (timer s)) _) as [l|x] eqn:El; [|exists None; apply turn_still; auto].
  destruct (lock (stopping (timer s)) _) as [[]|x]; [exists None; apply turn_still; auto..| |
    exists None; apply turn_still; auto].
  assert (pending s = l) as Hl
    by (unfold pending, lock in *; destruct (poisoned _); [done|by injection El]).
  destruct (peek l) as [top|] eqn:Ep; [|exists None; apply turn_still; auto].
  unfold bind at 1, now. destruct (clock (os s)) as [t o] eqn:Ec.
  destruct (Z.leb_spec (deadline top) t); [|exists None; apply turn_still; rewrite ?Ec; auto].
  destruct (peek_least _ _ Ep) as [Hp Hb]. exists (Some top).
  unfold bind at 1, modify.
  set (s1 := set_heap _ _). pose proof (fire_fires top s1) as (Ht & Ho & w & Ew & Hw).
  unfold bind. destruct (fire checks top s1) as [[u|] s2]; simpl in *;
    (split_and!; [rewrite Hl; unfold pending; by rewrite Ht|unfold pending; by rewrite Ht
                 |by rewrite Ec|by rewrite Ho, Ec|by exists w]).
Qed.

Lemma after_wait_still w s : turn_fires None s (snd (after_wait w s)).
Proof. unfold after_wait, bind, gets. destruct (lock _ _); apply turn_still; auto. Qed.

(** What any number of turns does. *)
Definition in_order s s' : Prop :=
  exists fired woken,
    pending s ≡ₚ fired ++ pending s' /\
    Forall (fun e => deadline e <= fst (clock (os s'))) fired /\
    Sorted before fired /\ (forall e e', e ∈ fired -> e' ∈ pending s' -> before e e') /\
    injector s' = injector s ++ woken /\ sleepers_of fired `sublist_of` woken.

Definition clock_forward (o o' : R) : Prop := fst (clock o) <= fst (clock o').

Lemma in_order_refl s : in_order s s.
Proof. exists [], []. rewrite app_nil_r. split_and!; try done. intros e e' He. by apply elem_of_nil in He. Qed.

Lemma in_order_step e s1 s2 s3 :
  turn_fires e s1 s2 -> clock_forward (os s1) (os s3) -> in_order s2 s3 -> in_order s1 s3.
Proof.
  intros (Ep & He & w1 & Ew1 & Sw1) Hc (fired & w2 & Ef & Hd & Hs & Hl & Ew2 & Sw2).
  exists (option_list e ++ fired), (w1 ++ w2).
  assert (forall e1, e = Some e1 -> Forall (before e1) fired /\ Forall (before e1) (pending s3)) as Hb.
  { intros e1 ->. destruct He as (Hb & _). rewrite Ef in Hb. by apply Forall_app in Hb. }
  split_and!.
  - by rewrite Ep, Ef, app_assoc.
  - apply Forall_app. split; [|done]. destruct e as [e|]; [|done]. apply Forall_singleton.
    destruct He as (_ & Ht & _). unfold clock_forward in Hc. lia.
  - destruct e as [e|]; [|done]. destruct (Hb e eq_refl) as [Hf _]. constructor; [done|].
    destruct fired; [done|]. constructor. by apply Forall_cons in Hf as [? _].
  - intros x y Hx Hy. apply elem_of_app in Hx as [Hx|Hx]; [|by apply Hl].
    destruct e as [e|]; [|by apply elem_of_nil in Hx]. apply list_elem_of_singleton in Hx as ->.
    destruct (Hb e eq_refl) as [_ Hf]. rewrite Forall_forall in Hf. auto.
  - by rewrite Ew2, Ew1, app_assoc.
  - unfold sleepers_of. rewrite omap_app. by apply sublist_app.
Qed.

Context (forward : forall o, clock_forward o (snd (clock o))).

Definition forward_in_order s s' : Prop := clock_forward (os s) (os s') /\ in_order s s'.

Lemma forward_refl s : forward_in_order s s.
Proof. split; [unfold clock_forward; lia|apply in_order_refl]. Qed.

Lemma forward_step e s1 s2 s3 :
  turn_fires e s1 s2 -> forward_in_order s2 s3 -> forward_in_order s1 s3.
Proof.
  intros Ht [Hc Ho]. assert (clock_forward (os s1) (os s2)) as Hc1.
  { destruct Ht as (_ & He & _). pose proof (forward (os s1)) as Hf. unfold clock_forward in *.
    destruct e as [e|]; [destruct He as (_ & _ & ->); lia|]. destruct He as [-> | ->]; lia. }
  assert (clock_forward (os s1) (os s3)) by (unfold clock_forward in *; lia).
  split; [done|]. by eapply in_order_step.
Qed.

Lemma drive_in_order n s : forward_in_order s (snd (drive clock checks n s)).
Proof.
  revert s. induction n as [|n IH]; intros s; simpl; [apply forward_refl|].
  destruct (drive_turn_spec s) as [e He]. unfold bind at 1.
  destruct (drive_turn clock checks s) as [[r|] s1]; [|by eapply forward_step, forward_refl].
  eapply forward_step; [exact He|]. simpl. unfold bind.
  destruct r; simpl; try (apply IH || apply forward_refl).
  - pose proof (after_wait_still "TimerWheel::idle" s1) as Hw.
    destruct (after_wait _ s1) as [[r|] s2]; (eapply forward_step; [exact Hw|]);
      [destruct r|]; first [apply IH|apply forward_refl].
  - pose proof (after_wait_still "TimerWheel::wait" s1) as Hw.
    destruct (after_wait _ s1) as [[r|] s2]; (eapply forward_step; [exact Hw|]);
      [destruct r|]; first [apply IH|apply forward_refl].
Qed.

(** C18: The timer fires in order of deadline and never early: over any number of turns of
    its thread, up to a stop or a panic, the entries fired and the entries left are the
    entries there were; each one fired was due on the clock and no later one went before an
    earlier one nor before one still waiting; and the flows that slept become runnable in
    that order. *)
Theorem timer_order n s :
  let s' := snd (drive clock checks n s) in
  exists fired woken,
    pending s ≡ₚ fired ++ pending s' /\
    Forall (fun e => deadline e <= fst (clock (os s'))) fired /\
    Sorted before fired /\ (forall e e', e ∈ fired -> e' ∈ pending s' -> before e e') /\
    injector s' = injector s ++ woken /\ sleepers_of fired `sublist_of` woken.
Proof. apply drive_in_order. Qed.


End timer.

(** Three sleepers: two are due when the thread runs, in the order of their deadlines. *)
Definition sleepy : Shared.t unit Z :=
  Demo.state (let* _ := Demo.spawn 0 [] in let* _ := Demo.spawn 0 [] in
    let* _ := Demo.spawn 0 [] in
    let* a := pop_injector in let* b := pop_injector in let* c := pop_injector in
    match a, b, c with
    | Some a, Some b, Some c =>
      modify (fun s => set_heap (mutex_new [mk_entry 120 (WakeSleeper a);
        mk_entry 500 (WakeSleeper b); mk_entry 110 (WakeSleeper c)]) s <| os := 119 |>)
    | _, _, _ => panic
    end) RuntimeConfig.default.

Lemma timer_order_witness :
  map Flow.id (injector (snd (drive Demo.clock true 5 sleepy))) = [3; 1] /\
  exists fired, length fired = 2%nat /\ Sorted before fired /\
    pending sleepy ≡ₚ fired ++ pending (snd (drive Demo.clock true 5 sleepy)).
Proof.
  split; [by vm_compute|].
  destruct (timer_order Demo.clock true ltac:(intros o; unfold clock_forward; simpl; lia) 5 sleepy)
    as (fired & _ & Hp & _ & Hs & _).
  exists fired. split_and!; [|exact Hs|exact Hp].
  assert (length (pending sleepy) = 3%nat) as E1 by by vm_compute.
  assert (length (pending (snd (drive Demo.clock true 5 sleepy))) = 1%nat) as E2 by by vm_compute.
  apply Permutation_length in Hp. rewrite length_app, E1, E2 in Hp. lia.
Defined.
