(* ===== verification/SamplesRun.v ===== *)
(** The demonstration modules, run: each is assembled, verified, started on a runtime of one
    worker and driven by the turns of its threads until its handle is answered. *)

From S2P Require Import Prelude Capability F64 Values Isa Verify Sync Quota Native Vm Process.
From S2P Require Import CapTable Lifecycle Mailbox Oneshot Shared Timer Finalize Runtime Worker Demo.
From S2P Require Import EndTheory.
From S2P Require Samples.
Import Shared.

#[local] Abbreviation W := (W (H := unit) (R := Z)).

(** The standard natives, printing nowhere. *)
Definition natives : NativeTable.t unit :=
  Std.std_native_table_with (fun _ (h : unit) => h) (fun _ => Ok 0).

(** The clock moves by 10 ms at each reading. *)
Definition clock (n : Z) : instant * Z := (n, n + 10000000).

(** A runtime of one worker. *)
Definition boot (chunk : Chunk.t) (cfg : RuntimeConfig.t)
  : option (Runtime (H := unit) * Shared.t unit Z) :=
  match with_natives_and_config chunk natives Untrusted 1 cfg
          (mk_world RevocationCell.empty_store ∅ 0%N tt) 100 with
  | Ok r => Some r
  | Err _ => None
  end.

Section run.
Context (checks : bool).

(** [n] rounds of the worker and the timer. *)
Fixpoint rounds (n : nat) : W unit :=
  match n with
  | O => ret tt
  | S n =>
    let* _ := worker_turn Demo.random clock checks Demo.debug 0 100 in
    let* _ := drive_turn clock checks in
    rounds n
  end.

(** What the handle of a flow reads. *)
Definition joined (h : FlowHandle) : W (option FlowOutcome) :=
  gets (fun s => fst (FlowHandle.try_join (slot_at s (hreceiver h)))).

Definition spawned (rt : Runtime) (name : list byte) (args : list Value.t) : W FlowHandle :=
  match function_index rt name with
  | None => panic
  | Some f =>
    let* r := spawn Demo.random clock checks rt f args in
    match r with Ok h => ret h | Err _ => panic end
  end.

(** The outcome of a function of the module after [n] rounds; of [main]. *)
Definition outcome_at (name : list byte) (n : nat) (chunk : option Chunk.t) : option FlowOutcome :=
  ch ← chunk; '(rt, s) ← boot ch RuntimeConfig.default;
  mjoin (fst ((let* h := spawned rt name [] in
               let* _ := rounds n in joined h) s)).
Definition outcome_of : nat -> option Chunk.t -> option FlowOutcome := outcome_at (ascii_bytes "main").

(** The outcome of [waiting_send]'s server after [n] rounds, with mailboxes of one hop: its
    client is given a capability for it. *)
Definition waiting_outcome (n : nat) (chunk : option Chunk.t) : option FlowOutcome :=
  ch ← chunk; '(rt, s) ← boot ch Demo.tight;
  mjoin (fst ((let* server := spawned rt (ascii_bytes "server") [] in
               let* cap := mint_cap Demo.random (hid server) in
               match cap with
               | Err _ => panic
               | Ok cap =>
                 let* _ := spawned rt (ascii_bytes "client") [Value.Cap cap] in
                 let* _ := rounds n in joined server
               end) s)).

(** The samples with a [main], and what their documentation and tests say it returns. *)
Definition specs : list (option Chunk.t * Value.t) :=
  [(Samples.add_forty_two checks, Value.Int 42);
   (Samples.ping_pong checks, Value.Int 2);
   (Samples.atomic_request_reply checks, Value.Int 42);
   (Samples.selective_receive checks, Value.Int 42);
   (Samples.ask_reply checks, Value.Int 42);
   (Samples.ask_timeout_expires checks, Value.Unit);
   (Samples.ask_target_exits checks, Value.Int TAG_SYS_EXIT);
   (Samples.server_loop checks, Value.Int 42);
   (Samples.named_service checks 1%N 2%N, Value.Int 42);
   (Samples.atomic_actors checks, Value.Int 72);
   (Samples.cap_in_payload checks, Value.Int 42);
   (Samples.forged_sender_send checks, Value.Pid 1);
   (Samples.forged_sender_ask checks, Value.Pid 1);
   (Samples.monitor_down checks, Value.Int 0)].

End run.

Definition runs_as (checks : bool) (p : option Chunk.t * Value.t) : bool :=
  match fst p with
  | Some ch => match verify ch with Ok _ => true | Err _ => false end &&
      match outcome_of checks 60 (fst p) with
      | Some (Completed v) => Value.eqb v (snd p)
      | _ => false
      end
  | None => false
  end.

(** The demonstration modules do what they are documented to do, end to end.  In both
    build profiles each of the fourteen with a [main] assembles, is accepted by the
    verifier, and on a runtime of one worker with the standard natives its [main] is
    answered with the documented value: arithmetic, spawning, hops and correlated replies,
    selective receive, [Ask] with its reply, its timeout and the exit of its target, a
    served name, two clients of one server, a capability in a payload, a forged sender that
    is overwritten (by the id of [main], 1), a monitor's DOWN.  The second hop of
    [waiting_send] to a mailbox of one arrives after the first is taken, and [boom] fails. *)
Lemma samples_run checks :
  Forall (fun p => exists ch, fst p = Some ch /\ verify ch = Ok tt /\
    exists v, outcome_of checks 60 (fst p) = Some (Completed v) /\ Value.eqb v (snd p) = true)
    (specs checks) /\
  waiting_outcome checks 60 (Samples.waiting_send checks) = Some (Completed (Value.Int 42)) /\
  (exists msg, outcome_at checks (ascii_bytes "boom") 10 Samples.boom = Some (Failed msg)).
Proof.
  split_and!.
  - assert (Hall : forallb (runs_as checks) (specs checks) = true) by (destruct checks; by vm_compute).
    apply Forall_forall. intros [c v] Hin. apply list_elem_of_In in Hin.
    apply (proj1 (forallb_forall _ _) Hall) in Hin. unfold runs_as in Hin. cbn [fst snd] in *. clear Hall.
    destruct c as [ch|]; [|done]. apply andb_true_iff in Hin as [Hv Ho].
    exists ch. split_and!; [done|by destruct (verify ch) as [[]|]|].
    destruct (outcome_of checks 60 (Some ch)) as [[v'|]|]; [by exists v'|done..].
  - destruct checks; by vm_compute.
  - destruct checks; eexists; vm_compute; reflexivity.
Qed.
