(* ===== verification/Cli.v ===== *)
(** The command line, bin/byteflow.rs: what a call of [byteflow] prints, writes and answers.

    The host is the file system, the two output streams and the entropy and clock of the
    machine.  A command is a function on it; [None] is a call that does not return within
    [patience] rounds of the runtime's threads. *)

From S2P Require Import Prelude Capability F64 Values Isa Display Verify Format Sync Quota Native Vm Process.
From S2P Require Import CapTable Lifecycle Mailbox Oneshot Shared Timer Finalize Runtime Worker.
From S2P Require Samples.
Import Shared Display.Fmt.

(** The files of the host, by their path. *)
Notation files := (gmap text text).

Record Host (R : Type) := mk_host {
  disk : files;
  stdout : text;
  stderr : text;
  machine : R }.
Arguments mk_host {R} _ _ _ _.
Arguments disk {R} _.
Arguments stdout {R} _.
Arguments stderr {R} _.
Arguments machine {R} _.

(** What the operating system answers where it may refuse: the text of the error of reading a
    path that is not there, and of creating the directory of a path or writing to it. *)
Class Os := {
  no_file : text -> text;
  mkdir_error : text -> option text;
  write_error : text -> option text }.

Section cli.
Context {R : Type} `{ValueLayout, Allocator, MinHeap, Unicode, Os}.
Context (getrandom : R -> option (list byte) * R) (clock : R -> instant * R).
(** The wall clock of the [now_ms] native, the build profile, and how many rounds of the
    threads and instructions of a turn a call may take. *)
Context (unix_millis : text -> result Z string) (checks : bool) (patience slices : nat).
Implicit Types (host : Host R) (path name out : text).

(** *** Commands: [Err tt] is [Err(())] *)

Definition C (A : Type) : Type := Host R -> option (A * Host R).

Definition answer {A} (a : A) : C (result A unit) := fun host => Some (Ok a, host).
Definition fails {A} : C (result A unit) := fun host => Some (Err tt, host).

Definition print (ps : list piece) : C unit := fun host =>
  Some (tt, mk_host (disk host) (stdout host ++ write ps) (stderr host) (machine host)).
Definition println (ps : list piece) : C unit := fun host =>
  Some (tt, mk_host (disk host) (stdout host ++ writeln ps) (stderr host) (machine host)).
Definition eprintln (ps : list piece) : C unit := fun host =>
  Some (tt, mk_host (disk host) (stdout host) (stderr host ++ writeln ps) (machine host)).

Definition then_ {A B} (m : C A) (k : A -> C B) : C B := fun host =>
  match m host with Some (a, host) => k a host | None => None end.

#[local] Notation "'let>' x ':=' m 'in' k" := (then_ m (fun x => k))
  (at level 10, x pattern, m at level 200, k at level 200).

(** [m?] *)
Definition proceed {A B} (m : C (result A unit)) (k : A -> C (result B unit)) : C (result B unit) :=
  let> r := m in match r with Ok a => k a | Err _ => fails end.

#[local] Notation "'let>?' x ':=' m 'in' k" := (proceed m (fun x => k))
  (at level 10, x pattern, m at level 200, k at level 200).

(** [eprintln!(..); Err(())] *)
Definition refuse {A} (ps : list piece) : C (result A unit) := let> _ := eprintln ps in fails.

Definition str (s : string) : piece := Text (ascii_bytes s).
Definition is_ (s : string) (t : text) : bool := bytes_eqb t (ascii_bytes s).
Definition one_of (ss : list string) (t : text) : bool := existsb (fun s => is_ s t) ss.

(** [{:?}] in the errors of the runtime. *)
Definition debug (s : text) : string := String.string_of_list_byte (debug_str s).

(** *** Modules *)

(** [bin/byteflow.rs] [load_bf] *)
Definition load_bf path : C (result Chunk.t unit) := fun host =>
  match disk host !! path with
  | None => refuse [Lit "read "; Text path; Lit ": "; Text (no_file path)] host
  | Some bytes =>
    match Format.decode bytes with
    | Err e => refuse [Text path; Lit ": "; str (Format.format_error_string e)] host
    | Ok chunk => answer chunk host
    end
  end.

(** [bin/byteflow.rs] [cmd_verify] *)
Definition cmd_verify path : C (result unit unit) :=
  let>? chunk := load_bf path in
  match verify chunk with
  | Ok _ =>
    let> _ := println [Lit "ok  "; Text (Chunk.name chunk); Lit "  ";
      Dec (Z.of_nat (length (Chunk.functions chunk))); Lit " functions  ";
      Dec (Z.of_nat (length (Chunk.code chunk))); Lit " instructions"] in
    answer tt
  | Err e => refuse [Lit "verify failed: "; str (verify_error_string e)]
  end.

(** [bin/byteflow.rs] [cmd_disasm] *)
Definition cmd_disasm path : C (result unit unit) :=
  let>? chunk := load_bf path in
  let> _ := print [Text (disassemble chunk)] in
  answer tt.

(** [bin/byteflow.rs] [demo_chunk]: an assembler that overflows its counters panics. *)
Definition demo_chunk name : C (result Chunk.t unit) := fun host =>
  let built (c : option Chunk.t) := match c with Some c => answer c host | None => None end in
  if one_of ["ping-pong"; "ping_pong"] name then built (Samples.ping_pong checks)
  else if one_of ["atomic"; "atomic-actors"] name then built (Samples.atomic_actors checks)
  else if one_of ["atomic-request-reply"] name then built (Samples.atomic_request_reply checks)
  else if one_of ["selective"; "selective-receive"] name then built (Samples.selective_receive checks)
  else if one_of ["ask"; "ask-reply"] name then built (Samples.ask_reply checks)
  else if one_of ["ask-timeout"] name then built (Samples.ask_timeout_expires checks)
  else if one_of ["ask-exit"; "ask-target-exits"] name then built (Samples.ask_target_exits checks)
  else if one_of ["server-loop"; "server"] name then built (Samples.server_loop checks)
  else if one_of ["monitor"; "monitor-down"] name then built (Samples.monitor_down checks)
  else if one_of ["add"; "add-forty-two"; "42"] name then built (Samples.add_forty_two checks)
  else if one_of ["boom"] name then built Samples.boom
  else refuse [Lit "unknown demo "; Text (debug_str name);
    Lit " (try ping-pong, atomic, selective, ask, ask-timeout, server-loop, monitor, add)"] host.

(** [std::fs::write], after [create_dir_all] of the directory. *)
Definition write_file path (bytes : text) : C (result unit unit) := fun host =>
  match mkdir_error path with
  | Some e => refuse [Lit "mkdir: "; Text e] host
  | None =>
    match write_error path with
    | Some e => refuse [Lit "write "; Text path; Lit ": "; Text e] host
    | None => answer tt (mk_host (<[path := bytes]> (disk host)) (stdout host) (stderr host) (machine host))
    end
  end.

(** [bin/byteflow.rs] [cmd_pack] *)
Definition cmd_pack name path : C (result unit unit) :=
  let>? chunk := demo_chunk name in
  let>? _ := write_file path (Format.encode chunk) in
  let> size := (fun host => Some (match disk host !! path with
    | Some bytes => Z.of_nat (length bytes)
    | None => 0
    end, host)) in
  let> _ := println [Lit "wrote "; Text path; Lit " ("; Dec size; Lit " bytes, chunk ";
    Text (debug_str (Chunk.name chunk)); Lit ")"] in
  answer tt.

(** *** Running a module *)

#[local] Abbreviation W := (W (H := text) (R := R)).

(** [natives.rs] [std_native_table]: [print] appends to the standard output. *)
Definition std_native_table : NativeTable.t text :=
  Std.std_native_table_with (fun values printed => printed ++ stdout_sink values) unix_millis.

(** One turn of the worker and one of the timer. *)
Definition round : W unit :=
  let* _ := worker_turn getrandom clock checks debug 0 slices in
  let* _ := drive_turn clock checks in
  ret tt.

(** [FlowHandle::join]: the threads run until the handle is answered. *)
Fixpoint joined (n : nat) (h : FlowHandle) : W FlowOutcome :=
  let* answered := gets (fun s => fst (FlowHandle.try_join (slot_at s (hreceiver h)))) in
  match answered, n with
  | Some outcome, _ => ret outcome
  | None, O => panic
  | None, S n => let* _ := round in joined n h
  end.

(** [bin/byteflow.rs:196-212] [run_chunk, the function to spawn] *)
Definition entry_function (chunk : Chunk.t) (rt : Runtime (H := text)) (function : option text)
  : result Z (list piece) :=
  match function with
  | Some name =>
    match function_index rt name with
    | Some i => Ok i
    | None => Err [Lit "no function named "; Text (debug_str name)]
    end
  | None =>
    match function_index rt (ascii_bytes "main") with
    | Some i => Ok i
    | None => if Value.is_empty (Chunk.functions chunk) then Err [Lit "chunk has no functions"] else Ok 0
    end
  end.

(** [bin/byteflow.rs:214-219] [run_chunk, spawn, join, metrics and shutdown] *)
Definition run_to_end (rt : Runtime (H := text)) (idx : Z)
  : W (result (FlowOutcome * RuntimeMetrics.t) SpawnError) :=
  let* r := spawn getrandom clock checks rt idx [] in
  match r with
  | Err e => ret (Err e)
  | Ok h =>
    let* outcome := joined patience h in
    let* metrics := gets (fun s => RuntimeMetrics.snapshot (metrics s)) in
    let* _ := request_shutdown in
    ret (Ok (outcome, metrics))
  end.

(** [bin/byteflow.rs] [run_chunk] *)
Definition run_chunk (chunk : Chunk.t) (function : option text) (natives : NativeTable.t text)
  : C (result unit unit) :=
  match verify chunk with
  | Err e => refuse [Lit "verify failed: "; str (verify_error_string e)]
  | Ok _ => fun host =>
    match with_natives_and_config chunk natives Untrusted 1 RuntimeConfig.default
            (mk_world RevocationCell.empty_store ∅ 0%N []) (machine host) with
    | Err e => refuse [Lit "runtime: "; str (spawn_error_string debug e)] host
    | Ok (rt, s) =>
      match entry_function chunk rt function with
      | Err msg => refuse msg host
      | Ok idx =>
        let (ended, s) := run_to_end rt idx s in
        let host := mk_host (disk host) (stdout host ++ Native.host (wld s)) (stderr host) (os s) in
        match ended with
        | None => None
        | Some (Err e) => refuse [Lit "spawn: "; str (spawn_error_string debug e)] host
        | Some (Ok (Completed v, metrics)) =>
          (let> _ := println [Text (value v)] in
           let> _ := eprintln [str (RuntimeMetrics.to_string metrics)] in
           answer tt) host
        | Some (Ok (Failed err, metrics)) =>
          (let> _ := eprintln [Lit "Flow failed: "; str err] in
           refuse [str (RuntimeMetrics.to_string metrics)]) host
        end
      end
    end
  end.

(** [bin/byteflow.rs] [cmd_run] *)
Definition cmd_run path (function : option text) : C (result unit unit) :=
  let>? chunk := load_bf path in
  run_chunk chunk function std_native_table.

(** [bin/byteflow.rs:144-150] [cmd_demo, the natives] *)
Definition demo_natives name : NativeTable.t text :=
  if one_of ["ping-pong"; "ping_pong"; "atomic"; "atomic-actors"; "atomic-request-reply";
             "selective"; "selective-receive"; "ask"; "ask-reply"; "ask-timeout"; "server-loop";
             "server"; "monitor"; "monitor-down"; "ask-exit"; "ask-target-exits"] name
  then std_native_table else NativeTable.empty.

(** [bin/byteflow.rs] [cmd_demo] *)
Definition cmd_demo name : C (result unit unit) :=
  let>? chunk := demo_chunk name in
  run_chunk chunk (Some (ascii_bytes "main")) (demo_natives name).

(** *** The command *)

(** [bin/byteflow.rs] [usage] *)
Definition usage (msg : string) : C (result unit unit) := refuse [Lit "usage: "; Lit msg].

(** [bin/byteflow.rs] [print_help] *)
Definition help : string :=
"byteflow — verify, disassemble and run .bf modules (assembled via Program)

USAGE:
    byteflow demo [ping-pong|atomic|selective|ask|ask-timeout|server-loop|monitor|add]
    byteflow pack  <ping-pong|atomic|ask|add> <out.bf>
    byteflow verify <file.bf>
    byteflow disasm <file.bf>
    byteflow run    <file.bf> [function]

`run` and hop demos attach the std native table (print=0, now_ms=1, make_msg=2, …, msg_reply_cap=7).
Every `Send` is an Atomic Hop (`Value::Message` only).
".
Definition print_help : C unit := eprintln [Lit help].

(** [bin/byteflow.rs:14-52] [main, the command] *)
Definition command (args : list text) : C (result unit unit) :=
  let (cmd, args) := match args with c :: args => (c, args) | [] => (ascii_bytes "help", []) end in
  if one_of ["help"; "-h"; "--help"] cmd then let> _ := print_help in answer tt
  else if is_ "verify" cmd then
    match args with path :: _ => cmd_verify path | [] => usage "byteflow verify <file.bf>" end
  else if is_ "disasm" cmd then
    match args with path :: _ => cmd_disasm path | [] => usage "byteflow disasm <file.bf>" end
  else if is_ "run" cmd then
    match args with
    | path :: rest => cmd_run path (head rest)
    | [] => usage "byteflow run <file.bf> [function]"
    end
  else if is_ "pack" cmd then
    match args with
    | demo :: out :: _ => cmd_pack demo out
    | _ => usage "byteflow pack <demo> <out.bf>"
    end
  else if is_ "demo" cmd then
    cmd_demo (match args with demo :: _ => demo | [] => ascii_bytes "ping-pong" end)
  else
    let> _ := eprintln [Lit "unknown command "; Text (debug_str cmd)] in
    let> _ := print_help in
    fails.

(** [bin/byteflow.rs] [main]: [true] is [ExitCode::SUCCESS]. *)
Definition main (args : list text) : C bool :=
  let> result := command args in
  fun host => Some (is_ok result, host).

End cli.
