(* ===== verification/CliTheory.v ===== *)
(** What a call of the command line promises: what it writes and when, that a failure is
    reported, that a module that was packed reads back, and what the demonstrations print. *)

From S2P Require Import Prelude Capability F64 Values Isa Display Verify Format Sync Quota Native Vm Process.
From S2P Require Import CapTable Lifecycle Mailbox Oneshot Shared Timer Finalize Runtime Worker EndTheory.
From S2P Require Import Demo Cli.
From S2P Require Samples SamplesRun.
Import Shared Display.Fmt.

(** ** Modules of the demonstrations *)

Definition demo_chunks (checks : bool) : list (option Chunk.t) :=
  [Samples.ping_pong checks; Samples.atomic_actors checks; Samples.atomic_request_reply checks;
   Samples.selective_receive checks; Samples.ask_reply checks; Samples.ask_timeout_expires checks;
   Samples.ask_target_exits checks; Samples.server_loop checks; Samples.monitor_down checks;
   Samples.add_forty_two checks; Samples.boom].

(** A module without constants that reads back from its encoding and verifies. *)
Definition packs (c : Chunk.t) : bool :=
  Value.is_empty (Chunk.constants c) && is_ok (verify c) &&
  match Format.decode (Format.encode c) with
  | Ok c' => Value.is_empty (Chunk.constants c') && bool_decide (Chunk.name c' = Chunk.name c) &&
      bool_decide (Chunk.code c' = Chunk.code c) && bool_decide (Chunk.functions c' = Chunk.functions c)
  | Err _ => false
  end.

Lemma packs_spec c : packs c = true ->
  verify c = Ok tt /\ Format.decode (Format.encode c) = Ok c.
Proof.
  unfold packs. rewrite !andb_true_iff. intros [[Hc Hv] Hd].
  split; [by destruct (verify c) as [[]|]|].
  destruct (Format.decode _) as [[n cs code fs]|]; [|done]. destruct c as [n' cs' code' fs'].
  simpl in *. rewrite !andb_true_iff, !bool_decide_eq_true in Hd.
  destruct Hd as [[[Hc' ->] ->] ->], cs, cs'; done.
Qed.

Lemma demo_chunks_pack checks :
  Forall (fun o => exists c, o = Some c /\ packs c = true) (demo_chunks checks).
Proof.
  assert (Hall : forallb (fun o => match o with Some c => packs c | None => false end)
                   (demo_chunks checks) = true) by (destruct checks; by vm_compute).
  rewrite forallb_forall in Hall. apply Forall_forall. intros o Ho.
  apply list_elem_of_In, Hall in Ho. destruct o as [c|]; [by exists c|done].
Qed.

Section theory.
Context {R : Type} `{ValueLayout, Allocator, MinHeap, Unicode, Os}.
Context (getrandom : R -> option (list byte) * R) (clock : R -> instant * R).
Context (unix_millis : text -> result Z string) (checks : bool) (patience slices : nat).
Implicit Types (host : Host R) (path name out : text).

#[local] Abbreviation main := (Cli.main getrandom clock unix_millis checks patience slices).
#[local] Abbreviation command := (Cli.command getrandom clock unix_millis checks patience slices).
#[local] Abbreviation run_chunk := (Cli.run_chunk getrandom clock checks patience slices).
#[local] Abbreviation demo_chunk := (Cli.demo_chunk checks).

(** More text on a stream. *)
Definition outputs host (t : text) : Host R :=
  mk_host (disk host) (stdout host ++ t) (stderr host) (machine host).
Definition complains host (t : text) : Host R :=
  mk_host (disk host) (stdout host) (stderr host ++ t) (machine host).

(** A name of a demonstration gives a module that packs; any other is refused. *)
Lemma demo_chunk_cases name host :
  (exists c, packs c = true /\ forall host', demo_chunk name host' = Some (Ok c, host')) \/
  (exists msg, demo_chunk name host = Some (Err tt, complains host (msg ++ [newline]))).
Proof.
  pose proof (demo_chunks_pack checks) as Hall.
  assert (Hin : forall o, o ∈ demo_chunks checks -> exists c, packs c = true /\
    forall host', match o with Some c => answer c host' | None => None end = Some (Ok c, host')).
  { intros o Ho. rewrite Forall_forall in Hall. destruct (Hall o Ho) as (c & -> & Hc). by exists c. }
  unfold Cli.demo_chunk. destruct (one_of _ name); [left; apply Hin; by repeat constructor|].
  do 9 (destruct (one_of _ name); [left; apply Hin; unfold demo_chunks; set_solver|]).
  destruct (one_of _ name); [left; apply Hin; unfold demo_chunks; set_solver|].
  right. by eexists.
Qed.

Lemma main_eq args host :
  main args host = (fun r => (is_ok (fst r), snd r)) <$> command args host.
Proof. unfold Cli.main, then_. by destruct (command args host) as [[]|]. Qed.

Lemma proceed_eq {A B} (m : C (result A unit)) (k : A -> C (result B unit)) host :
  proceed m k host = match m host with
    | Some (Ok a, host') => k a host'
    | Some (Err _, host') => Some (Err tt, host')
    | None => None
    end.
Proof. unfold proceed, then_. by destruct (m host) as [[[] ?]|]. Qed.

Lemma load_bf_ok path host bytes c :
  disk host !! path = Some bytes -> Format.decode bytes = Ok c ->
  load_bf path host = Some (Ok c, host).
Proof. unfold load_bf. by intros -> ->. Qed.

Lemma print_text t host : print [Text t] host = Some (tt, outputs host t).
Proof. unfold print, outputs, write. simpl. by rewrite app_nil_r. Qed.

Lemma cmd_pack_eq name path host :
  Cli.cmd_pack checks name path host = match demo_chunk name host with
    | Some (Ok c, host) => match write_file path (Format.encode c) host with
      | Some (Ok _, host) => Some (Ok tt, outputs host (writeln
          [Lit "wrote "; Text path; Lit " ("; Dec (match disk host !! path with
             | Some bytes => Z.of_nat (length bytes) | None => 0 end); Lit " bytes, chunk ";
           Text (debug_str (Chunk.name c)); Lit ")"]))
      | Some (Err _, host) => Some (Err tt, host)
      | None => None
      end
    | Some (Err _, host) => Some (Err tt, host)
    | None => None
    end.
Proof.
  unfold Cli.cmd_pack. rewrite proceed_eq. destruct (demo_chunk name host) as [[[c|] h]|]; [|done..].
  rewrite proceed_eq. destruct (write_file path _ h) as [[[[]|] h']|]; done.
Qed.

(** C11: a packed module reads back.  Where the path can be written, [pack NAME PATH]
    always returns: an unknown name is refused and the disk left alone; a demonstration's
    module is written to the path, and to no other file.  From then on [verify PATH]
    succeeds and prints the module's name and the sizes of its tables, [disasm PATH]
    prints the listing of that module, and [run PATH] runs that module. *)
Theorem pack_then_read name path host :
  mkdir_error path = None -> write_error path = None ->
  match main [ascii_bytes "pack"; name; path] host with
  | Some (true, packed) => exists c,
      demo_chunk name host = Some (Ok c, host) /\
      disk packed = <[path := Format.encode c]> (disk host) /\
      main [ascii_bytes "verify"; path] packed = Some (true, outputs packed (writeln
        [Lit "ok  "; Text (Chunk.name c); Lit "  "; Dec (Z.of_nat (length (Chunk.functions c)));
         Lit " functions  "; Dec (Z.of_nat (length (Chunk.code c))); Lit " instructions"])) /\
      main [ascii_bytes "disasm"; path] packed = Some (true, outputs packed (disassemble c)) /\
      main [ascii_bytes "run"; path] packed =
        (fun r => (is_ok (fst r), snd r)) <$>
          run_chunk c None (Cli.std_native_table unix_millis) packed
  | Some (false, host') => disk host' = disk host
  | None => False
  end.
Proof.
  intros Hm Hw. rewrite main_eq.
  change (command [ascii_bytes "pack"; name; path]) with (Cli.cmd_pack (R := R) checks name path).
  rewrite cmd_pack_eq. destruct (demo_chunk_cases name host) as [(c & Hc & Hd)|[msg ->]]; [|done].
  rewrite Hd. unfold write_file. rewrite Hm, Hw. cbn [is_ok fst snd fmap option_fmap option_map answer].
  set (packed := outputs _ _).
  assert (Hfile : disk packed !! path = Some (Format.encode c)) by apply lookup_insert_eq.
  apply packs_spec in Hc as [Hv Hdec]. exists c. split_and!; [done|done|..]; rewrite main_eq.
  - change (command [ascii_bytes "verify"; path]) with (Cli.cmd_verify (R := R) path).
    unfold cmd_verify. by rewrite proceed_eq, (load_bf_ok _ _ _ c Hfile Hdec), Hv.
  - change (command [ascii_bytes "disasm"; path]) with (Cli.cmd_disasm (R := R) path).
    unfold cmd_disasm. rewrite proceed_eq, (load_bf_ok _ _ _ c Hfile Hdec). unfold then_.
    by rewrite print_text.
  - change (command [ascii_bytes "run"; path])
      with (Cli.cmd_run getrandom clock unix_millis checks patience slices path None).
    unfold cmd_run. by rewrite proceed_eq, (load_bf_ok _ _ _ c Hfile Hdec).
Qed.

(** What a failing read prints. *)
Definition read_failure path host : option text :=
  match disk host !! path with
  | None => Some (write [Lit "read "; Text path; Lit ": "; Text (no_file path)])
  | Some bytes =>
    match Format.decode bytes with
    | Err e => Some (write [Text path; Lit ": "; str (Format.format_error_string e)])
    | Ok _ => None
    end
  end.

Lemma load_bf_fails path host msg : read_failure path host = Some msg ->
  load_bf path host = Some (Err tt, complains host (msg ++ [newline])).
Proof.
  unfold read_failure, load_bf. destruct (disk host !! path) as [bytes|]; [|by intros [= <-]].
  destruct (Format.decode bytes); [done|by intros [= <-]].
Qed.

(** Bad modules are refused.  [verify], [disasm] and [run] of a path that has no file, or
    whose bytes are not a module, fail; [verify] and [run] fail of a module the verifier
    refuses, whatever function is asked for.  They say why on the error stream and nothing
    on the output, run nothing, and touch no file. *)
Lemma bad_module_refused path rest host :
  (forall msg, read_failure path host = Some msg ->
     Forall (fun cmd => main (ascii_bytes cmd :: path :: rest) host =
       Some (false, complains host (msg ++ [newline]))) ["verify"; "disasm"; "run"]) /\
  (forall bytes c e, disk host !! path = Some bytes -> Format.decode bytes = Ok c ->
     verify c = Err e ->
     Forall (fun cmd => main (ascii_bytes cmd :: path :: rest) host =
       Some (false, complains host (writeln [Lit "verify failed: "; str (verify_error_string e)])))
       ["verify"; "run"]).
Proof.
  split.
  - intros msg Hmsg. apply load_bf_fails in Hmsg.
    assert (Hl : forall {A} (k : Chunk.t -> C (result A unit)),
      proceed (load_bf path) k host = Some (Err tt, complains host (msg ++ [newline])))
      by (intros; by rewrite proceed_eq, Hmsg).
    repeat constructor; rewrite main_eq.
    + change (command _) with (Cli.cmd_verify (R := R) path). unfold cmd_verify. by rewrite Hl.
    + change (command _) with (Cli.cmd_disasm (R := R) path). unfold cmd_disasm. by rewrite Hl.
    + change (command _) with (Cli.cmd_run getrandom clock unix_millis checks patience slices path (head rest)).
      unfold cmd_run. by rewrite Hl.
  - intros bytes c e Hb Hd Hv.
    assert (Hl : forall {A} (k : Chunk.t -> C (result A unit)), proceed (load_bf path) k host = k c host)
      by (intros; by rewrite proceed_eq, (load_bf_ok _ _ _ c Hb Hd)).
    repeat constructor; rewrite main_eq.
    + change (command _) with (Cli.cmd_verify (R := R) path). unfold cmd_verify. by rewrite Hl, Hv.
    + change (command _) with (Cli.cmd_run getrandom clock unix_millis checks patience slices path (head rest)).
      unfold cmd_run, Cli.run_chunk. by rewrite Hl, Hv.
Qed.

(** *** What any command does to the host *)

(** The disk is as before, both streams only grew, and a failure said something. *)
Record told {A} host host' (r : result A unit) : Prop := {
  t_disk : disk host' = disk host;
  t_out : stdout host `prefix_of` stdout host';
  t_err : stderr host `prefix_of` stderr host';
  t_why : is_ok r = false -> (length (stderr host) < length (stderr host'))%nat }.

Definition tells {A} (m : C (result A unit)) : Prop := forall host r host',
  m host = Some (r, host') -> told host host' r.

Lemma tells_answer {A} (a : A) : tells (answer a).
Proof. intros host r host' [= <- <-]. by constructor. Qed.

Lemma told_trans {A B} host h host' (r : result A unit) (r' : result B unit) :
  told host h r -> told h host' r' -> told host host' r'.
Proof.
  intros [D O E _] [D' O' E' W']. constructor; [by rewrite D'|by etrans..|].
  intros Hr. apply prefix_length in E. specialize (W' Hr). lia.
Qed.

Lemma tells_refuse {A} ps : tells (refuse (A := A) ps).
Proof.
  intros host r host' [= <- <-]. constructor; simpl; [done|done|by apply prefix_app_r|].
  intros _. unfold writeln. rewrite !length_app. simpl. lia.
Qed.

(** A command that prints first. *)
Lemma tells_print {A} (p : C unit) (m : C (result A unit)) :
  (forall host, exists o e, p host =
     Some (tt, mk_host (disk host) (stdout host ++ o) (stderr host ++ e) (machine host))) ->
  tells m -> tells (then_ p (fun _ => m)).
Proof.
  intros Hp Hm host r host'. unfold then_. destruct (Hp host) as (o & e & ->). intros Hr.
  apply (told_trans host (mk_host (disk host) (stdout host ++ o) (stderr host ++ e) (machine host))
    host' (Ok tt : result unit unit)); [|by apply Hm].
  constructor; simpl; [done|by apply prefix_app_r..|done].
Qed.

Lemma prints_print ps host : exists o e, print ps host =
  Some (tt, mk_host (disk host) (stdout host ++ o) (stderr host ++ e) (machine host)).
Proof. exists (write ps), []. by rewrite app_nil_r. Qed.
Lemma prints_println ps host : exists o e, println ps host =
  Some (tt, mk_host (disk host) (stdout host ++ o) (stderr host ++ e) (machine host)).
Proof. exists (writeln ps), []. by rewrite app_nil_r. Qed.
Lemma prints_eprintln ps host : exists o e, eprintln ps host =
  Some (tt, mk_host (disk host) (stdout host ++ o) (stderr host ++ e) (machine host)).
Proof. exists [], (writeln ps). by rewrite app_nil_r. Qed.

Lemma tells_proceed {A B} (m : C (result A unit)) (k : A -> C (result B unit)) :
  tells m -> (forall a, tells (k a)) -> tells (proceed m k).
Proof.
  intros Hm Hk host r host'. rewrite proceed_eq.
  destruct (m host) as [[[a|[]] h]|] eqn:E; [|intros [= <- <-]|done].
  - intros Hr. eapply told_trans; [by eapply Hm|by eapply Hk].
  - by destruct (Hm _ _ _ E).
Qed.

#[local] Hint Resolve tells_answer tells_refuse prints_print prints_println prints_eprintln : cli.
#[local] Hint Resolve tells_print tells_proceed : cli.

Lemma tells_load path : tells (load_bf path).
Proof.
  intros host r host'. unfold load_bf. destruct (disk host !! path) as [bytes|].
  - destruct (Format.decode bytes); [apply tells_answer|apply tells_refuse].
  - apply tells_refuse.
Qed.

Lemma tells_verify path : tells (cmd_verify path).
Proof.
  apply tells_proceed; [apply tells_load|]. intros c. destruct (verify c); by auto with cli.
Qed.

Lemma tells_disasm path : tells (cmd_disasm path).
Proof. apply tells_proceed; [apply tells_load|]. by auto with cli. Qed.

Lemma tells_demo name : tells (demo_chunk name).
Proof.
  intros host r host'. destruct (demo_chunk_cases name host) as [(c & _ & Hc)|[msg Hm]].
  - rewrite Hc. apply tells_answer.
  - rewrite Hm. intros [= <- <-]. constructor; simpl; [done|done|by apply prefix_app_r|].
    intros _. rewrite !length_app. simpl. lia.
Qed.

Lemma tells_run c function natives : tells (run_chunk c function natives).
Proof.
  unfold Cli.run_chunk. destruct (verify c); [|by auto with cli]. intros host r host'.
  destruct (with_natives_and_config _ _ _ _ _ _ _) as [[rt s]|e]; [|apply tells_refuse].
  destruct (entry_function c rt function) as [idx|msg]; [|apply tells_refuse].
  destruct (run_to_end _ _ _ _ _ rt idx s) as [[[[[v|err] metrics]|e]|] s'];
    intros Hr; try done.
  all: match type of Hr with ?m ?h = _ =>
    assert (Hm : tells m) by auto 6 with cli;
    apply (told_trans host h host' (Ok tt : result unit unit)); [|by apply Hm] end.
  all: constructor; simpl; [done|by apply prefix_app_r|done|done].
Qed.

Definition packed path host c : Host R :=
  outputs (mk_host (<[path := Format.encode c]> (disk host)) (stdout host) (stderr host) (machine host))
    (writeln [Lit "wrote "; Text path; Lit " ("; Dec (Z.of_nat (length (Format.encode c)));
       Lit " bytes, chunk "; Text (debug_str (Chunk.name c)); Lit ")"]).

Lemma pack_told name path host r h : Cli.cmd_pack checks name path host = Some (r, h) ->
  told host h r \/ exists c, demo_chunk name host = Some (Ok c, host) /\ r = Ok tt /\
    h = packed path host c.
Proof.
  rewrite cmd_pack_eq. destruct (demo_chunk_cases name host) as [(c & _ & Hc)|[msg Hm]].
  - rewrite Hc. destruct (write_file path _ host) as [[[[]|[]] h']|] eqn:E; [| |done].
    + intros [= <- <-]. right. exists c. split_and!; [done..|]. revert E.
      unfold write_file. destruct (mkdir_error path); [done|]. destruct (write_error path); [done|].
      intros [= <-]. unfold packed. cbn [disk]. by rewrite lookup_insert_eq.
    + intros [= <- <-]. left. revert E. unfold write_file.
      destruct (mkdir_error path); [by intros ?%tells_refuse|].
      destruct (write_error path); [by intros ?%tells_refuse|done].
  - rewrite Hm. intros [= <- <-]. left. by destruct (tells_demo name host _ _ Hm).
Qed.


End theory.

(** ** What the demonstrations print *)

(** A host whose disk can be written, with the clock and the entropy of the runs of the
    samples. *)
Module Console.

#[export] Instance all_printable : Unicode := fun _ => true.
#[export] Instance disk_works : Os := {|
  no_file := fun _ => ascii_bytes "No such file or directory (os error 2)";
  mkdir_error := fun _ => None;
  write_error := fun _ => None |}.

Definition blank : Host Z := mk_host ∅ [] [] 100.

(** A call with 60 rounds for its flows. *)
Definition byteflow (checks : bool) (args : list string) (host : Host Z) : option (bool * Host Z) :=
  main Demo.random SamplesRun.clock (fun _ => Ok 0) checks 60 100 (map ascii_bytes args) host.

(** Calls one after the other on one host, while they succeed. *)
Fixpoint session (checks : bool) (calls : list (list string)) (host : Host Z) : option (bool * Host Z) :=
  match calls with
  | [] => Some (true, host)
  | args :: calls =>
    match byteflow checks args host with
    | Some (true, host) => session checks calls host
    | other => other
    end
  end.

(** The lines of a text. *)
Definition said (ls : list string) : text := concat (map (fun l => ascii_bytes l ++ [newline]) ls).

(** The names of the demonstrations that run, and what they print: the value of [main], and
    before it the hops that [atomic-request-reply] shows, at the host, at the server and at
    the client; the capabilities are those of this host's entropy. *)
Definition names : list (string * list string) :=
  [("ping-pong", ["2"]); ("ping_pong", ["2"]); ("atomic", ["72"]); ("atomic-actors", ["72"]);
   ("atomic-request-reply",
    ["msg{from=flow#0, reply=cap#none, id=1, tag=1, payload=41}";
     "msg{from=flow#1, reply=cap#00000000000000000000000004c4b465, id=1, tag=1, payload=41}";
     "msg{from=flow#2, reply=cap#00000000000000000000000005f5e166, id=1, tag=2, payload=42}";
     "42"]);
   ("selective", ["42"]); ("selective-receive", ["42"]); ("ask", ["42"]); ("ask-reply", ["42"]);
   ("ask-timeout", ["()"]); ("ask-exit", ["65282"]); ("ask-target-exits", ["65282"]);
   ("server-loop", ["42"]); ("server", ["42"]); ("monitor", ["0"]); ("monitor-down", ["0"]);
   ("add", ["42"]); ("add-forty-two", ["42"]); ("42", ["42"])]%string.

(** The output of packing the module and running the file, after the line of [pack]. *)
Definition packed_output (checks : bool) (name : string) : option text :=
  match byteflow checks ["pack"; name; "x.bf"]%string blank with
  | Some (true, packed) =>
    match byteflow checks ["run"; "x.bf"]%string packed with
    | Some (true, host) => Some (drop (length (stdout packed)) (stdout host))
    | _ => None
    end
  | _ => None
  end.
End Console.

Import Console.


(** [demo boom] cannot run: the command asks for [main], which the module, written to show a
    restart, does not have.  The call fails before a flow is spawned. *)
Lemma demo_boom_has_no_main checks :
  byteflow checks ["demo"; "boom"]%string blank =
  Some (false, mk_host ∅ [] (ascii_bytes "no function named " ++ debug_str (ascii_bytes "main") ++ [newline]) 100).
Proof. destruct checks; by vm_compute. Qed.

(** Packed, it runs when its function is named. *)
Lemma packed_boom_fails checks :
  match session checks [["pack"; "boom"; "b"]; ["run"; "b"; "boom"]]%string blank with
  | Some (ok, host) => ok = false /\ ascii_bytes "Flow failed: explicit trap (code 1)" `prefix_of` stderr host
  | None => False
  end.
Proof. destruct checks; vm_compute; (split; [done|]); eexists; reflexivity. Qed.

Lemma pack_then_read_witness :
  match byteflow true ["pack"; "add"; "x.bf"]%string blank with
  | Some (true, packed) => exists t, byteflow true ["verify"; "x.bf"]%string packed = Some (true, outputs packed t)
  | _ => False
  end.
Proof.
  pose proof (pack_then_read Demo.random SamplesRun.clock (fun _ => Ok 0) true 60 100
    (ascii_bytes "add") (ascii_bytes "x.bf") blank eq_refl eq_refl) as Hp.
  unfold byteflow. change (map ascii_bytes ["pack"; "add"; "x.bf"]%string)
    with [ascii_bytes "pack"; ascii_bytes "add"; ascii_bytes "x.bf"].
  destruct (main Demo.random SamplesRun.clock (fun _ => Ok 0) true 60 100
    [ascii_bytes "pack"; ascii_bytes "add"; ascii_bytes "x.bf"] blank) as [[[] packed]|] eqn:E.
  - destruct Hp as (c & _ & _ & Hv & _). eexists. exact Hv.
  - apply (f_equal (fmap fst)) in E. vm_compute in E. discriminate E.
  - exact Hp.
Defined.

Lemma bad_module_refused_witness :
  byteflow true ["run"; "none.bf"; "main"]%string blank =
  Some (false, mk_host ∅ []
    (ascii_bytes "read none.bf: No such file or directory (os error 2)" ++ [newline]) 100).
Proof.
  pose proof (proj1 (bad_module_refused Demo.random SamplesRun.clock (fun _ => Ok 0) true 60 100
    (ascii_bytes "none.bf") [ascii_bytes "main"] blank) _ eq_refl) as Hall.
  rewrite Forall_forall in Hall. apply (Hall "run"%string). repeat constructor.
Defined.

