(* ===== verification/SupervisorTheory.v ===== *)
(** The supervisor's decisions: the intensity limit counts exactly the restarts of the
    window, a cascade restarts the children its strategy names in start order, and a second
    cascade forgets the first. *)

From Stdlib Require Import Sorting.Sorted.
From S2P Require Import Prelude Capability Values Isa Sync Quota Native Vm Process CapTable.
From S2P Require Import Lifecycle Mailbox Oneshot Shared Finalize Runtime Timer Worker.
From S2P Require Import Supervisor Demo.
Import Shared.

Lemma filter_all {A} (P : A -> Prop) `{!forall x, Decision (P x)} l :
  Forall P l -> filter P l = l.
Proof. induction 1 as [|x l Hx Hl IH]; [done|]. by rewrite filter_cons_True, IH. Qed.

(** ** Intensity *)

Section intensity.
Context (instant_min : instant) (c : SupervisorConfig).
Implicit Types (now w t : instant) (times ts l k : list instant).

(** The restart times after the readings [ts], none refused in between. *)
Definition replay ts : list instant :=
  fold_left (fun times t => snd (note_restart instant_min c t times)) ts [].

Lemma drop_before_sorted w times :
  StronglySorted Z.le times -> drop_before w times = filter (fun t => w <= t) times.
Proof.
  induction 1 as [|t times Hs IH Ht]; [done|]. simpl. destruct (Z.ltb_spec t w).
  - rewrite IH. by rewrite filter_cons_False by lia.
  - rewrite filter_all; [done|]. constructor; [lia|].
    eapply Forall_impl; [exact Ht|]. simpl. lia.
Qed.

Lemma filter_later w w' l :
  w <= w' -> filter (fun t => w' <= t) (filter (fun t => w <= t) l) = filter (fun t => w' <= t) l.
Proof.
  intros Hw. rewrite list_filter_filter. apply list_filter_iff. intros t. lia.
Qed.

(** A period is not negative; the clock goes forward; the window's start is an instant. *)
Context (period : 0 <= max_period c).
Definition readings ts : Prop :=
  StronglySorted Z.le ts /\ Forall (fun t => instant_min <= t - max_period c) ts.

Lemma readings_app_inv ts now : readings (ts ++ [now]) -> readings ts.
Proof.
  intros [Hs Hf]. apply Forall_app in Hf as [Hf _]. split; [|done]. clear Hf.
  induction ts as [|t ts IH]; [constructor|]. inversion Hs as [|? ? Hs' Ht]; subst.
  constructor; [by apply IH|]. by apply Forall_app in Ht as [? _].
Qed.

Lemma sorted_last ts now : StronglySorted Z.le (ts ++ [now]) -> Forall (fun t => t <= now) ts.
Proof.
  induction ts as [|t ts IH]; simpl; [done|]. intros Hs. inversion Hs as [|? ? Hs' Ht]; subst.
  constructor; [|by apply IH]. apply Forall_app in Ht as [_ Ht]. by inversion Ht.
Qed.

Lemma sorted_filter w l :
  StronglySorted Z.le l -> StronglySorted Z.le (filter (fun t => w <= t) l).
Proof.
  induction 1 as [|t l Hs IH Ht]; [constructor|]. rewrite filter_cons. case_decide; [|done].
  constructor; [done|]. rewrite Forall_forall in *. intros x Hx.
  apply list_elem_of_filter in Hx as [_ Hx]. auto.
Qed.

(** What is remembered is the window of the last reading. *)
Lemma replay_window ts now :
  readings (ts ++ [now]) ->
  replay (ts ++ [now]) = filter (fun t => now - max_period c <= t) (ts ++ [now]).
Proof.
  revert now. induction ts as [|last ts IH] using rev_ind; intros now Hr.
  - destruct Hr as [_ Hf]. cbn [app] in *. rewrite Forall_singleton in Hf.
    unfold replay, note_restart. cbn [fold_left snd app].
    destruct (Z.leb_spec instant_min (now - max_period c)); [|lia].
    by rewrite drop_before_sorted by repeat constructor.
  - unfold replay. rewrite fold_left_app. cbn [fold_left]. fold (replay (ts ++ [last])).
    rewrite IH by by eapply readings_app_inv. unfold note_restart. cbn [snd].
    pose proof Hr as [Hs Hf]. pose proof (sorted_last _ _ Hs) as Hl.
    apply Forall_app in Hf as [_ Hf]. rewrite Forall_singleton in Hf.
    apply Forall_app in Hl as [_ Hl]. rewrite Forall_singleton in Hl.
    destruct (Z.leb_spec instant_min (now - max_period c)); [|lia].
    set (l := ts ++ [last]). set (f := filter _ l).
    assert (f ++ [now] = filter (fun t => last - max_period c <= t) (l ++ [now])) as ->.
    { rewrite filter_app, (filter_cons_True _ now) by lia. done. }
    rewrite drop_before_sorted by (apply sorted_filter, Hs). by rewrite filter_later by lia.
Qed.


End intensity.


(** ** Cascades *)

Section cascade.
Implicit Types (c : ChildTable.t) (id : Z) (ids : list Z) (live : LiveChild).

(** The rows of the table are the children in start order, each once. *)
Record table_ok c : Prop := {
  order_nodup : NoDup (ChildTable.order c);
  order_rows : forall id, id ∈ ChildTable.order c <-> is_Some (ChildTable.by_id c !! id) }.

Definition specs_of c ids : list ChildSpec.t :=
  omap (fun id => spec <$> ChildTable.by_id c !! id) ids.

Lemma insert_table_ok id live c :
  table_ok c -> ChildTable.by_id c !! id = None -> table_ok (ChildTable.insert id live c).
Proof.
  intros [Hn Hr] Hid. split; simpl.
  - apply NoDup_app. split_and!; [done| |apply NoDup_singleton].
    intros x Hx ->%list_elem_of_singleton. apply Hr in Hx as [? ?]. congruence.
  - intros x. rewrite elem_of_app, list_elem_of_singleton, Hr.
    destruct (decide (x = id)) as [->|Hx].
    + rewrite lookup_insert_eq. naive_solver.
    + rewrite lookup_insert_ne by done. naive_solver.
Qed.

Lemma remove_table_ok id c : table_ok c -> table_ok (snd (ChildTable.remove id c)).
Proof.
  intros [Hn Hr]. split; simpl; [by apply NoDup_filter|].
  intros x. rewrite list_elem_of_filter, Hr. destruct (decide (x = id)) as [->|Hx].
  - rewrite lookup_delete_eq. split; [by intros []|by intros []].
  - rewrite lookup_delete_ne by done. naive_solver.
Qed.

Lemma specs_of_length c ids :
  (forall id, id ∈ ids -> is_Some (ChildTable.by_id c !! id)) -> length (specs_of c ids) = length ids.
Proof.
  induction ids as [|id ids IH]; intros Hr; [done|]. simpl.
  destruct (Hr id) as [l El]; [by left|]. rewrite El. simpl. f_equal. apply IH. set_solver.
Qed.

Lemma specs_of_without id c ids : id ∉ ids -> specs_of (snd (ChildTable.remove id c)) ids = specs_of c ids.
Proof.
  intros Hid. unfold specs_of in *. induction ids as [|x ids IH]; [done|]. simpl.
  rewrite lookup_delete_ne by set_solver.
  destruct (ChildTable.by_id c !! x); simpl; [f_equal|]; apply IH; set_solver.
Qed.

(** Cutting the order at a child. *)
Lemma order_split c id i :
  table_ok c -> position (Z.eqb id) (ChildTable.order c) = Some i ->
  ChildTable.order c = take i (ChildTable.order c) ++ id :: drop (S i) (ChildTable.order c) /\
  length (take i (ChildTable.order c)) = i /\
  id ∉ take i (ChildTable.order c) /\ id ∉ drop (S i) (ChildTable.order c) /\
  ChildTable.order (snd (ChildTable.remove id c)) =
    take i (ChildTable.order c) ++ drop (S i) (ChildTable.order c).
Proof.
  intros [Hn _] Hp. destruct (position_Some _ _ _ Hp) as (x & Hx & Hid & _).
  apply Z.eqb_eq in Hid as <-. pose proof (take_drop_middle _ _ _ Hx) as E.
  set (a := take i _) in *. set (b := drop (S i) _) in *.
  assert (length a = i) as Hl by (unfold a; apply length_take_le; apply lookup_lt_Some in Hx; lia).
  rewrite <- E in Hn. apply NoDup_app in Hn as (Ha & Hab & Hb). apply NoDup_cons in Hb as [Hb1 Hb].
  assert (id ∉ a) as Hia by (intros Hi; apply (Hab id Hi); by left).
  split_and!; [done..|]. simpl. rewrite <- E at 1. rewrite filter_app, filter_cons_False by tauto.
  f_equal; apply filter_all, Forall_forall; intros y Hy ->; done.
Qed.

Lemma expect_rows later c id :
  ChildTable.by_id (snd (expect_later later c)) !! id =
  (if decide (id ∈ later) then (fun l => mk_live (spec l) true) <$> ChildTable.by_id c !! id
   else ChildTable.by_id c !! id).
Proof.
  unfold expect_later. simpl. generalize (ChildTable.by_id c). clear c.
  induction later as [|x later IH]; intros m; simpl; [done|]. rewrite IH.
  destruct (decide (id = x)) as [->|Hx].
  - rewrite lookup_alter_eq. rewrite (decide_True (P := x ∈ x :: later)) by by left.
    case_decide; [|done]. by destruct (m !! x).
  - rewrite lookup_alter_ne by done. repeat case_decide; set_solver.
Qed.

(** Who the strategy names, from the whole start order. *)
Definition siblings_of (st : RestartStrategy) (id : Z) (i : nat) (order : list Z) : list Z :=
  match st with
  | OneForOne => []
  | OneForAll => filter (fun x => x <> id) order
  | RestForOne => drop (S i) order
  end.

Definition restarted_of (st : RestartStrategy) (id : Z) (i : nat) (order : list Z) : list Z :=
  match st with
  | OneForOne => [id]
  | OneForAll => order
  | RestForOne => drop i order
  end.

Lemma later_named st c id i :
  table_ok c -> position (Z.eqb id) (ChildTable.order c) = Some i ->
  later_of st (Some i) (ChildTable.order (snd (ChildTable.remove id c))) =
  siblings_of st id i (ChildTable.order c).
Proof.
  intros Hok Hp. destruct (order_split c id i Hok Hp) as (E & Hl & Ha & Hb & Er).
  destruct st; [done|done|]. unfold later_of, siblings_of. rewrite Er.
  by rewrite drop_app_length' by (symmetry; exact Hl).
Qed.

Lemma named_others st c id i :
  table_ok c -> position (Z.eqb id) (ChildTable.order c) = Some i ->
  id ∉ siblings_of st id i (ChildTable.order c).
Proof.
  intros Hok Hp. destruct (order_split c id i Hok Hp) as (E & Hl & Ha & Hb & Er).
  destruct st; simpl; [apply not_elem_of_nil| |done]. rewrite list_elem_of_filter. tauto.
Qed.

Lemma named_specs st c id live i :
  table_ok c -> ChildTable.by_id c !! id = Some live ->
  position (Z.eqb id) (ChildTable.order c) = Some i ->
  cascade_specs st (spec live) (Some i) (specs_of c (siblings_of st id i (ChildTable.order c))) =
    Some (specs_of c (restarted_of st id i (ChildTable.order c))).
Proof.
  intros Hok Hid Hp. destruct (order_split c id i Hok Hp) as (E & Hl & Ha & Hb & Er).
  destruct st; simpl.
  - by rewrite Hid.
  - simpl in Er. rewrite Er. unfold specs_of. rewrite omap_app.
    set (a := omap _ (take i _)).
    assert (length a = i) as Hs.
    { rewrite <- Hl. apply (specs_of_length c). intros x Hx. apply Hok. rewrite E. set_solver. }
    unfold insert_at. rewrite (proj2 (Nat.leb_le _ _)) by (rewrite length_app; lia).
    rewrite take_app_length', drop_app_length' by (symmetry; exact Hs). f_equal.
    transitivity (specs_of c (take i (ChildTable.order c) ++ id :: drop (S i) (ChildTable.order c)));
      [unfold specs_of; rewrite omap_app; simpl; by rewrite Hid|by rewrite <- E].
  - assert (drop i (ChildTable.order c) = id :: drop (S i) (ChildTable.order c)) as ->
      by (rewrite E at 1; by rewrite drop_app_length' by (symmetry; exact Hl)).
    simpl. by rewrite Hid.
Qed.

Lemma expect_table_ok later c : table_ok c -> table_ok (snd (expect_later later c)).
Proof.
  intros [Hn Hr]. split; [done|]. intros x. rewrite expect_rows. simpl. rewrite Hr.
  case_decide; [|done]. by rewrite fmap_is_Some.
Qed.


End cascade.


(** ** Giving up *)

Section giving_up.
Context {H R : Type} `{ValueLayout, Allocator}.
Context (getrandom : R -> option (list byte) * R) (clock : R -> instant * R) (checks : bool).
Context (instant_min : instant).
Implicit Types (s : Shared.t H R) (p : Sup.t H).

(** No flow was made, woken or stopped. *)
Definition same_flows s s' : Prop :=
  next_flow s' = next_flow s /\ injector s' = injector s /\ mailboxes s' = mailboxes s /\
  kill_signals s' = kill_signals s.

(** The outcome leaves the flows alone and the flag set. *)
Definition gave_up s (x : option (Sup.t H) * Shared.t H R) : Prop :=
  same_flows s (snd x) /\ match fst x with Some p => Sup.intensity_exceeded p = true | None => True end.

Lemma gave_up_ret p s : Sup.intensity_exceeded p = true -> gave_up s (ret p s).
Proof. by split. Qed.

Lemma gave_up_report e p s :
  Sup.intensity_exceeded p = true -> gave_up s ((let* _ := report_fault e in ret p) s).
Proof. by split. Qed.

Lemma respawn_gives_up p l s :
  Sup.intensity_exceeded p = true -> gave_up s (respawn getrandom clock checks p l s).
Proof. intros Hp. destruct l; simpl; [by apply gave_up_ret|]. rewrite Hp. by apply gave_up_ret. Qed.

Lemma finish_gives_up p s :
  Sup.intensity_exceeded p = true -> gave_up s (finish_cascade getrandom clock checks p s).
Proof.
  intros Hp. unfold finish_cascade. destruct (lock _ _) as [[c|]|e];
    [by apply respawn_gives_up|by apply gave_up_ret|by apply gave_up_report].
Qed.

Lemma handle_gives_up p e s :
  Sup.intensity_exceeded p = true ->
  gave_up s (handle_exit getrandom clock checks instant_min p e s).
Proof.
  intros Hp. unfold handle_exit. destruct (lock _ _) as [c|x]; [|by apply gave_up_report].
  destruct (ChildTable.remove _ c) as [[l|] c']; [|by apply gave_up_ret].
  destruct (expected_shutdown l).
  - unfold on_cascade_progress. destruct (lock _ _) as [[k|]|x];
      [|by apply gave_up_ret|by apply gave_up_report].
    destruct (decide _); [by apply finish_gives_up|by apply gave_up_ret].
  - destruct (negb _); [by apply gave_up_ret|]. simpl. rewrite Hp. by apply gave_up_ret.
Qed.

(** C22: Once the restart limit was exceeded, the supervisor gives up for good: whatever exit
    it handles, it spawns, wakes and kills no flow, and the limit stays exceeded. *)
Theorem gives_up p s :
  Sup.intensity_exceeded p = true ->
  let (x, s') := supervise getrandom clock checks instant_min p s in
  same_flows s s' /\ forall p', x = Some (Some p') -> Sup.intensity_exceeded p' = true.
Proof.
  intros Hp. unfold supervise. destruct (Sup.shutdown p); [by split|].
  unfold bind at 1, gets. destruct (lock _ _) as [[|e events]|x]; [| |by split].
  - simpl. split; [by split_and!|]. by intros p' [= <-].
  - set (s1 := s <| supervisors ::= <[Sup.self p := unlock events]> |>). pose proof (handle_gives_up p e s1 Hp) as [Hs Hx].
    unfold bind at 1. change (modify _ s) with (Some tt, s1). cbv beta iota. unfold bind.
    destruct (handle_exit _ _ _ _ p e s1) as [[p'|] s2]; simpl in *.
    + split; [exact Hs|]. by intros ? [= <-].
    + by split; [exact Hs|].
Qed.

End giving_up.

(** ** An overlapping cascade *)

Section overlap.
Context {H R : Type} `{ValueLayout, Allocator}.
Context (getrandom : R -> option (list byte) * R) (clock : R -> instant * R) (checks : bool).
Implicit Types (s : Shared.t H R) (p : Sup.t H).

(** A second cascade forgets the first: starting a cascade while another waits for its
    siblings behaves as if none were in flight, so the child that started the first one and
    its siblings that already ended are never started again (although the strategy's
    documentation says the failed child and the later ones are). *)
Lemma cascade_forgotten p c0 failed idx later s :
  poisoned (Sup.children p) = false ->
  start_cascade getrandom clock checks (p <| Sup.cascade := mutex_new (Some c0) |>) failed idx later s =
  start_cascade getrandom clock checks (p <| Sup.cascade := mutex_new None |>) failed idx later s.
Proof. intros Hp. unfold start_cascade, lock. simpl. by rewrite Hp. Qed.

End overlap.

(** Three children under [RestForOne]: [b] fails while [c] has not run yet, then [a] fails
    before [c] has ended; the supervisor handles the three exits. *)
Definition sup_config : SupervisorConfig := mk_sup_config 5 50 RestForOne.
Definition start (n : string) (p : Sup.t unit) : Demo.W (Sup.t unit) :=
  let* x := start_child Demo.random Demo.clock true p (ChildSpec.new (ascii_bytes n) 0) in
  match fst x with Ok _ => ret (snd x) | Err _ => panic end.
Definition handle (p : Sup.t unit) : Demo.W (Sup.t unit) :=
  let* x := supervise Demo.random Demo.clock true 0 p in
  match x with Some p => ret p | None => panic end.
Definition three_children : Demo.W (Sup.t unit) :=
  let* _ := modify (fun s => s <| supervisors ::= <[0%N := mutex_new []]> |>) in
  let* p := start "a" (Sup.new 0%N (spawner Demo.rt) sup_config) in
  let* p := start "b" p in
  let* _ := Demo.turn in let* _ := Demo.turn in
  start "c" p.
Definition overlapping : Demo.W (Sup.t unit) :=
  let* p := three_children in
  let* _ := kill true 2 in
  let* p := handle p in
  let* _ := kill true 1 in
  let* p := handle p in
  let* _ := Demo.turn in
  handle p.
Definition child_names (p : Sup.t unit) : list (list byte) :=
  map (fun x => ChildSpec.name (spec (snd x))) (map_to_list (ChildTable.by_id (guarded (Sup.children p)))).

(** At the end [b] is not among the children, although no limit was hit. *)
Lemma cascade_forgotten_witness :
  let p := Sup.new 0%N (spawner Demo.rt) sup_config in
  let cascade := mk_cascade {[3]} [ChildSpec.new (ascii_bytes "b") 0] in
  let a := ChildSpec.new (ascii_bytes "a") 0 in
  (forall s : Shared.t unit Z,
    start_cascade Demo.random Demo.clock true (p <| Sup.cascade := mutex_new (Some cascade) |>)
      a (Some 0%nat) [] s =
    start_cascade Demo.random Demo.clock true (p <| Sup.cascade := mutex_new None |>)
      a (Some 0%nat) [] s) /\
  match fst (overlapping (Demo.init RuntimeConfig.default)) with
  | Some p => child_names p = [ascii_bytes "c"; ascii_bytes "a"] /\ Sup.intensity_exceeded p = false
  | None => False
  end.
Proof.
  intros p cascade a. split; [|by vm_compute].
  intros s. by apply (cascade_forgotten Demo.random Demo.clock true p).
Defined.

Lemma gives_up_witness :
  let p := Sup.new 0%N (spawner Demo.rt) sup_config <| Sup.intensity_exceeded := true |> in
  let s := Demo.init RuntimeConfig.default
             <| supervisors := {[0%N := mutex_new [mk_exit 1 (Failed "x")]]} |> in
  next_flow (snd (supervise Demo.random Demo.clock true 0 p s)) = next_flow s.
Proof.
  intros p s. pose proof (gives_up Demo.random Demo.clock true 0 p s eq_refl) as Hg.
  destruct (supervise _ _ _ _ p s) as [x s']. by destruct Hg as [[Hn _] _].
Defined.
