(* ===== verification/Frame.v ===== *)
(** Framing: a relation between the state before and after that every primitive step of
    the scheduler respects is respected by all of its functions.  Instances say what the
    scheduler leaves alone. *)

From S2P Require Import Prelude Capability Values Isa Sync Quota Native Vm Process CapTable.
From S2P Require Import Lifecycle Mailbox Oneshot Shared Timer Finalize Authenticate Runtime.
From S2P Require Import Worker.
Import Shared.

Create HintDb frame.
#[local] Hint Opaque finish_ok finish_failed finalize_flow : frame.

(** The changes of a quota the scheduler makes on behalf of a flow. *)
Inductive quota_step (checks : bool) (q : FlowQuota.t) : FlowQuota.t -> Prop :=
| step_none : quota_step checks q q
| step_alloc n : quota_step checks q (snd (FlowQuota.alloc q n))
| step_free n : quota_step checks q (FlowQuota.free q n)
| step_send t t' : quota_step checks q (snd (FlowQuota.check_send checks q t t'))
| step_spawn t t' : quota_step checks q (snd (FlowQuota.check_spawn checks q t t')).

(** The methods of a VM the scheduler calls between two quanta. *)
Inductive vm_step {H} `{ValueLayout} (checks : bool) : forall A, Vm.R H A -> Prop :=
| step_resume d v : vm_step checks _ (resume_with checks d v)
| step_fresh : vm_step checks _ fresh_request_id
| step_set_quota q : vm_step checks _ (set_quota q).

Section frame.
Context {H R : Type} `{ValueLayout, Allocator} (clock : R -> instant * R) (checks : bool).
Implicit Types (s : Shared.t H R) (f : Flow.t H).

(** A preorder that allows every primitive step.  What a store holds is free to change;
    a quota that exists changes only by the scheduler's own operations. *)
Record frame (P : Shared.t H R -> Shared.t H R -> Prop) : Prop := {
  frame_refl s : P s s;
  frame_trans s1 s2 s3 : P s1 s2 -> P s2 s3 -> P s1 s3;
  frame_injector s x : P s (s <| injector := x |>);
  frame_deques s x : P s (s <| deques := x |>);
  frame_directory s x : P s (s <| directory := x |>);
  frame_caps s x c o : P s (s <| caps := x |> <| wld ::= fun w => with_cells w c |> <| os := o |>);
  frame_timer s x : P s (s <| timer := x |>);
  frame_metrics s x : P s (s <| metrics := x |>);
  frame_quota_table s x : P s (s <| quota_table := x |>);
  frame_monitors s x n : P s (s <| monitors := x |> <| next_monitor := n |>);
  frame_links s x n : P s (s <| links := x |> <| next_link := n |>);
  frame_registry s x : P s (s <| registry := x |>);
  frame_kills s x : P s (s <| kill_signals := x |>);
  frame_waiting s x : P s (s <| waiting_send_at := x |>);
  frame_asks s x : P s (s <| ask_waits := x |>);
  frame_flow_id s : P s (s <| next_flow := snd (next_flow_id (next_flow s)) |>);
  frame_mailboxes s x : P s (s <| mailboxes := x |>);
  frame_flow_metrics s x : P s (s <| flow_metrics := x |>);
  frame_completions s x : P s (s <| completions := x |>);
  frame_supervisors s x : P s (s <| supervisors := x |>);
  frame_clock s : P s (s <| os := snd (clock (os s)) |>);
  frame_faults s x : P s (s <| faults := x |>);
  frame_cells s c : P s (s <| wld ::= fun w => with_cells w c |>);
  frame_quota s q fq : quota_step checks (quotas (wld s) !!! q) fq ->
    P s (s <| wld ::= fun w => with_quotas w (<[q := fq]> (quotas w)) |>);
  frame_new_quota s fq :
    P s (s <| wld ::= fun w => with_quotas w (<[fresh (dom (quotas w)) := fq]> (quotas w)) |>);
  frame_vm s v A (m : Vm.R H A) : vm_step checks A m ->
    P s (s <| wld := Vm.wld (snd (m (mk_state v (wld s)))) |>) }.

Context (P : Shared.t H R -> Shared.t H R -> Prop) (HP : frame P).

Definition keeps {A} (m : W (H := H) (R := R) A) : Prop := forall s, P s (snd (m s)).

Lemma keeps_ret {A} (a : A) : keeps (ret a).
Proof. intros s. apply HP. Qed.

Lemma keeps_panic {A} : keeps (@panic H R A).
Proof. intros s. apply HP. Qed.

Lemma keeps_gets {A} (g : Shared.t H R -> A) : keeps (gets g).
Proof. intros s. apply HP. Qed.

Lemma keeps_bind {A B} (m : W A) (k : A -> W B) :
  keeps m -> (forall a, keeps (k a)) -> keeps (bind m k).
Proof.
  intros Hm Hk s. unfold bind. specialize (Hm s). destruct (m s) as [[a|] s1]; [|done].
  eapply (frame_trans P HP); [exact Hm|apply Hk].
Qed.

Lemma keeps_modify g : (forall s, P s (g s)) -> keeps (modify g).
Proof. intros Hg s. apply Hg. Qed.

Lemma keeps_report e : keeps (report_fault e).
Proof. intros s. exact (frame_faults P HP s _). Qed.

Lemma keeps_reporting {A} (m : W (result A RuntimeError)) : keeps m -> keeps (reporting m).
Proof. intros Hm. apply keeps_bind; [done|]. intros [a|e]; [apply keeps_ret|apply keeps_report]. Qed.

Lemma keeps_try {A B E} (m : W (result A E)) (k : A -> W (result B E)) :
  keeps m -> (forall a, keeps (k a)) -> keeps (try_ m k).
Proof. intros Hm Hk. apply keeps_bind; [done|]. intros [a|e]; [done|apply keeps_ret]. Qed.

(** *** Primitives *)

Lemma keeps_on_quotas {B} (g : _ -> B * _) : keeps (on_quotas g).
Proof. intros s. unfold on_quotas. destruct (g _) as [b m]. exact (frame_quota_table P HP s m). Qed.
Lemma keeps_on_monitors {B} (g : _ -> B * _) : keeps (on_monitors g).
Proof.
  intros s. unfold on_monitors. destruct (g _) as [b m].
  exact (frame_monitors P HP s m (next_monitor s)).
Qed.
Lemma keeps_on_links {B} (g : _ -> B * _) : keeps (on_links g).
Proof.
  intros s. unfold on_links. destruct (g _) as [b m].
  exact (frame_links P HP s m (next_link s)).
Qed.
Lemma keeps_on_registry {B} (g : _ -> B * _) : keeps (on_registry g).
Proof. intros s. unfold on_registry. destruct (g _) as [b m]. exact (frame_registry P HP s m). Qed.
Lemma keeps_on_kills {B} (g : _ -> B * _) : keeps (on_kills g).
Proof. intros s. unfold on_kills. destruct (g _) as [b m]. exact (frame_kills P HP s m). Qed.
Lemma keeps_on_waiting {B} (g : _ -> B * _) : keeps (on_waiting g).
Proof. intros s. unfold on_waiting. destruct (g _) as [b m]. exact (frame_waiting P HP s m). Qed.
Lemma keeps_on_asks {B} (g : _ -> B * _) : keeps (on_asks g).
Proof. intros s. unfold on_asks. destruct (g _) as [b m]. exact (frame_asks P HP s m). Qed.
Lemma keeps_on_directory {B} (g : _ -> option B * _) : keeps (on_directory g).
Proof. intros s. unfold on_directory. destruct (g _) as [b m]. exact (frame_directory P HP s m). Qed.
Lemma keeps_on_mailbox {B} m (g : Mailbox.t H -> B * Mailbox.t H) : keeps (on_mailbox m g).
Proof. intros s. unfold on_mailbox. destruct (g _) as [b mb]. exact (frame_mailboxes P HP s _). Qed.
Lemma keeps_on_caps {A E} (op : CapTable.Op (R := R) E A) : keeps (on_caps op).
Proof.
  intros s. unfold on_caps. destruct (op _) as [r [tb e]].
  exact (frame_caps P HP s tb (ecells e) (erng e)).
Qed.
Lemma keeps_now : keeps (now clock).
Proof. intros s. pose proof (frame_clock P HP s) as Hc. unfold now. by destruct (clock (os s)). Qed.
Lemma keeps_on_quota {B} q (g : FlowQuota.t -> B * FlowQuota.t) :
  (forall fq, quota_step checks fq (snd (g fq))) -> keeps (on_quota q g).
Proof.
  intros Hg s. pose proof (frame_quota P HP s q _ (Hg _)) as Hq. unfold on_quota.
  by rewrite (surjective_pairing (g _)).
Qed.
Lemma keeps_on_quota_opt {B} q (g : FlowQuota.t -> option B * FlowQuota.t) :
  (forall fq, quota_step checks fq (snd (g fq))) -> keeps (on_quota_opt q g).
Proof.
  intros Hg. apply keeps_bind; [by apply keeps_on_quota|].
  intros [b|]; [apply keeps_ret|apply keeps_panic].
Qed.
Lemma keeps_on_vm {A} f (m : Vm.R H A) : vm_step checks A m -> keeps (on_vm f m).
Proof.
  intros Hm s. pose proof (frame_vm P HP s (Flow.fvm f) A m Hm) as Hv. unfold on_vm.
  destruct (m _) as [[r|] st]; exact Hv.
Qed.
Lemma keeps_inject f : keeps (inject f).
Proof. intros s. exact (frame_injector P HP s _). Qed.
Lemma keeps_push_local me f : keeps (push_local me f).
Proof. intros s. exact (frame_deques P HP s _). Qed.
Lemma keeps_wake : keeps wake_workers.
Proof. intros s. unfold wake_workers. destruct (lock _ _); [apply HP|apply keeps_report]. Qed.
Lemma keeps_counter f g : keeps (flow_counter f g).
Proof. intros s. exact (frame_flow_metrics P HP s _). Qed.
Lemma keeps_metrics g : keeps (modify (fun s => s <| metrics ::= g |>)).
Proof. intros s. exact (frame_metrics P HP s _). Qed.
Lemma keeps_heap h : keeps (modify (set_heap h)).
Proof. intros s. exact (frame_timer P HP s _). Qed.

Lemma keeps_settle f es m s :
  P s (report_all es s <| completions ::= <[Flow.completion f := m]> |>).
Proof.
  eapply (frame_trans P HP); [apply (frame_faults P HP s (faults s ++ omap Sender.fault es))|].
  exact (frame_completions P HP (report_all es s) _).
Qed.
Lemma keeps_complete f o : keeps (complete f o).
Proof. intros s. unfold complete. destruct (Sender.send _ _) as [es m]. apply keeps_settle. Qed.
Lemma keeps_drop f : keeps (drop_flow f).
Proof. intros s. unfold drop_flow. destruct (Sender.drop _ _) as [e m]. apply (keeps_settle f [e]). Qed.
Lemma keeps_notify sup id o : keeps (notify_supervisor sup id o).
Proof.
  intros s. unfold notify_supervisor. destruct (supervisors s !! sup) as [q|]; [|apply HP].
  destruct (on q _ _) as [r q'].
  eapply (frame_trans P HP); [exact (frame_supervisors P HP s (<[sup := q']> (supervisors s)))|].
  apply keeps_reporting, keeps_ret.
Qed.

Lemma keeps_with_shard {B} id w (g : gmap Z N -> B * gmap Z N) :
  keeps (on_directory (fun d => Directory.with_shard d id w g)).
Proof. apply keeps_on_directory. Qed.

End frame.

#[export] Hint Resolve keeps_ret keeps_panic keeps_gets keeps_report keeps_on_quotas
  keeps_on_monitors keeps_on_links keeps_on_registry keeps_on_kills keeps_on_waiting
  keeps_on_asks keeps_on_directory keeps_on_mailbox keeps_on_caps keeps_now keeps_inject
  keeps_push_local keeps_wake keeps_counter keeps_metrics keeps_heap keeps_complete keeps_drop
  keeps_notify : frame.
#[export] Hint Constructors quota_step vm_step : frame.

(** Runs of primitives. *)
Ltac keep :=
  repeat match goal with
  | |- keeps _ (bind _ _) => eapply keeps_bind; [eassumption| |intros ?]
  | |- keeps _ (try_ _ _) => eapply keeps_try; [eassumption| |intros ?]
  | |- keeps _ (match ?x with _ => _ end) => destruct x
  | |- keeps _ (reporting _) => eapply keeps_reporting; [eassumption|]
  | |- _ => solve [eauto 3 with frame]
  | |- keeps _ (on_quota _ _) => eapply keeps_on_quota; [eassumption|intros ?]
  | |- keeps _ (on_quota_opt _ _) => eapply keeps_on_quota_opt; [eassumption|intros ?]
  | |- keeps _ (on_vm _ _) => eapply keeps_on_vm; [eassumption|]
  | |- _ => progress simpl
  end.

Section functions.
Context {H R : Type} `{ValueLayout, Allocator}.
Context (getrandom : R -> option (list byte) * R) (clock : R -> instant * R) (checks : bool).
Context (P : Shared.t H R -> Shared.t H R -> Prop) (HP : frame clock checks P).
Implicit Types (s : Shared.t H R) (f : Flow.t H).
#[local] Abbreviation keeps := (keeps P).

(** *** The end of a flow *)

Lemma keeps_resume f d v : keeps (resume checks f d v).
Proof. unfold resume. keep. Qed.
#[local] Hint Resolve keeps_resume : frame.

Lemma keeps_deliver_to f hop : keeps (deliver_to checks f hop).
Proof. unfold deliver_to, count_received. keep. Qed.
#[local] Hint Resolve keeps_deliver_to : frame.

Lemma keeps_make_runnable f : keeps (make_runnable f).
Proof. unfold make_runnable. keep. Qed.
#[local] Hint Resolve keeps_make_runnable : frame.

Lemma keeps_lookup id : keeps (lookup_mailbox id).
Proof. unfold lookup_mailbox. keep. Qed.
#[local] Hint Resolve keeps_lookup : frame.

Lemma keeps_for_each {A} (g : A -> W unit) l : (forall x, keeps (g x)) -> keeps (for_each g l).
Proof.
  intros Hg. induction l as [|x l IH]; simpl; [keep|].
  eapply keeps_bind; [eassumption|apply Hg|done].
Qed.

Lemma keeps_deliver_down e : keeps (deliver_down checks e).
Proof. unfold deliver_down. keep. Qed.
#[local] Hint Resolve keeps_deliver_down : frame.

Lemma keeps_wake_asker hop x : keeps (wake_asker checks hop x).
Proof. unfold wake_asker. keep. Qed.
#[local] Hint Resolve keeps_wake_asker : frame.

Lemma keeps_wake_orphaned id r : keeps (wake_orphaned_asks checks id r).
Proof. unfold wake_orphaned_asks. keep. apply keeps_for_each. intros x. keep. Qed.
#[local] Hint Resolve keeps_wake_orphaned : frame.

Lemma keeps_extract_waiting id : keeps (extract_waiting id).
Proof. unfold extract_waiting. keep. Qed.
#[local] Hint Resolve keeps_extract_waiting : frame.

Lemma keeps_extract id r : keeps (extract_for_kill id r).
Proof. unfold extract_for_kill. keep. Qed.
#[local] Hint Resolve keeps_extract : frame.

Lemma keeps_collect id work : keeps (collect_link_exit id work).
Proof. unfold collect_link_exit. keep. Qed.
#[local] Hint Resolve keeps_collect : frame.

Lemma keeps_collects peers work : keeps (collect_link_exits peers work).
Proof. revert work. induction peers as [|[l x] peers IH]; intros work; simpl; keep. Qed.
#[local] Hint Resolve keeps_collects : frame.

Lemma keeps_queue_senders id senders work : keeps (queue_senders id senders work).
Proof. revert work. induction senders as [|x senders IH]; intros work; simpl; keep. Qed.
#[local] Hint Resolve keeps_queue_senders : frame.

Lemma keeps_close_mailbox id work : keeps (close_mailbox id work).
Proof. unfold close_mailbox. keep. Qed.
#[local] Hint Resolve keeps_close_mailbox : frame.

Lemma keeps_unregister_all id : keeps (unregister_all id).
Proof. unfold unregister_all. keep. Qed.
#[local] Hint Resolve keeps_unregister_all : frame.

Lemma keeps_notify_monitors id r : keeps (notify_monitors checks id r).
Proof. unfold notify_monitors. keep; apply keeps_for_each; intros x; keep. Qed.
#[local] Hint Resolve keeps_notify_monitors : frame.

Lemma keeps_spread id r work : keeps (spread_exit id r work).
Proof. unfold spread_exit. keep. Qed.
#[local] Hint Resolve keeps_spread : frame.

Lemma keeps_settle_flow p : keeps (settle_flow p).
Proof. unfold settle_flow, count_end. keep. Qed.
#[local] Hint Resolve keeps_settle_flow : frame.

Lemma keeps_teardown id r work : keeps (teardown checks id r work).
Proof. unfold teardown. keep. Qed.
#[local] Hint Resolve keeps_teardown : frame.

Lemma keeps_finalize_one p work : keeps (finalize_one checks p work).
Proof. unfold finalize_one. keep. Qed.
#[local] Hint Resolve keeps_finalize_one : frame.

Lemma keeps_finalize_loop fuel work : keeps (finalize_loop checks fuel work).
Proof. revert work. induction fuel as [|fuel IH]; intros [|p work]; simpl; keep. Qed.
#[local] Hint Resolve keeps_finalize_loop : frame.

Lemma keeps_finalize_flow f o r : keeps (finalize_flow checks f o r).
Proof. intros s. apply keeps_finalize_loop. Qed.
#[local] Hint Resolve keeps_finalize_flow : frame.

Lemma keeps_request_kill id r : keeps (request_kill checks id r).
Proof. unfold request_kill. keep. Qed.
#[local] Hint Resolve keeps_request_kill : frame.

(** *** The timer and the hops *)

Lemma keeps_timer_push e : keeps (Timer.push e).
Proof. unfold Timer.push, drop_entry. keep. Qed.
#[local] Hint Resolve keeps_timer_push : frame.

Lemma keeps_schedule_sleep d f : keeps (schedule_sleep clock d f).
Proof. unfold schedule_sleep. keep. Qed.
#[local] Hint Resolve keeps_schedule_sleep : frame.

Lemma keeps_schedule_receive d id m r e : keeps (schedule_receive_timeout clock d id m r e).
Proof. unfold schedule_receive_timeout. keep. Qed.
#[local] Hint Resolve keeps_schedule_receive : frame.

Lemma keeps_reissue a b v : keeps (reissue_caps_in_value getrandom a b v).
Proof. induction v using value_induction; simpl; keep. Qed.
#[local] Hint Resolve keeps_reissue : frame.

Lemma keeps_assign_rid f m : keeps (assign_request_id f m).
Proof. unfold assign_request_id. keep. Qed.
#[local] Hint Resolve keeps_assign_rid : frame.

Lemma keeps_authenticate f r m : keeps (authenticate_outgoing_message getrandom f r m).
Proof. unfold authenticate_outgoing_message. keep. Qed.
#[local] Hint Resolve keeps_authenticate : frame.

(** *** Spawning *)

Lemma keeps_grant_args p c args : keeps (grant_caps_in_args getrandom p c args).
Proof. induction args as [|x args IH]; simpl; keep. Qed.
#[local] Hint Resolve keeps_grant_args : frame.

Lemma keeps_directory_len : keeps directory_len.
Proof. intros s. unfold directory_len. destruct (existsb _ _); [|apply HP]. eapply keeps_bind; [exact HP| |intros u]; keep. Qed.
#[local] Hint Resolve keeps_directory_len : frame.

Lemma keeps_take_flow_id : keeps take_flow_id.
Proof. intros s. exact (frame_flow_id clock checks P HP s). Qed.
#[local] Hint Resolve keeps_take_flow_id : frame.

Lemma keeps_new_mailbox : keeps new_mailbox.
Proof. intros s. exact (frame_mailboxes clock checks P HP s _). Qed.
#[local] Hint Resolve keeps_new_mailbox : frame.

Lemma keeps_new_channel : keeps new_channel.
Proof. intros s. exact (frame_completions clock checks P HP s _). Qed.
#[local] Hint Resolve keeps_new_channel : frame.

Lemma keeps_new_flow_metrics : keeps new_flow_metrics.
Proof. intros s. exact (frame_flow_metrics clock checks P HP s _). Qed.
#[local] Hint Resolve keeps_new_flow_metrics : frame.

Lemma keeps_new_quota : keeps (new_quota clock).
Proof. unfold new_quota. keep. intros s. exact (frame_new_quota clock checks P HP s _). Qed.
#[local] Hint Resolve keeps_new_quota : frame.

Lemma exec_spawn_step cs a c (fq : FlowQuota.t) t t' id req nat cell :
  quota_step checks fq (snd (exec_spawn_authority checks cs a c fq t t' id req nat cell)).
Proof.
  unfold exec_spawn_authority. destruct (negb _); [constructor|]. destruct (negb _); [constructor|].
  pose proof (step_spawn checks fq t t') as Hs. by destruct (FlowQuota.check_spawn _ _ _ _).
Qed.
#[local] Hint Resolve exec_spawn_step : frame.

Lemma keeps_authority id c n b : keeps (child_authority clock checks id c n b).
Proof. unfold child_authority, on_cells. keep. Qed.
#[local] Hint Resolve keeps_authority : frame.

Lemma keeps_child_vm ch n a c i args : keeps (child_vm clock ch n a c i args).
Proof.
  unfold child_vm. keep. intros s. match goal with |- context [set_quota ?q {| vm := ?v |}] =>
    pose proof (frame_vm clock checks P HP s v _ _ (step_set_quota checks q)) as Hv;
    destruct (set_quota q _) as [[[u|e]|] st]; exact Hv end.
Qed.
#[local] Hint Resolve keeps_child_vm : frame.

Lemma keeps_flow_new t id v mb r c fm : keeps (fun s =>
  let (flow, w) := Flow.new (wld s) t id v mb r c fm in (Some flow, s <| wld := w |>)).
Proof.
  intros s. unfold Flow.new. destruct (RevocationCell.new (cells (wld s))) as [cell cs].
  eapply (frame_trans clock checks P HP); [exact (frame_cells clock checks P HP s cs)|].
  exact (frame_new_quota clock checks P HP (s <| wld ::= fun w => with_cells w cs |>) _).
Qed.
#[local] Hint Resolve keeps_flow_new : frame.

Lemma keeps_launch id v q a c r sup : keeps (launch clock id v q a c r sup).
Proof. unfold launch. keep. Qed.
#[local] Hint Resolve keeps_launch : frame.

Lemma keeps_spawn_on ch n i args r sup p b : keeps (spawn_on getrandom clock checks ch n i args r sup p b).
Proof. unfold spawn_on. keep. Qed.
#[local] Hint Resolve keeps_spawn_on : frame.

(** *** The worker *)

Context (debug : list byte -> string) (me : nat).

Lemma keeps_resolve_held id h n : keeps (resolve_cap_held id h n).
Proof. unfold resolve_cap_held. keep. Qed.
#[local] Hint Resolve keeps_resolve_held : frame.

Lemma keeps_resolve_relation id h n : keeps (resolve_relation_cap id h n).
Proof. unfold resolve_relation_cap. keep. Qed.
#[local] Hint Resolve keeps_resolve_relation : frame.

Lemma keeps_finish_ok f v : keeps (finish_ok checks f v).
Proof. unfold finish_ok. keep. Qed.
#[local] Hint Resolve keeps_finish_ok : frame.

Lemma keeps_finish_failed f m : keeps (finish_failed checks f m).
Proof. unfold finish_failed. keep. Qed.
#[local] Hint Resolve keeps_finish_failed : frame.

Lemma keeps_fail_with f m : keeps (fail_with checks f m).
Proof. unfold fail_with. keep. Qed.
#[local] Hint Resolve keeps_fail_with : frame.

Lemma keeps_resume_pending f d : keeps (resume_pending checks f d).
Proof. unfold resume_pending, count_received. keep. Qed.
#[local] Hint Resolve keeps_resume_pending : frame.

Lemma keeps_unpark m a t d : keeps (unpark_orphan checks m a t d).
Proof. unfold unpark_orphan, count_received. keep. Qed.
#[local] Hint Resolve keeps_unpark : frame.

Lemma keeps_schedule_timeout t p m d e : keeps (schedule_timeout clock t p m d e).
Proof. unfold schedule_timeout. keep. Qed.
#[local] Hint Resolve keeps_schedule_timeout : frame.

Lemma keeps_park_ask f d t w i : keeps (park_ask clock checks f d t w i).
Proof. unfold park_ask. keep. Qed.
#[local] Hint Resolve keeps_park_ask : frame.

Lemma keeps_park_on f d t w : keeps (park_on_mailbox clock checks f d t w).
Proof. unfold park_on_mailbox. keep. Qed.
#[local] Hint Resolve keeps_park_on : frame.

Lemma keeps_target_gone f : keeps (target_gone checks f).
Proof. unfold target_gone. keep. Qed.
#[local] Hint Resolve keeps_target_gone : frame.

Lemma keeps_park_sender m f v : keeps (park_sender_at m f v).
Proof. unfold park_sender_at. keep. Qed.
#[local] Hint Resolve keeps_park_sender : frame.

Lemma keeps_park_waiting f t v p : keeps (park_waiting_send checks f t v p).
Proof. unfold park_waiting_send. keep. Qed.
#[local] Hint Resolve keeps_park_waiting : frame.

Lemma keeps_deliver t v : keeps (deliver checks me t v).
Proof. unfold deliver. keep. Qed.
#[local] Hint Resolve keeps_deliver : frame.

Lemma keeps_admit m : keeps (admit_waiting_on clock checks me m).
Proof. unfold admit_waiting_on. keep. Qed.
#[local] Hint Resolve keeps_admit : frame.

Lemma keeps_answer f d v : keeps (answer checks f d v).
Proof. unfold answer. keep. Qed.
#[local] Hint Resolve keeps_answer : frame.

Lemma keeps_answer_cap {E} (show : E -> string) f d r : keeps (answer_cap checks show f d r).
Proof. unfold answer_cap. keep. Qed.
#[local] Hint Resolve keeps_answer_cap : frame.

Lemma keeps_create_monitor o i : keeps (create_monitor o i).
Proof. intros s. unfold create_monitor. destruct (MonitorStore.create _ _ _ _) as [r [m c]]. exact (frame_monitors clock checks P HP s m c). Qed.
#[local] Hint Resolve keeps_create_monitor : frame.

Lemma keeps_create_link a b : keeps (create_link a b).
Proof. intros s. unfold create_link. destruct (LinkStore.link _ _ _ _) as [r [m c]]. exact (frame_links clock checks P HP s m c). Qed.
#[local] Hint Resolve keeps_create_link : frame.

Lemma keeps_check_send q : keeps (check_send clock checks q).
Proof. unfold check_send. keep. Qed.
#[local] Hint Resolve keeps_check_send : frame.

Lemma keeps_free_hop f v : keeps (free_hop f v).
Proof. unfold free_hop. keep. Qed.
#[local] Hint Resolve keeps_free_hop : frame.

Lemma keeps_count_hop f : keeps (count_hop f).
Proof. unfold count_hop, count_sent. keep. Qed.
#[local] Hint Resolve keeps_count_hop : frame.

Lemma keeps_prepare f c n v m : keeps (prepare_hop getrandom clock checks f c n v m).
Proof. unfold prepare_hop. keep. Qed.
#[local] Hint Resolve keeps_prepare : frame.

Lemma keeps_go_on f r : keeps (go_on checks f r).
Proof. unfold go_on. keep. Qed.
#[local] Hint Resolve keeps_go_on : frame.

Lemma keeps_await f d t w i : keeps (await_reply clock checks f d t w i).
Proof. unfold await_reply, count_received. keep. Qed.
#[local] Hint Resolve keeps_await : frame.

Lemma keeps_on_send f c v : keeps (on_send getrandom clock checks me f c v).
Proof. unfold on_send. keep. Qed.
#[local] Hint Resolve keeps_on_send : frame.

Lemma keeps_on_receive f d t a b : keeps (on_receive clock checks me f d t a b).
Proof. unfold on_receive, count_received. keep. Qed.
#[local] Hint Resolve keeps_on_receive : frame.

Lemma keeps_on_ask f d c v t : keeps (on_ask getrandom clock checks me f d c v t).
Proof. unfold on_ask. keep. Qed.
#[local] Hint Resolve keeps_on_ask : frame.

Lemma keeps_on_spawn f i args d r : keeps (on_spawn getrandom clock checks debug f i args d r).
Proof. unfold on_spawn. keep. Qed.
#[local] Hint Resolve keeps_on_spawn : frame.

Lemma keeps_on_register f n : keeps (on_register_name getrandom checks f n).
Proof. unfold on_register_name. keep. Qed.
#[local] Hint Resolve keeps_on_register : frame.

Lemma keeps_on_whereis f d n : keeps (on_whereis getrandom checks f d n).
Proof. unfold on_whereis. keep. Qed.
#[local] Hint Resolve keeps_on_whereis : frame.

Lemma keeps_on_delegate f d c r n : keeps (on_delegate getrandom checks f d c r n).
Proof. unfold on_delegate. keep. Qed.
#[local] Hint Resolve keeps_on_delegate : frame.

Lemma keeps_on_result f r : keeps (on_result getrandom clock checks debug me f r).
Proof. unfold on_result, on_self_pid, on_monitor, on_demonitor, on_link, on_unlink. destruct r; keep. Qed.

End functions.
