(* ===== verification/WorkerTheory.v ===== *)
(** What a worker does with a flow: the loop over its quanta ends within the flow's CPU
    budget, and a hop refused by a full mailbox stays charged to its sender. *)

From S2P Require Import Prelude Capability Values Isa Sync Quota Native Vm VmSafety VmFrame.
From S2P Require Import VmTheory Process CapTable Lifecycle Mailbox Oneshot Shared SharedTheory.
From S2P Require Import Timer Finalize Authenticate Runtime Worker Frame Demo.
Import Shared.

(** ** CPU budgets change only by the charge of a quantum *)

Definition keeps_cpu {H} (w w' : world H) : Prop :=
  forall q, q ∈ dom (quotas w) -> q ∈ dom (quotas w') /\
    FlowQuota.cpu_budget (quotas w' !!! q) = FlowQuota.cpu_budget (quotas w !!! q).

(** Natives have no access to the quotas. *)
Class NativesKeepCpu {H} (natives : NativeTable.t H) : Prop :=
  natives_keep_cpu idx f args w :
    NativeTable.get natives idx = Some f -> keeps_cpu w (snd (f args w)).

#[export] Instance empty_keep_cpu {H} : NativesKeepCpu (@NativeTable.empty H).
Proof.
  intros idx f args w Hf. unfold NativeTable.get, NativeTable.empty in Hf.
  by rewrite get_eq in Hf.
Qed.

Section cpu.
Context {H : Type}.
Implicit Types (w : world H).

Lemma keeps_cpu_refl w : keeps_cpu w w.
Proof. done. Qed.

Lemma keeps_cpu_trans w1 w2 w3 : keeps_cpu w1 w2 -> keeps_cpu w2 w3 -> keeps_cpu w1 w3.
Proof.
  intros H1 H2 q Hq. destruct (H1 q Hq) as [Hq1 E1]. destruct (H2 q Hq1) as [Hq2 E2].
  split; [done|congruence].
Qed.

Lemma keeps_cpu_insert w q fq :
  FlowQuota.cpu_budget fq = FlowQuota.cpu_budget (quotas w !!! q) ->
  keeps_cpu w (with_quotas w (<[q := fq]> (quotas w))).
Proof.
  intros Hf q' Hq. simpl. split; [set_solver|]. destruct (decide (q' = q)) as [->|Hne].
  - by rewrite lookup_total_insert_eq.
  - by rewrite lookup_total_insert_ne.
Qed.

Lemma keeps_cpu_fresh w fq :
  keeps_cpu w (with_quotas w (<[fresh (dom (quotas w)) := fq]> (quotas w))).
Proof.
  intros q Hq. simpl. split; [set_solver|].
  rewrite lookup_total_insert_ne; [done|]. intros E. by apply (is_fresh (dom (quotas w))); rewrite E.
Qed.

Lemma alloc_keeps_cpu (fq : FlowQuota.t) n :
  FlowQuota.cpu_budget (snd (FlowQuota.alloc fq n)) = FlowQuota.cpu_budget fq.
Proof. unfold FlowQuota.alloc. by destruct (_ <? _). Qed.

Lemma quota_step_keeps_cpu checks fq fq' :
  quota_step checks fq fq' -> FlowQuota.cpu_budget fq' = FlowQuota.cpu_budget fq.
Proof.
  intros []; [done|apply alloc_keeps_cpu|done| |].
  - unfold FlowQuota.check_send. by destruct (TokenBucket.try_consume _ _ _ _).
  - unfold FlowQuota.check_spawn. by destruct (TokenBucket.try_consume _ _ _ _).
Qed.

(** The machine, between its quanta and in them. *)
Definition between (s s' : state H) : Prop :=
  keeps_cpu (Vm.wld s) (Vm.wld s') /\ Vm.natives (vm s') = Vm.natives (vm s) /\
  instructions_executed (vm s') = instructions_executed (vm s).

Lemma between_frame : vm_frame between.
Proof.
  split; unfold between.
  - done.
  - intros s1 s2 s3 (? & ? & ?) (? & ? & ?). split_and!; [by eapply keeps_cpu_trans|congruence..].
  - done.
  - done.
  - intros s q n. split_and!; [|done..]. apply keeps_cpu_insert, alloc_keeps_cpu.
Qed.

Lemma vm_step_keeps `{ValueLayout} checks A (m : Vm.R H A) s :
  vm_step checks A m -> between s (snd (m s)).
Proof.
  intros [d v| |q].
  - apply (framed_set_reg checks between between_frame).
  - apply (framed_fresh between between_frame).
  - unfold set_quota, r_bind.
    pose proof (framed_charge_slots between between_frame q
      (concat (map Frame.registers (rev (frames (vm s))))) s) as Hc.
    by destruct (charge_slots _ _ s) as [[[u|e]|] s1].
Qed.

Context (tbl : NativeTable.t H) `{!NativesKeepCpu tbl}.

Definition machine_keeps (s s' : state H) : Prop :=
  Vm.natives (vm s) = tbl -> Vm.natives (vm s') = tbl /\ keeps_cpu (Vm.wld s) (Vm.wld s').

Lemma machine_keeps_frame : vm_frame machine_keeps.
Proof.
  split; unfold machine_keeps.
  - done.
  - intros s1 s2 s3 H1 H2 Hn. destruct (H1 Hn) as [Hn1 K1]. destruct (H2 Hn1) as [Hn2 K2].
    split; [done|by eapply keeps_cpu_trans].
  - done.
  - done.
  - intros s q n Hn. split; [done|]. apply keeps_cpu_insert, alloc_keeps_cpu.
Qed.

Lemma machine_keeps_natives : native_frame machine_keeps.
Proof. intros s idx f args Hf Hn. split; [done|]. rewrite Hn in Hf. by eapply natives_keep_cpu. Qed.

Lemma step_keeps checks s : machine_keeps s (snd (step checks s)).
Proof.
  unfold step, m_bind at 1, count_instruction. destruct (checked_u _ _ _) as [n|]; [|done].
  exact (framed_rest checks machine_keeps machine_keeps_frame machine_keeps_natives
    (mk_state (with_executed (vm s) n) (Vm.wld s))).
Qed.

Lemma run_keeps checks n s : machine_keeps s (snd (run checks n s)).
Proof.
  revert s. induction n as [|n IH]; intros s; simpl; [done|].
  pose proof (step_keeps checks s) as Hs. destruct (step checks s) as [[[]|r|] s1]; try exact Hs.
  eapply (vf_trans _ machine_keeps_frame); [exact Hs|apply IH].
Qed.

End cpu.

(** ** The scheduler changes no CPU budget and no configuration between quanta *)

Section budget.
Context {H R : Type} `{ValueLayout, Allocator}.
Context (getrandom : R -> option (list byte) * R) (clock : R -> instant * R) (checks : bool).
Context (debug : list byte -> string) (me : nat).
Implicit Types (s : Shared.t H R) (f flow : Flow.t H).
#[local] Abbreviation W := (W (H := H) (R := R)).

Definition keeps_budgets s s' : Prop := keeps_cpu (wld s) (wld s') /\ config s' = config s.

Lemma budgets_frame : frame clock checks keeps_budgets.
Proof.
  split; unfold keeps_budgets; try done.
  - intros s1 s2 s3 [? ?] [? ?]. split; [by eapply keeps_cpu_trans|congruence].
  - intros s q fq Hq. split; [|done]. by eapply keeps_cpu_insert, quota_step_keeps_cpu.
  - intros s fq. split; [apply keeps_cpu_fresh|done].
  - intros s v A m Hm. split; [|done]. by apply (vm_step_keeps checks A m (mk_state v (wld s))).
Qed.

(** *** The flow a handler goes on with *)

(** The same quota, natives and instruction count. *)
Definition same_flow f f' : Prop :=
  Flow.fquota f' = Flow.fquota f /\ Vm.natives (Flow.fvm f') = Vm.natives (Flow.fvm f) /\
  instructions_executed (Flow.fvm f') = instructions_executed (Flow.fvm f).
Definition same_if f (o : option (Flow.t H)) : Prop :=
  match o with Some f' => same_flow f f' | None => True end.

#[local] Abbreviation yields := (yields (H := H) (R := R)).

Lemma same_flow_trans f1 f2 f3 : same_flow f1 f2 -> same_flow f2 f3 -> same_flow f1 f3.
Proof. intros (? & ? & ?) (? & ? & ?). split_and!; congruence. Qed.

Lemma yields_on_vm {A} f (m : Vm.R H A) :
  vm_step checks A m -> yields (fun x => same_flow f (snd x)) (on_vm f m).
Proof.
  intros Hm s a s'. unfold on_vm.
  pose proof (vm_step_keeps checks A m (mk_state (Flow.fvm f) (wld s)) Hm) as (_ & Hn & Hi).
  destruct (m _) as [[r|] st]; [|done]. by intros [= <- _].
Qed.

Lemma yields_resume f d v : yields (same_flow f) (resume checks f d v).
Proof.
  eapply yields_bind; [apply yields_on_vm; constructor|]. intros x Hx. by apply yields_ret.
Qed.

Lemma yields_answer f f1 d v :
  same_flow f f1 -> yields (same_if f) (answer checks f1 d v).
Proof.
  intros Hf. eapply yields_bind; [apply yields_resume|]. intros f2 H2.
  apply yields_ret. by eapply same_flow_trans.
Qed.

Lemma yields_stop f f1 msg : yields (same_if f) (fail_with checks f1 msg).
Proof. apply yields_any. intros b. by apply yields_ret. Qed.

Lemma yields_prepare f c n v m : yields (fun r =>
  match r with Ok (_, _, f') => same_flow f f' | Err _ => True end)
  (prepare_hop getrandom clock checks f c n v m).
Proof.
  unfold prepare_hop. apply yields_any. intros [t|e]; [|apply yields_any; intros; by apply yields_ret].
  apply yields_any. intros [[]|e]; [|apply yields_any; intros; by apply yields_ret].
  apply yields_any. intros [[]|e]; [|apply yields_any; intros; by apply yields_ret].
  eapply (yields_bind (fun x => same_flow f (snd x))).
  - unfold authenticate_outgoing_message. eapply (yields_bind (fun x => same_flow f (snd x))).
    + unfold assign_request_id. destruct (_ =? 0); [|by apply yields_ret].
      eapply yields_bind; [apply yields_on_vm, step_fresh|].
      intros [[rid|e] f'] Hf; by apply yields_ret.
    + intros [m' f'] Hf. apply yields_any. intros r. by apply yields_ret.
  - intros [[m'|e] f'] Hf; [by apply yields_ret|].
    apply yields_any. intros _. apply yields_any. intros _. by apply yields_ret.
Qed.

Lemma same_flow_refl f : same_flow f f.
Proof. done. Qed.

Ltac yielding := repeat match goal with
  | |- yields _ (fail_with _ _ _) => apply yields_stop
  | |- yields _ (answer _ _ _ _) => apply yields_answer; done
  | |- yields _ (ret _) => apply yields_ret; done
  | |- yields _ (match ?x with _ => _ end) => destruct x
  | |- yields _ (bind (prepare_hop _ _ _ _ _ _ _ _) _) => fail 1
  | |- yields _ (bind (resume _ _ _ _) _) => fail 1
  | |- yields _ (bind _ _) => apply yields_any; intros ?
  end.

Lemma yields_send f c v : yields (same_if f) (on_send getrandom clock checks me f c v).
Proof.
  unfold on_send. destruct (Value.as_message v) as [m|]; [|yielding].
  eapply yields_bind; [apply yields_prepare|]. intros [[[t m'] f']|e] Hf; yielding.
Qed.

Lemma yields_ask f d c v t : yields (same_if f) (on_ask getrandom clock checks me f d c v t).
Proof.
  unfold on_ask. destruct (Value.as_message v) as [m|]; [|yielding].
  eapply yields_bind; [apply yields_prepare|]. intros [[[x m'] f']|e] Hf; [|yielding].
  unfold await_reply. yielding.
Qed.

Lemma yields_receive f d t a b : yields (same_if f) (on_receive clock checks me f d t a b).
Proof.
  unfold on_receive. yielding.
  eapply yields_bind; [apply yields_resume|]. intros f' Hf. yielding.
Qed.

Lemma yields_result f r : yields (same_if f) (on_result getrandom clock checks debug me f r).
Proof.
  unfold on_result, on_self_pid, on_spawn, on_monitor, on_demonitor, on_link, on_unlink,
    on_register_name, on_whereis, on_delegate, answer_cap, go_on.
  destruct r; yielding; auto using yields_send, yields_ask, yields_receive.
Qed.

(** *** A quantum spends what it runs *)

Context (tbl : NativeTable.t H) `{!NativesKeepCpu tbl}.

Definition cpu_of f s : Z := FlowQuota.cpu_budget (quotas (wld s) !!! Flow.fquota f).

(** The flow has a quota, runs on [tbl], and its counters have their machine types. *)
Record budgeted f s : Prop := {
  b_quota : Flow.fquota f ∈ dom (quotas (wld s));
  b_natives : Vm.natives (Flow.fvm f) = tbl;
  b_count : 0 <= instructions_executed (Flow.fvm f);
  b_room : instructions_executed (Flow.fvm f) + Z.max (cpu_of f s) 0 <= u64_max;
  b_cpu : in_i 64 (cpu_of f s);
  b_quantum : in_u 32 (RuntimeConfig.quantum (config s)) }.

Lemma budgeted_keeps f f' s s' :
  budgeted f s -> same_flow f f' -> keeps_budgets s s' -> budgeted f' s' /\ cpu_of f' s' = cpu_of f s.
Proof.
  intros [B1 B2 B3 B4 B5 B6] (E1 & E2 & E3) [K C]. destruct (K _ B1) as [Hd Hc].
  assert (cpu_of f' s' = cpu_of f s) as E by (unfold cpu_of; by rewrite E1).
  split; [|done]. split; rewrite ?E1, ?E2, ?E3, ?E, ?C; done.
Qed.

Lemma charge_cpu_exact (fq : FlowQuota.t) n :
  in_i 64 (FlowQuota.cpu_budget fq) -> 0 <= n <= FlowQuota.cpu_budget fq ->
  fst (FlowQuota.charge_cpu checks fq n) = Some (Ok tt) /\
  FlowQuota.cpu_budget (snd (FlowQuota.charge_cpu checks fq n)) = FlowQuota.cpu_budget fq - n.
Proof.
  intros Hi Hn. unfold FlowQuota.charge_cpu.
  assert (in_i 64 (FlowQuota.cpu_budget fq - n)) as Hd by (unfold in_i in *; simpl in *; lia).
  rewrite checked_i_id by done. destruct (Z.ltb_spec (FlowQuota.cpu_budget fq - n) 0); [lia|].
  simpl. split; [done|]. apply wrap_i_id; [lia|done].
Qed.

(** What a slice of the machine does to the count and the world. *)
Lemma slice_spends f s n r f' s' :
  budgeted f s -> Z.of_nat n <= Z.max (cpu_of f s) 0 ->
  run_vm checks f (Z.of_nat n) s = (Some (r, f'), s') ->
  exists k, (k <= n)%nat /\
    instructions_executed (Flow.fvm f') = instructions_executed (Flow.fvm f) + Z.of_nat k /\
    Vm.natives (Flow.fvm f') = tbl /\ Flow.fquota f' = Flow.fquota f /\ keeps_budgets s s' /\
    (k = 0%nat -> r = Some VmResult.Yield).
Proof.
  intros [B1 B2 B3 B4 B5 B6] Hn. unfold run_vm. rewrite Nat2Z.id.
  set (st := mk_state (Flow.fvm f) (wld s)).
  pose proof (run_keeps tbl checks n st B2) as [Hk1 Hk2].
  destruct (run_iterations checks n st) as (k & Hk & Hi & Hsame & _); [done|simpl; lia|].
  destruct (run checks n st) as [r0 st'] eqn:E. intros [= <- <- <-]. exists k.
  simpl in *. split_and!; try done. intros ->. destruct n as [|n]; [by inversion E|].
  specialize (Hsame ltac:(lia) 0%nat). by injection Hsame.
Qed.

Lemma keeps_quota_read {B} q (g : FlowQuota.t -> B) s :
  keeps_budgets s (snd (on_quota q (fun fq => (g fq, fq)) s)).
Proof. split; [|done]. by apply keeps_cpu_insert. Qed.

(** The charge of [k] executed instructions. *)
Lemma charge_spends f s i k :
  Flow.fquota f ∈ dom (quotas (wld s)) -> in_i 64 (cpu_of f s) -> 0 <= i ->
  instructions_executed (Flow.fvm f) = i + k -> 0 <= k <= cpu_of f s -> i + k <= u64_max ->
  exists s', on_quota_opt (Flow.fquota f) (fun q => FlowQuota.charge_cpu checks q
      (wrap_i 64 (sat_sub_u64 (instructions_executed (Flow.fvm f)) i))) s = (Some (Ok tt), s') /\
    Flow.fquota f ∈ dom (quotas (wld s')) /\ cpu_of f s' = cpu_of f s - k /\ config s' = config s.
Proof.
  intros Hq Hi Hpos Hf Hk Hm. rewrite Hf.
  assert (wrap_i 64 (sat_sub_u64 (i + k) i) = k) as ->.
  { unfold sat_sub_u64. replace (Z.max 0 (i + k - i)) with k by lia.
    apply wrap_i_id; [lia|]. unfold in_i in *. simpl in *. lia. }
  destruct (charge_cpu_exact (quotas (wld s) !!! Flow.fquota f) k Hi Hk) as [E1 E2].
  unfold on_quota_opt, bind, on_quota.
  destruct (FlowQuota.charge_cpu checks (quotas (wld s) !!! Flow.fquota f) k) as [c fq].
  simpl in E1, E2. subst c. eexists. split; [reflexivity|]. simpl.
  split_and!; [set_solver| |done]. unfold cpu_of. simpl. by rewrite lookup_total_insert_eq.
Qed.

(** One quantum that asks for something spends at least one unit of the budget. *)
Lemma quantum_spends f s r f' s' :
  budgeted f s -> quantum_step checks f s = (Some (Ok r, f'), s') ->
  budgeted f' s' /\ (r = VmResult.Yield \/ Z.max (cpu_of f' s') 0 < Z.max (cpu_of f s) 0).
Proof.
  intros Hb. unfold quantum_step, bind at 1.
  pose proof (keeps_quota_read (Flow.fquota f) FlowQuota.remaining_cpu s) as K1.
  set (s1 := snd (on_quota (Flow.fquota f) (fun q => (FlowQuota.remaining_cpu q, q)) s)) in *.
  change (on_quota (Flow.fquota f) (fun q => (FlowQuota.remaining_cpu q, q)) s)
    with (Some (Z.max (cpu_of f s) 0), s1). cbv iota beta.
  destruct (budgeted_keeps f f s s1 Hb (same_flow_refl f) K1) as [Hb1 Ec1]. clearbody s1.
  destruct (Z.leb_spec (Z.max (cpu_of f s) 0) 0) as [|Hpos]; [done|].
  unfold bind at 1, gets. unfold bind at 1.
  set (n := Z.to_nat (Z.min (RuntimeConfig.quantum (config s1)) (Z.max (cpu_of f s) 0))).
  pose proof (b_quantum f s1 Hb1) as Hqu.
  assert (wrap_u 32 (Z.min (RuntimeConfig.quantum (config s1)) (Z.max (cpu_of f s) 0)) = Z.of_nat n)
    as -> by (unfold n; rewrite Z2Nat.id, wrap_u_id by (unfold in_u in *; lia); done).
  assert (Z.of_nat n <= Z.max (cpu_of f s1) 0) as Hn by (unfold in_u in *; lia).
  clearbody n. destruct (run_vm checks f (Z.of_nat n) s1) as [[[ran g]|] s2] eqn:Er; [|done].
  destruct (slice_spends f s1 n ran g s2 Hb1 Hn Er) as (k & Hk & Hi & Hnat & Hfq & [K2 C2] & Hy).
  destruct Hb1 as [B1 B2 B3 B4 B5 B6]. destruct (K2 _ B1) as [Hd Hc].
  assert (cpu_of g s2 = cpu_of f s1) as Eg by (unfold cpu_of; by rewrite Hfq, Hc).
  destruct (charge_spends g s2 (instructions_executed (Flow.fvm f)) (Z.of_nat k))
    as (s3 & E3 & Hd3 & Hc3 & C3);
    [by rewrite Hfq|by rewrite Eg|done|done|rewrite Eg; lia|lia|].
  unfold bind. cbv beta iota. rewrite E3. simpl. destruct ran as [r0|]; [|done]. intros [= -> <- <-].
  split.
  - split; change (cpu_of g _) with (cpu_of g s3); simpl; rewrite ?Hc3, ?Hfq, ?Eg, ?Hi, ?C3, ?C2;
      unfold in_i in *; try done; try lia. by rewrite <- Hfq.
  - destruct k as [|k]; [left; specialize (Hy eq_refl); congruence|right].
    change (cpu_of g _) with (cpu_of g s3). rewrite Hc3, Eg, <- Ec1. lia.
Qed.

(** One iteration that goes on with the flow spends at least one unit. *)
Lemma once_spends f s f' s' :
  budgeted f s -> drive_once getrandom clock checks debug me f s = (Some (Some f'), s') ->
  budgeted f' s' /\ Z.max (cpu_of f' s') 0 < Z.max (cpu_of f s) 0.
Proof.
  intros Hb. unfold drive_once, bind at 1, gets. destruct (shutdown s); [done|]. unfold bind.
  destruct (quantum_step checks f s) as [[[[r|msg] g]|] s1] eqn:Eq; [| |done].
  2:{ unfold fail_with, bind. by destruct (finish_failed checks g msg s1) as [[b|] s2]. }
  destruct (quantum_spends f s r g s1 Hb Eq) as [Hb1 Hr].
  pose proof (yields_result g r s1) as Hy.
  pose proof (keeps_on_result getrandom clock checks keeps_budgets budgets_frame debug me g r s1) as Hk.
  intros Eo. rewrite Eo in Hk. specialize (Hy _ _ Eo). simpl in Hy, Hk.
  destruct (budgeted_keeps g f' s1 s' Hb1 Hy Hk) as [Hb2 Ec2]. split; [done|].
  rewrite Ec2. by destruct Hr as [->|Hr].
Qed.

(** C15: A flow cannot hold a worker for ever: with its natives out of reach of the quotas,
    the loop that drives a flow, whatever its VM asks for, ends after at most as many quanta
    as its CPU budget has units left, plus one (or the worker's thread panics). *)
Theorem drive_terminates fuel f s :
  budgeted f s -> (Z.to_nat (cpu_of f s) < fuel)%nat ->
  fst (drive_loop getrandom clock checks debug me fuel f s) <> Some false.
Proof.
  revert f s. induction fuel as [|fuel IH]; intros f s Hb Hf; [lia|]. simpl. unfold bind.
  destruct (drive_once getrandom clock checks debug me f s) as [[[g|]|] s1] eqn:E; [|done..].
  destruct (once_spends f s g s1 Hb E) as [Hb1 Hc]. apply IH; [done|lia].
Qed.

End budget.

(** A flow of the demo with a budget of 50 instructions. *)
Definition frugal : RuntimeConfig.t :=
  RuntimeConfig.mk 7 MailboxConfig.DEFAULT 0 (QuotaConfig.mk 50 1000 10 10 10 10).

Lemma drive_terminates_witness :
  match injector (Demo.state (Demo.spawn 0 []) frugal) with
  | f :: _ =>
    fst (drive_loop Demo.random Demo.clock true Demo.debug 0 51 f
           (Demo.state (Demo.spawn 0 []) frugal)) <> Some false
  | [] => False
  end.
Proof.
  destruct (injector (Demo.state (Demo.spawn 0 []) frugal)) as [|f l] eqn:E;
    [exfalso; by vm_compute in E|].
  apply (drive_terminates Demo.random Demo.clock true Demo.debug 0 NativeTable.empty);
    vm_compute in E; injection E as <- <-.
  - split; [by apply (bool_decide_unpack _); vm_compute|by vm_compute..].
  - apply Nat.ltb_lt. by vm_compute.
Defined.

(** ** The charge of a hop *)

(** [crowded], with the sender first in line. *)
Definition posting (turns : Demo.W bool) : Shared.t unit Z :=
  snd ((let* _ := modify (fun s => s <| injector ::= fun l => rev l |>) in turns) Demo.crowded).

(** A hop refused by a full mailbox stays charged to its sender: of the two hops flow 2
    sends, the one delivered at once is refunded; the one that waits for room is delivered
    and received later, the sender runs on to its end, and its quota still carries it. *)
Lemma hop_charge_leaks :
  let sender := Flow.fquota <$> (injector Demo.crowded !! 1%nat) in
  let used s := match sender with
                | Some q => FlowQuota.mem_used (quotas (wld s) !!! q)
                | None => 0
                end in
  let last := posting (let* _ := Demo.turn in let* _ := Demo.turn in Demo.turn) in
  used Demo.crowded = 0 /\ used last = Value.memory_size Demo.letter /\
  population last = [] /\ faults last = [].
Proof. by vm_compute. Qed.
