(* ===== verification/Conserve.v ===== *)
(** No flow is lost or doubled by the scheduler: rules for functions that may also make
    new flows or park one, and spawning. *)

From S2P Require Import Prelude Capability Values Isa Sync Quota Native Vm VmFrame Process CapTable.
From S2P Require Import Lifecycle Mailbox Oneshot Shared SharedTheory Timer Finalize.
From S2P Require Import FinalizeTheory Authenticate Runtime Worker.
Import Shared.

Section conserve.
Context {H R : Type} `{ValueLayout, Allocator} (workers : nat).
Implicit Types (s : Shared.t H R) (f : Flow.t H) (fs ins : list (Flow.t H)).
#[local] Abbreviation W := (W (H := H) (R := R)).
#[local] Abbreviation good := (good (H := H) (R := R) workers).
#[local] Abbreviation triple := (triple (H := H) (R := R) workers).

(** Every flow, held or in the state, has a mailbox of its own, which exists. *)
Record apart (l : list (Z * N * N)) s : Prop := {
  apart_nodup : NoDup (map snd (l ++ population s));
  apart_known : Forall (fun k => snd k ∈ dom (mailboxes s)) (l ++ population s) }.

(** From [s] holding [ins] to [s'] holding [outs]: those who left were answered, those who
    came have fresh mailboxes, and everybody else is still there. *)
Definition travels ins (outs : list (Flow.t H)) s s' : Prop :=
  (exists gone born, Forall (answered s') gone /\
    keys ins ++ population s ++ born ≡ₚ keys outs ++ keys gone ++ population s' /\
    NoDup (map snd born) /\
    Forall (fun k => snd k ∉ dom (mailboxes s) /\ snd k ∈ dom (mailboxes s')) born) /\
  (forall f, answered s f -> answered s' f) /\
  dom (mailboxes s) ⊆ dom (mailboxes s').

Definition safe {A} ins (m : W A) (outs : A -> list (Flow.t H)) : Prop :=
  forall s, good s -> apart (keys ins) s -> Forall running ins ->
  forall a s', m s = (Some a, s') ->
  good s' /\ Forall running (outs a) /\ travels ins (outs a) s s'.

(** *** Rules *)

Lemma disjoint_boxes (l b : list (Z * N * N)) (D : gset N) :
  Forall (fun k => snd k ∈ D) l -> Forall (fun k => snd k ∉ D) b ->
  forall x, x ∈ map snd l -> x ∉ map snd b.
Proof.
  intros Hl Hb x Hx1 Hx2. apply list_elem_of_In, in_map_iff in Hx1 as (k1 & <- & Hk1).
  apply list_elem_of_In, in_map_iff in Hx2 as (k2 & Ek & Hk2).
  apply list_elem_of_In in Hk1, Hk2. rewrite Forall_forall in Hl, Hb.
  specialize (Hl _ Hk1). specialize (Hb _ Hk2). congruence.
Qed.

Lemma moves_travels b ins outs s s' : moves b ins outs s s' -> travels ins outs s s'.
Proof.
  intros [(gone & Hg & Hp) K B _]. split_and!; [|done|done].
  exists gone, []. rewrite app_nil_r. split_and!; [done|done|constructor|done].
Qed.

Lemma travels_refl ins s : travels ins ins s s.
Proof. by apply (moves_travels false), moves_refl. Qed.

Lemma travels_trans l1 l2 l3 s1 s2 s3 :
  travels l1 l2 s1 s2 -> travels l2 l3 s2 s3 -> travels l1 l3 s1 s3.
Proof.
  intros ((g1 & b1 & A1 & E1 & N1 & F1) & K1 & D1) ((g2 & b2 & A2 & E2 & N2 & F2) & K2 & D2).
  split_and!; [|auto|by etransitivity]. exists (g1 ++ g2), (b1 ++ b2). split_and!.
  - apply Forall_app. split; [|done]. eapply Forall_impl; [exact A1|]. auto.
  - unfold keys in *. rewrite map_app.
    transitivity ((map key l1 ++ population s1 ++ b1) ++ b2); [solve_Permutation|].
    rewrite E1. transitivity (map key g1 ++ (map key l2 ++ population s2 ++ b2)); [solve_Permutation|].
    rewrite E2. solve_Permutation.
  - rewrite map_app. apply NoDup_app. split_and!; [done| |done].
    apply (disjoint_boxes _ _ (dom (mailboxes s2))).
    + eapply Forall_impl; [exact F1|]. by intros k [].
    + eapply Forall_impl; [exact F2|]. by intros k [].
  - apply Forall_app. split.
    + eapply Forall_impl; [exact F1|]. intros k [? ?]. split; [done|set_solver].
    + eapply Forall_impl; [exact F2|]. intros k [? ?]. split; [set_solver|done].
Qed.

Lemma travels_perm ins ins' outs outs' s s' :
  ins ≡ₚ ins' -> outs ≡ₚ outs' -> travels ins' outs' s s' -> travels ins outs s s'.
Proof.
  intros Ei Eo ((g & b & A & E & N & F) & K & D). split_and!; [|done|done].
  exists g, b. split_and!; try done. unfold keys in *. by rewrite Ei, Eo.
Qed.

Lemma travels_frame fs ins outs s s' :
  travels ins outs s s' -> travels (fs ++ ins) (fs ++ outs) s s'.
Proof.
  intros ((g & b & A & E & N & F) & K & D). split_and!; [|done|done].
  exists g, b. split_and!; try done. unfold keys in *. rewrite !map_app, <- !app_assoc. by rewrite E.
Qed.

Lemma travels_apart ins outs s s' :
  apart (keys ins) s -> travels ins outs s s' -> apart (keys outs) s'.
Proof.
  intros [Hn Hk] ((g & b & A & E & N & F) & K & D).
  assert (Forall (fun k => snd k ∈ dom (mailboxes s')) (keys ins ++ population s ++ b)) as Hk'.
  { rewrite app_assoc. apply Forall_app. split.
    - eapply Forall_impl; [exact Hk|]. simpl. set_solver.
    - eapply Forall_impl; [exact F|]. by intros k []. }
  assert (NoDup (map snd (keys ins ++ population s ++ b))) as Hn'.
  { rewrite app_assoc, map_app. apply NoDup_app. split_and!; [done| |done].
    apply (disjoint_boxes _ _ (dom (mailboxes s))); [exact Hk|].
    eapply Forall_impl; [exact F|]. by intros k []. }
  rewrite E in Hk', Hn'. split.
  - rewrite !map_app in *. apply NoDup_app in Hn' as (N1 & N2 & N3).
    apply NoDup_app in N3 as (_ & _ & N3). apply NoDup_app. split_and!; [done| |done].
    intros x Hx Hx2. apply (N2 x Hx), elem_of_app. by right.
  - rewrite !Forall_app in *. tauto.
Qed.

Lemma apart_sub l k s : apart (l ++ k) s -> apart k s.
Proof.
  intros [Hn Hk]. split.
  - rewrite <- app_assoc, map_app in Hn. by apply NoDup_app in Hn as (_ & _ & ?).
  - rewrite <- app_assoc in Hk. by apply Forall_app in Hk as [_ ?].
Qed.

Lemma apart_perm l l' s : l ≡ₚ l' -> apart l s -> apart l' s.
Proof. intros E [Hn Hk]. split; by rewrite <- E. Qed.

Lemma safe_triple b {A} ins (m : W A) outs : triple b ins m outs -> safe ins m outs.
Proof.
  intros Hm s Hs _ Hr a s' E. destruct (Hm s Hs Hr) as (a1 & s1 & E1 & ? & ? & M).
  rewrite E1 in E. injection E as -> ->. split_and!; [done..|by eapply moves_travels].
Qed.

Lemma safe_give {A} (a : A) ins outs : outs a = ins -> safe ins (ret a) outs.
Proof.
  intros <- s Hs Ha Hr b s' [= <- <-]. split_and!; [done..|apply travels_refl].
Qed.

Lemma safe_panic {A} ins (outs : A -> _) : safe ins panic outs.
Proof. by intros s Hs Ha Hr a s'. Qed.

Lemma safe_bind {A B} ins (m : W A) mid (k : A -> W B) outs :
  safe ins m mid -> (forall a, safe (mid a) (k a) outs) -> safe ins (bind m k) outs.
Proof.
  intros Hm Hk s Hs Ha Hr b s' E. unfold bind in E. destruct (m s) as [[a|] s1] eqn:E1; [|done].
  destruct (Hm s Hs Ha Hr a s1 E1) as (Hs1 & Hr1 & T1).
  destruct (Hk a s1 Hs1 (travels_apart _ _ _ _ Ha T1) Hr1 b s' E) as (Hs2 & Hr2 & T2).
  split_and!; [done..|by eapply travels_trans].
Qed.

Lemma safe_frame {A} fs ins (m : W A) outs :
  safe ins m outs -> safe (fs ++ ins) m (fun a => fs ++ outs a).
Proof.
  intros Hm s Hs Ha Hr a s' E. apply Forall_app in Hr as [Hf Hr].
  assert (apart (keys ins) s) as Ha'.
  { eapply (apart_sub (keys fs)). unfold keys in *. by rewrite <- map_app. }
  destruct (Hm s Hs Ha' Hr a s' E) as (Hs1 & Hr1 & T1).
  split_and!; [done|by apply Forall_app|by apply travels_frame].
Qed.

Lemma safe_perm {A} ins ins' (m : W A) outs outs' :
  ins ≡ₚ ins' -> (forall a, outs a ≡ₚ outs' a) -> safe ins' m outs' -> safe ins m outs.
Proof.
  intros Ei Eo Hm s Hs Ha Hr a s' E.
  assert (apart (keys ins') s) as Ha'.
  { eapply apart_perm; [|exact Ha]. unfold keys. by rewrite Ei. }
  rewrite Ei in Hr. destruct (Hm s Hs Ha' Hr a s' E) as (? & Hr1 & T).
  split_and!; [done|by rewrite Eo|eapply travels_perm; [exact Ei|apply Eo|exact T]].
Qed.

(** The function takes and gives nothing, but may make flows and end those it finds. *)
Definition calm {A} (m : W A) : Prop := safe [] m (fun _ => []).

Lemma safe_calm {A} ins (m : W A) : calm m -> safe ins m (fun _ => ins).
Proof.
  intros Hm. apply (safe_perm ins (ins ++ []) m _ (fun _ => ins ++ []));
    [by rewrite app_nil_r|intros; by rewrite app_nil_r|]. by apply safe_frame.
Qed.

Lemma safe_after {A B} ins (m : W A) (k : A -> W B) outs :
  calm m -> (forall a, safe ins (k a) outs) -> safe ins (bind m k) outs.
Proof. intros Hm Hk. eapply safe_bind; [by apply safe_calm|done]. Qed.

Lemma safe_consume {A B} f ins (m : W A) (k : A -> W B) outs :
  safe [f] m (fun _ => []) -> (forall a, safe ins (k a) outs) ->
  safe (f :: ins) (bind m k) outs.
Proof.
  intros Hm Hk. eapply safe_bind; [|exact Hk].
  eapply (safe_perm _ (ins ++ [f]) _ _ (fun _ => ins ++ []));
    [by rewrite Permutation_app_comm|intros; by rewrite app_nil_r|by apply safe_frame].
Qed.

Lemma safe_produce {A B} ins (m : W A) mid (k : A -> W B) outs :
  safe [] m mid -> (forall a, safe (mid a ++ ins) (k a) outs) -> safe ins (bind m k) outs.
Proof.
  intros Hm Hk. eapply safe_bind; [|exact Hk].
  eapply (safe_perm _ (ins ++ []) _ _ (fun a => ins ++ mid a));
    [by rewrite app_nil_r|intros; apply Permutation_app_comm|by apply safe_frame].
Qed.

Lemma calm_quiet {A} (m : W A) : quiet workers m -> calm m.
Proof. intros Hm. eapply safe_triple, (Hm false). Qed.

Lemma calm_bind {A B} (m : W A) (k : A -> W B) : calm m -> (forall a, calm (k a)) -> calm (bind m k).
Proof. intros Hm Hk. by apply safe_after. Qed.

(** *** Parking *)

(** A flow in a worker's hands is not parked anywhere: its own mailbox is free. *)
Lemma own_mailbox_free s f :
  good s -> apart (keys [f]) s ->
  MailboxInner.parked (guarded (Mailbox.inner (mailbox_at s (Flow.mailbox f)))) = None.
Proof.
  intros Hs [Hn _]. destruct (MailboxInner.parked _) as [g|] eqn:E; [exfalso|done].
  unfold mailbox_at in E. destruct (mailboxes s !! Flow.mailbox f) as [mb|] eqn:Em; [|done].
  simpl in E, Hn. pose proof (good_home workers s Hs _ _ _ Em E) as Eg.
  apply NoDup_cons in Hn as [Hn _]. apply Hn. rewrite <- Eg.
  apply list_elem_of_In, (in_map snd _ (key g)). unfold population.
  rewrite !in_app_iff. do 3 right. unfold keys. apply in_map.
  unfold held_flows. apply in_concat. exists (mailbox_flows (guarded (Mailbox.inner mb))). split.
  - apply (in_map (fun x => mailbox_flows (guarded (Mailbox.inner (snd x)))) _ (Flow.mailbox f, mb)).
    by apply list_elem_of_In, elem_of_map_to_list.
  - unfold mailbox_flows. rewrite E. by left.
Qed.

(** What is left of [f] after an attempt to park it. *)
Definition unparked f (r : result (result WaitEpoch (Flow.t H)) RuntimeError) : list (Flow.t H) :=
  match r with Ok (Ok _) => [] | Ok (Err g) => [g] | Err _ => [f] end.

Lemma safe_park f filter :
  safe [f] (on_mailbox (Flow.mailbox f) (fun mb => Mailbox.park_filter mb f filter)) (unparked f).
Proof.
  intros s Hs Ha Hr a s' E. pose proof (own_mailbox_free s f Hs Ha) as Hfree.
  edestruct (moves_on_mailbox workers false [f] (Flow.mailbox f)
    (fun mb => Mailbox.park_filter mb f filter) (unparked f) s) as (a1 & s1 & E1 & Hs1 & Hr1 & M);
    [| |exact Hs|exact Hr|].
  - unfold Mailbox.park_filter, Mailbox.locked, with_lock, lock, mailbox_flows.
    destruct (poisoned _); [apply reshuffle_refl|]. simpl. unfold Mailbox.park_locked.
    destruct (MailboxQueue.take _ _) as [[v|] q]; simpl; rewrite Hfree; simpl.
    + split; [done|]. intros Hf. by inversion Hf; constructor.
    + apply reshuffle_refl.
  - unfold Mailbox.park_filter, Mailbox.locked, with_lock, lock.
    destruct (poisoned _); [by left|]. simpl. unfold Mailbox.park_locked.
    destruct (MailboxQueue.take _ _) as [[v|] q]; intros g Hg; simpl in *; [by left|right].
    by injection Hg as <-.
  - rewrite E1 in E. injection E as -> ->. split_and!; [done..|by eapply moves_travels].
Qed.

Definition unsent (p : ParkSender H) : list (Flow.t H) :=
  match p with Parked => [] | Closed g => [g] end.

Lemma safe_park_sender m f v : safe [f] (park_sender_at m f v) unsent.
Proof.
  unfold park_sender_at. apply safe_after; [apply calm_quiet; quiet|]. intros poison.
  apply safe_after; [apply calm_quiet; destruct poison; quiet|]. intros _.
  apply (safe_triple false), triple_on_mailbox; intros mb;
    unfold Mailbox.park_sender, Mailbox.locked, with_lock, lock;
    (destruct (poisoned _); [apply reshuffle_refl || by left|]); simpl;
    unfold Mailbox.park_sender_locked.
  - destruct (MailboxInner.closed _); [apply reshuffle_refl|]. apply reshuffle_perm. simpl.
    unfold mailbox_flows. simpl. rewrite map_app. simpl. solve_Permutation.
  - destruct (MailboxInner.closed _); by left.
Qed.

Lemma enqueue_locked_waiting p v (i : MailboxInner.t H) :
  MailboxInner.waiting_senders (snd (Mailbox.enqueue_locked p v i)) = MailboxInner.waiting_senders i.
Proof. unfold Mailbox.enqueue_locked. by destruct (MailboxQueue.enqueue _ _ _) as [[[]|[]] q]. Qed.

Lemma safe_admit m :
  safe [] (on_mailbox m Mailbox.admit_waiting_sender) (ok_or [] option_list).
Proof.
  apply (safe_triple false), (triple_locked workers false [] m _ Mailbox.admit_locked option_list);
    intros i; unfold Mailbox.admit_locked.
  - apply reshuffle_perm. destruct (MailboxInner.closed i); [done|].
    destruct (MailboxInner.waiting_senders i) as [|w rest] eqn:Ew; [done|].
    pose proof (enqueue_locked_waiting Reject (wmessage w) (MailboxInner.with_waiting i rest)) as E1.
    pose proof (enqueue_keeps_parked Reject (wmessage w) (MailboxInner.with_waiting i rest)) as E2.
    destruct (Mailbox.enqueue_locked _ _ _) as [[d|e] j]; simpl in *; unfold mailbox_flows; simpl;
      rewrite E1, E2, Ew; simpl; [by rewrite Permutation_middle|done].
  - apply parks_none. left. destruct (MailboxInner.closed i); [done|].
    destruct (MailboxInner.waiting_senders i) as [|w rest]; [done|].
    pose proof (enqueue_keeps_parked Reject (wmessage w) (MailboxInner.with_waiting i rest)) as E2.
    by destruct (Mailbox.enqueue_locked _ _ _) as [[d|e] j].
Qed.

(** A bind that uses what the first function answers. *)
Lemma safe_bind_val {A B} (Q : A -> Prop) ins (m : W A) mid (k : A -> W B) outs :
  yields Q m -> safe ins m mid -> (forall a, Q a -> safe (mid a) (k a) outs) ->
  safe ins (bind m k) outs.
Proof.
  intros Hq Hm Hk s Hs Ha Hr b s' E. unfold bind in E.
  destruct (m s) as [[a|] s1] eqn:E1; [|done].
  destruct (Hm s Hs Ha Hr a s1 E1) as (Hs1 & Hr1 & T1).
  destruct (Hk a (Hq _ _ _ E1) s1 Hs1 (travels_apart _ _ _ _ Ha T1) Hr1 b s' E) as (? & ? & T2).
  split_and!; [done..|by eapply travels_trans].
Qed.

(** *** Taking work *)

Lemma travels_out f s s' :
  population s ≡ₚ key f :: population s' -> mailboxes s' = mailboxes s ->
  completions s' = completions s -> travels [] [f] s s'.
Proof.
  intros Ep Em Ec. split_and!.
  - exists [], []. rewrite app_nil_r. split_and!; [done|done|constructor|done].
  - unfold answered, slot_at. by rewrite Ec.
  - by rewrite Em.
Qed.

Lemma travels_in f s s' :
  key f :: population s ≡ₚ population s' -> mailboxes s' = mailboxes s ->
  completions s' = completions s -> travels [f] [] s s'.
Proof.
  intros Ep Em Ec. split_and!.
  - exists [], []. rewrite app_nil_r. split_and!; [done|done|constructor|done].
  - unfold answered, slot_at. by rewrite Ec.
  - by rewrite Em.
Qed.

Lemma safe_pop_injector : safe [] pop_injector option_list.
Proof.
  intros s Hs Ha Hr a s' E. unfold pop_injector in E.
  destruct (injector s) as [|f rest] eqn:Ei; injection E as <- <-;
    [split_and!; [done|done|apply travels_refl]|].
  destruct Hs as [D1 D2 D3 D4 D5]. unfold free in D4. rewrite Ei in D4.
  inversion D4 as [|? ? Hf D4']; subst. split_and!; [by split|by apply Forall_singleton|].
  apply travels_out; [|done..]. unfold population. rewrite Ei. done.
Qed.

Lemma concat_pop (ds : list (list (Flow.t H))) w f rest :
  ds !! w = Some (f :: rest) -> concat ds ≡ₚ f :: concat (<[w := rest]> ds).
Proof.
  revert w. induction ds as [|d ds IH]; intros [|w] E; simpl in *; simplify_eq; [done|].
  change (d ++ concat ds ≡ₚ f :: d ++ concat (<[w := rest]> ds)).
  rewrite (IH _ E). by rewrite Permutation_middle.
Qed.

Lemma safe_pop_deque w : safe [] (pop_deque w) option_list.
Proof.
  intros s Hs Ha Hr a s' E. unfold pop_deque in E.
  destruct (deques s !! w) as [[|f rest]|] eqn:Ed; injection E as <- <-;
    [split_and!; [done|done|apply travels_refl]| |split_and!; [done|done|apply travels_refl]].
  pose proof (concat_pop _ _ _ _ Ed) as Ec. destruct Hs as [D1 D2 D3 D4 D5].
  unfold free in D4. rewrite Ec in D4. rewrite !Forall_app, Forall_cons in D4.
  split_and!; [split; try done|apply Forall_singleton; tauto|].
  - simpl. by rewrite length_insert.
  - unfold free. simpl. rewrite !Forall_app. tauto.
  - apply travels_out; [|done..]. unfold population. simpl.
    assert (keys (concat (deques s)) ≡ₚ key f :: keys (concat (<[w:=rest]> (deques s)))) as ->
      by (unfold keys; by rewrite Ec).
    solve_Permutation.
Qed.

(** *** The timer's heap *)

Definition entry_flows (e : TimerEntry H) : list (Flow.t H) :=
  match tpayload e with WakeSleeper f => [f] | WakeReceiver _ _ _ _ => [] end.

Definition heap_flows (l : list (TimerEntry H)) : list (Flow.t H) :=
  omap (fun e => match tpayload e with WakeSleeper f => Some f | _ => None end) l.

Lemma heap_flows_cons e l : heap_flows (e :: l) = entry_flows e ++ heap_flows l.
Proof. unfold heap_flows, entry_flows. simpl. by destruct (tpayload e). Qed.

Lemma safe_drop_entry e : safe (entry_flows e) (drop_entry e) (fun _ => []).
Proof.
  unfold drop_entry, entry_flows. destruct (tpayload e) as [f|].
  - eapply (safe_triple false), triple_drop.
  - by apply safe_give.
Qed.

(** Changing the heap: the sleepers gained are taken in, those lost are given out. *)
Lemma set_heap_travels l l' ins outs s :
  good s -> sleepers s = heap_flows l ->
  ins ++ heap_flows l ≡ₚ outs ++ heap_flows l' -> Forall running ins ->
  good (set_heap (unlock l') s) /\ Forall running outs /\
  travels ins outs s (set_heap (unlock l') s).
Proof.
  intros [D1 D2 D3 D4 D5] Hl Hp Hr. unfold free in D4. rewrite Hl in D4.
  rewrite !Forall_app in D4. destruct D4 as (F1 & F2 & F3).
  assert (Forall running (outs ++ heap_flows l')) as Hall by (rewrite <- Hp; by apply Forall_app).
  apply Forall_app in Hall as [Ho Hl']. split_and!; [|done|].
  - split; try done. unfold free. change (sleepers (set_heap (unlock l') s)) with (heap_flows l').
    rewrite !Forall_app. tauto.
  - split_and!; [|done|done]. exists [], []. rewrite app_nil_r.
    split_and!; [done| |constructor|done]. unfold population.
    change (sleepers (set_heap (unlock l') s)) with (heap_flows l'). rewrite Hl.
    apply (Permutation_map key) in Hp. rewrite !map_app in Hp. simpl. unfold keys in *.
    change (held_flows (set_heap (unlock l') s)) with (held_flows s).
    transitivity (map key (injector s) ++ map key (concat (deques s)) ++
      (map key ins ++ map key (heap_flows l)) ++ map key (held_flows s)); [solve_Permutation|].
    rewrite Hp. solve_Permutation.
Qed.

Lemma lock_heap s w l : lock (heap (timer s)) w = Ok l -> sleepers s = heap_flows l.
Proof. unfold lock, sleepers. destruct (poisoned _); [done|]. by intros [= <-]. Qed.

Lemma safe_timer_push e : safe (entry_flows e) (Timer.push e) (fun _ => []).
Proof.
  intros s Hs Ha Hr a s' E. unfold Timer.push, bind at 1, gets in E.
  destruct (lock _ _) as [l|x] eqn:El.
  - apply lock_heap in El. injection E as <- <-. apply set_heap_travels with l; [done..| |done].
    unfold heap_flows at 2. rewrite omap_app. fold (heap_flows l). fold (heap_flows [e]).
    rewrite heap_flows_cons. simpl. rewrite app_nil_r. apply Permutation_app_comm.
  - revert E. apply (safe_after (entry_flows e) (report_fault x) (fun _ => drop_entry e) (fun _ => []));
      [apply calm_quiet; quiet|intros _; apply safe_drop_entry|done..].
Qed.

End conserve.

Create HintDb calm.
#[export] Hint Resolve safe_panic calm_quiet : calm.

(** Runs of calm functions. *)
Ltac calm := repeat match goal with
  | |- safe ?w [] ?m (fun _ => []) => change (calm w m)
  | |- calm _ (panic) => apply safe_panic
  | |- calm _ (bind _ _) => apply calm_bind; [|intros ?]
  | |- calm _ (match ?x with _ => _ end) => destruct x
  | |- calm _ _ => first [ solve [eauto 3 with calm] | solve [apply calm_quiet; quiet] ]
  end.

Section spawn.
Context {H R : Type} `{ValueLayout, Allocator} (workers : nat).
Context (getrandom : R -> option (list byte) * R) (clock : R -> instant * R) (checks : bool).
Implicit Types (s : Shared.t H R) (f : Flow.t H).
#[local] Abbreviation W := (W (H := H) (R := R)).
#[local] Abbreviation good := (good (H := H) (R := R) workers).
#[local] Abbreviation calm := (calm (H := H) (R := R) workers).
#[local] Abbreviation safe := (safe (H := H) (R := R) workers).
#[local] Abbreviation quiet := (quiet (H := H) (R := R) workers).
#[local] Abbreviation yields := (yields (H := H) (R := R)).

Lemma calm_on_quota_opt {B} q (g : FlowQuota.t -> option B * FlowQuota.t) : calm (on_quota_opt q g).
Proof. unfold on_quota_opt. calm. Qed.
#[local] Hint Resolve calm_on_quota_opt : calm.

Lemma calm_try {A B E} (m : W (result A E)) (k : A -> W (result B E)) :
  calm m -> (forall a, calm (k a)) -> calm (try_ m k).
Proof. intros Hm Hk. unfold try_. calm. Qed.

Lemma quiet_reissue a b v : quiet (reissue_caps_in_value getrandom a b v).
Proof.
  induction v using value_induction; simpl; try apply quiet_ret.
  - unfold try_ at 1. apply quiet_bind; [done|]. intros [x|e]; quiet.
  - destruct (CapId.is_none _); [quiet|]. unfold try_. quiet.
Qed.

Lemma quiet_reissue_host b v : quiet (reissue_caps_from_host getrandom b v).
Proof.
  induction v using value_induction; simpl; try apply quiet_ret.
  - unfold try_ at 1. apply quiet_bind; [done|]. intros [x|e]; quiet.
  - destruct (CapId.is_none _); [quiet|]. unfold try_. quiet.
Qed.

Lemma quiet_grant_args p c args : quiet (grant_caps_in_args getrandom p c args).
Proof.
  induction args as [|x args IH]; simpl; [apply quiet_ret|].
  apply quiet_bind; [destruct x; quiet|]. intros [v|e]; [|quiet].
  apply quiet_bind; [done|]. intros [l|e]; quiet.
Qed.

Lemma quiet_state {A} (m : W A) :
  (forall s, exists a, fst (m s) = Some a /\ same_places s (snd (m s))) -> quiet m.
Proof. intros Hm. apply quiet_same. auto. Qed.

Lemma quiet_directory_len : quiet directory_len.
Proof.
  intros b s Hs Hr. unfold directory_len. destruct (existsb _ _).
  - apply (quiet_bind workers); [apply quiet_report|intros _; apply quiet_ret|done|done].
  - apply (quiet_ret workers (Directory.len (directory s)) b s Hs Hr).
Qed.

Lemma quiet_take_flow_id : quiet take_flow_id.
Proof. apply quiet_state. intros s. by eexists. Qed.

Lemma quiet_new_flow_metrics : quiet new_flow_metrics.
Proof. apply quiet_state. intros s. by eexists. Qed.

Lemma quiet_new_quota : quiet (new_quota clock).
Proof. unfold new_quota. apply quiet_bind; [quiet|]. intros t. apply quiet_state. intros s. by eexists. Qed.

Lemma calm_authority id c n b : calm (child_authority clock checks id c n b).
Proof. unfold child_authority, on_cells. calm. Qed.

(** The child's VM starts with a frame. *)
Definition vm_alive (r : result (Vm H * N) SpawnError) : Prop :=
  match r with Ok (v, _) => frames v <> [] | Err _ => True end.

Lemma new_vm_alive ch (nat : NativeTable.t H) g fn args v :
  with_native_gate ch nat g fn args = Ok v -> frames v <> [].
Proof.
  unfold with_native_gate. destruct (Chunk.function ch fn) as [d|]; [|done].
  destruct (load_args _ _ _ _ _); [|done]. by intros [= <-].
Qed.

Lemma good_same s s' : good s -> same_places s s' -> good s'.
Proof.
  intros [D1 D2 D3 DF D4] [E1 E2 E3 E4 _ E6]. split; [by rewrite E6|by rewrite E2| | |by rewrite E4].
  - unfold held_flows. by rewrite E4.
  - unfold free, sleepers. by rewrite E1, E2, E3.
Qed.

Lemma calm_same {A} (m : W A) : (forall s, same_places s (snd (m s))) -> calm m.
Proof.
  intros Hm s Hs _ _ a s' E. specialize (Hm s). rewrite E in Hm. split_and!.
  - by eapply good_same.
  - done.
  - eapply (moves_travels false), same_places_moves, Hm.
Qed.

Lemma calm_child_vm ch n a c i args : calm (child_vm clock ch n a c i args).
Proof.
  unfold child_vm. apply calm_bind; [apply calm_quiet; quiet|]. intros g.
  apply calm_bind; [apply calm_quiet, quiet_new_quota|]. intros q.
  destruct (with_native_gate _ _ _ _ _) as [v|e]; [|apply calm_quiet; quiet].
  apply calm_same. intros s. destruct (set_quota q _) as [[[u|e]|] st]; by split.
Qed.

Lemma yields_child_vm ch n a c i args : yields vm_alive (child_vm clock ch n a c i args).
Proof.
  unfold child_vm. apply yields_any. intros g. apply yields_any. intros q.
  destruct (with_native_gate ch n g i args) as [v|e] eqn:E; [|by apply yields_ret].
  apply new_vm_alive in E. intros s r s'.
  unfold set_quota, r_bind.
  match goal with |- context [charge_slots q ?l ?st] =>
    pose proof (charge_slots_same q l st) as Hs; destruct (charge_slots q l st) as [[[u|x]|] st'] end;
    try done; intros [= <- <-]; [|done].
  unfold same_frames in Hs. simpl in *. by rewrite Hs.
Qed.

(** Between its birth and its first run a flow's mailbox belongs to nobody. *)
Definition still s s' : Prop :=
  good s' /\ population s ≡ₚ population s' /\ (forall f, answered s f -> answered s' f) /\
  dom (mailboxes s) ⊆ dom (mailboxes s').

Definition idle {A} (m : W A) : Prop :=
  forall s a s', good s -> m s = (Some a, s') -> still s s'.

Lemma still_trans s1 s2 s3 : still s1 s2 -> still s2 s3 -> still s1 s3.
Proof.
  intros (G1 & P1 & K1 & D1) (G2 & P2 & K2 & D2).
  split_and!; [done|by etransitivity|auto|by etransitivity].
Qed.

Lemma idle_bind {A B} (m : W A) (k : A -> W B) : idle m -> (forall a, idle (k a)) -> idle (bind m k).
Proof.
  intros Hm Hk s b s' Hs E. unfold bind in E. destruct (m s) as [[a|] s1] eqn:E1; [|done].
  pose proof (Hm s a s1 Hs E1) as S1. eapply still_trans; [exact S1|].
  eapply Hk; [apply S1|exact E].
Qed.

Lemma idle_same {A} (m : W A) : (forall s, same_places s (snd (m s))) -> idle m.
Proof.
  intros Hm s a s' Hs E. specialize (Hm s). rewrite E in Hm. simpl in Hm.
  pose proof (good_same s s' Hs Hm) as Hs'. destruct Hm as [E1 E2 E3 E4 E5 _].
  split_and!; [done| |unfold answered, slot_at; by rewrite E5|by rewrite E4].
  unfold population, sleepers, held_flows. by rewrite E1, E2, E3, E4.
Qed.

Lemma idle_new_channel : idle new_channel.
Proof.
  intros s a s' Hs [= <- <-]. destruct Hs as [D1 D2 D3 D4 D5].
  split_and!; [by split|done| |done]. intros f. unfold answered, slot_at. simpl.
  destruct (decide (Flow.completion f = fresh (dom (completions s)))) as [Ef|Hne].
  - assert (completions s !! Flow.completion f = None) as ->.
    { rewrite Ef. apply not_elem_of_dom, is_fresh. }
    rewrite Ef, lookup_insert_eq. done.
  - by rewrite lookup_insert_ne by done.
Qed.

(** A fresh, empty mailbox. *)
Lemma new_mailbox_spec s m s' :
  good s -> new_mailbox s = (Some m, s') ->
  still s s' /\ m ∉ dom (mailboxes s) /\ m ∈ dom (mailboxes s').
Proof.
  intros [D1 D2 D3 D4 D5] [= <- <-]. set (m := fresh (dom (mailboxes s))).
  set (mb := Mailbox.with_config _).
  assert (m ∉ dom (mailboxes s)) as Hm by apply is_fresh.
  assert (held_flows (s <| mailboxes ::= <[m := mb]> |>) ≡ₚ held_flows s) as Eh.
  { pose proof (held_insert s m mb) as Eh. unfold box_flows, mailbox_at in Eh.
    assert (mailboxes s !! m = None) as Em by by apply not_elem_of_dom.
    rewrite Em in Eh. simpl in Eh. by rewrite !app_nil_r in Eh. }
  split; [|split; [done|simpl; set_solver]]. split_and!.
  - split; [done|done|by rewrite Eh|done|].
    intros m' mb' f Hm' Hf. simpl in Hm'. apply lookup_insert_Some in Hm' as [[<- <-]|[_ Hm']];
      [done|by eapply D5].
  - unfold population. simpl. unfold keys in *. by rewrite Eh.
  - done.
  - simpl. set_solver.
Qed.

(** The function may end with the birth of a flow of mailbox [m], and with nothing else. *)
Definition grown (born : list (Z * N * N)) s s' : Prop :=
  good s' /\ (exists gone, Forall (answered s') gone /\
    born ++ population s ≡ₚ keys gone ++ population s') /\
  (forall f, answered s f -> answered s' f) /\ dom (mailboxes s) ⊆ dom (mailboxes s').

Definition one_in (k : N) (born : list (Z * N * N)) : Prop :=
  born = [] \/ exists x, born = [x] /\ snd x = k.

Definition bears {A} (k : N) (m : W A) : Prop := forall s a s', good s -> m s = (Some a, s') ->
  exists born, one_in k born /\ grown born s s'.

Lemma bears_idle {A} k (m : W A) : idle m -> bears k m.
Proof.
  intros Hm s a s' Hs E. destruct (Hm s a s' Hs E) as (G & P & K & D).
  exists []. split; [by left|]. split_and!; [done| |done|done]. by exists [].
Qed.

Lemma bears_bind {A B} (Q : A -> Prop) k (m : W A) (g : A -> W B) :
  yields Q m -> idle m -> (forall a, Q a -> bears k (g a)) -> bears k (bind m g).
Proof.
  intros Hq Hm Hg s b s' Hs E. unfold bind in E. destruct (m s) as [[a|] s1] eqn:E1; [|done].
  destruct (Hm s a s1 Hs E1) as (G1 & P1 & K1 & D1).
  destruct (Hg a (Hq _ _ _ E1) s1 b s' G1 E) as (born & Hb & G2 & (gone & Hg2 & P2) & K2 & D2).
  exists born. split; [done|]. split_and!; [done| |auto|by etransitivity].
  exists gone. by rewrite P1.
Qed.

Lemma bears_after {A B} k (m : W A) (g : A -> W B) :
  idle m -> (forall a, bears k (g a)) -> bears k (bind m g).
Proof. intros Hm Hg. by apply (bears_bind (fun _ => True)). Qed.

Lemma bears_runnable {B} f (b : B) : running f -> bears (Flow.mailbox f) (let* _ := make_runnable f in ret b).
Proof.
  intros Hf s a s' Hs E.
  assert (triple (H := H) (R := R) workers false [f] (let* _ := make_runnable f in ret b) (fun _ => [])) as Ht.
  { apply triple_consume; [apply triple_make_runnable|intros _; by apply triple_give]. }
  destruct (Ht s Hs) as (x & s1 & E1 & G & _ & [(gone & Hg & P) K D _]); [by apply Forall_singleton|].
  rewrite E1 in E. injection E as -> ->. exists [key f].
  split; [right; by exists (key f)|].
  split_and!; [done| |done|done]. by exists gone.
Qed.

Lemma idle_directory {B} (g : list (mutex (gmap Z N)) -> option B * list (mutex (gmap Z N))) :
  (forall d, length (snd (g d)) = length d) -> idle (on_directory g).
Proof.
  intros Hg. apply idle_same. intros s. unfold on_directory. specialize (Hg (directory s)).
  by destruct (g (directory s)).
Qed.

Lemma register_length id m d : length (snd (Directory.register id m d)) = length d.
Proof.
  unfold Directory.register, Directory.with_shard. destruct (_ !! _); [|done].
  destruct (on _ _ _). simpl. by rewrite length_insert.
Qed.

Ltac idling := solve [apply idle_same; intros; first [by split | unfold report_fault; by split]].

Lemma idle_on_quotas {B} (g : mutex (gmap Z N) -> B * mutex (gmap Z N)) : idle (on_quotas g).
Proof. apply idle_same. intros s. unfold on_quotas. by destruct (g _). Qed.

Lemma idle_now : idle (now clock).
Proof. apply idle_same. intros s. unfold now. by destruct (clock _). Qed.

Definition born_flow (v : Vm H) m f : Prop := Flow.mailbox f = m /\ Flow.fvm f = v.

Lemma idle_flow_new t id v m r c fm : idle (fun s =>
  let (flow, w) := Flow.new (wld s) t id v m r c fm in (Some flow, s <| wld := w |>)).
Proof. apply idle_same. intros s. by destruct (Flow.new _ _ _ _ _ _ _ _). Qed.

Lemma yields_flow_new t id v m r c fm : yields (born_flow v m) (fun s =>
  let (flow, w) := Flow.new (wld s) t id v m r c fm in (Some flow, s <| wld := w |>)).
Proof. intros s f s'. unfold Flow.new. destruct (RevocationCell.new _). by intros [= <- _]. Qed.

Lemma launch_safe id v q au c r sup : frames v <> [] -> calm (launch clock id v q au c r sup).
Proof.
  intros Hv s Hs Ha _ a s' E. unfold launch, bind at 1 in E.
  destruct (new_mailbox s) as [[m|] s1] eqn:Em; [|done].
  destruct (new_mailbox_spec s m s1 Hs Em) as ((G1 & P1 & K1 & D1) & Hm & Hm1).
  revert E. match goal with |- ?g s1 = _ -> _ => assert (bears m g) as Hb end.
  { apply bears_after; [apply idle_directory, register_length|]. intros [u|e].
    2:{ apply bears_idle, idle_bind; [idling|intros _; idling]. }
    apply bears_after; [apply idle_on_quotas|]. intros [u'|e].
    2:{ apply bears_idle, idle_bind; [idling|intros _; idling]. }
    apply bears_after; [apply idle_new_channel|]. intros ch.
    apply bears_after; [idling|]. intros fm. apply bears_after; [apply idle_now|]. intros t.
    eapply bears_bind; [apply yields_flow_new|apply idle_flow_new|]. intros f [Hk Hf].
    apply bears_after; [idling|]. intros _.
    match goal with |- bears _ (bind (make_runnable ?g) (fun _ => ret ?x)) =>
      pose proof (bears_runnable g x) as Hg; change (Flow.mailbox g) with (Flow.mailbox f) in Hg end.
    rewrite Hk in Hg. apply Hg. unfold running. simpl. by rewrite Hf. }
  intros E. destruct (Hb s1 a s' G1 E) as (born & Hborn & G2 & (gone & Hg & P2) & K2 & D2).
  split_and!; [done|done|]. split_and!; [|auto|by etransitivity].
  exists gone, born. split_and!; [done| | |].
  - simpl. rewrite P1, Permutation_app_comm. done.
  - destruct Hborn as [->|(x & -> & _)]; [constructor|apply NoDup_singleton].
  - destruct Hborn as [->|(x & -> & <-)]; [done|]. apply Forall_singleton. simpl. split; [done|set_solver].
Qed.

Lemma calm_bind_val {A B} (Q : A -> Prop) (m : W A) (k : A -> W B) :
  yields Q m -> calm m -> (forall a, Q a -> calm (k a)) -> calm (bind m k).
Proof. intros Hq Hm Hk. by eapply safe_bind_val. Qed.

Lemma calm_spawn_on ch n i args r sup p b :
  calm (spawn_on getrandom clock checks ch n i args r sup p b).
Proof.
  unfold spawn_on. apply calm_bind; [apply calm_quiet; quiet|]. intros mx.
  apply calm_bind; [destruct (0 <? mx); [apply calm_quiet, quiet_directory_len|calm]|].
  intros cur. destruct (_ && _); [calm|].
  apply calm_bind; [apply calm_quiet, quiet_take_flow_id|]. intros id.
  apply calm_bind; [calm|]. intros [cell|e]; [|calm].
  apply calm_try; [apply calm_authority|]. intros au.
  apply calm_try; [apply calm_quiet, quiet_grant_args|]. intros args'.
  unfold try_. eapply calm_bind_val; [apply yields_child_vm|apply calm_child_vm|].
  intros [[v q]|e] Hv; [by apply launch_safe|calm].
Qed.

End spawn.
