(* ===== verification/ConserveWorker.v ===== *)
(** No flow is lost or doubled by a worker or the timer: what each of their
    functions does with flows, by the rules of Conserve. *)

From S2P Require Import Prelude Capability Values Isa Sync Quota Native Vm VmFrame Process.
From S2P Require Import CapTable Lifecycle Mailbox Oneshot Shared SharedTheory Timer Finalize.
From S2P Require Import FinalizeTheory Authenticate Runtime Worker Conserve.
Import Shared.

Section worker.
Context {H R : Type} `{ValueLayout, Allocator} (workers : nat).
Context (getrandom : R -> option (list byte) * R) (clock : R -> instant * R) (checks : bool).
Context (debug : list byte -> string) (me : nat) (Hme : (me < workers)%nat).
Implicit Types (s : Shared.t H R) (f : Flow.t H).
#[local] Abbreviation W := (W (H := H) (R := R)).
#[local] Abbreviation good := (good (H := H) (R := R) workers).
#[local] Abbreviation calm := (calm (H := H) (R := R) workers).
#[local] Abbreviation safe := (safe (H := H) (R := R) workers).
#[local] Abbreviation quiet := (quiet (H := H) (R := R) workers).

Lemma safe_alter {A B} f ins (m : W A) (g : A -> Flow.t H) (k : A -> W B) outs :
  safe [f] m (fun a => [g a]) -> (forall a, safe (g a :: ins) (k a) outs) ->
  safe (f :: ins) (bind m k) outs.
Proof.
  intros Hm Hk. eapply safe_bind; [|exact Hk].
  eapply (safe_perm _ _ (ins ++ [f]) _ _ (fun a => ins ++ [g a]));
    [by rewrite Permutation_app_comm|intros; by rewrite Permutation_app_comm
    |by apply safe_frame].
Qed.

Lemma safe_resume f d v : safe [f] (resume checks f d v) (fun g => [g]).
Proof. eapply (safe_triple workers false), triple_resume. Qed.

Lemma safe_finalize f o r : safe [f] (finalize_flow checks f o r) (fun _ => []).
Proof. eapply (safe_triple workers false), triple_finalize_flow. Qed.

Lemma safe_drop f : safe [f] (drop_flow f) (fun _ => []).
Proof. eapply (safe_triple workers false), triple_drop. Qed.

Lemma safe_inject f : safe [f] (inject f) (fun _ => []).
Proof. eapply (safe_triple workers false), triple_inject. Qed.

Lemma safe_push_local f : safe [f] (push_local me f) (fun _ => []).
Proof. by eapply (safe_triple workers false), triple_push_local. Qed.

Lemma safe_make_runnable f : safe [f] (make_runnable f) (fun _ => []).
Proof. eapply (safe_triple workers false), triple_make_runnable. Qed.

Lemma safe_deliver_to f hop : safe [f] (deliver_to checks f hop) (fun g => [g]).
Proof. eapply (safe_triple workers false), triple_deliver_to. Qed.

Lemma safe_fail_with f msg : safe [f] (fail_with checks f msg) option_list.
Proof.
  unfold fail_with, finish_failed. eapply safe_consume; [apply safe_finalize|].
  intros _. by apply safe_give.
Qed.

Lemma safe_answer f d v : safe [f] (answer checks f d v) option_list.
Proof. unfold answer. eapply safe_alter; [apply safe_resume|]. intros g. by apply safe_give. Qed.

(** The flow ends and nothing is answered. *)
Lemma safe_ended {A} f msg (a : A) :
  safe [f] (let* _ := finish_failed checks f msg in ret a) (fun _ => []).
Proof. eapply safe_consume; [apply safe_finalize|]. intros _. by apply safe_give. Qed.

(** One step past a calm function; the end of a run. *)
Ltac past := apply safe_after; [solve [calm]|intros ?].
Ltac done_with := solve [by apply safe_give | apply safe_calm; calm].

Lemma calm_schedule_receive d id m r e : calm (schedule_receive_timeout clock d id m r e).
Proof.
  unfold schedule_receive_timeout. apply calm_bind; [calm|]. intros t.
  apply (safe_timer_push workers (mk_entry _ (WakeReceiver id m r e))).
Qed.

Lemma calm_schedule_timeout t id m r e : calm (schedule_timeout clock t id m r e).
Proof. destruct t; [apply calm_schedule_receive|]. calm. Qed.
#[local] Hint Resolve calm_schedule_timeout : calm.

(** The scheduler's own fields of a flow do not matter. *)
Lemma safe_same {A} f' f (m : W A) outs :
  key f' = key f -> Flow.fvm f' = Flow.fvm f -> safe [f'] m outs -> safe [f] m outs.
Proof.
  unfold safe, Conserve.safe, travels, keys. simpl. intros -> Ev Hm s Hs Ha Hr.
  apply Hm; [done..|]. apply Forall_singleton. unfold running. rewrite Ev. by inversion Hr.
Qed.

Lemma safe_resume_pending f d : safe [f] (resume_pending checks f d) (fun _ => []).
Proof.
  unfold resume_pending. eapply safe_alter; [|intros g; apply safe_make_runnable].
  destruct (Flow.pending_message f) as [msg|]; [|by apply safe_give].
  apply (safe_same (f <| Flow.pending_message := None |>)); [done..|].
  eapply (safe_alter _ []).
  - apply safe_resume.
  - intros g. past. by apply safe_give.
Qed.

Lemma safe_take_parked m : safe [] (on_mailbox m Mailbox.take_parked) (ok_or [] option_list).
Proof. eapply (safe_triple workers false), triple_take_parked. Qed.

Lemma calm_unpark m a t d : calm (unpark_orphan checks m a t d).
Proof.
  unfold unpark_orphan. eapply safe_bind; [apply safe_take_parked|].
  intros [[f|]|e]; simpl; [|done_with..]. past.
  eapply (safe_alter _ []); [apply safe_resume|]. intros g. past. apply safe_make_runnable.
Qed.
#[local] Hint Resolve calm_unpark : calm.

Lemma safe_park_ask f d t w target : safe [f] (park_ask clock checks f d t w target) (fun _ => []).
Proof.
  unfold park_ask. past. destruct a as [[u|e]|e]; [|apply safe_ended|past; apply safe_ended].
  eapply safe_bind; [apply safe_park|]. intros [[ep|g]|e]; simpl.
  - apply safe_after; [calm|]. intros m. destruct m as [[m|]|e]; calm.
  - past. apply safe_resume_pending.
  - eapply safe_consume; [apply safe_drop|]. intros _. calm.
Qed.

Lemma safe_park_on f d t w : safe [f] (park_on_mailbox clock checks f d t w) (fun _ => []).
Proof.
  unfold park_on_mailbox. eapply safe_bind; [apply safe_park|]. intros [[ep|g]|e]; simpl.
  - calm.
  - apply safe_resume_pending.
  - eapply safe_consume; [apply safe_drop|]. intros _. calm.
Qed.

Lemma safe_target_gone f : safe [f] (target_gone checks f) (fun _ => []).
Proof. unfold target_gone. past. apply safe_ended. Qed.

Lemma safe_park_waiting f target v p : safe [f] (park_waiting_send checks f target v p) (fun _ => []).
Proof.
  unfold park_waiting_send. apply (safe_same (f <| Flow.pending_send := Some p |>)); [done..|]. past. destruct a as [u|e]; [|past; apply safe_ended].
  past. destruct a as [[m|]|e]; [|apply safe_target_gone|past; apply safe_target_gone].
  eapply safe_bind; [apply safe_park_sender|]. intros [|g]; simpl; [done_with|].
  apply safe_target_gone.
Qed.

(** *** Delivery *)

Lemma safe_push m v :
  safe [] (on_mailbox m (fun mb => Mailbox.push mb v)) (ok_or [] (ok_or [] handed_flow)).
Proof. eapply (safe_triple workers false), triple_push. Qed.

Lemma calm_deliver t v : calm (deliver checks me t v).
Proof.
  unfold deliver. apply calm_bind; [calm|]. intros [[m|]|e]; [|calm..].
  eapply safe_bind; [apply safe_push|]. intros [[[| | |f]|e]|e]; simpl; try calm.
  past. eapply (safe_alter _ []); [apply safe_deliver_to|]. intros g.
  eapply safe_consume; [apply safe_push_local|]. intros _. calm.
Qed.

Lemma calm_admit m : calm (admit_waiting_on clock checks me m).
Proof.
  unfold admit_waiting_on. eapply safe_bind; [apply safe_admit|].
  intros [[f|]|e]; simpl; [|calm..]. past.
  apply (safe_same (f <| Flow.pending_send := None |>)); [done..|].
  destruct (Flow.pending_send f) as [[|d rid sender t]|]; try apply safe_park_ask;
    (eapply safe_consume; [apply safe_push_local|]; intros _; calm).
Qed.
#[local] Hint Resolve calm_deliver calm_admit : calm.

Lemma quiet_try_pop m w : quiet (on_mailbox m (fun mb => Mailbox.try_pop_filter mb w)).
Proof.
  intros b. eapply (triple_perm workers b [] [] _ _ (ok_or [] (fun _ => [])));
    [done|by intros [x|e]|].
  apply triple_locked; intros i; unfold Mailbox.try_pop_locked;
    destruct (MailboxQueue.take _ _) as [[x|] q]; simpl; try apply reshuffle_refl; by left.
Qed.
#[local] Hint Resolve quiet_try_pop : quiet.

(** *** The handlers *)

Lemma quiet_resolve_held c h n : quiet (resolve_cap_held c h n).
Proof. unfold resolve_cap_held, try_. quiet. Qed.

Lemma quiet_resolve_relation c h n : quiet (resolve_relation_cap c h n).
Proof. unfold resolve_relation_cap. quiet. Qed.

Lemma calm_check_send q : calm (check_send clock checks q).
Proof. unfold check_send. calm. apply calm_on_quota_opt. Qed.

Lemma quiet_create_monitor o t : quiet (create_monitor o t).
Proof. apply quiet_state. intros s. unfold create_monitor. destruct (MonitorStore.create _ _ _ _) as [r [m c]]. by eexists. Qed.

Lemma quiet_create_link a b : quiet (create_link a b).
Proof. apply quiet_state. intros s. unfold create_link. destruct (LinkStore.link _ _ _ _) as [r [m c]]. by eexists. Qed.
#[local] Hint Resolve quiet_resolve_held quiet_resolve_relation calm_check_send
  quiet_create_monitor quiet_create_link quiet_reissue : quiet calm.

Lemma safe_answer_cap {E} (show : E -> string) f d r :
  safe [f] (answer_cap checks show f d r) option_list.
Proof. unfold answer_cap. destruct r; [apply safe_answer|apply safe_fail_with]. Qed.

Lemma safe_go_on f r : safe [f] (go_on checks f r) option_list.
Proof. destruct r as [[u|e]|e]; [by apply safe_give|apply safe_fail_with..]. Qed.

(** A handler, step by step. *)
Ltac handle := repeat first
  [ apply safe_fail_with | apply safe_answer | apply safe_answer_cap | apply safe_go_on
  | solve [by apply safe_give]
  | past
  | match goal with |- safe _ (match ?x with _ => _ end) _ => destruct x end ].

Lemma safe_self_pid f d : safe [f] (on_self_pid getrandom checks f d) option_list.
Proof. unfold on_self_pid. handle. Qed.

Lemma safe_spawn f i args d r : safe [f] (on_spawn getrandom clock checks debug f i args d r) option_list.
Proof. unfold on_spawn. apply safe_after; [apply calm_spawn_on|]. intros. handle. Qed.

Lemma safe_monitor f d c : safe [f] (on_monitor checks f d c) option_list.
Proof. unfold on_monitor. handle. Qed.

Lemma safe_demonitor f r : safe [f] (on_demonitor checks f r) option_list.
Proof. unfold on_demonitor. handle. Qed.

Lemma safe_link f d c : safe [f] (on_link checks f d c) option_list.
Proof. unfold on_link. handle. Qed.

Lemma safe_unlink f r : safe [f] (on_unlink checks f r) option_list.
Proof. unfold on_unlink. handle. Qed.

Lemma safe_register f n : safe [f] (on_register_name getrandom checks f n) option_list.
Proof. unfold on_register_name. handle. Qed.

Lemma safe_whereis f d n : safe [f] (on_whereis getrandom checks f d n) option_list.
Proof. unfold on_whereis. handle. Qed.

Lemma safe_delegate f d c r n : safe [f] (on_delegate getrandom checks f d c r n) option_list.
Proof. unfold on_delegate. handle. Qed.

(** *** Sending *)

Lemma safe_fresh_id f : safe [f] (on_vm f fresh_request_id) (fun x => [snd x]).
Proof.
  eapply (safe_triple workers false), triple_on_vm. intros st Hst.
  unfold fresh_request_id, draw_request_id, r_bind. simpl.
  by case_match; eexists _, _.
Qed.

Lemma safe_authenticate f t m :
  safe [f] (authenticate_outgoing_message getrandom f t m) (fun x => [snd x]).
Proof.
  unfold authenticate_outgoing_message.
  eapply (safe_alter _ _ _ (fun x => snd x)).
  - unfold assign_request_id. destruct (_ =? 0); [|by apply safe_give].
    eapply (safe_alter _ []); [apply safe_fresh_id|]. intros [[rid|e] g]; by apply safe_give.
  - intros [m' g]. unfold try_. past. by apply safe_give.
Qed.

(** The flow a prepared hop goes on with. *)
Definition prepared (r : result (FlowId.t * Message * Flow.t H) unit) : list (Flow.t H) :=
  match r with Ok (_, _, g) => [g] | Err _ => [] end.

Lemma safe_prepare f c n v m : safe [f] (prepare_hop getrandom clock checks f c n v m) prepared.
Proof.
  assert (forall g msg, safe [g] (let* _ := finish_failed checks g msg in ret (Err tt)) prepared)
    as Hstop.
  { intros g msg. eapply safe_consume; [apply safe_finalize|]. intros _. by apply safe_give. }
  unfold prepare_hop. past. destruct a as [t|e]; [|apply Hstop].
  past. destruct a as [u|e]; [|apply Hstop]. past. destruct a as [u'|e]; [|apply Hstop].
  eapply (safe_alter _ []); [apply safe_authenticate|]. intros [[m'|e] g]; simpl; [by apply safe_give|].
  past. apply Hstop.
Qed.

Lemma calm_count_hop f : calm (count_hop f).
Proof. unfold count_hop. apply calm_bind; [apply calm_quiet, quiet_modify; by split|].
  intros _. calm.
Qed.

Lemma calm_free_hop f v : calm (free_hop f v).
Proof. unfold free_hop. calm. Qed.
#[local] Hint Resolve calm_count_hop calm_free_hop : calm.

Lemma safe_none {A} f (m : W A) :
  safe [f] m (fun _ => []) -> safe [f] (let* _ := m in ret None) option_list.
Proof. intros Hm. eapply safe_consume; [exact Hm|]. intros _. by apply safe_give. Qed.

Lemma safe_send f c v : safe [f] (on_send getrandom clock checks me f c v) option_list.
Proof.
  unfold on_send. destruct (Value.as_message v) as [m|]; [|apply safe_fail_with].
  eapply safe_bind; [apply safe_prepare|]. intros [[[t m'] g]|e]; simpl; [|by apply safe_give].
  past. apply safe_after; [apply calm_deliver|]. intros [|].
  - past. by apply safe_give.
  - apply safe_none, safe_park_waiting.
Qed.

Lemma safe_receive f d t a b : safe [f] (on_receive clock checks me f d t a b) option_list.
Proof.
  unfold on_receive. destruct (negb _); [apply safe_fail_with|].
  apply (safe_same (f <| Flow.last_receive_dest := Some d |>)); [done..|].
  past. destruct a0 as [[v|]|e].
  - past. eapply (safe_alter _ []); [apply safe_resume|]. intros g.
    apply safe_after; [apply calm_admit|]. intros _. by apply safe_give.
  - apply safe_none, safe_park_on.
  - past. apply safe_none, safe_drop.
Qed.

Lemma safe_await f d t w target : safe [f] (await_reply clock checks f d t w target) option_list.
Proof.
  unfold await_reply. past. destruct a as [[v|]|e].
  - past. apply safe_answer.
  - apply safe_none, safe_park_ask.
  - past. apply safe_none, safe_drop.
Qed.

Lemma safe_ask f d c v t : safe [f] (on_ask getrandom clock checks me f d c v t) option_list.
Proof.
  unfold on_ask. destruct (Value.as_message v) as [m|]; [|apply safe_fail_with].
  eapply safe_bind; [apply safe_prepare|]. intros [[[x m'] g]|e]; simpl; [|by apply safe_give].
  apply (safe_same (g <| Flow.last_receive_dest := Some d |>)); [done..|].
  past. apply safe_after; [apply calm_deliver|]. intros [|].
  - past. apply safe_await.
  - apply safe_none, safe_park_waiting.
Qed.

(** *** A quantum *)

(** A flow whose VM may have ended still counts as one that runs. *)
Definition revive f : Flow.t H :=
  f <| Flow.fvm := with_frames (Flow.fvm f) [Frame.new 0 0 None] |>.

Lemma revive_finalize f o r : safe [revive f] (finalize_flow checks f o r) (fun _ => []).
Proof.
  intros s Hs _ _ a s' E.
  destruct (finalize_flow_ends checks workers f o r s Hs) as (s1 & E1 & Hs1 & M & _).
  rewrite E1 in E. injection E as <- <-. split_and!; [done..|].
  exact (moves_travels _ _ _ _ _ M).
Qed.

Definition held (x : result VmResult.t string * Flow.t H) : Flow.t H :=
  match fst x with
  | Ok (VmResult.Complete _ | VmResult.Trap _) | Err _ => revive (snd x)
  | Ok _ => snd x
  end.

Lemma safe_revive {A} f (m : W A) outs : safe [revive f] m outs -> safe [f] m outs.
Proof. intros Hm s Hs Ha _. apply Hm; [done..|]. by apply Forall_singleton. Qed.

Lemma safe_held {A} r f (m : W A) outs : safe [revive f] m outs -> safe [held (r, f)] m outs.
Proof. intros Hm. destruct r as [[]|]; try exact Hm; by apply safe_revive. Qed.

Lemma calm_reschedule : calm (modify (fun s => s <| metrics ::= fun m =>
  m <| RuntimeMetrics.reschedules ::= RuntimeMetrics.inc |> |>)).
Proof. apply calm_quiet, quiet_modify. by split. Qed.
#[local] Hint Resolve calm_reschedule : calm.

Lemma safe_yield f : safe [f] (on_result getrandom clock checks debug me f VmResult.Yield) option_list.
Proof.
  simpl. apply safe_after; [apply calm_reschedule|intros _]. past.
  apply safe_none, safe_push_local.
Qed.

Lemma safe_sleep f d : safe [f] (on_result getrandom clock checks debug me f (VmResult.Sleep d)) option_list.
Proof.
  simpl. apply safe_none. unfold schedule_sleep. past.
  exact (safe_timer_push workers (mk_entry (after a d) (WakeSleeper f))).
Qed.

Lemma safe_result f r :
  safe [held (Ok r, f)] (on_result getrandom clock checks debug me f r) option_list.
Proof.
  destruct r; unfold held; simpl fst; cbv iota; simpl snd;
    first [apply safe_yield | apply safe_sleep | simpl on_result];
    eauto using safe_self_pid, safe_spawn, safe_send, safe_receive, safe_ask, safe_monitor,
      safe_demonitor, safe_link, safe_unlink, safe_register, safe_whereis, safe_delegate.
  - apply safe_none, revive_finalize.
  - destruct name. apply safe_register.
  - destruct name. apply safe_whereis.
  - apply safe_none, revive_finalize.
Qed.

Lemma safe_run_vm f n :
  safe [f] (run_vm checks f n) (fun x => [held (match fst x with
    | Some r => Ok r | None => Err EmptyString end, snd x)]).
Proof.
  intros s Hs Ha Hr a s' E. rewrite Forall_singleton in Hr. unfold run_vm in E.
  destruct (Vm.run _ _ _) as [r st] eqn:Er. injection E as <- <-.
  assert (good s /\ travels [f] [f] s (s <| wld := Vm.wld st |>)) as [Hs' Ht].
  { split; [done|]. exact (travels_refl [f] s). }
  split_and!; [by destruct Hs'|apply Forall_singleton|].
  - destruct r as [r|]; [|done].
    destruct (run_alive checks (Z.to_nat n) (mk_state (Flow.fvm f) (wld s)) r st Hr Er) as [He|Hv];
      [by destruct r|]. unfold held. simpl. by destruct r.
  - destruct r as [r|]; [|exact Ht]. destruct r; exact Ht.
Qed.

Lemma safe_quantum f : safe [f] (quantum_step checks f) (fun x => [held x]).
Proof.
  unfold quantum_step. past. destruct (a <=? 0); [by apply safe_revive, safe_give|]. past.
  eapply (safe_alter _ [] _ (fun x => held (match fst x with
    | Some r => Ok r | None => Err EmptyString end, snd x))); [apply safe_run_vm|].
  intros [ran g]. apply safe_after; [apply calm_on_quota_opt|]. intros [u|e].
  - past. apply safe_give. by destruct ran.
  - by apply safe_held, safe_give.
Qed.

Lemma safe_fail_held r f msg : safe [held (r, f)] (fail_with checks f msg) option_list.
Proof. apply safe_held, safe_none, revive_finalize. Qed.

(** *** The worker's loop *)

Lemma safe_drive_once f :
  safe [f] (drive_once getrandom clock checks debug me f) option_list.
Proof.
  unfold drive_once. past. destruct a; [apply safe_none, safe_push_local|].
  eapply (safe_alter _ []); [apply safe_quantum|]. intros [[r|msg] g].
  - apply safe_result.
  - apply safe_fail_held.
Qed.

Lemma safe_enter f : safe [f] (enter checks f) option_list.
Proof.
  unfold enter. eapply (safe_alter _ [] _ (fun g => g)).
  - destruct (Flow.pending_message f) as [msg|]; [|by apply safe_give].
    apply (safe_same (f <| Flow.pending_message := None |>)); [done..|]. apply safe_deliver_to.
  - intros g. past. destruct a as [[r|]|e].
    + apply safe_none, safe_finalize.
    + by apply safe_give.
    + past. apply safe_none, safe_drop.
Qed.

Lemma calm_steals : calm (modify (fun s => s <| metrics ::= fun m =>
  m <| RuntimeMetrics.steals ::= RuntimeMetrics.inc |> |>)).
Proof. apply calm_quiet, quiet_modify. by split. Qed.

Lemma safe_steal ws : safe [] (steal_from ws) option_list.
Proof.
  induction ws as [|w ws IH]; simpl; [by apply safe_give|].
  eapply safe_bind; [apply safe_pop_deque|]. intros [f|]; [|exact IH].
  apply safe_after; [apply calm_steals|]. intros _. by apply safe_give.
Qed.

Lemma safe_find_work : safe [] (find_work me) option_list.
Proof.
  unfold find_work. eapply safe_bind; [apply safe_pop_deque|]. intros [f|]; [by apply safe_give|].
  eapply safe_bind; [apply safe_pop_injector|]. intros [f|]; [by apply safe_give|].
  past. apply safe_steal.
Qed.

(** *** The timer *)

Lemma safe_take_at m e :
  safe [] (on_mailbox m (fun mb => Mailbox.take_parked_at mb e)) (ok_or [] option_list).
Proof. eapply (safe_triple workers false), triple_take_at. Qed.

Lemma calm_fire_receiver id m d e : calm (fire_receiver checks id m d e).
Proof.
  unfold fire_receiver. eapply safe_bind; [apply safe_take_at|]. intros [[f|]|x]; simpl; [|calm..].
  destruct (_ && _); [apply safe_panic|]. past.
  eapply (safe_alter _ []); [apply safe_resume|]. intros g. apply safe_inject.
Qed.

Lemma safe_fire e : safe (entry_flows e) (fire checks e) (fun _ => []).
Proof.
  unfold fire, entry_flows. destruct (tpayload e) as [f|id m d ep].
  - eapply safe_consume; [apply safe_inject|]. intros _. calm.
  - apply calm_bind; [apply calm_fire_receiver|]. intros _. calm.
Qed.

End worker.

Section timer.
Context {H R : Type} `{ValueLayout, Allocator, MinHeap} (workers : nat).
Context (clock : R -> instant * R) (checks : bool).
Implicit Types (s : Shared.t H R).
#[local] Abbreviation calm := (calm (H := H) (R := R) workers).
#[local] Abbreviation safe := (safe (H := H) (R := R) workers).

(** Taking the entry on top off the heap. *)
Lemma safe_pop_entry entries top s a s' w :
  lock (heap (timer s)) w = Ok entries -> peek entries = Some top ->
  good workers s -> modify (set_heap (unlock (pop entries))) s = (Some a, s') ->
  good workers s' /\ Forall running (entry_flows top) /\ travels [] (entry_flows top) s s'.
Proof.
  intros El Et Hs [= _ <-]. apply lock_heap in El.
  apply set_heap_travels with entries; [done..| |done]. unfold peek, pop in *.
  assert (entries ≡ₚ top :: delete (top_index (map deadline entries)) entries) as Ep
    by by apply delete_Permutation.
  assert (heap_flows entries ≡ₚ heap_flows (top :: delete (top_index (map deadline entries)) entries))
    as Eh by (unfold heap_flows; by rewrite Ep at 1).
  simpl. by rewrite Eh, heap_flows_cons.
Qed.

Lemma safe_fire_top top :
  safe (entry_flows top) (let* _ := fire checks top in ret Fired) (fun _ => []).
Proof. eapply safe_bind; [apply safe_fire|]. intros u. by apply safe_give. Qed.

Lemma calm_drive_turn : calm (drive_turn clock checks).
Proof.
  intros s Hs Ha Hr a s'. unfold drive_turn, bind at 1, gets.
  assert (forall x, calm (let* _ := report_fault x in ret Stopped)) as Hstop by (intros; calm).
  assert (forall x : turn, calm (ret x)) as Hret by (intros; calm).
  destruct (lock (heap (timer s)) _) as [entries|e] eqn:El; [|by apply Hstop].
  destruct (lock (stopping (timer s)) _) as [[|]|e]; [by apply Hret| |by apply Hstop].
  destruct (peek entries) as [top|] eqn:Et; [|by apply Hret].
  intros E. unfold bind at 1, now in E. destruct (clock (os s)) as [t o].
  set (s1 := s <| os := o |>) in *.
  assert (good workers s1) as Hs1 by by destruct Hs.
  destruct (deadline top <=? t); [|injection E as <- <-; split_and!; [done|done|exact (travels_refl [] s)]].
  unfold bind at 1, modify in E. set (s2 := set_heap _ s1) in *.
  destruct (safe_pop_entry entries top s1 tt s2 _ El Et Hs1 eq_refl) as (Hs2 & Hr2 & T).
  assert (apart (keys []) s1) as Ha1 by by destruct Ha.
  destruct (safe_fire_top top s2 Hs2 (travels_apart _ _ _ _ Ha1 T) Hr2 a s' E) as (Hs3 & Hr3 & T3).
  split_and!; [done|done|]. exact (travels_trans _ _ _ _ _ _ T T3).
Qed.

End timer.
