(* ===== verification/ConserveHost.v ===== *)
(** No flow is lost or doubled by the embedder or a supervisor: what each of their functions
    does with flows, by the rules of Conserve. *)

From S2P Require Import Prelude Capability Values Isa Sync Quota Native Vm VmFrame Process.
From S2P Require Import CapTable Lifecycle Mailbox Oneshot Shared SharedTheory Timer Finalize.
From S2P Require Import FinalizeTheory Authenticate Runtime Worker Supervisor Conserve.
From S2P Require Import ConserveWorker.
Import Shared.

Section host.
Context {H R : Type} `{ValueLayout, Allocator} (workers : nat).
Context (getrandom : R -> option (list byte) * R) (clock : R -> instant * R) (checks : bool).
Context (instant_min : instant).
Implicit Types (s : Shared.t H R) (p : Sup.t H).
#[local] Abbreviation calm := (calm (H := H) (R := R) workers).
#[local] Abbreviation safe := (safe (H := H) (R := R) workers).
#[local] Abbreviation quiet := (quiet (H := H) (R := R) workers).

Lemma quiet_authenticate_host id m : quiet (authenticate_host_outgoing_message getrandom id m).
Proof.
  unfold authenticate_host_outgoing_message. apply quiet_bind.
  - destruct (_ =? 0); [|quiet]. apply quiet_bind; [quiet|intros rid].
    apply quiet_bind; [apply quiet_modify; by split|intros _; quiet].
  - intros m'. unfold try_. apply quiet_bind; [apply quiet_reissue_host|intros [v|e]; quiet].
Qed.
#[local] Hint Resolve quiet_authenticate_host : quiet.

Lemma calm_send id v : calm (send getrandom checks id v).
Proof.
  unfold send. destruct (Value.as_message v) as [m|]; [|calm].
  apply calm_bind; [calm|]. intros [[mb|]|e]; [|calm..].
  apply calm_bind; [calm|]. intros [m'|e]; [|calm].
  eapply safe_bind; [apply safe_push|]. intros [[[| | |f]|e]|e]; simpl; try calm.
  apply safe_after; [calm|intros _].
  eapply (safe_alter workers _ _ _ (fun g => g)).
  - destruct (Flow.last_receive_dest f); [apply safe_resume|by apply safe_give].
  - intros g. eapply safe_consume; [apply safe_make_runnable|]. intros _. calm.
Qed.

Lemma calm_request_kill id r : calm (request_kill checks id r).
Proof. eapply (safe_triple workers false), triple_request_kill. Qed.

Lemma quiet_require_live id : quiet (require_live id).
Proof. unfold require_live, or_unavailable, unavailable, try_. quiet. Qed.
#[local] Hint Resolve quiet_require_live quiet_create_monitor quiet_create_link : quiet.

Lemma calm_kill id : calm (kill checks id).
Proof.
  unfold kill, try_. apply calm_bind; [calm|]. intros [u|e]; [|calm].
  apply calm_bind; [apply calm_request_kill|intros _; calm].
Qed.

Lemma quiet_monitor a b : quiet (monitor checks a b).
Proof.
  unfold monitor, or_unavailable, unavailable, try_. 
  destruct (a =? b); [quiet|].
  apply quiet_bind; [quiet|intros [u|e]; [|quiet]]. apply quiet_bind; [quiet|intros [u'|e]; [|quiet]].
  apply quiet_bind; [quiet|intros [r|e]; [|quiet]]. apply quiet_bind; [quiet|intros [l|e]; [quiet|]].
  apply quiet_bind; [|intros _; quiet].
  apply quiet_bind; [quiet|intros _]. apply quiet_deliver_down.
Qed.

(** Spawning, from the runtime and from a supervisor. *)
Lemma calm_spawn rt i args : calm (spawn getrandom clock checks rt i args).
Proof. apply calm_spawn_on. Qed.

Lemma calm_spawn_linked sp i args r n : calm (spawn_linked getrandom clock checks sp i args r n).
Proof. apply calm_spawn_on. Qed.

Lemma quiet_register_child id n : quiet (register_child_name getrandom id n).
Proof. unfold register_child_name. quiet. Qed.

Lemma calm_spawn_child p sp : calm (spawn_child getrandom clock checks p sp).
Proof.
  unfold spawn_child. destruct (lock _ _) as [c|e]; [|calm].
  apply calm_bind; [apply calm_spawn_linked|]. intros [h|e]; [|calm].
  apply calm_bind; [destruct (ChildSpec.name sp); [calm|apply calm_quiet, quiet_register_child]|].
  intros [u|e]; [calm|]. apply calm_bind; [apply calm_request_kill|intros _; calm].
Qed.

Lemma calm_respawn l p : calm (respawn getrandom clock checks p l).
Proof.
  revert p. induction l as [|sp l IH]; intros p; simpl; [calm|].
  destruct (Sup.intensity_exceeded p); [calm|].
  apply calm_bind; [apply calm_spawn_child|]. intros x. apply IH.
Qed.

Lemma calm_finish_cascade p : calm (finish_cascade getrandom clock checks p).
Proof.
  unfold finish_cascade. destruct (lock _ _) as [[c|]|e]; [|calm..]. apply calm_respawn.
Qed.
#[local] Hint Resolve calm_finish_cascade calm_spawn_child : calm.

Lemma calm_progress p id : calm (on_cascade_progress getrandom clock checks p id).
Proof. unfold on_cascade_progress. calm. Qed.

Lemma calm_kill_all ids : calm (kill_all checks ids).
Proof.
  induction ids as [|id ids IH]; simpl; [calm|].
  apply calm_bind; [apply calm_request_kill|intros _; exact IH].
Qed.

Lemma quiet_still_live ids : quiet (still_live ids).
Proof.
  induction ids as [|id ids IH]; simpl; [quiet|].
  apply quiet_bind; [quiet|]. intros m. apply quiet_bind; [exact IH|intros l; quiet].
Qed.

Lemma calm_run_cascade p later : calm (run_cascade getrandom clock checks p later).
Proof.
  unfold run_cascade. apply calm_bind; [apply calm_kill_all|intros _].
  destruct (lock _ _) as [[c|]|e]; [|calm..].
  apply calm_bind; [apply calm_quiet, quiet_still_live|]. intros l. calm.
Qed.

Lemma calm_start_cascade p sp i later : calm (start_cascade getrandom clock checks p sp i later).
Proof.
  unfold start_cascade. destruct (lock _ _) as [c|e]; [|calm].
  destruct (expect_later _ _) as [l c']. destruct (cascade_specs _ _ _ _); [|calm].
  destruct (lock _ _) as [c1|e]; [|calm]. apply calm_run_cascade.
Qed.

Lemma calm_handle_exit p e : calm (handle_exit getrandom clock checks instant_min p e).
Proof.
  unfold handle_exit. destruct (lock _ _) as [c|x]; [|calm].
  destruct (ChildTable.remove _ _) as [[live|] c']; [|calm].
  destruct (expected_shutdown live); [apply calm_progress|].
  destruct (negb _); [calm|]. destruct (Sup.intensity_exceeded _); [calm|].
  apply calm_bind.
  { unfold intensity_hit. apply calm_bind; [calm|]. intros t.
    destruct (lock _ _) as [l|x]; [|calm]. destruct (note_restart _ _ _ _). calm. }
  intros [[] p']; [calm|]. destruct (strategy _); [|apply calm_start_cascade..].
  apply calm_bind; [apply calm_spawn_child|intros x; calm].
Qed.

Lemma calm_supervise p : calm (supervise getrandom clock checks instant_min p).
Proof.
  unfold supervise. destruct (Sup.shutdown p); [calm|].
  apply calm_bind; [calm|]. intros q. destruct (lock _ _) as [[|e l]|x]; [calm| |calm].
  apply calm_bind; [apply calm_quiet, quiet_modify; by split|intros _].
  apply calm_bind; [apply calm_handle_exit|intros p'; calm].
Qed.

Lemma quiet_top_up h c t g : quiet (top_up h c t g).
Proof. unfold top_up, require_admin, or_unavailable, unavailable, try_. quiet. Qed.

Lemma calm_admin_kill h c t : calm (admin_kill checks h c t).
Proof.
  unfold admin_kill, require_admin, try_. apply calm_bind; [calm|]. intros [u|e]; [|calm].
  apply calm_kill.
Qed.

Lemma calm_shutdown : calm request_shutdown.
Proof.
  unfold request_shutdown. apply calm_bind; [apply calm_quiet, quiet_modify; by split|intros _].
  apply calm_bind; [|intros _; calm]. unfold stop_timer. apply calm_bind; [|intros r; calm].
  intros s Hs _ _ a s'. destruct (with_lock _ _ _) as [r m]. intros [= _ <-].
  split_and!; [by destruct Hs|done|exact (travels_refl [] s)].
Qed.

End host.
