(* ===== verification/SystemTheory.v ===== *)
(** Theorems about the whole scheduler, over every interleaving of its threads' turns: a
    flow is in one place, and is there until its handle is answered. *)

From S2P Require Import Prelude Capability Values Isa Sync Quota Native Vm VmFrame Process.
From S2P Require Import CapTable Lifecycle Mailbox Oneshot Shared SharedTheory Timer Finalize.
From S2P Require Import FinalizeTheory Authenticate Runtime Worker Supervisor System Demo.
From S2P Require Import EndTheory Conserve ConserveWorker ConserveHost.
Import Shared.

Section theory.
Context {H R : Type} `{ValueLayout, Allocator, MinHeap} (workers : nat).
Context (getrandom : R -> option (list byte) * R) (clock : R -> instant * R) (checks : bool).
Context (debug : list byte -> string) (instant_min : instant).
Implicit Types (s : Shared.t H R) (f : Flow.t H) (c : System (H := H) (R := R)).
#[local] Abbreviation calm := (calm (H := H) (R := R) workers).
#[local] Abbreviation safe := (safe (H := H) (R := R) workers).
#[local] Abbreviation act := (act getrandom clock checks debug instant_min (R := R)).
#[local] Abbreviation step := (step getrandom clock checks debug instant_min (R := R)).

(** Everybody: the flows workers hold, and those the shared state does. *)
Definition everyone c : list (Z * N * N) := keys (in_hand c) ++ population (shared c).

(** The flows in hand run, everybody has a mailbox of their own, and the state is good. *)
Record sound c : Prop := {
  s_good : good workers (shared c);
  s_hands : length (hands c) = workers;
  s_running : Forall running (in_hand c);
  s_apart : apart (keys (in_hand c)) (shared c) }.

(** From [c] to [c'] nobody is lost: who left was answered, and answers stay. *)
Definition kept c c' : Prop :=
  (forall k, k ∈ everyone c ->
     k ∈ everyone c' \/ exists f, key f = k /\ answered (shared c') f) /\
  (forall f, answered (shared c) f -> answered (shared c') f).

Lemma kept_trans c1 c2 c3 : kept c1 c2 -> kept c2 c3 -> kept c1 c3.
Proof.
  intros [E1 A1] [E2 A2]. split; [|auto]. intros k Hk.
  destruct (E1 k Hk) as [Hk2|(f & <- & Hf)]; [by apply E2|right; exists f; auto].
Qed.

(** A turn that takes [ins] from the hands [h] and leaves [outs] there. *)
Lemma turn_sound {A} (m : W A) ins outs rest h h' c s' a (p' : list (Sup.t H)) :
  safe ins m outs -> m (shared c) = (Some a, s') -> sound c -> hands c = h ->
  length h' = length h ->
  concat (map hand_flows h) ≡ₚ rest ++ ins ->
  concat (map hand_flows h') ≡ₚ rest ++ outs a ->
  let c' := mk_system s' h' p' in sound c' /\ kept c c'.
Proof.
  intros Hm E [G L Hr Ha] <- Hl P P' c'. unfold in_hand in *.
  assert (apart (keys (rest ++ ins)) (shared c)) as Ha1.
  { eapply apart_perm; [|exact Ha]. unfold keys. by rewrite P. }
  rewrite P in Hr.
  destruct (safe_frame workers rest ins m outs Hm (shared c) G Ha1 Hr a s' E) as (G' & Hr' & T).
  assert (travels (concat (map hand_flows (hands c))) (concat (map hand_flows h')) (shared c) s') as T'
    by (eapply travels_perm; [exact P|exact P'|exact T]).
  split.
  - split; [done|by rewrite <- L|unfold in_hand; simpl; by rewrite P'|].
    exact (travels_apart _ _ _ _ Ha T').
  - destruct T' as ((gone & born & Hg & Hp & _) & K & _). split; [|exact K].
    intros k Hk. unfold everyone, in_hand in *. simpl.
    assert (k ∈ keys (concat (map hand_flows h')) ++ keys gone ++ population s') as Hk'.
    { rewrite <- Hp, app_assoc, elem_of_app. by left. }
    rewrite !elem_of_app in *. destruct Hk' as [|[Hg'|]]; [by left; left| |by left; right].
    right. unfold keys in Hg'. apply list_elem_of_In, in_map_iff in Hg' as (f & <- & Hf).
    apply list_elem_of_In in Hf. rewrite Forall_forall in Hg. exists f. auto.
Qed.

(** The hands around worker [me]. *)
Lemma hands_at c me h :
  hands c !! me = Some h -> exists rest, concat (map hand_flows (hands c)) ≡ₚ rest ++ hand_flows h /\
    forall h', concat (map hand_flows (<[me := h']> (hands c))) ≡ₚ rest ++ hand_flows h'.
Proof.
  intros E. exists (concat (map hand_flows (take me (hands c) ++ drop (S me) (hands c)))).
  split.
  - rewrite <- (take_drop_middle _ _ _ E) at 1. rewrite !map_app, !concat_app. simpl. solve_Permutation.
  - intros h'. assert (me < length (hands c))%nat as Hl by by eapply lookup_lt_Some.
    rewrite insert_take_drop by done. rewrite !map_app, !concat_app. simpl. solve_Permutation.
Qed.

Lemma hand_sound {A} (m : W A) c me h h' s' a :
  safe (hand_flows h) m (fun a => hand_flows (h' a)) -> m (shared c) = (Some a, s') ->
  hands c !! me = Some h -> sound c ->
  let c' := set_hand c me (h' a) s' in sound c' /\ kept c c'.
Proof.
  intros Hm E Eh Hc. destruct (hands_at c me h Eh) as (rest & P & P').
  eapply (turn_sound m _ _ rest (hands c)); [exact Hm|exact E|done|done| |exact P|apply P'].
  by rewrite length_insert.
Qed.

Lemma calm_sound {A} (m : W A) c s' a p' :
  calm m -> m (shared c) = (Some a, s') -> sound c ->
  let c' := mk_system s' (hands c) p' in sound c' /\ kept c c'.
Proof.
  intros Hm E Hc. eapply (turn_sound m [] (fun _ => []) (concat (map hand_flows (hands c))));
    [exact Hm|exact E|done|done|done|by rewrite app_nil_r..].
Qed.

Lemma calm_ignore {A} (m : W A) : calm m -> calm (ignore m).
Proof. intros Hm. unfold ignore. apply calm_bind; [done|intros _; calm]. Qed.

#[local] Hint Resolve quiet_require_live quiet_create_link quiet_monitor quiet_top_up : quiet.

Lemma calm_host op : calm (host getrandom clock checks op).
Proof.
  destruct op; simpl; try apply calm_ignore;
    first [ apply calm_spawn | apply calm_send | apply calm_kill | apply calm_admin_kill
          | apply calm_shutdown | apply calm_quiet ];
    unfold mint_cap, grant_cap, demonitor, link, unlink, register_name, whereis, unregister_name,
      mint_admin_cap, admin_top_up_cpu, admin_top_up_mem, admin_top_up_send, flatten,
      or_unavailable, unavailable, try_; quiet.
Qed.

(** *** Turns *)

Lemma lift_Some {A} (m : W A) c k c' :
  lift m c k = Some c' -> exists a s', m (shared c) = (Some a, s') /\ c' = k a s'.
Proof.
  unfold lift. destruct (m (shared c)) as [[a|] s'] eqn:E; [|done]. intros [= <-]. by exists a, s'.
Qed.

Lemma act_sound a c c' : sound c -> act a c = Some c' -> sound c' /\ kept c c'.
Proof.
  intros Hc. assert (forall me h, hands c !! me = Some h -> (me < workers)%nat) as Hme.
  { intros me h E. rewrite <- (s_hands c Hc). by eapply lookup_lt_Some. }
  assert (forall g : Flow.t H -> Hand, (forall f, hand_flows (g f) = [f]) ->
    forall o, option_list o = hand_flows (go g o)) as Hgo.
  { intros g Hg [f|]; simpl; by rewrite ?Hg. }
  destruct a as [me|me|me| |sp cfg|i|i sp|op]; simpl.
  - destruct (hands c !! me) as [[| |]|] eqn:Eh; try done. destruct (shutdown _); [done|].
    intros (o & s' & E & ->)%lift_Some.
    eapply (hand_sound (find_work me) c me Idle (go Found)); [|exact E|done|done].
    eapply safe_perm; [done| |by apply safe_find_work]. intros o1. by rewrite (Hgo Found).
  - destruct (hands c !! me) as [[|f|]|] eqn:Eh; try done. intros (o & s' & E & ->)%lift_Some.
    eapply (hand_sound _ c me (Found f) (go Driving)); [|exact E|done|done].
    eapply safe_perm; [done| |by apply safe_enter]. intros o1. by rewrite (Hgo Driving).
  - destruct (hands c !! me) as [[| |f]|] eqn:Eh; try done. intros (o & s' & E & ->)%lift_Some.
    eapply (hand_sound _ c me (Driving f) (go Driving)); [|exact E|done|done].
    eapply safe_perm; [done| |by apply safe_drive_once, (Hme me (Driving f))].
    intros o1. by rewrite (Hgo Driving).
  - intros (r & s' & E & ->)%lift_Some. eapply (calm_sound _ c); [apply calm_drive_turn|exact E|done].
  - intros (q & s' & E & ->)%lift_Some. eapply (calm_sound new_queue c); [|exact E|done].
    apply calm_same. by split.
  - destruct (sups c !! i) as [p|]; [|done]. intros (x & s' & E & ->)%lift_Some.
    eapply (calm_sound _ c); [apply calm_supervise|exact E|done].
  - destruct (sups c !! i) as [p|]; [|done]. intros (x & s' & E & ->)%lift_Some.
    eapply (calm_sound _ c); [apply calm_spawn_child|exact E|done].
  - intros (u & s' & E & ->)%lift_Some. eapply (calm_sound _ c); [apply calm_host|exact E|done].
Qed.

Lemma steps_sound c c' : sound c -> rtc step c c' -> sound c' /\ kept c c'.
Proof.
  intros Hc Hr. revert Hc. induction Hr as [c|c c1 c' [a Ha] _ IH]; intros Hc.
  - split; [done|]. split; [by left|done].
  - destruct (act_sound a c c1 Hc Ha) as [Hc1 K1]. destruct (IH Hc1) as [Hc' K2].
    split; [done|by eapply kept_trans].
Qed.

Lemma start_sound cfg w o : sound (start workers cfg w o).
Proof.
  unfold start, shared_new. destruct (CapTable.new (cells w)) as [t cs].
  assert (concat (replicate workers []) = ([] : list (Flow.t H))) as Ed
    by (induction workers; simpl; auto).
  assert (concat (map hand_flows (replicate workers Idle)) = ([] : list (Flow.t H))) as Eh
    by (induction workers; simpl; auto).
  split; simpl; [split; simpl| | |].
  - done.
  - by rewrite length_replicate.
  - done.
  - unfold free. simpl. by rewrite Ed.
  - intros m mb f Hm. by rewrite lookup_empty in Hm.
  - by rewrite length_replicate.
  - unfold in_hand. simpl. by rewrite Eh.
  - unfold in_hand. simpl. rewrite Eh. split; unfold population; simpl; rewrite Ed; constructor.
Qed.

(** C2: However the turns of the workers, the timer, the supervisors and the embedder
    interleave, a flow is never in two places: from the start of a runtime on, the flows in
    the workers' hands, in the injector, in the deques, in the timer and in the mailboxes
    (parked or waiting to send) have pairwise different mailboxes of their own; each has a
    frame to run, and a mailbox holds parked nobody but its owner. *)
Theorem one_place cfg w o c :
  rtc step (start workers cfg w o) c ->
  NoDup (map snd (everyone c)) /\
  Forall running (in_hand c ++ free (shared c) ++ held_flows (shared c)) /\
  (forall m mb f, mailboxes (shared c) !! m = Some mb ->
     MailboxInner.parked (guarded (Mailbox.inner mb)) = Some f -> Flow.mailbox f = m).
Proof.
  intros Hr. destruct (steps_sound _ _ (start_sound cfg w o) Hr) as [[[_ _ G1 G2 G3] _ Hh [Hn _]] _].
  split_and!; [exact Hn| |exact G3]. rewrite !Forall_app. auto.
Qed.

(** C1: The scheduler loses nobody: in a runtime that runs, however its threads and the
    embedder interleave, a flow that is in a worker's hands, in the injector, a deque, the
    timer or a mailbox is still in one of them at any later moment, unless its handle has
    been answered (with its outcome, or as closed); and an answer is never taken back. *)
Theorem loses_nobody cfg w o c c' k :
  rtc step (start workers cfg w o) c -> rtc step c c' -> k ∈ everyone c ->
  (k ∈ everyone c' \/ exists f, key f = k /\ answered (shared c') f) /\
  (forall f, answered (shared c) f -> answered (shared c') f).
Proof.
  intros Hr Hr' Hk. destruct (steps_sound _ _ (start_sound cfg w o) Hr) as [Hc _].
  destruct (steps_sound _ _ Hc Hr') as [_ [K A]]. split; [by apply K|exact A].
Qed.

End theory.

(** *** A run *)

Definition demo_act := acts Demo.random Demo.clock true Demo.debug 0 (H := unit) (R := Z).

(** A flow is spawned and driven until it waits for a hop. *)
Definition parking : list Action :=
  [AHost (HSpawn Demo.rt 0 []); AFind 0; AEnter 0; ADrive 0].
Definition demo_start : System :=
  start 1 RuntimeConfig.default (mk_world RevocationCell.empty_store ∅ 0%N tt) 100.

Lemma one_place_witness :
  match demo_act parking demo_start with
  | Some c => map (fun k => fst (fst k)) (everyone c) = [1] /\ map Flow.id (held_flows (shared c)) = [1] /\
      NoDup (map snd (everyone c))
  | None => False
  end.
Proof.
  destruct (demo_act parking demo_start) as [c|] eqn:E; [|exfalso; by vm_compute in E].
  destruct (one_place 1 Demo.random Demo.clock true Demo.debug 0 RuntimeConfig.default
    (mk_world RevocationCell.empty_store ∅ 0%N tt) 100 c) as (Hn & _).
  - by apply (acts_steps _ _ _ _ _ parking).
  - split_and!; [| |exact Hn]; vm_compute in E; injection E as <-; by vm_compute.
Defined.

Definition parked := demo_act parking demo_start.
Definition killed := demo_act (parking ++ [AHost (HKill 1)]) demo_start.

(** It is killed: its handle is answered. *)
Lemma loses_nobody_witness :
  match parked, killed with
  | Some c, Some c' => exists k, everyone c = [k] /\ everyone c' = [] /\
      exists f, key f = k /\ answered (shared c') f
  | _, _ => False
  end.
Proof.
  assert (exists k, everyone <$> parked = Some [k]) as [k Ek]
    by (eexists; vm_compute; reflexivity).
  assert (everyone <$> killed = Some []) as Ee
    by (vm_compute; reflexivity).
  assert (killed =
          parked ≫= demo_act [AHost (HKill 1)]) as E1
    by (vm_compute; reflexivity).
  revert Ek Ee E1.
  destruct (parked) as [c|] eqn:E; [|by intros [=]].
  destruct (killed) as [c'|] eqn:E'; [|by intros _ [=]].
  intros [= Ek] [= Ee] E1. exists k. split; [exact Ek|]. split; [exact Ee|].
  destruct (loses_nobody 1 Demo.random Demo.clock true Demo.debug 0 RuntimeConfig.default
    (mk_world RevocationCell.empty_store ∅ 0%N tt) 100 c c' k) as [[Hk|Hk] _].
  - exact (acts_steps _ _ _ _ _ parking _ _ E).
  - exact (acts_steps _ _ _ _ _ [AHost (HKill 1)] _ _ (eq_sym E1)).
  - rewrite Ek. apply list_elem_of_here.
  - rewrite Ee in Hk. destruct (not_elem_of_nil _ Hk).
  - exact Hk.
Defined.
