(* ===== verification/Harness.v ===== *)
(** The repository's own unit tests, on the model: how a test is written down.  A test that
    only evaluates functions is a boolean; one that works on an object is a script over the
    object's state that stops at its first failed assertion or [?]. *)

From S2P Require Import Prelude Capability Values.

Declare Scope test_scope.
#[global] Open Scope test_scope.

Definition is_ok {A E} (r : result A E) : bool := match r with Ok _ => true | Err _ => false end.
Definition is_err {A E} (P : E -> bool) (r : result A E) : bool :=
  match r with Ok _ => false | Err e => P e end.
Definition is_some {A} (o : option A) : bool := match o with Some _ => true | None => false end.
Definition holds {A} (P : A -> bool) (o : option A) : bool :=
  match o with Some a => P a | None => false end.

(** [assert_eq!] on values: [PartialEq]. *)
Definition value_is (v : Value.t) (o : option Value.t) : bool := holds (Value.eqb v) o.

Section script.
Context {S : Type}.

Definition Script (A : Type) : Type := S -> option (A * S).

Definition done_ {A} (a : A) : Script A := fun s => Some (a, s).
Definition then_ {A B} (m : Script A) (k : A -> Script B) : Script B := fun s =>
  match m s with Some (a, s') => k a s' | None => None end.
Definition fails {A} : Script A := fun _ => None.

(** A method of the object. *)
Definition call {A} (f : S -> A * S) : Script A := fun s => Some (f s).
Definition change (f : S -> S) : Script unit := fun s => Some (tt, f s).
Definition read {A} (f : S -> A) : Script A := fun s => Some (f s, s).
(** ... that may panic. *)
Definition run_ {A} (f : S -> option A * S) : Script A := fun s =>
  match f s with (Some a, s') => Some (a, s') | (None, _) => None end.

Definition assert (b : bool) : Script unit := if b then done_ tt else fails.
(** [?] on a result, and [ok_or(..)?]. *)
Definition try_ {A E} (r : result A E) : Script A := match r with Ok a => done_ a | Err _ => fails end.
Definition some_ {A} (o : option A) : Script A := match o with Some a => done_ a | None => fails end.

Definition passes {A} (m : Script A) (s : S) : bool := is_some (m s).

End script.
Arguments Script : clear implicits.

Notation "'let%' x ':=' m 'in' k" := (then_ m (fun x => k))
  (at level 10, x pattern, m at level 200, k at level 200) : test_scope.
Notation "m ;% k" := (then_ m (fun _ => k)) (at level 100, k at level 200, right associativity) : test_scope.

(** The tests of a module, with their names. *)
Definition suite : Type := list (string * bool).
Definition all_pass (ts : suite) : bool := forallb snd ts.
(** The names of those that fail. *)
Definition failing (ts : suite) : list string := map fst (filter (fun t => snd t = false) ts).
