(* ===== verification/TestsBytecode.v ===== *)
(** The unit tests of bytecode/: values, capabilities, the builder, the verifier, the module
    format, the structured assembler and the disassembler. *)

From S2P Require Import Prelude Capability F64 Values Isa Display Verify Format Builder Native Program.
From S2P Require Import Harness Vm VmTheory.
From S2P Require Samples.

(** ** bytecode/value.rs *)

Module ValueTests.

(** Each [Value::str] and [Value::bytes] is an allocation of its own. *)
Definition str (p : ptr) (s : string) : Value.t := Value.str p (ascii_bytes s).
Definition bytes (p : ptr) (b : list Z) : Value.t := Value.bytes p (map byte_of b).

(** [bytecode/value.rs] [tests::message_is_truthy_and_round_trips_helpers] *)
Definition message_is_truthy_and_round_trips_helpers : bool :=
  let m := Msg.new 7 99 10 (Value.from_u64 1) in
  let v := Value.Message m in
  Value.is_truthy v &&
  value_is v (Value.Message <$> Value.as_message v) &&
  String.eqb (Value.type_name v) "message" &&
  Value.eqb (payload m) (Value.Int 1).

(** [bytecode/value.rs] [tests::authenticate_stamps_sender_and_reply_cap] *)
Definition authenticate_stamps_sender_and_reply_cap : bool :=
  let reply := CapId.from_raw 7 in
  let m := Msg.authenticate (Msg.new 999 1 2 (Value.from_u64 3)) 42 reply in
  (sender m =? 42) && (reply_cap m =? reply) && (request_id m =? 1).

(** [bytecode/value.rs] [tests::str_payload_is_charged_on_the_hop] *)
Definition str_payload_is_charged_on_the_hop : bool :=
  let hop := Value.Message (Msg.new 1 1 1 (str 1%N "hello")) in
  5 <=? Value.heap_size hop.

(** [bytecode/value.rs] [tests::cap_is_truthy] *)
Definition cap_is_truthy : bool :=
  let cap := CapId.from_raw 3 in
  Value.is_truthy (Value.Cap cap) &&
  holds (fun c => c =? cap) (Value.as_cap (Value.Cap cap)).

(** [bytecode/value.rs] [tests::str_and_bytes_helpers] *)
Definition str_and_bytes_helpers : bool :=
  let s := str 1%N "hi" in
  let b := bytes 2%N [1; 2; 3] in
  bool_decide (Value.as_str s = Some (ascii_bytes "hi")) &&
  String.eqb (Value.type_name s) "str" &&
  Value.is_truthy s && negb (Value.is_truthy (str 3%N "")) &&
  bool_decide (Value.as_bytes b = Some (map byte_of [1; 2; 3])) &&
  String.eqb (Value.type_name b) "bytes" &&
  Value.is_truthy b && negb (Value.is_truthy (bytes 4%N [])) &&
  bool_decide (Value.as_bytes s = Some (ascii_bytes "hi")).

(** [bytecode/value.rs] [tests::str_eq_compares_content] *)
Definition str_eq_compares_content : bool :=
  Value.eqb (str 1%N "a") (str 2%N "a") && negb (Value.eqb (str 3%N "a") (str 4%N "b")) &&
  Value.eqb (bytes 5%N [9]) (bytes 6%N [9]).

Definition all : suite :=
  [("message_is_truthy_and_round_trips_helpers", message_is_truthy_and_round_trips_helpers);
   ("authenticate_stamps_sender_and_reply_cap", authenticate_stamps_sender_and_reply_cap);
   ("str_payload_is_charged_on_the_hop", str_payload_is_charged_on_the_hop);
   ("cap_is_truthy", cap_is_truthy);
   ("str_and_bytes_helpers", str_and_bytes_helpers);
   ("str_eq_compares_content", str_eq_compares_content)]%string.

End ValueTests.

(** ** bytecode/cap.rs *)

Module CapTests.

(** [bytecode/cap.rs] [tests::none_is_zero_and_random_is_not]: with the bytes the operating
    system gives, two draws. *)
Definition none_is_zero_and_random_is_not {R} (rng : R -> option (list byte) * R) (r : R) : bool :=
  CapId.is_none CapId.NONE &&
  match CapId.random rng r with
  | (Ok a, r) =>
    match CapId.random rng r with
    | (Ok b, _) => negb (CapId.is_none a) && negb (CapId.is_none b) && negb (a =? b)
    | (Err _, _) => false
    end
  | (Err _, _) => false
  end.

(** [bytecode/cap.rs] [tests::from_raw_is_crate_internal] *)
Definition from_raw_is_crate_internal : bool :=
  (CapId.from_raw 0 =? CapId.NONE) && negb (CapId.is_none (CapId.from_raw 1)).

(** [bytecode/cap.rs] [tests::send_ask_bits_stay_compatible] *)
Definition send_ask_bits_stay_compatible : bool :=
  (CapRights.bits CapRights.SEND =? 1) && (CapRights.bits CapRights.ASK =? 2) &&
  (CapRights.bits CapRights.SEND_ASK =? 3) && (3 <? CapRights.bits CapRights.ADMIN).

(** A cell of its own. *)
Definition cell_store : RevocationCell.ref * RevocationCell.store :=
  RevocationCell.new RevocationCell.empty_store.

(** [bytecode/cap.rs] [tests::attenuation_never_escalates] *)
Definition attenuation_never_escalates : bool :=
  let (cell, s) := cell_store in
  let nm := NativeMask.from_indices 128 [3; 5; 9] in
  let parent := Cap.root (CapTarget.Flow 1) (CapRights.union CapRights.SEND CapRights.NATIVE)
                  (Some nm) s cell in
  let child := Cap.attenuate parent (CapRights.union CapRights.SEND CapRights.ADMIN) None in
  let wide := NativeMask.full 128 in
  let child2 := Cap.attenuate parent CapRights.NATIVE (Some wide) in
  negb (CapRights.contains (Cap.rights child) CapRights.ADMIN) &&
  CapRights.contains (Cap.rights child) CapRights.SEND &&
  holds (fun m => NativeMask.allows m 3) (Cap.native_mask child2) &&
  holds (fun m => negb (NativeMask.allows m 7)) (Cap.native_mask parent).

(** The bytes [0..=255]. *)
Definition all_bytes : list Z := map Z.of_nat (seq 0 256).

(** [bytecode/cap.rs] [tests::attenuation_is_subset_for_all_byte_masks] *)
Definition attenuation_is_subset_for_all_byte_masks : bool :=
  let (cell, s) := cell_store in
  forallb (fun src =>
    forallb (fun want =>
      let parent := Cap.root (CapTarget.Flow 1) (CapRights.from_bits src) None s cell in
      let child := Cap.attenuate parent (CapRights.from_bits want) None in
      CapRights.is_subset_of (Cap.rights child) (Cap.rights parent) &&
      (CapRights.bits (Cap.rights child) =? Z.land src want)) all_bytes) all_bytes.

(** [bytecode/cap.rs] [tests::chained_delegate_never_gains_bits] *)
Definition chained_delegate_never_gains_bits : bool :=
  let (cell, s) := cell_store in
  let cap := Cap.root (CapTarget.Flow 1) CapRights.FLOW
               (Some (NativeMask.from_indices 32 [0; 1; 2])) s cell in
  let adversarial :=
    [CapRights.ADMIN; CapRights.union CapRights.NATIVE CapRights.ADMIN;
     CapRights.from_bits u32_max; CapRights.NONE; CapRights.FLOW] in
  snd (fold_left (fun '(cap, ok) want =>
    let cap := Cap.attenuate cap want (Some (NativeMask.full 32)) in
    (cap, ok && CapRights.is_subset_of (Cap.rights cap) CapRights.FLOW &&
          negb (CapRights.contains (Cap.rights cap) CapRights.ADMIN) &&
          match Cap.native_mask cap with
          | Some mask => negb (NativeMask.allows mask 7)
          | None => true
          end)) adversarial (cap, true)).

(** [bytecode/cap.rs] [tests::revocation_kills_all_derived_caps] *)
Definition revocation_kills_all_derived_caps : bool :=
  let (cell, s) := cell_store in
  let root := Cap.root (CapTarget.Flow 1) CapRights.SEND None s cell in
  let child := Cap.attenuate root CapRights.SEND None in
  let s' := RevocationCell.revoke s cell in
  Cap.is_valid child s cell && negb (Cap.is_valid child s' cell) &&
  negb (Cap.is_valid root s' cell).

Definition all {R} (rng : R -> option (list byte) * R) (r : R) : suite :=
  [("none_is_zero_and_random_is_not", none_is_zero_and_random_is_not rng r);
   ("from_raw_is_crate_internal", from_raw_is_crate_internal);
   ("send_ask_bits_stay_compatible", send_ask_bits_stay_compatible);
   ("attenuation_never_escalates", attenuation_never_escalates);
   ("attenuation_is_subset_for_all_byte_masks", attenuation_is_subset_for_all_byte_masks);
   ("chained_delegate_never_gains_bits", chained_delegate_never_gains_bits);
   ("revocation_kills_all_derived_caps", revocation_kills_all_derived_caps)]%string.

End CapTests.

(** ** bytecode/builder.rs *)

(** A builder in the body of a first function. *)
Definition in_function (name fname : string) (arity num_registers : Z) : ChunkBuilder.t :=
  snd (ChunkBuilder.begin_function (ChunkBuilder.new (ascii_bytes name)) (ascii_bytes fname) arity
    num_registers).

Definition op_is (op : Opcode.t) (i : option Instruction.t) : bool :=
  holds (fun i => bool_decide (Instruction.op i = op)) i.

Module BuilderTests.

(** [bytecode/macros.rs:22-26] [emit_native1_from!] *)
Definition emit_native1_from_macro (builder : ChunkBuilder.t) (dest src native : Z) : ChunkBuilder.t :=
  ChunkBuilder.emit_native1_from builder dest src native.

(** [bytecode/macros.rs:30-34] [emit_native_n!] *)
Definition emit_native_n_macro (builder : ChunkBuilder.t) (base native argc : Z) : ChunkBuilder.t :=
  ChunkBuilder.emit_native_n builder base native argc.

(** [bytecode/builder.rs] [tests::emit_native1_from_never_clobbers_source_register] *)
Definition emit_native1_from_never_clobbers_source_register : bool :=
  let b := in_function "clobber-test" "main" 0 8 in
  let b := ChunkBuilder.emit_native1_from b 1 0 10 in
  let b := ChunkBuilder.emit_native1_from b 2 0 11 in
  let b := ChunkBuilder.emit_native1_from b 3 0 12 in
  let code := Chunk.code (ChunkBuilder.finish b) in
  (length code =? 6)%nat &&
  forallb (fun '(move_idx, call_idx, expected_native) =>
    op_is Opcode.Move (code !! (move_idx : nat)) &&
    holds (fun i => Instruction.b i =? 0) (code !! move_idx) &&
    op_is Opcode.CallNative (code !! (call_idx : nat)) &&
    holds (fun i => negb (Instruction.a i =? 0) && (Instruction.imm i =? expected_native))
      (code !! call_idx))
    [(0%nat, 1%nat, 10); (2%nat, 3%nat, 11); (4%nat, 5%nat, 12)].

(** [bytecode/builder.rs] [tests::emit_native_n_is_a_plain_call_native_with_no_extra_instructions] *)
Definition emit_native_n_is_a_plain_call_native_with_no_extra_instructions : bool :=
  let b := in_function "native-n-test" "main" 0 8 in
  let b := ChunkBuilder.emit_load_imm b 1 7 in
  let b := ChunkBuilder.emit_load_imm b 2 1 in
  let b := ChunkBuilder.emit_native_n b 1 99 2 in
  let code := Chunk.code (ChunkBuilder.finish b) in
  (length code =? 3)%nat && op_is Opcode.CallNative (code !! 2%nat) &&
  holds (fun i => (Instruction.a i =? 1) && (Instruction.b i =? 2) && (Instruction.imm i =? 99))
    (code !! 2%nat).

(** [bytecode/builder.rs] [tests::macro_forms_produce_identical_bytecode_to_the_methods] *)
Definition macro_forms_produce_identical_bytecode_to_the_methods : bool :=
  let via_method := in_function "via-method" "main" 0 8 in
  let via_method := ChunkBuilder.emit_native1_from via_method 1 0 10 in
  let via_method := ChunkBuilder.emit_native_n via_method 1 99 2 in
  let via_macro := in_function "via-macro" "main" 0 8 in
  let via_macro := emit_native1_from_macro via_macro 1 0 10 in
  let via_macro := emit_native_n_macro via_macro 1 99 2 in
  bool_decide (Chunk.code (ChunkBuilder.finish via_method) = Chunk.code (ChunkBuilder.finish via_macro)).

Definition all : suite :=
  [("emit_native1_from_never_clobbers_source_register",
     emit_native1_from_never_clobbers_source_register);
   ("emit_native_n_is_a_plain_call_native_with_no_extra_instructions",
     emit_native_n_is_a_plain_call_native_with_no_extra_instructions);
   ("macro_forms_produce_identical_bytecode_to_the_methods",
     macro_forms_produce_identical_bytecode_to_the_methods)]%string.

End BuilderTests.

(** The addition of a constant and an immediate, of the tests of the verifier and the
    format. *)
Definition addition (checks : bool) (name : string) (k : Z) : option Chunk.t :=
  let b := in_function name "main" 0 2 in
  let (k, b) := ChunkBuilder.const_ b (Value.Int k) in
  let b := ChunkBuilder.emit_load_const b 0 k in
  let b := ChunkBuilder.emit_load_imm b 1 1 in
  b ← ChunkBuilder.emit_binop checks b Opcode.Add 0 0 1;
  Some (ChunkBuilder.finish (ChunkBuilder.emit_return b 0)).

(** One constant, loaded and returned. *)
Definition returning_constant (name : string) (v : Value.t) : Chunk.t :=
  let b := in_function name "main" 0 1 in
  let (k, b) := ChunkBuilder.const_ b v in
  ChunkBuilder.finish (ChunkBuilder.emit_return (ChunkBuilder.emit_load_const b 0 k) 0).

(** ** bytecode/verify.rs *)

Module VerifyTests.

#[local] Instance verify_error_eq_dec : EqDecision VerifyError.
Proof. solve_decision. Defined.

(** A function that returns its first register. *)
Definition returning_first (arity num_registers : Z) : Chunk.t :=
  ChunkBuilder.finish (ChunkBuilder.emit_return (in_function "test" "main" arity num_registers) 0).

Section checks.
Context (checks : bool).

(** [bytecode/verify.rs] [tests::rejects_empty_function_table] *)
Definition rejects_empty_function_table : bool :=
  is_err (fun e => bool_decide (e = EmptyFunctionTable)) (verify Chunk.default).

(** [bytecode/verify.rs] [tests::accepts_well_formed_chunk] *)
Definition accepts_well_formed_chunk : bool :=
  holds (fun chunk => is_ok (verify chunk)) (addition checks "test" 41).

(** [bytecode/verify.rs] [tests::rejects_arity_larger_than_the_register_file] *)
Definition rejects_arity_larger_than_the_register_file : bool :=
  is_err (fun e => bool_decide (e = ArityExceedsRegisters 0 3 1)) (verify (returning_first 3 1)).

(** [bytecode/verify.rs] [tests::accepts_arity_equal_to_the_register_file] *)
Definition accepts_arity_equal_to_the_register_file : bool := is_ok (verify (returning_first 2 2)).

(** [bytecode/verify.rs] [tests::rejects_out_of_range_jump] *)
Definition rejects_out_of_range_jump : bool :=
  let chunk := Chunk.mk [] [] [Instruction.only_imm Opcode.Jump 999]
                 [FunctionDef.mk (ascii_bytes "main") 0 0 1] in
  is_err (fun e => match e with JumpOutOfRange _ _ _ => true | _ => false end) (verify chunk).

(** [bytecode/verify.rs] [tests::untrusted_rejects_cap_pid_message_constants] *)
Definition untrusted_rejects_cap_pid_message_constants : bool :=
  forallb (fun '(value, kind) =>
    let chunk := returning_constant "forge" value in
    is_err (fun e => bool_decide (e = ForbiddenConstant 0 kind)) (verify chunk) &&
    is_ok (verify_with chunk {| trust := Trusted |}))
    [(Value.Cap (CapId.from_raw 1), Capability); (Value.Pid 7, ProcessId);
     (Value.Message (Msg.new 1 2 3 (Value.from_u64 4)), MessageKind)].

Definition all : suite :=
  [("rejects_empty_function_table", rejects_empty_function_table);
   ("accepts_well_formed_chunk", accepts_well_formed_chunk);
   ("rejects_arity_larger_than_the_register_file", rejects_arity_larger_than_the_register_file);
   ("accepts_arity_equal_to_the_register_file", accepts_arity_equal_to_the_register_file);
   ("rejects_out_of_range_jump", rejects_out_of_range_jump);
   ("untrusted_rejects_cap_pid_message_constants", untrusted_rejects_cap_pid_message_constants)]%string.

End checks.
End VerifyTests.

(** ** bytecode/format.rs *)

Module FormatTests.
Import Format.

(** [Chunk]s are compared field by field, constants with [PartialEq]. *)
Definition same_constants (a b : Chunk.t) : bool :=
  (length (Chunk.constants a) =? length (Chunk.constants b))%nat &&
  forallb (fun p => Value.eqb (fst p) (snd p)) (zip (Chunk.constants a) (Chunk.constants b)).

#[local] Instance function_eq_dec : EqDecision FunctionDef.t.
Proof. solve_decision. Defined.

Section checks.
Context (checks : bool).

(** [bytecode/format.rs] [tests::roundtrip_preserves_chunk] *)
Definition roundtrip_preserves_chunk : bool :=
  holds (fun original =>
    let bytes := encode original in
    bool_decide (firstn 4 bytes = Chunk.MAGIC) &&
    match decode bytes with
    | Ok decoded =>
      is_ok (verify decoded) &&
      bool_decide (Chunk.name decoded = Chunk.name original) &&
      same_constants decoded original &&
      bool_decide (Chunk.code decoded = Chunk.code original) &&
      bool_decide (Chunk.functions decoded = Chunk.functions original)
    | Err _ => false
    end) (addition checks "roundtrip" 9).

(** [bytecode/format.rs] [tests::roundtrip_preserves_message_constant] *)
Definition roundtrip_preserves_message_constant : bool :=
  let original := returning_constant "msg-const" (Value.Message (Msg.new 1 2 3 (Value.from_u64 4))) in
  match decode_with (encode original) Trusted with
  | Ok decoded =>
    same_constants decoded original &&
    holds (fun got => (sender got =? 1) && (request_id got =? 2) && (tag got =? 3) &&
                      Value.eqb (payload got) (Value.Int 4))
      (head (Chunk.constants decoded) ≫= Value.as_message)
  | Err _ => false
  end.

(** [bytecode/format.rs] [tests::untrusted_decode_rejects_cap_constant] *)
Definition untrusted_decode_rejects_cap_constant : bool :=
  let bytes := encode (returning_constant "cap-const" (Value.Cap (CapId.from_raw 1))) in
  is_err (fun e => match e with Format.ForbiddenConstant _ => true | _ => false end) (decode bytes) &&
  is_ok (decode_with bytes Trusted).

(** "olá" in UTF-8. *)
Definition ola : list byte := ascii_bytes "ol" ++ map byte_of [195; 161].

(** [bytecode/format.rs] [tests::roundtrip_preserves_str_and_bytes_constants] *)
Definition roundtrip_preserves_str_and_bytes_constants : bool :=
  let b := in_function "blob-const" "main" 0 2 in
  let (ks, b) := ChunkBuilder.const_ b (Value.str 1%N ola) in
  let (kb, b) := ChunkBuilder.const_ b (Value.bytes 2%N (map byte_of [0; 255; 7])) in
  let b := ChunkBuilder.emit_load_const b 0 ks in
  let b := ChunkBuilder.emit_load_const b 1 kb in
  let original := ChunkBuilder.finish (ChunkBuilder.emit_return b 0) in
  match decode (encode original) with
  | Ok decoded =>
    same_constants decoded original &&
    bool_decide (Chunk.constants decoded !! 0%nat ≫= Value.as_str = Some ola) &&
    bool_decide (Chunk.constants decoded !! 1%nat ≫= Value.as_bytes = Some (map byte_of [0; 255; 7]))
  | Err _ => false
  end.

(** [bytecode/format.rs] [tests::rejects_bad_magic] *)
Definition rejects_bad_magic : bool :=
  is_err (fun e => match e with BadMagic _ => true | _ => false end) (decode (ascii_bytes "XXXX")).

Definition all : suite :=
  [("roundtrip_preserves_chunk", roundtrip_preserves_chunk);
   ("roundtrip_preserves_message_constant", roundtrip_preserves_message_constant);
   ("untrusted_decode_rejects_cap_constant", untrusted_decode_rejects_cap_constant);
   ("roundtrip_preserves_str_and_bytes_constants", roundtrip_preserves_str_and_bytes_constants);
   ("rejects_bad_magic", rejects_bad_magic)]%string.

End checks.
End FormatTests.

(** ** bytecode/program.rs *)

Module ProgramTests.

Section checks.
Context (checks : bool).

(** [bytecode/program.rs] [tests::count_to] *)
Definition count_to (n : Z) : option Chunk.t :=
  '(_, program) ← Program.function (Program.new (ascii_bytes "count")) (ascii_bytes "main") 0
    (let& limit := load_int n in
     let& counter := load_i32 0 in
     let& _ := while_lt checks counter limit (add_imm checks counter 1) in
     return_ counter);
  Some (Program.build program).

(** [bytecode/program.rs] [tests::function_raw_keeps_declared_register_file_for_verify] *)
Definition function_raw_keeps_declared_register_file_for_verify : bool :=
  holds (fun '(_, program) =>
    let chunk := Program.build program in
    holds (fun def => (FunctionDef.arity def =? 3) && (FunctionDef.num_registers def =? 1))
      (head (Chunk.functions chunk)) &&
    is_err (fun e => match e with ArityExceedsRegisters 0 3 1 => true | _ => false end) (verify chunk))
    (Program.function_raw (Program.new (ascii_bytes "malformed")) (ascii_bytes "main") 3 1
       (let& r0 := reg 0 in return_ r0)).

(** [bytecode/program.rs] [tests::count_loop_returns_n] *)
Definition count_loop_returns_n : bool :=
  holds (fun chunk =>
    match Vm.new chunk (@NativeTable.empty unit) 0 [] no_world with
    | (Ok vm, w) =>
      match fst (run checks (Z.to_nat 10000) (mk_state vm w)) with
      | Some (VmResult.Complete (Value.Int 100)) => true
      | _ => false
      end
    | (Err _, _) => false
    end) (count_to 100).

(** [bytecode/program.rs] [tests::ping_pong_shape] *)
Definition ping_pong_shape : bool :=
  holds (fun chunk =>
    is_ok (verify chunk) &&
    existsb (fun f => bool_decide (FunctionDef.name f = ascii_bytes "main")) (Chunk.functions chunk) &&
    existsb (fun f => bool_decide (FunctionDef.name f = ascii_bytes "pong")) (Chunk.functions chunk))
    (Samples.ping_pong checks).

Definition all : suite :=
  [("function_raw_keeps_declared_register_file_for_verify",
     function_raw_keeps_declared_register_file_for_verify);
   ("count_loop_returns_n", count_loop_returns_n);
   ("ping_pong_shape", ping_pong_shape)]%string.

End checks.
End ProgramTests.

(** ** bytecode/disasm.rs *)

Module DisasmTests.
Import Fmt.

(** [text.contains(..)] *)
Fixpoint contains (text pattern : list byte) : bool :=
  bool_decide (firstn (length pattern) text = pattern) ||
  match text with [] => false | _ :: text => contains text pattern end.

(** [bytecode/disasm.rs] [tests::lists_main] *)
Definition lists_main `{Unicode} : bool :=
  let b := in_function "d" "main" 0 1 in
  let b := ChunkBuilder.emit_return (ChunkBuilder.emit_load_imm b 0 1) 0 in
  let text := disassemble (ChunkBuilder.finish b) in
  contains text (ascii_bytes "LoadImm r0, 1") && contains text (ascii_bytes "main").

Definition all `{Unicode} : suite := [("lists_main", lists_main)]%string.

End DisasmTests.

(** Every unit test of bytecode/. *)
Definition bytecode_tests `{Fmt.Unicode} {R} (rng : R -> option (list byte) * R) (r : R) (checks : bool) : suite :=
  ValueTests.all ++ CapTests.all rng r ++ BuilderTests.all ++ VerifyTests.all checks ++
  FormatTests.all checks ++ ProgramTests.all checks ++ DisasmTests.all.
