(* ===== verification/TestsMailbox.v ===== *)
(** The unit tests of scheduler/mailbox/. *)

From S2P Require Import Prelude Capability Values Isa Verify Builder Sync Quota Native Vm VmTheory Process.
From S2P Require Import Mailbox Harness.

#[local] Instance policy_eq_dec : EqDecision OverflowPolicy.
Proof. solve_decision. Defined.
#[local] Instance full_reason_eq_dec : EqDecision MailboxFullReason.
Proof. solve_decision. Defined.
#[local] Instance enqueue_effect_eq_dec : EqDecision EnqueueEffect.
Proof. solve_decision. Defined.

(** ** scheduler/mailbox/capacity.rs *)

Module CapacityTests.

(** [scheduler/mailbox/capacity.rs] [tests::rejects_zero_and_over_max] *)
Definition rejects_zero_and_over_max : bool :=
  negb (is_some (MailboxCapacity.new 0)) &&
  negb (is_some (MailboxCapacity.new (MailboxCapacity.MAX + 1))) &&
  holds (fun min => MailboxCapacity.get min =? 1) (MailboxCapacity.new 1) &&
  holds (fun max => MailboxCapacity.get max =? MailboxCapacity.MAX)
    (MailboxCapacity.new MailboxCapacity.MAX).

(** [scheduler/mailbox/capacity.rs] [tests::default_is_compile_time_valid] *)
Definition default_is_compile_time_valid : bool :=
  (MailboxCapacity.get MailboxCapacity.DEFAULT =? 256) && is_some (MailboxCapacity.new 256).

(** [scheduler/mailbox/capacity.rs] [tests::byte_budget_rejects_out_of_range] *)
Definition byte_budget_rejects_out_of_range : bool :=
  negb (is_some (MailboxBytes.new 0)) &&
  negb (is_some (MailboxBytes.new (MailboxBytes.MIN - 1))) &&
  negb (is_some (MailboxBytes.new (MailboxBytes.MAX + 1))) &&
  holds (fun min => MailboxBytes.get min =? MailboxBytes.MIN) (MailboxBytes.new MailboxBytes.MIN).

(** [scheduler/mailbox/capacity.rs] [tests::byte_budget_default_holds_a_full_scalar_inbox] *)
Definition byte_budget_default_holds_a_full_scalar_inbox `{ValueLayout} : bool :=
  let worst := MailboxCapacity.get MailboxCapacity.DEFAULT * size_of_value in
  worst <? MailboxBytes.get MailboxBytes.DEFAULT.

(** [scheduler/mailbox/capacity.rs] [tests::byte_budget_default_fits_one_max_hop] *)
Definition byte_budget_default_fits_one_max_hop `{ValueLayout} : bool :=
  let MAX_BLOB := 1048576 in
  let biggest := Value.bytes 0%N (replicate (Z.to_nat MAX_BLOB) (byte_of 0)) in
  Value.memory_size biggest <=? MailboxBytes.get MailboxBytes.DEFAULT.

Lemma blob_size `{ValueLayout} p n b :
  Value.memory_size (Value.bytes p (replicate n b)) = size_of_value + Z.of_nat n.
Proof. simpl. by rewrite length_replicate. Qed.

(** The blob of 2^20 bytes is not computed. *)
Lemma max_hop_fits : byte_budget_default_fits_one_max_hop = true.
Proof.
  cbv beta zeta delta [byte_budget_default_fits_one_max_hop].
  rewrite blob_size, Z2Nat.id by done. reflexivity.
Qed.

Definition all : suite :=
  [("rejects_zero_and_over_max", rejects_zero_and_over_max);
   ("default_is_compile_time_valid", default_is_compile_time_valid);
   ("byte_budget_rejects_out_of_range", byte_budget_rejects_out_of_range);
   ("byte_budget_default_holds_a_full_scalar_inbox", byte_budget_default_holds_a_full_scalar_inbox)]%string.

End CapacityTests.

(** ** scheduler/mailbox/policy.rs *)

Module PolicyTests.

(** [scheduler/mailbox/policy.rs] [tests::default_is_reject_256] *)
Definition default_is_reject_256 : bool :=
  let c := MailboxConfig.DEFAULT in
  (MailboxCapacity.get (MailboxConfig.capacity c) =? 256) &&
  (MailboxBytes.get (MailboxConfig.bytes c) =? MailboxBytes.get MailboxBytes.DEFAULT) &&
  bool_decide (MailboxConfig.overflow c = Reject).

(** [scheduler/mailbox/policy.rs] [tests::new_preserves_parts] *)
Definition new_preserves_parts : bool :=
  holds (fun cap =>
    let c := MailboxConfig.new cap DropOldest in
    (MailboxCapacity.get (MailboxConfig.capacity c) =? 4) &&
    bool_decide (MailboxConfig.overflow c = DropOldest) &&
    (MailboxBytes.get (MailboxConfig.bytes c) =? MailboxBytes.get MailboxBytes.DEFAULT))
    (MailboxCapacity.new 4).

(** [scheduler/mailbox/policy.rs] [tests::with_bytes_narrows_only_the_budget] *)
Definition with_bytes_narrows_only_the_budget : bool :=
  holds (fun cap =>
    holds (fun budget =>
      let c := MailboxConfig.with_bytes (MailboxConfig.new cap DropOldest) budget in
      (MailboxBytes.get (MailboxConfig.bytes c) =? 8192) &&
      (MailboxCapacity.get (MailboxConfig.capacity c) =? 4) &&
      bool_decide (MailboxConfig.overflow c = DropOldest))
      (MailboxBytes.new 8192)) (MailboxCapacity.new 4).

Definition all : suite :=
  [("default_is_reject_256", default_is_reject_256);
   ("new_preserves_parts", new_preserves_parts);
   ("with_bytes_narrows_only_the_budget", with_bytes_narrows_only_the_budget)]%string.

End PolicyTests.

Definition zeros (len : Z) : Value.t := Value.bytes 0%N (replicate (Z.to_nat len) (byte_of 0)).
Definition payload_int (m : Message) : Z := default 0 (Value.as_int (payload m)).

(** ** scheduler/mailbox/queue.rs *)

Module QueueTests.
Import MailboxQueue.

(** [scheduler/mailbox/queue.rs:185-198] [ROOMY, hop, blob, hop_payload_int] *)
Definition ROOMY : Z := Z.shiftl 1 20.
Definition hop (n : Z) : Value.t := Value.Message (Msg.new 1 n 1 (Value.from_u64 n)).
Definition blob (len : Z) : Value.t := zeros len.
Definition hop_payload_int (msg : Message) : Z := payload_int msg.

Abbreviation Test := (Script MailboxQueue.t unit).

(** [assert_eq!] of an [enqueue]. *)
Definition answers (r : result EnqueueEffect MailboxFullReason) (v : Value.t) (policy : OverflowPolicy)
  : Test :=
  let% got := call (fun q => enqueue q v policy) in
  assert (match got, r with
          | Ok a, Ok b => bool_decide (a = b)
          | Err a, Err b => bool_decide (a = b)
          | _, _ => false
          end).

(** [let _ = q.enqueue(..)]. *)
Definition enqueued (v : Value.t) (policy : OverflowPolicy) : Test :=
  let% _ := call (fun q => enqueue q v policy) in done_ tt.

(** [scheduler/mailbox/queue.rs] [tests::hop_payload] *)
Definition hop_payload : Script MailboxQueue.t Z :=
  let% v := call (fun q => take q WaitFilter.Any) in
  let% v := some_ v in
  let% m := some_ (Value.as_message v) in
  done_ (hop_payload_int m).

Definition payload_is (n : Z) : Test := let% m := hop_payload in assert (m =? n).
Definition length_is (n : Z) : Test := let% l := read len in assert (l =? n).

(** [scheduler/mailbox/queue.rs] [tests::reject_at_limit] *)
Definition reject_at_limit : bool :=
  passes (answers (Ok Enqueued) (hop 1) Reject ;%
          answers (Ok Enqueued) (hop 2) Reject ;%
          answers (Err MessageLimit) (hop 3) Reject ;%
          length_is 2) (new 2 ROOMY).

(** [scheduler/mailbox/queue.rs] [tests::drop_newest_keeps_old] *)
Definition drop_newest_keeps_old : bool :=
  passes (enqueued (hop 1) DropNewest ;%
          answers (Ok DroppedNewestHop) (hop 2) DropNewest ;%
          payload_is 1) (new 1 ROOMY).

(** [scheduler/mailbox/queue.rs] [tests::drop_oldest_slides] *)
Definition drop_oldest_slides : bool :=
  passes (enqueued (hop 1) DropOldest ;% enqueued (hop 2) DropOldest ;%
          answers (Ok DroppedOldestHop) (hop 3) DropOldest ;%
          payload_is 2 ;% payload_is 3) (new 2 ROOMY).

(** [scheduler/mailbox/queue.rs] [tests::byte_limit_rejects_long_before_the_hop_count] *)
Definition byte_limit_rejects_long_before_the_hop_count : bool :=
  passes (answers (Ok Enqueued) (blob 3000) Reject ;%
          answers (Err ByteLimit) (blob 3000) Reject ;%
          length_is 1) (new 64 4096).

(** [scheduler/mailbox/queue.rs] [tests::take_refunds_the_charge] *)
Definition take_refunds_the_charge : bool :=
  passes (enqueued (blob 3000) Reject ;%
          let% b := read bytes in assert (3000 <=? b) ;%
          let% v := call (fun q => take q WaitFilter.Any) in assert (is_some v) ;%
          let% b := read bytes in assert (b =? 0) ;%
          answers (Ok Enqueued) (blob 3000) Reject) (new 64 4096).

(** [scheduler/mailbox/queue.rs] [tests::selective_take_refunds_the_right_charge] *)
Definition selective_take_refunds_the_right_charge : bool :=
  let first := hop 1 in
  let first_cost := Value.memory_size first in
  passes (enqueued first Reject ;% enqueued (blob 3000) Reject ;% enqueued (hop 2) Reject ;%
          let% charged := read bytes in
          let% v := call (fun q => take q (WaitFilter.Tag 1)) in assert (is_some v) ;%
          let% b := read bytes in assert (b =? charged - first_cost) ;%
          length_is 2) (new 64 ROOMY).

(** [scheduler/mailbox/queue.rs] [tests::hop_larger_than_the_whole_budget_is_refused_even_by_drop_oldest] *)
Definition hop_larger_than_the_whole_budget_is_refused_even_by_drop_oldest : bool :=
  passes (enqueued (hop 1) DropOldest ;%
          answers (Err ByteLimit) (blob 4000) DropOldest) (new 64 2048).

(** [scheduler/mailbox/queue.rs] [tests::drop_oldest_evicts_as_many_as_the_byte_budget_needs] *)
Definition drop_oldest_evicts_as_many_as_the_byte_budget_needs : bool :=
  passes (answers (Ok Enqueued) (blob 1000) DropOldest ;%
          answers (Ok Enqueued) (blob 1000) DropOldest ;%
          answers (Ok Enqueued) (blob 1000) DropOldest ;%
          answers (Ok DroppedOldestHop) (blob 3000) DropOldest ;%
          let% b := read bytes in assert (b <=? 4096)) (new 64 4096).

Definition all : suite :=
  [("reject_at_limit", reject_at_limit);
   ("drop_newest_keeps_old", drop_newest_keeps_old);
   ("drop_oldest_slides", drop_oldest_slides);
   ("byte_limit_rejects_long_before_the_hop_count", byte_limit_rejects_long_before_the_hop_count);
   ("take_refunds_the_charge", take_refunds_the_charge);
   ("selective_take_refunds_the_right_charge", selective_take_refunds_the_right_charge);
   ("hop_larger_than_the_whole_budget_is_refused_even_by_drop_oldest",
     hop_larger_than_the_whole_budget_is_refused_even_by_drop_oldest);
   ("drop_oldest_evicts_as_many_as_the_byte_budget_needs",
     drop_oldest_evicts_as_many_as_the_byte_budget_needs)]%string.

End QueueTests.

(** ** scheduler/mailbox/mod.rs *)

Module MailboxTests.
Import Mailbox.

Abbreviation Mb := (Mailbox.t unit).
Abbreviation Test := (Script Mb).

(** [scheduler/mailbox/mod.rs] [tests::dummy_flow]: a flow, whose id nothing here depends on. *)
Definition dummy_flow : option (Flow.t unit) :=
  let b := snd (ChunkBuilder.begin_function (ChunkBuilder.new (ascii_bytes "mb")) (ascii_bytes "main") 0 1) in
  let chunk := ChunkBuilder.finish (ChunkBuilder.emit_return b 0) in
  match Vm.new chunk (@NativeTable.empty unit) 0 [] no_world with
  | (Ok vm, w) => Some (fst (Flow.new w 0 (fst (next_flow_id NEXT_FLOW_ID)) vm 0%N Never 0%N 0%N))
  | (Err _, _) => None
  end.

(** [scheduler/mailbox/mod.rs:625-634] [hop_payload_int, hop, msg] *)
Definition hop_payload_int (msg : Message) : Z := payload_int msg.
Definition hop (sender request_id tag : Z) (payload : Value.t) : Value.t :=
  Value.Message (Msg.new sender request_id tag payload).
Definition msg (tag payload : Z) : Value.t := hop 1 1 tag (Value.from_i32 payload).

(** [scheduler/mailbox/mod.rs] [tests::tiny_reject] *)
Definition tiny_reject (n : Z) : option Mb :=
  cap ← MailboxCapacity.new n; Some (with_config (MailboxConfig.new cap Reject)).

(** [scheduler/mailbox/mod.rs] [tests::hop_msg] *)
Definition hop_msg (value : Value.t) : Test Message := some_ (Value.as_message value).

(** A method that answers a [Result]: the [?] on it. *)
Definition method {A} (f : Mb -> result A RuntimeError * Mb) : Test A :=
  let% r := call f in try_ r.

(** [mb.push(v)??], and what the delivery is. *)
Definition pushed (v : Value.t) : Test (Delivery unit) :=
  let% d := method (fun mb => push mb v) in try_ d.
Definition is_queued (d : Delivery unit) : bool := match d with Queued => true | _ => false end.
Definition is_handoff (d : Delivery unit) : bool := match d with Handoff _ => true | _ => false end.
Definition queues (v : Value.t) : Test unit := let% d := pushed v in assert (is_queued d).
Definition hands_off (v : Value.t) : Test unit := let% d := pushed v in assert (is_handoff d).

(** [mb.try_pop()?.ok_or(..)?] as a message. *)
Definition popped : Test Message :=
  let% v := method (fun mb => try_pop mb) in
  let% v := some_ v in hop_msg v.

(** [mb.park..(..)?.is_ok()] *)
Definition parks (f : Flow.t unit -> Mb -> result (result WaitEpoch (Flow.t unit)) RuntimeError * Mb) : Test unit :=
  let% flow := some_ dummy_flow in
  let% r := method (f flow) in assert (is_ok r).

(** [scheduler/mailbox/mod.rs] [tests::park_now] *)
Definition park_now (flow : Flow.t unit) : Test WaitEpoch :=
  let% r := method (fun mb => park mb flow) in try_ r.

(** [scheduler/mailbox/mod.rs] [tests::handoff] *)
Definition handoff (value : Value.t) : Test (Flow.t unit) :=
  let% d := pushed value in
  match d with Handoff flow => done_ flow | _ => fails end.

Definition on (mb : option Mb) (t : Test unit) : bool := holds (passes t) mb.
Definition fresh : option Mb := Some new.

(** [scheduler/mailbox/mod.rs] [tests::try_pop_match_skips_non_matching_fifo] *)
Definition try_pop_match_skips_non_matching_fifo : bool :=
  on fresh
    (let% _ := pushed (msg 9 1) in let% _ := pushed (msg 1 42) in let% _ := pushed (msg 9 2) in
     let% got := method (fun mb => try_pop_match mb 1) in
     let% got := some_ got in
     let% m := hop_msg got in assert (hop_payload_int m =? 42) ;%
     let% m := popped in assert (tag m =? 9) ;%
     let% m := popped in assert (hop_payload_int m =? 2)).

(** [scheduler/mailbox/mod.rs] [tests::push_while_park_match_queues_junk_keeps_waiter] *)
Definition push_while_park_match_queues_junk_keeps_waiter : bool :=
  on fresh
    (parks (fun flow mb => park_match mb flow 1) ;%
     queues (msg 9 0) ;% hands_off (msg 1 7) ;%
     let% m := popped in assert (tag m =? 9)).

(** [scheduler/mailbox/mod.rs] [tests::ask_does_not_consume_reply_for_another_request] *)
Definition ask_does_not_consume_reply_for_another_request : bool :=
  on fresh
    (let% _ := pushed (hop 10 2 2 (Value.Int 99)) in
     let% _ := pushed (hop 10 1 2 (Value.Int 42)) in
     let% got := method (fun mb => try_pop_filter mb (WaitFilter.Correlation 1 (Some 10))) in
     let% got := some_ got in
     let% m := hop_msg got in assert (hop_payload_int m =? 42) ;%
     let% m := popped in assert (request_id m =? 2)).

(** [scheduler/mailbox/mod.rs] [tests::tagged_correlation_skips_wrong_id_and_tag] *)
Definition tagged_correlation_skips_wrong_id_and_tag : bool :=
  on fresh
    (let% _ := pushed (hop 10 1 1 (Value.Int 7)) in
     let% _ := pushed (hop 10 2 2 (Value.Int 9)) in
     let% _ := pushed (hop 10 1 2 (Value.Int 42)) in
     let% none := method (fun mb => try_pop_filter mb (WaitFilter.TaggedCorrelation 99 1)) in
     assert (negb (is_some none)) ;%
     let% got := method (fun mb => try_pop_filter mb (WaitFilter.TaggedCorrelation 2 1)) in
     let% got := some_ got in
     let% m := hop_msg got in assert (hop_payload_int m =? 42)).

(** [scheduler/mailbox/mod.rs] [tests::ask_requires_reply_from_target] *)
Definition ask_requires_reply_from_target : bool :=
  on fresh
    (parks (fun flow mb => park_filter mb flow (WaitFilter.Correlation 1 (Some 10))) ;%
     queues (hop 99 1 2 (Value.Int 0)) ;% hands_off (hop 10 1 2 (Value.Int 42)) ;%
     let% m := popped in assert (sender m =? 99)).

Definition refused (v : Value.t) (why : MailboxFullReason) : Test unit :=
  let% d := method (fun mb => push mb v) in
  assert (is_err (fun full => bool_decide (reason full = why)) d).

Definition stats_are (P : MailboxStats.t -> bool) : Test unit :=
  let% s := method (fun mb => stats mb) in assert (P s).

(** [scheduler/mailbox/mod.rs] [tests::reject_when_full_without_waiter] *)
Definition reject_when_full_without_waiter : bool :=
  on (tiny_reject 1)
    (queues (msg 1 1) ;% refused (msg 1 2) MessageLimit ;%
     stats_are (fun s => (MailboxStats.enqueued s =? 1) && (MailboxStats.rejected s =? 1) &&
       (MailboxStats.rejected_byte_limit s =? 0) && (MailboxStats.queued_messages s =? 1))).

(** [scheduler/mailbox/mod.rs] [tests::a_stale_deadline_cannot_steal_a_later_wait] *)
Definition a_stale_deadline_cannot_steal_a_later_wait : bool :=
  on fresh
    (let% flow := some_ dummy_flow in
     let% first := park_now flow in
     let% woken := handoff (msg 1 1) in
     let% second := park_now woken in
     assert (negb (first =? second)) ;%
     let% stale := method (fun mb => take_parked_at mb first) in assert (negb (is_some stale)) ;%
     let% live := method (fun mb => take_parked_at mb second) in assert (is_some live)).

(** [scheduler/mailbox/mod.rs] [tests::a_stale_deadline_does_not_downgrade_a_selective_waiter] *)
Definition a_stale_deadline_does_not_downgrade_a_selective_waiter : bool :=
  on fresh
    (let% flow := some_ dummy_flow in
     let% first := park_now flow in
     let% woken := handoff (msg 1 1) in
     let% second := method (fun mb => park_match mb woken 7) in
     let% second := try_ second in
     assert (negb (first =? second)) ;%
     let% stale := method (fun mb => take_parked_at mb first) in assert (negb (is_some stale)) ;%
     queues (msg 9 0) ;% hands_off (msg 7 0)).

(** [scheduler/mailbox/mod.rs] [tests::a_deadline_for_a_wait_that_a_hop_ended_does_nothing] *)
Definition a_deadline_for_a_wait_that_a_hop_ended_does_nothing : bool :=
  on fresh
    (let% flow := some_ dummy_flow in
     let% epoch := park_now flow in
     let% _ := handoff (msg 1 1) in
     let% none := method (fun mb => take_parked_at mb epoch) in assert (negb (is_some none))).

(** 64 hops and the least byte budget. *)
Definition narrow : option Mb :=
  cap ← MailboxCapacity.new 64; budget ← MailboxBytes.new MailboxBytes.MIN;
  Some (with_config (MailboxConfig.with_bytes (MailboxConfig.new cap Reject) budget)).

(** [scheduler/mailbox/mod.rs] [tests::byte_budget_refuses_before_the_hop_count_and_says_so] *)
Definition byte_budget_refuses_before_the_hop_count_and_says_so : bool :=
  on narrow
    (queues (zeros 900) ;% refused (zeros 900) ByteLimit ;%
     stats_are (fun s => (MailboxStats.queued_messages s =? 1) && (900 <=? MailboxStats.queued_bytes s) &&
       (MailboxStats.rejected s =? 1) && (MailboxStats.rejected_byte_limit s =? 1))).

(** [scheduler/mailbox/mod.rs] [tests::draining_a_hop_frees_its_byte_charge] *)
Definition draining_a_hop_frees_its_byte_charge : bool :=
  on narrow
    (let% _ := pushed (zeros 900) in
     let% v := method (fun mb => try_pop mb) in assert (is_some v) ;%
     stats_are (fun s => MailboxStats.queued_bytes s =? 0) ;%
     queues (zeros 900)).

(** [scheduler/mailbox/mod.rs] [tests::matching_handoff_does_not_count_as_full] *)
Definition matching_handoff_does_not_count_as_full : bool :=
  on (tiny_reject 1)
    (let% _ := pushed (msg 9 0) in
     parks (fun flow mb => park_match mb flow 1) ;%
     hands_off (msg 1 7) ;%
     let% m := popped in assert (tag m =? 9)).

Definition is_parked (p : ParkSender unit) : bool := match p with Parked => true | Closed _ => false end.

(** [scheduler/mailbox/mod.rs] [tests::waiting_send_admits_one_after_pop] *)
Definition waiting_send_admits_one_after_pop : bool :=
  on (tiny_reject 1)
    (queues (msg 1 1) ;%
     let% flow := some_ dummy_flow in
     let% p := call (fun mb => park_sender mb flow (msg 1 2)) in assert (is_parked p) ;%
     let% v := method (fun mb => try_pop mb) in assert (is_some v) ;%
     let% woken := method (fun mb => admit_waiting_sender mb) in assert (is_some woken) ;%
     let% m := popped in assert (hop_payload_int m =? 2) ;%
     let% none := method (fun mb => admit_waiting_sender mb) in assert (negb (is_some none))).

(** [scheduler/mailbox/mod.rs] [tests::close_rejects_late_park_sender] *)
Definition close_rejects_late_park_sender : bool :=
  on (tiny_reject 1)
    (let% leftover := method (fun mb => close mb) in assert (Value.is_empty leftover) ;%
     let% flow := some_ dummy_flow in
     let% p := call (fun mb => park_sender mb flow (msg 1 1)) in assert (negb (is_parked p))).

(** [scheduler/mailbox/mod.rs] [tests::drop_oldest_still_wakes_on_match] *)
Definition drop_oldest_still_wakes_on_match : bool :=
  on (cap ← MailboxCapacity.new 1; Some (with_config (MailboxConfig.new cap DropOldest)))
    (parks (fun flow mb => park_match mb flow 1) ;%
     let% _ := pushed (msg 9 1) in hands_off (msg 1 2)).

Definition all : suite :=
  [("try_pop_match_skips_non_matching_fifo", try_pop_match_skips_non_matching_fifo);
   ("push_while_park_match_queues_junk_keeps_waiter", push_while_park_match_queues_junk_keeps_waiter);
   ("ask_does_not_consume_reply_for_another_request", ask_does_not_consume_reply_for_another_request);
   ("tagged_correlation_skips_wrong_id_and_tag", tagged_correlation_skips_wrong_id_and_tag);
   ("ask_requires_reply_from_target", ask_requires_reply_from_target);
   ("reject_when_full_without_waiter", reject_when_full_without_waiter);
   ("a_stale_deadline_cannot_steal_a_later_wait", a_stale_deadline_cannot_steal_a_later_wait);
   ("a_stale_deadline_does_not_downgrade_a_selective_waiter",
     a_stale_deadline_does_not_downgrade_a_selective_waiter);
   ("a_deadline_for_a_wait_that_a_hop_ended_does_nothing",
     a_deadline_for_a_wait_that_a_hop_ended_does_nothing);
   ("byte_budget_refuses_before_the_hop_count_and_says_so",
     byte_budget_refuses_before_the_hop_count_and_says_so);
   ("draining_a_hop_frees_its_byte_charge", draining_a_hop_frees_its_byte_charge);
   ("matching_handoff_does_not_count_as_full", matching_handoff_does_not_count_as_full);
   ("waiting_send_admits_one_after_pop", waiting_send_admits_one_after_pop);
   ("close_rejects_late_park_sender", close_rejects_late_park_sender);
   ("drop_oldest_still_wakes_on_match", drop_oldest_still_wakes_on_match)]%string.

End MailboxTests.

(** Every unit test of scheduler/mailbox/, one excepted ([CapacityTests.max_hop_fits]). *)
Definition mailbox_tests : suite :=
  CapacityTests.all ++ PolicyTests.all ++ QueueTests.all ++ MailboxTests.all.
