(* ===== verification/TestsScheduler.v ===== *)
(** The unit tests of the scheduler's parts: the capability table, the authority decisions,
    quotas, the completion channel, monitors, links and names. *)

From S2P Require Import Prelude Capability F64 Values Isa Sync Quota Native Process CapTable Lifecycle Oneshot.
From S2P Require Import Harness.

(** The first ids of a process. *)
Definition two_ids : FlowId.t * FlowId.t :=
  let (a, n) := next_flow_id NEXT_FLOW_ID in
  let (b, _) := next_flow_id n in (a, b).
Definition three_ids : FlowId.t * FlowId.t * FlowId.t :=
  let (a, n) := next_flow_id NEXT_FLOW_ID in
  let (b, n) := next_flow_id n in
  let (c, _) := next_flow_id n in (a, b, c).

(** ** scheduler/capability.rs *)

Module CapTableTests.
Import CapTable.

#[local] Instance cap_error_eq_dec : EqDecision CapError.t.
Proof. solve_decision. Defined.

Section table.
Context {R : Type} (getrandom : R -> option (list byte) * R) (r : R).

(** A table and what it shares: [let table = CapTable::new()]. *)
Definition fresh : CapTable.t * env R :=
  let (table, s) := CapTable.new RevocationCell.empty_store in (table, mk_env s r).

Abbreviation Test := (Script (CapTable.t * env R)).

(** The [?] on an operation, and what it fails with. *)
Definition method {E A} (m : Op (R := R) E A) : Test A := let% x := call m in try_ x.
Definition resolves (id : CapId.t) (holder : FlowId.t) (rights : CapRights.t) : Test unit :=
  let% x := call (resolve id holder rights) in assert (is_ok x).
Definition refused (id : CapId.t) (holder : FlowId.t) (rights : CapRights.t) (e : CapError.t) : Test unit :=
  let% x := call (resolve id holder rights) in assert (is_err (fun e' => bool_decide (e' = e)) x).
Definition targets (id : CapId.t) (holder : FlowId.t) (rights : CapRights.t) (target : FlowId.t) : Test unit :=
  let% c := method (resolve id holder rights) in
  assert (bool_decide (Capability.target c = Some target)).

(** [scheduler/capability.rs] [CapTable::entry_count] *)
Definition entry_count : Op (R := R) RuntimeError Z :=
  locked "CapTable::entry_count" (fun g e => (Ok (Z.of_nat (size (entries g))), g, e)).

(** [scheduler/capability.rs] [CapTable::reply_index_len] *)
Definition reply_index_len : Op (R := R) RuntimeError Z :=
  locked "CapTable::reply_index_len" (fun g e => (Ok (Z.of_nat (size (reply_index g))), g, e)).

(** [scheduler/capability.rs] [CapTable::reply_index_mentions] *)
Definition reply_index_mentions (flow : FlowId.t) : Op (R := R) RuntimeError bool :=
  locked "CapTable::reply_index_mentions" (fun g e =>
    (Ok (existsb (fun p => (fst (fst p) =? flow) || (snd (fst p) =? flow)) (map_to_list (reply_index g))), g, e)).

Definition counts (entries pairs : Z) : Test unit :=
  let% n := method entry_count in assert (n =? entries) ;%
  let% n := method reply_index_len in assert (n =? pairs).
Definition mentions (flow : FlowId.t) (yes : bool) : Test unit :=
  let% b := method (reply_index_mentions flow) in assert (Bool.eqb b yes).

(** [scheduler/capability.rs] [tests::random_ids_are_not_sequential] *)
Definition random_ids_are_not_sequential : bool :=
  let (h, t) := two_ids in
  passes
    (let% a := method (mint getrandom h t CapRights.SEND) in
     let% b := method (mint getrandom h t CapRights.SEND) in
     assert (negb (a =? b)) ;% assert (negb (CapId.is_none a)) ;%
     refused (CapId.from_raw 1) h CapRights.SEND CapError.Unknown) fresh.

(** [scheduler/capability.rs] [tests::resolve_requires_holder_and_rights] *)
Definition resolve_requires_holder_and_rights : bool :=
  let '(holder, other, target) := three_ids in
  passes
    (let% cap := method (mint getrandom holder target CapRights.SEND) in
     targets cap holder CapRights.SEND target ;%
     refused cap other CapRights.SEND CapError.NotHolder ;%
     refused cap holder CapRights.ASK CapError.InsufficientRights) fresh.

(** [scheduler/capability.rs] [tests::capability_isolation_is_per_table] *)
Definition capability_isolation_is_per_table : bool :=
  let (holder, target) := two_ids in
  let (a, e) := fresh in
  let (b, s) := CapTable.new (ecells e) in
  match mint getrandom holder target CapRights.SEND (a, mk_env s (erng e)) with
  | (Ok cap, (_, e)) => passes (refused cap holder CapRights.SEND CapError.Unknown) (b, e)
  | (Err _, _) => false
  end.

(** [scheduler/capability.rs] [tests::finalizing_flow_revokes_held_and_targeted_caps] *)
Definition finalizing_flow_revokes_held_and_targeted_caps : bool :=
  let '(dead, alive, target) := three_ids in
  passes
    (let% held_by_dead := method (mint getrandom dead target CapRights.SEND) in
     let% targeting_dead := method (mint getrandom alive dead CapRights.SEND) in
     let% unrelated := method (mint getrandom alive target CapRights.SEND) in
     let% removed := method (revoke_flow dead) in
     assert (removed =? 2) ;%
     refused held_by_dead dead CapRights.SEND CapError.Unknown ;%
     refused targeting_dead alive CapRights.SEND CapError.Unknown ;%
     resolves unrelated alive CapRights.SEND) fresh.

(** [scheduler/capability.rs] [tests::delegate_issues_a_new_id_for_the_child] *)
Definition delegate_issues_a_new_id_for_the_child : bool :=
  let '(parent, child, target) := three_ids in
  passes
    (let% original := method (mint getrandom parent target CapRights.SEND_ASK) in
     let% granted := method (delegate getrandom original parent child) in
     assert (negb (granted =? original)) ;%
     targets granted child CapRights.SEND target ;%
     refused original child CapRights.SEND CapError.NotHolder ;%
     resolves original parent CapRights.ASK) fresh.

(** [scheduler/capability.rs] [tests::attenuate_cannot_escalate] *)
Definition attenuate_cannot_escalate : bool :=
  let '(parent, child, target) := three_ids in
  passes
    (let% original := method (mint getrandom parent target CapRights.SEND) in
     let% granted := method (attenuate getrandom original parent child
       (CapRights.union CapRights.SEND CapRights.ADMIN) None) in
     let% got := method (resolve granted child CapRights.SEND) in
     assert (negb (CapRights.contains (Capability.rights got) CapRights.ADMIN)) ;%
     assert (CapRights.contains (Capability.rights got) CapRights.SEND)) fresh.

(** The loop of the next test. *)
Fixpoint again (n : nat) (holder target : FlowId.t) (first : CapId.t) : Test unit :=
  match n with
  | O => done_ tt
  | S n =>
    let% again_ := method (mint_or_reuse getrandom holder target CapRights.SEND) in
    assert (again_ =? first) ;% again n holder target first
  end.

(** [scheduler/capability.rs] [tests::mint_or_reuse_is_stable_per_pair] *)
Definition mint_or_reuse_is_stable_per_pair : bool :=
  let (holder, target) := two_ids in
  passes
    (let% first := method (mint_or_reuse getrandom holder target CapRights.SEND) in
     again 1000 holder target first ;%
     counts 1 1 ;% resolves first holder CapRights.SEND) fresh.

(** [scheduler/capability.rs] [tests::mint_or_reuse_distinct_pairs_are_independent] *)
Definition mint_or_reuse_distinct_pairs_are_independent : bool :=
  let (a, b) := two_ids in
  passes
    (let% ab := method (mint_or_reuse getrandom b a CapRights.SEND) in
     let% ba := method (mint_or_reuse getrandom a b CapRights.SEND) in
     assert (negb (ab =? ba)) ;% counts 2 2) fresh.

(** [scheduler/capability.rs] [tests::revoke_flow_clears_reply_index_for_holder_and_target] *)
Definition revoke_flow_clears_reply_index_for_holder_and_target : bool :=
  let '(a, b, alive) := three_ids in
  passes
    (let% ab := method (mint_or_reuse getrandom b a CapRights.SEND) in
     let% ba := method (mint_or_reuse getrandom a b CapRights.SEND) in
     let% kept := method (mint_or_reuse getrandom alive b CapRights.SEND) in
     let% _ := method (revoke_flow a) in
     mentions a false ;%
     refused ab b CapRights.SEND CapError.Unknown ;%
     refused ba a CapRights.SEND CapError.Unknown ;%
     resolves kept alive CapRights.SEND ;%
     mentions a false ;% mentions b true ;%
     let% _ := method (revoke_flow b) in
     mentions a false ;% mentions b false) fresh.

(** [scheduler/capability.rs] [tests::mint_or_reuse_after_revoke_issues_a_fresh_id] *)
Definition mint_or_reuse_after_revoke_issues_a_fresh_id : bool :=
  let (holder, target) := two_ids in
  passes
    (let% old := method (mint_or_reuse getrandom holder target CapRights.SEND) in
     let% _ := method (revoke_flow target) in
     mentions target false ;%
     let% fresh_ := method (mint_or_reuse getrandom holder target CapRights.SEND) in
     assert (negb (fresh_ =? old)) ;%
     refused old holder CapRights.SEND CapError.Unknown ;%
     resolves fresh_ holder CapRights.SEND) fresh.

Definition all : suite :=
  [("random_ids_are_not_sequential", random_ids_are_not_sequential);
   ("resolve_requires_holder_and_rights", resolve_requires_holder_and_rights);
   ("capability_isolation_is_per_table", capability_isolation_is_per_table);
   ("finalizing_flow_revokes_held_and_targeted_caps", finalizing_flow_revokes_held_and_targeted_caps);
   ("delegate_issues_a_new_id_for_the_child", delegate_issues_a_new_id_for_the_child);
   ("attenuate_cannot_escalate", attenuate_cannot_escalate);
   ("mint_or_reuse_is_stable_per_pair", mint_or_reuse_is_stable_per_pair);
   ("mint_or_reuse_distinct_pairs_are_independent", mint_or_reuse_distinct_pairs_are_independent);
   ("revoke_flow_clears_reply_index_for_holder_and_target",
     revoke_flow_clears_reply_index_for_holder_and_target);
   ("mint_or_reuse_after_revoke_issues_a_fresh_id", mint_or_reuse_after_revoke_issues_a_fresh_id)]%string.

End table.
End CapTableTests.

(** ** delegate.rs, spawn.rs, link_admin.rs *)

Module AuthorityTests.

#[local] Instance link_error_eq_dec : EqDecision LinkError.t.
Proof. solve_decision. Defined.
#[local] Instance admin_error_eq_dec : EqDecision AdminError.t.
Proof. solve_decision. Defined.

(** [let cell = RevocationCell::new()] and a root capability on it. *)
Definition cell_store : RevocationCell.ref * RevocationCell.store :=
  RevocationCell.new RevocationCell.empty_store.
Definition root (target : CapTarget.t) (rights : CapRights.t) (mask : option NativeMask.t) : Cap.t :=
  Cap.root target rights mask (snd cell_store) (fst cell_store).

(** [scheduler/delegate.rs] [tests::cannot_escalate_via_delegate_regardless_of_requested_mask] *)
Definition cannot_escalate_via_delegate_regardless_of_requested_mask : bool :=
  let (cell, s) := cell_store in
  let src := root (CapTarget.Flow 1) CapRights.SEND None in
  match exec_delegate s src cell
          (CapRights.union (CapRights.union CapRights.SEND CapRights.ADMIN) CapRights.NATIVE) None with
  | Ok out =>
    CapRights.contains (Cap.rights out) CapRights.SEND &&
    negb (CapRights.contains (Cap.rights out) CapRights.ADMIN) &&
    negb (CapRights.contains (Cap.rights out) CapRights.NATIVE)
  | Err _ => false
  end.

(** [scheduler/delegate.rs] [tests::revoked_source_cannot_delegate] *)
Definition revoked_source_cannot_delegate : bool :=
  let (cell, s) := cell_store in
  let src := root (CapTarget.Flow 1) CapRights.SEND None in
  match exec_delegate (RevocationCell.revoke s cell) src cell CapRights.SEND None with
  | Err SourceRevoked => true
  | _ => false
  end.

Section checks.
Context (checks : bool).

(** The spawn of both tests of spawn.rs, and what its authority must satisfy. *)
Definition spawned (mask : option NativeMask.t) (want : CapRights.t) (P : CapRights.t -> bool) : bool :=
  let (cell, s) := cell_store in
  let parent := root (CapTarget.Flow 1) CapRights.FLOW mask in
  let quota := FlowQuota.new 1000 1024 10 10 10 10 0 in
  let (child_cell, s) := RevocationCell.new s in
  match fst (exec_spawn_authority checks s parent cell quota 0 0 2 want None child_cell) with
  | Some (Ok out) => P (Cap.rights out)
  | _ => false
  end.

(** [scheduler/spawn.rs] [tests::child_cannot_gain_admin] *)
Definition child_cannot_gain_admin : bool :=
  spawned (Some (NativeMask.full 8)) (CapRights.union CapRights.FLOW CapRights.ADMIN)
    (fun rights => negb (CapRights.contains rights CapRights.ADMIN) &&
                   CapRights.contains rights CapRights.NATIVE).

(** [scheduler/spawn.rs] [tests::confined_request_yields_none] *)
Definition confined_request_yields_none : bool :=
  spawned None CapRights.NONE (fun rights => rights =? CapRights.NONE).

(** [scheduler/link_admin.rs] [tests::knowing_flow_id_alone_is_not_enough_to_link] *)
Definition knowing_flow_id_alone_is_not_enough_to_link : bool :=
  let (cell, s) := cell_store in
  is_err (fun e => bool_decide (e = LinkError.MissingRight))
    (check_link s (root (CapTarget.Flow 1) CapRights.SEND None) cell 1) &&
  is_err (fun e => bool_decide (e = LinkError.WrongTarget))
    (check_link s (root (CapTarget.Flow 2) CapRights.LINK None) cell 1).

(** [scheduler/link_admin.rs] [tests::admin_requires_scheduler_target_and_right] *)
Definition admin_requires_scheduler_target_and_right : bool :=
  let (cell, s) := cell_store in
  is_ok (check_admin s (root CapTarget.Scheduler CapRights.ADMIN None) cell) &&
  is_err (fun e => bool_decide (e = AdminError.WrongTarget))
    (check_admin s (root (CapTarget.Flow 1) CapRights.ADMIN None) cell).

Definition all : suite :=
  [("cannot_escalate_via_delegate_regardless_of_requested_mask",
     cannot_escalate_via_delegate_regardless_of_requested_mask);
   ("revoked_source_cannot_delegate", revoked_source_cannot_delegate);
   ("child_cannot_gain_admin", child_cannot_gain_admin);
   ("confined_request_yields_none", confined_request_yields_none);
   ("knowing_flow_id_alone_is_not_enough_to_link", knowing_flow_id_alone_is_not_enough_to_link);
   ("admin_requires_scheduler_target_and_right", admin_requires_scheduler_target_and_right)]%string.

End checks.
End AuthorityTests.

(** ** scheduler/quota.rs *)

Module QuotaTests.
Import FlowQuota.

Abbreviation Test := (Script FlowQuota.t unit).

Section checks.
Context (checks : bool).

(** The tests take no time: every clock reading is the same. *)
Definition charges (cost : Z) (ok : bool) : Test :=
  let% r := run_ (fun q => charge_cpu checks q cost) in assert (Bool.eqb (is_ok r) ok).
Definition allocates (bytes : Z) (ok : bool) : Test :=
  let% r := call (fun q => alloc q bytes) in assert (Bool.eqb (is_ok r) ok).
Definition spawns (ok : bool) : Test :=
  let% r := run_ (fun q => check_spawn checks q 0 0) in assert (Bool.eqb (is_ok r) ok).

(** [scheduler/quota.rs] [tests::cpu_budget_fails_closed] *)
Definition cpu_budget_fails_closed : bool :=
  passes (charges 7 true ;% charges 4 false ;% charges 3 true) (new 10 1024 1 1 1 1 0).

(** [scheduler/quota.rs] [tests::memory_never_exceeds_limit] *)
Definition memory_never_exceeds_limit : bool :=
  passes (allocates 60 true ;% allocates 60 false ;%
          change (fun q => free q 60) ;% allocates 60 true) (new 1000 100 1 1 1 1 0).

(** [scheduler/quota.rs] [tests::sandbox_is_tighter_than_permissive] *)
Definition sandbox_is_tighter_than_permissive : bool :=
  let p := QuotaConfig.permissive in
  let s := QuotaConfig.sandbox in
  (QuotaConfig.cpu_budget s <? QuotaConfig.cpu_budget p) &&
  (QuotaConfig.mem_limit s <? QuotaConfig.mem_limit p) &&
  (QuotaConfig.send_burst s <? QuotaConfig.send_burst p) &&
  (QuotaConfig.cpu_budget QuotaConfig.default =? QuotaConfig.cpu_budget p).

(** [scheduler/quota.rs] [tests::top_up_mem_raises_limit] *)
Definition top_up_mem_raises_limit : bool :=
  passes (allocates 60 true ;% allocates 60 false ;%
          change (fun q => top_up_mem q 50) ;% allocates 60 true) (new 1000 100 1 1 1 1 0).

(** [scheduler/quota.rs] [tests::spawn_bucket_does_not_over_issue] *)
Definition spawn_bucket_does_not_over_issue : bool :=
  passes (spawns true ;% spawns true ;% spawns true ;% spawns false) (new 1000 100 3 0 1 1 0).

Definition all : suite :=
  [("cpu_budget_fails_closed", cpu_budget_fails_closed);
   ("memory_never_exceeds_limit", memory_never_exceeds_limit);
   ("sandbox_is_tighter_than_permissive", sandbox_is_tighter_than_permissive);
   ("top_up_mem_raises_limit", top_up_mem_raises_limit);
   ("spawn_bucket_does_not_over_issue", spawn_bucket_does_not_over_issue)]%string.

End checks.
End QuotaTests.

(** ** scheduler/oneshot.rs *)

Module OneshotTests.

Abbreviation Rx := (Inner Z).
Abbreviation Test := (Script Rx unit).

Definition channel_ : Rx := fst channel.
(** [tx.send(v)] and [drop(tx)]. *)
Definition sends (v : Z) : Test := change (fun m => snd (Sender.send v m)).
Definition drops : Test := change (fun m => snd (Sender.drop false m)).

(** [rx.join()], [rx.try_join()] and [rx.join_timeout(..)], with what happens while it
    waits; a script that still waits after that fails. *)
Definition joins (others : list (Rx -> Rx)) : Script Rx (result Z RuntimeError) := Receiver.join others.
Definition tries : Script Rx (result (JoinState Z) RuntimeError) := call Receiver.try_join.
Definition joins_within (timeout : Z) (turns : list (Receiver.turn (A := Z)))
  : Script Rx (result (JoinState Z) RuntimeError) := Receiver.join_timeout i64_max 0 timeout turns.

Definition ready (v : Z) (r : result (JoinState Z) RuntimeError) : bool :=
  match r with Ok (Ready x) => x =? v | _ => false end.
Definition pending (r : result (JoinState Z) RuntimeError) : bool :=
  match r with Ok Pending => true | _ => false end.
Definition abandoned {A} (r : result A RuntimeError) : bool :=
  is_err (fun e => match e with Abandoned _ => true | _ => false end) r.
Definition value_of (v : Z) (r : result Z RuntimeError) : bool :=
  match r with Ok x => x =? v | Err _ => false end.

Definition ms (n : Z) : Z := n * 1000000.
(** Nothing but time passes. *)
Definition wakes (times : list Z) : list (Receiver.turn (A := Z)) :=
  map (fun now => Receiver.mk_turn now (fun m => m)) times.

(** [scheduler/oneshot.rs] [tests::join_returns_the_sent_value] *)
Definition join_returns_the_sent_value : bool :=
  passes (sends 42 ;% let% r := joins [] in assert (value_of 42 r)) channel_.

(** [scheduler/oneshot.rs] [tests::a_value_sent_before_the_drop_still_wins] *)
Definition a_value_sent_before_the_drop_still_wins : bool :=
  passes (sends 7 ;% let% r := joins [] in assert (value_of 7 r)) channel_.

(** [scheduler/oneshot.rs] [tests::dropping_the_sender_before_the_join_reports_abandoned] *)
Definition dropping_the_sender_before_the_join_reports_abandoned : bool :=
  passes (drops ;% let% r := joins [] in assert (abandoned r)) channel_.

(** [scheduler/oneshot.rs] [tests::try_join_is_pending_while_the_flow_is_still_running] *)
Definition try_join_is_pending_while_the_flow_is_still_running : bool :=
  passes (let% r := tries in assert (pending r) ;% drops) channel_.

(** [scheduler/oneshot.rs] [tests::the_value_is_handed_out_exactly_once] *)
Definition the_value_is_handed_out_exactly_once : bool :=
  passes (sends 9 ;%
          let% r := tries in assert (ready 9 r) ;%
          let% r := tries in
          assert (is_err (fun e => match e with AlreadyCollected _ => true | _ => false end) r)) channel_.

(** [scheduler/oneshot.rs] [tests::a_timeout_leaves_the_receiver_usable] *)
Definition a_timeout_leaves_the_receiver_usable : bool :=
  passes (let% r := joins_within (ms 30) (wakes [0; ms 30]) in assert (pending r) ;%
          sends 4 ;%
          let% r := joins_within (ms 30) [] in assert (ready 4 r)) channel_.

(** [scheduler/oneshot.rs] [tests::abandonment_outranks_a_pending_timeout] *)
Definition abandonment_outranks_a_pending_timeout : bool :=
  passes (drops ;% let% r := joins_within (ms 30000) [] in assert (abandoned r)) channel_.

(** Spurious wakeups, one each millisecond. *)
Definition storm (n : nat) : list (Receiver.turn (A := Z)) :=
  wakes (map (fun i => ms (Z.of_nat i)) (seq 0 n)).

(** [scheduler/oneshot.rs] [tests::the_deadline_holds_under_a_storm_of_spurious_wakeups]:
    the wait of 150 ms is over after 5 s and is not after 100 ms. *)
Definition the_deadline_holds_under_a_storm_of_spurious_wakeups : bool :=
  passes (let% r := joins_within (ms 150) (storm 5000) in assert (pending r)) channel_ &&
  negb (passes (joins_within (ms 150) (storm 100)) channel_).

(** [scheduler/oneshot.rs] [tests::dropping_the_sender_wakes_a_joiner_that_is_already_blocked] *)
Definition dropping_the_sender_wakes_a_joiner_that_is_already_blocked : bool :=
  passes (let% r := joins [fun m => snd (Sender.drop false m)] in assert (abandoned r)) channel_.

Definition all : suite :=
  [("join_returns_the_sent_value", join_returns_the_sent_value);
   ("a_value_sent_before_the_drop_still_wins", a_value_sent_before_the_drop_still_wins);
   ("dropping_the_sender_before_the_join_reports_abandoned",
     dropping_the_sender_before_the_join_reports_abandoned);
   ("try_join_is_pending_while_the_flow_is_still_running",
     try_join_is_pending_while_the_flow_is_still_running);
   ("the_value_is_handed_out_exactly_once", the_value_is_handed_out_exactly_once);
   ("a_timeout_leaves_the_receiver_usable", a_timeout_leaves_the_receiver_usable);
   ("abandonment_outranks_a_pending_timeout", abandonment_outranks_a_pending_timeout);
   ("the_deadline_holds_under_a_storm_of_spurious_wakeups",
     the_deadline_holds_under_a_storm_of_spurious_wakeups);
   ("dropping_the_sender_wakes_a_joiner_that_is_already_blocked",
     dropping_the_sender_wakes_a_joiner_that_is_already_blocked)]%string.

End OneshotTests.

(** ** monitor.rs, link.rs, registry.rs *)

Module TableTests.

#[local] Instance lifecycle_error_eq_dec : EqDecision LifecycleError.
Proof. solve_decision. Defined.

Definition refuses {A} (e : LifecycleError) (r : result A LifecycleError) : bool :=
  is_err (fun e' => bool_decide (e' = e)) r.

(** A monitor or link table, with the counter of its references. *)
Definition counted {V A} (f : Z -> gmap Z V -> A * (gmap Z V * Z)) : gmap Z V * Z -> A * (gmap Z V * Z) :=
  fun '(m, counter) => f counter m.
Definition uncounted {V A} (f : gmap Z V -> A * gmap Z V) : gmap Z V * Z -> A * (gmap Z V * Z) :=
  fun '(m, counter) => let (a, m) := f m in (a, (m, counter)).

(** [scheduler/monitor.rs] [tests::notify_removes_and_sorts] *)
Definition notify_removes_and_sorts : bool :=
  let (owner, target) := two_ids in
  passes
    (let% a := call (counted (fun c => MonitorTable.create c owner target)) in
     let% b := call (counted (fun c => MonitorTable.create c owner target)) in
     let% events := call (uncounted (MonitorTable.notify_target_exit target FlowExitReason.Fault)) in
     assert (bool_decide (map dmonitor events = [a; b])) ;%
     let% events := call (uncounted (MonitorTable.notify_target_exit target FlowExitReason.Fault)) in
     assert (Value.is_empty events)) (MonitorTable.new, 1).

(** [scheduler/monitor.rs] [tests::remove_owned_rejects_other_flow] *)
Definition remove_owned_rejects_other_flow : bool :=
  let '(owner, other, target) := three_ids in
  passes
    (let% mon := call (counted (fun c => MonitorTable.create c owner target)) in
     let% r := call (uncounted (MonitorTable.remove_owned other mon)) in
     assert (refuses NotOwner r) ;%
     let% r := call (uncounted (MonitorTable.remove_owned owner mon)) in
     assert (is_ok r)) (MonitorTable.new, 1).

(** [scheduler/link.rs] [tests::remove_links_returns_both_directions] *)
Definition remove_links_returns_both_directions : bool :=
  let '(a, b, c) := three_ids in
  passes
    (let% r := call (counted (fun n => LinkTable.link n a b)) in assert (is_ok r) ;%
     let% r := call (counted (fun n => LinkTable.link n c a)) in assert (is_ok r) ;%
     let% peers := call (uncounted (LinkTable.remove_links_of a)) in
     assert ((length peers =? 2)%nat && bool_decide (b ∈ map snd peers) && bool_decide (c ∈ map snd peers)) ;%
     let% peers := call (uncounted (LinkTable.remove_links_of a)) in
     assert (Value.is_empty peers)) (LinkTable.new, 1).

(** [scheduler/link.rs] [tests::rejects_self_and_duplicate] *)
Definition rejects_self_and_duplicate : bool :=
  let (a, b) := two_ids in
  passes
    (let% r := call (counted (fun n => LinkTable.link n a a)) in assert (refuses SelfRelation r) ;%
     let% r := call (counted (fun n => LinkTable.link n a b)) in assert (is_ok r) ;%
     let% r := call (counted (fun n => LinkTable.link n b a)) in assert (refuses AlreadyLinked r))
    (LinkTable.new, 1).

Definition registers (name : string) (raw : Z) (P : result unit LifecycleError -> bool) : Script Registry.t unit :=
  let (flow, _) := next_flow_id NEXT_FLOW_ID in
  let% r := call (Registry.register (ascii_bytes name) (CapId.from_raw raw) flow) in assert (P r).
Definition resolves_to (name : string) (cap : option CapId.t) : Script Registry.t unit :=
  let% c := read (Registry.whereis (ascii_bytes name)) in assert (bool_decide (c = cap)).

(** [scheduler/registry.rs] [tests::unregister_flow_clears_names] *)
Definition unregister_flow_clears_names : bool :=
  let (flow, _) := next_flow_id NEXT_FLOW_ID in
  passes (registers "svc" 42 is_ok ;% resolves_to "svc" (Some 42) ;%
          change (Registry.unregister_flow flow) ;% resolves_to "svc" None) Registry.new.

(** [scheduler/registry.rs] [tests::duplicate_name_is_rejected] *)
Definition duplicate_name_is_rejected : bool :=
  passes (registers "svc" 1 is_ok ;% registers "svc" 2 (refuses AlreadyRegistered)) Registry.new.

(** [scheduler/registry.rs] [tests::empty_name_is_rejected] *)
Definition empty_name_is_rejected : bool := passes (registers "" 1 (refuses EmptyName)) Registry.new.

Definition all : suite :=
  [("notify_removes_and_sorts", notify_removes_and_sorts);
   ("remove_owned_rejects_other_flow", remove_owned_rejects_other_flow);
   ("remove_links_returns_both_directions", remove_links_returns_both_directions);
   ("rejects_self_and_duplicate", rejects_self_and_duplicate);
   ("unregister_flow_clears_names", unregister_flow_clears_names);
   ("duplicate_name_is_rejected", duplicate_name_is_rejected);
   ("empty_name_is_rejected", empty_name_is_rejected)]%string.

End TableTests.

(** Every unit test of the scheduler's parts. *)
Definition scheduler_tests {R} (rng : R -> option (list byte) * R) (r : R) (checks : bool) : suite :=
  CapTableTests.all rng r ++ AuthorityTests.all checks ++ QuotaTests.all checks ++
  OneshotTests.all ++ TableTests.all.
