(* ===== verification/TestsVm.v ===== *)
(** The unit tests of the machine and of the native functions. *)

From S2P Require Import Prelude Capability F64 Values Isa Verify Builder Sync Quota Native Vm VmTheory.
From S2P Require Import Harness.

Section tests.
Context {H : Type}.

(** A native function of a table, called; the script is over the world. *)
Definition native (table : NativeTable.t H) (index : Z) : Script (world H) (NativeFn H) :=
  some_ (NativeTable.get table index).
Definition called (f : NativeFn H) (args : list Value.t) : Script (world H) Value.t :=
  let% r := run_ (f args) in try_ r.

End tests.

(** ** natives.rs, lib.rs *)

Module NativesTests.

Section tests.
Context {H : Type} (write : list Value.t -> H -> H) (unix_millis : H -> result Z string) (w : world H).

Definition table : NativeTable.t H := Std.std_native_table_with write unix_millis.
Definition index (name : string) : option Z :=
  snd <$> find (fun p => String.eqb (fst p) name) Std.std_native_map.
Definition maps (ps : list (string * Z)) : bool :=
  forallb (fun '(name, i) => bool_decide (index name = Some i)) ps.
Abbreviation Test := (Script (world H) unit).
Definition answers (f : NativeFn H) (args : list Value.t) (v : Value.t) : Test :=
  let% got := called f args in assert (Value.eqb got v).

(** [natives.rs] [tests::std_native_indices_are_stable] *)
Definition std_native_indices_are_stable : bool :=
  maps [("print", 0); ("now_ms", 1); ("make_msg", 2); ("msg_sender", 3); ("msg_request_id", 4);
        ("msg_tag", 5); ("msg_payload", 6); ("msg_reply_cap", 7)]%string.

(** [natives.rs] [tests::std_native_table_matches_map] *)
Definition std_native_table_matches_map : bool :=
  let (table, map) := Std.std_natives write unix_millis in
  (NativeTable.len table =? 8) &&
  forallb (fun '(name, idx) => bool_decide (NativeTable.index_of table name = Some idx)) map.

(** [natives.rs] [tests::now_ms_returns_non_negative_int]: with the host's clock. *)
Definition now_ms_returns_non_negative_int : bool :=
  passes
    (let% now_ms := native table 1 in
     let% value := called now_ms [] in
     assert (match value with Value.Int ms => 0 <=? ms | _ => false end)) w.

(** [natives.rs] [tests::make_msg_and_unpack_round_trip] *)
Definition make_msg_and_unpack_round_trip : bool :=
  passes
    (let% make := native table 2 in
     let% msg := called make [Value.Int 3; Value.Int 7; Value.Int 42] in
     assert (value_is (Value.Message (Msg.new 0 3 7 (Value.from_i32 42)))
               (Value.Message <$> Value.as_message msg)) ;%
     let% sender := native table 3 in
     let% req := native table 4 in
     let% tag := native table 5 in
     let% payload := native table 6 in
     let% cap := native table 7 in
     answers sender [msg] (Value.Pid 0) ;% answers req [msg] (Value.Int 3) ;%
     answers tag [msg] (Value.Int 7) ;% answers payload [msg] (Value.Int 42) ;%
     answers cap [msg] (Value.Cap CapId.NONE)) w.

(** 1.5 as a double. *)
Definition one_and_a_half : F64.t := 4609434218613702656.

(** [natives.rs] [tests::print_accepts_all_current_values] *)
Definition print_accepts_all_current_values : bool :=
  let values :=
    [Value.Unit; Value.Bool true; Value.Int 42; Value.Float one_and_a_half; Value.Pid 7;
     Value.Message (Msg.new 1 2 3 (Value.from_i32 4)); Value.Cap (CapId.from_raw 9);
     Value.str 1%N (ascii_bytes "hello"); Value.bytes 2%N (map byte_of [1; 2; 3])] in
  passes (let% print := native table 0 in answers print values Value.Unit) w.

(** [natives.rs] [tests::print_with_no_args_still_returns_unit] *)
Definition print_with_no_args_still_returns_unit : bool :=
  passes (let% print := native table 0 in answers print [] Value.Unit) w.

(** [lib.rs] [tests::std_native_map_has_stable_indices] *)
Definition std_native_map_has_stable_indices : bool :=
  maps [("print", 0); ("now_ms", 1); ("make_msg", 2); ("msg_payload", 6); ("msg_reply_cap", 7)]%string.

Definition all : suite :=
  [("std_native_indices_are_stable", std_native_indices_are_stable);
   ("std_native_table_matches_map", std_native_table_matches_map);
   ("now_ms_returns_non_negative_int", now_ms_returns_non_negative_int);
   ("make_msg_and_unpack_round_trip", make_msg_and_unpack_round_trip);
   ("print_accepts_all_current_values", print_accepts_all_current_values);
   ("print_with_no_args_still_returns_unit", print_with_no_args_still_returns_unit);
   ("std_native_map_has_stable_indices", std_native_map_has_stable_indices)]%string.

End tests.
End NativesTests.

(** ** vm/native.rs *)

Module NativeTests.

Section tests.
Context {H : Type} (w : world H).

(** A native that answers one value. *)
Definition answer (v : Value.t) : NativeFn H := fun _ w => (Some (Ok v), w).
Abbreviation builder := (@nil (option (string * NativeFn H))).

(** [vm/native.rs] [tests::register_at_leaves_holes_as_none] *)
Definition register_at_leaves_holes_as_none : bool :=
  match NativeTable.register_at builder 10 "answer" (answer (Value.Int 42)) with
  | Ok b =>
    let table := NativeTable.build b in
    (NativeTable.len table =? 11) &&
    bool_decide (NativeTable.index_of table "answer" = Some 10) &&
    passes (let% f := native table 10 in
            let% v := called f [] in assert (Value.eqb v (Value.Int 42))) w &&
    negb (is_some (NativeTable.get table 2))
  | Err _ => false
  end.

(** [vm/native.rs] [tests::register_at_errors_on_duplicate_slot] *)
Definition register_at_errors_on_duplicate_slot : bool :=
  is_err (fun e => match e with NativeTable.SlotOccupied 3 _ => true | _ => false end)
    (let? b := NativeTable.register_at builder 3 "a" (answer Value.Unit) in
     NativeTable.register_at b 3 "b" (answer Value.Unit)).

(** [vm/native.rs] [tests::register_errors_on_duplicate_name] *)
Definition register_errors_on_duplicate_name : bool :=
  is_err (fun e => match e with NativeTable.DuplicateName _ => true | _ => false end)
    (let? b := NativeTable.register builder "x" (answer Value.Unit) in
     NativeTable.register b "x" (answer Value.Unit)).

(** [vm/native.rs] [tests::denies_unlisted_index_even_with_native_right] *)
Definition denies_unlisted_index_even_with_native_right : bool :=
  let (cell, s) := RevocationCell.new RevocationCell.empty_store in
  let mask := NativeMask.from_indices 16 [2; 4] in
  let cap := Cap.root (CapTarget.Flow 1) CapRights.NATIVE (Some mask) s cell in
  is_err (fun e => match e with IndexOutOfRange _ => true | _ => false end)
    (check_native_call cap (NativeTable.build builder) 4).

Definition all : suite :=
  [("register_at_leaves_holes_as_none", register_at_leaves_holes_as_none);
   ("register_at_errors_on_duplicate_slot", register_at_errors_on_duplicate_slot);
   ("register_errors_on_duplicate_name", register_errors_on_duplicate_name);
   ("denies_unlisted_index_even_with_native_right", denies_unlisted_index_even_with_native_right)]%string.

End tests.
End NativeTests.

(** ** vm/machine.rs *)

Module MachineTests.
Import ChunkBuilder.

Section checks.
Context (checks : bool).

Definition builder : ChunkBuilder.t := ChunkBuilder.new (ascii_bytes "t").
Definition function (b : ChunkBuilder.t) (name : string) (arity num_registers : Z) : Z * ChunkBuilder.t :=
  begin_function b (ascii_bytes name) arity num_registers.

(** [Vm::new(..)?] and a run of it, whose result satisfies [P]. *)
Definition runs_to (b : ChunkBuilder.t) (main : Z) (budget : nat) (P : VmResult.t -> bool) : bool :=
  match Vm.new (finish b) (@NativeTable.empty unit) main [] no_world with
  | (Ok vm, w) => holds P (fst (run checks budget (mk_state vm w)))
  | (Err _, _) => false
  end.

(** [vm/machine.rs] [tests::spawn_from_the_last_register_traps_instead_of_wrapping] *)
Definition spawn_from_the_last_register_traps_instead_of_wrapping : bool :=
  let '(_, b) := function builder "main" 0 2 in
  let b := emit_spawn b 255 0 1 in
  let b := emit_return b 0 in
  runs_to b 0 10 (fun r =>
    match r with VmResult.Trap (Fault.RegisterIndexOverflow 255 1) => true | _ => false end).

(** [vm/machine.rs] [tests::entering_a_function_with_too_few_registers_faults] *)
Definition entering_a_function_with_too_few_registers_faults : bool :=
  let '(_, b) := function builder "main" 3 1 in
  let b := emit_return b 0 in
  is_err (fun e => match e with Fault.RegisterOutOfRange 1 1 => true | _ => false end)
    (fst (Vm.new (finish b) (@NativeTable.empty unit) 0 [Value.Int 1; Value.Int 2; Value.Int 3] no_world)).

(** [vm/machine.rs] [tests::calling_a_function_with_too_few_registers_traps] *)
Definition calling_a_function_with_too_few_registers_traps : bool :=
  let (callee, b) := function builder "callee" 3 1 in
  let b := emit_return b 0 in
  let (main, b) := function b "main" 0 4 in
  let b := emit_load_imm b 0 7 in
  let b := emit_load_imm b 1 8 in
  let b := emit_load_imm b 2 9 in
  let b := emit_call b 0 callee 3 in
  let b := emit_return b 0 in
  runs_to b main 50 (fun r =>
    match r with VmResult.Trap (Fault.RegisterOutOfRange 1 1) => true | _ => false end).

(** [vm/machine.rs] [tests::gathering_up_to_the_last_register_still_works] *)
Definition gathering_up_to_the_last_register_still_works : bool :=
  let (callee, b) := function builder "callee" 1 1 in
  let b := emit_return b 0 in
  let (main, b) := function b "main" 0 255 in
  let b := emit_load_imm b 254 5 in
  let b := emit_call b 254 callee 1 in
  let b := emit_return b 254 in
  runs_to b main 100 (fun r => match r with VmResult.Complete _ => true | _ => false end).

Definition all : suite :=
  [("spawn_from_the_last_register_traps_instead_of_wrapping",
     spawn_from_the_last_register_traps_instead_of_wrapping);
   ("entering_a_function_with_too_few_registers_faults",
     entering_a_function_with_too_few_registers_faults);
   ("calling_a_function_with_too_few_registers_traps", calling_a_function_with_too_few_registers_traps);
   ("gathering_up_to_the_last_register_still_works", gathering_up_to_the_last_register_still_works)]%string.

End checks.
End MachineTests.

(** Every unit test of the machine and its natives. *)
Definition vm_tests {H} (write : list Value.t -> H -> H) (unix_millis : H -> result Z string)
    (w : world H) (checks : bool) : suite :=
  NativesTests.all write unix_millis w ++ NativeTests.all w ++ MachineTests.all checks.
