(* ===== verification/TestsJit.v ===== *)
(** The unit tests of the trace JIT. *)

From S2P Require Import Prelude Capability F64 Values Isa Verify Builder Sync Quota Native Vm VmTheory.
From S2P Require Import JitTrace JitCompiler JitDispatch Harness.
From S2P Require Import JitClif.

Import ChunkBuilder.

(** A back end that runs what it is given, as far as its patience goes, instead of compiling
    it: unlike that of [JitReference] it takes loops. *)
Definition simulator (patience : nat) : Cranelift TraceKey.t unit (list (list inst)) := {|
  create_module := Ok tt;
  define_function := fun _ _ F => if forallb filled F then (Ok F, tt) else (Err "unfilled"%string, tt);
  call_native := fun F m =>
    match call_function F patience m with
    | Some (Returned m') => Some m'
    | _ => None
    end |}.

Section jit.
Context {M C : Type} `{Cranelift TraceKey.t M C} (checks : bool).

Definition main_of (name : string) (num_registers : Z) : ChunkBuilder.t :=
  snd (begin_function (ChunkBuilder.new (ascii_bytes name)) (ascii_bytes "main") 0 num_registers).

Definition key0 : TraceKey.t := TraceKey.mk 0 0.

(** [JitContext::new(chunk)?]: its chunk is the allocation 1. *)
Definition context (chunk : Chunk.t) : option (JitLocal (C := C) (M := M)) :=
  match create_module with
  | Ok module => Some (mk_local (context_new (1%N, chunk)) module None)
  | Err _ => None
  end.

(** [force_compile(&mut ctx, &chunk, key)?] *)
Definition forced (chunk : Chunk.t) (key : TraceKey.t) : option (JitLocal (C := C) (M := M)) :=
  l ← context chunk;
  match force_compile checks l chunk key with
  | Some (Ok _, l) => Some l
  | _ => None
  end.

(** ... and then [ctx.cache.get(&key)] and a run of it, with the slots it leaves. *)
Definition trace_run (chunk : Chunk.t) (slots budget : Z) : option (ExitReason * list Z) :=
  l ← forced chunk key0; trace ← ctx_cache (jl_context l) !! key0;
  '(ret, slots) ← run_compiled_trace_ref trace (replicate (Z.to_nat slots) 0) 0 budget 0 slots;
  Some (into_reason ret, slots).

(** [TraceCompiler::new(..).compile_trace(&chunk, key)?] *)
Definition compiled_trace (chunk : Chunk.t) : option (CompiledTrace C) :=
  l ← context chunk;
  match compile_trace checks (jl_module l) chunk key0 with
  | Some (Ok trace, _) => Some trace
  | _ => None
  end.

(** A fresh machine on the chunk, with a runtime without natives. *)
Definition machine (chunk : Chunk.t) (function : Z) : option (state unit) :=
  match Vm.new chunk NativeTable.empty function [] no_world with
  | (Ok vm, w) => Some (mk_state vm w)
  | (Err _, _) => None
  end.

Definition completes (n : Z) (r : option VmResult.t) : bool :=
  match r with Some (VmResult.Complete (Value.Int m)) => m =? n | _ => false end.
Definition slot_is (slots : list Z) (i : nat) (x : Z) : bool := bool_decide (slots !! i = Some x).

(** ** jit/compiler.rs *)

(** [jit/dispatch.rs] [tests::add_chunk] *)
Definition add_chunk : option Chunk.t :=
  let b := main_of "jit-add" 3 in
  let b := emit_load_imm b 0 41 in
  let b := emit_load_imm b 1 1 in
  b ← emit_binop checks b Opcode.Add 2 0 1;
  Some (finish (emit_return b 2)).

(** [jit/compiler.rs] [tests::compiles_load_imm_add_return] *)
Definition compiles_load_imm_add_return : bool :=
  holds (fun trace => let (lo, hi) := range (span trace) in (lo <=? 0) && (0 <? hi))
    (chunk ← add_chunk; compiled_trace chunk).

(** A run of the trace of [main] with one slot. *)
Definition one_slot (chunk : option Chunk.t) : option (ExitReason * list Z) :=
  chunk ← chunk; trace ← compiled_trace chunk;
  '(ret, slots) ← run_compiled_trace_ref trace [0] 0 10000 0 1;
  Some (into_reason ret, slots).

(** [jit/compiler.rs] [tests::compiles_branch_falsy_taken] *)
Definition compiles_branch_falsy_taken : bool :=
  holds (fun '(exit, slots) =>
    slot_is slots 0 7 && match exit with Return_ _ => true | _ => false end)
    (one_slot (
      let b := main_of "jit-branch" 1 in
      '(done, b) ← new_label checks b;
      '(ret, b) ← new_label checks b;
      let b := emit_load_imm b 0 0 in
      let b := emit_branch b 0 done in
      let b := emit_load_imm b 0 99 in
      let b := emit_jump b ret in
      let b := bind_label b done in
      let b := emit_load_imm b 0 7 in
      let b := bind_label b ret in
      Some (finish (emit_return b 0)))).

(** [jit/compiler.rs] [tests::compiles_unconditional_jump] *)
Definition compiles_unconditional_jump : bool :=
  holds (fun '(exit, slots) => bool_decide (exit = Return_ 0) && slot_is slots 0 41)
    (one_slot (
      let b := main_of "jit-jump" 1 in
      '(skip, b) ← new_label checks b;
      '(ret, b) ← new_label checks b;
      let b := emit_load_imm b 0 1 in
      let b := emit_jump b skip in
      let b := emit_load_imm b 0 99 in
      let b := bind_label b skip in
      let b := emit_load_imm b 0 41 in
      let b := bind_label b ret in
      Some (finish (emit_return b 0)))).

(** [jit/compiler.rs] [tests::compiles_intra_chunk_call] *)
Definition compiles_intra_chunk_call : bool :=
  let '(_, b) := begin_function (ChunkBuilder.new (ascii_bytes "jit-call")) (ascii_bytes "double") 0 1 in
  let b := emit_load_imm b 0 21 in
  let b := emit_return b 0 in
  let '(_, b) := begin_function b (ascii_bytes "main") 1 1 in
  let b := emit_load_imm b 0 0 in
  let b := emit_call b 0 0 1 in
  let chunk := finish (emit_return b 0) in
  holds (fun def =>
    let key := TraceKey.mk 1 (FunctionDef.entry def) in
    holds (fun '(l, s) =>
      completes 21 (fst (fst (run_vm_with_jit checks 1%N (Z.to_nat 10000) l s))))
      (l ← forced chunk key; s ← machine chunk (TraceKey.function key); Some (l, s)))
    (Chunk.functions chunk !! 1%nat).

(** ** jit/dispatch.rs *)

(** [jit/dispatch.rs] [tests::run_vm_with_jit_completes_scalar_add] *)
Definition run_vm_with_jit_completes_scalar_add : bool :=
  holds (fun '(l, s) => completes 42 (fst (fst (run_vm_with_jit checks 1%N (Z.to_nat 10000) l s))))
    (chunk ← add_chunk; l ← forced chunk key0; s ← machine chunk 0; Some (l, s)).

(** [jit/dispatch.rs] [tests::native_trace_computes_42] *)
Definition native_trace_computes_42 : bool :=
  holds (fun '(exit, slots) => bool_decide (exit = Return_ 2) && slot_is slots 2 42)
    (chunk ← add_chunk; trace_run chunk 3 10000).

(** [jit/dispatch.rs] [tests::jit_matches_interpreter_on_scalar_add]: the interpreter
    is run on a machine of its own instead of a flow of a runtime. *)
Definition jit_matches_interpreter_on_scalar_add : bool :=
  holds (fun '(exit, slots, s) =>
    bool_decide (exit = Return_ 2) && slot_is slots 2 42 &&
    match fst (apply_exit_to_vm checks slots exit s) with
    | Some (Ok (Some (VmResult.Complete (Value.Int 42)))) => true
    | _ => false
    end && completes 42 (fst (Vm.run checks (Z.to_nat 10000) s)))
    (chunk ← add_chunk; '(exit, slots) ← trace_run chunk 3 10000; s ← machine chunk 0;
     Some (exit, slots, s)).

(** [jit/dispatch.rs] [tests::div_by_zero_returns_trap_exit] *)
Definition div_by_zero_returns_trap_exit : bool :=
  holds (fun '(exit, _) => match exit with Trap_ _ => true | _ => false end)
    (let b := main_of "jit-div0" 3 in
     let b := emit_load_imm b 0 1 in
     let b := emit_load_imm b 1 0 in
     b ← emit_binop checks b Opcode.Div 2 0 1;
     trace_run (finish (emit_return b 2)) 3 10000).

(** [jit/dispatch.rs] [tests::sync_slots_deopts_on_float] *)
Definition sync_slots_deopts_on_float : bool :=
  holds (fun s =>
    match set_register checks 0 (Value.Float 4607182418800017408) s with
    | (Some (Ok _), s) =>
      bool_decide (fst (sync_slots_from_vm (vm s) [0; 0; 0]) = SlotsDeopt)
    | _ => false
    end) (chunk ← add_chunk; machine chunk 0).

(** The first dispatch of [main] by a runtime whose sites are hot at once. *)
Definition runtime_dispatch (chunk : Chunk.t)
  : option (option (ExitReason * list Z) * JitShared (C := C) (M := M)) :=
  try_run_hot_runtime checks hot_fuel (mk_shared (runtime_new (1%N, chunk) 1) None None) chunk key0
    [0; 0; 0] 10000 3.

(** [jit/dispatch.rs] [tests::runtime_path_compiles_and_runs] *)
Definition runtime_path_compiles_and_runs : bool :=
  match chunk ← add_chunk; runtime_dispatch chunk with
  | Some (Some (exit, slots), _) => bool_decide (exit = Return_ 2) && slot_is slots 2 42
  | _ => false
  end.

(** [jit/dispatch.rs] [tests::budget_exit_when_exhausted_mid_trace] *)
Definition budget_exit_when_exhausted_mid_trace : bool :=
  let b := main_of "jit-budget" 1 in
  let b := emit_load_imm b 0 1 in
  let b := emit_load_imm b 0 2 in
  let b := emit_load_imm b 0 3 in
  holds (fun '(exit, _) => bool_decide (exit = Budget 2)) (trace_run (finish (emit_return b 0)) 1 2).

(** The loop of the next test. *)
Definition interleave_chunk : option Chunk.t :=
  let b := main_of "jit-interleave" 2 in
  let b := emit_load_imm b 0 0 in
  '(head, b) ← new_label checks b;
  let b := bind_label b head in
  let b := emit_load_imm b 1 1 in
  b ← emit_binop checks b Opcode.Add 0 0 1;
  let b := emit_load_imm b 1 100 in
  b ← emit_binop checks b Opcode.Lt 1 0 1;
  '(done, b) ← new_label checks b;
  let b := emit_branch b 1 done in
  let b := emit_jump b head in
  let b := bind_label b done in
  Some (finish (emit_return b 0)).

(** [jit/dispatch.rs] [tests::interleaved_jit_compiles_mid_quantum] *)
Definition interleaved_jit_compiles_mid_quantum : bool :=
  holds (fun '(chunk, def, l, s) =>
    let head_pc := FunctionDef.entry def + 1 in
    let ctx := jl_context l in
    let l := mk_local (mk_context (ctx_chunk ctx) (ctx_cache ctx) (ctx_hot ctx) 2) (jl_module l) None in
    let '(result, l, _) := run_vm_with_jit checks 1%N (Z.to_nat 10000) l s in
    completes 100 result && is_some (ctx_cache (jl_context l) !! TraceKey.mk 0 head_pc))
    (chunk ← interleave_chunk; def ← head (Chunk.functions chunk); l ← context chunk;
     s ← machine chunk 0; Some (chunk, def, l, s)).

(** [jit/dispatch.rs] [tests::reload_chunk_invalidates_jit_cache] *)
Definition reload_chunk_invalidates_jit_cache : bool :=
  match chunk ← add_chunk; runtime_dispatch chunk with
  | Some (Some (exit, _), j) =>
    match exit with Return_ _ => true | _ => false end &&
    let b := main_of "other" 1 in
    let other := finish (emit_return (emit_load_imm b 0 1) 0) in
    is_some (get_trace (js_runtime j) key0) &&
    negb (is_some (get_trace (runtime_reload (js_runtime j) (2%N, other)) key0))
  | _ => false
  end.

Definition jit_tests : suite :=
  [("compiles_load_imm_add_return", compiles_load_imm_add_return);
   ("compiles_branch_falsy_taken", compiles_branch_falsy_taken);
   ("compiles_unconditional_jump", compiles_unconditional_jump);
   ("compiles_intra_chunk_call", compiles_intra_chunk_call);
   ("run_vm_with_jit_completes_scalar_add", run_vm_with_jit_completes_scalar_add);
   ("native_trace_computes_42", native_trace_computes_42);
   ("jit_matches_interpreter_on_scalar_add", jit_matches_interpreter_on_scalar_add);
   ("div_by_zero_returns_trap_exit", div_by_zero_returns_trap_exit);
   ("sync_slots_deopts_on_float", sync_slots_deopts_on_float);
   ("runtime_path_compiles_and_runs", runtime_path_compiles_and_runs);
   ("budget_exit_when_exhausted_mid_trace", budget_exit_when_exhausted_mid_trace);
   ("interleaved_jit_compiles_mid_quantum", interleaved_jit_compiles_mid_quantum);
   ("reload_chunk_invalidates_jit_cache", reload_chunk_invalidates_jit_cache)]%string.

End jit.
