(* ===== verification/TestsRuntime.v ===== *)
(** The tests that run a whole system: those of the demonstration modules, of the runtime, of
    the supervisor, of the crate and of its security model.

    A test's host runs between the turns of the threads.  Where it blocks, on a handle or on
    a condition it polls, one worker and the timer (and the supervisor, if there is one) take
    turns until it goes on; a test that would block for ever fails. *)

From S2P Require Import Prelude Capability F64 Values Isa Display Verify Format Builder Sync Quota Native.
From S2P Require Import Vm Process CapTable Lifecycle Mailbox Oneshot Shared Timer Finalize Runtime.
From S2P Require Import Worker Supervisor Demo EndTheory.
From S2P Require Program Samples.
From S2P Require Import Harness.
Import Shared.

(** ** The modules of the tests *)

Module Images.
Import Program.
Section images.
Context (checks : bool).

(** A module of one function [main] without arguments. *)
Definition main_only (name : string) (body : Asm unit) : option Chunk.t :=
  '(_, p) ← Program.function (Program.new (ascii_bytes name)) (ascii_bytes "main") 0 body;
  Some (Program.build p).
(** ... or a function on the raw builder. *)
Definition raw (name main : string) (num_registers : Z) (body : ChunkBuilder.t -> option ChunkBuilder.t)
  : option Chunk.t :=
  let b := ChunkBuilder.new (ascii_bytes name) in
  ChunkBuilder.finish <$> body (snd (ChunkBuilder.begin_function b (ascii_bytes main) 0 num_registers)).

(** [samples.rs:682-690] [tests::send_scalar_target_traps, its module] *)
Definition bad_cap_target : option Chunk.t := main_only "bad-cap-target" (
  let& bad_cap := load_i32 99 in
  let& req_id := load_i32 1 in
  let& payload := load_i32 1 in
  let& msg := hop checks req_id Samples.TAG_PING payload in
  let& _ := send bad_cap msg in
  return_ msg).

(** [samples.rs:703-709] [tests::send_scalar_is_not_an_atomic_hop, its module] *)
Definition bad_hop : option Chunk.t := main_only "bad-hop" (
  let& cap := self_cap in
  let& scalar := load_i32 99 in
  let& _ := send cap scalar in
  return_ scalar).

(** [park] of the two link tests. *)
Definition park : Asm unit :=
  let& _ := receive in
  trap 9.

(** [samples.rs:764-769] [tests::link_kills_peer_on_fault, its module] *)
Definition link_kill : option Chunk.t :=
  let p := Program.new (ascii_bytes "link-kill") in
  '(_, p) ← Program.function p (ascii_bytes "park") 0 park;
  '(_, p) ← Program.function p (ascii_bytes "boom") 0 (trap 1);
  Some (Program.build p).

(** [samples.rs:789-799] [tests::linked_exit_down_carries_link_reason, its module] *)
Definition link_down_reason : option Chunk.t :=
  let p := Program.new (ascii_bytes "link-down-reason") in
  '(_, p) ← Program.function p (ascii_bytes "watcher") 0 (
    let& msg := receive_match_imm TAG_SYS_DOWN in
    let& out := hop_payload msg in
    return_ out);
  '(_, p) ← Program.function p (ascii_bytes "park") 0 park;
  '(_, p) ← Program.function p (ascii_bytes "boom") 0 (trap 1);
  Some (Program.build p).

(** [samples.rs:849-855] [tests::bytecode_register_name_joins, its module] *)
Definition reg_self : option Chunk.t := main_only "reg-self" (
  let& name := load_str 1%N (ascii_bytes "svc") in
  let& _ := register_name name in
  let& z := load_i32 1 in
  return_ z).

(** [samples.rs:886-910] [tests::confined_spawn_cannot_register_name, its module] *)
Definition confined_reg : option Chunk.t :=
  let p := Program.new (ascii_bytes "confined-reg") in
  '(child, p) ← Program.function p (ascii_bytes "child") 0 (
    let& name := load_str 1%N (ascii_bytes "stolen") in
    let& _ := register_name name in
    let& ms := load_i32 5000 in
    let& _ := sleep ms in
    let& z := load_i32 1 in
    return_ z);
  '(_, p) ← Program.function p (ascii_bytes "main") 0 (
    let& _ := spawn_confined child 0 in
    let& ms := load_i32 80 in
    let& _ := sleep ms in
    let& name := load_str 2%N (ascii_bytes "stolen") in
    let& cap := whereis name in
    let& ok := label checks in
    let& _ := branch_if_falsy cap ok in
    let& one := load_i32 1 in
    let& _ := return_ one in
    let& _ := bind_ ok in
    let& zero := load_i32 0 in
    return_ zero);
  Some (Program.build p).

(** [samples.rs:924-927] [tests::heap_quota_charges_str_on_register_store, its module] *)
Definition heap_str : option Chunk.t := main_only "heap-str" (
  let& s := load_str 1%N (replicate 200 (byte_of 120)) in
  return_ s).

(** [samples.rs:953-964] [tests::host_send_stamps_sender_zero_and_mints_request_id, its module] *)
Definition host_send : option Chunk.t := main_only "host-send" (
  let& msg := receive in
  let& sender := hop_sender msg in
  let& rid := hop_request_id msg in
  let& miss := label checks in
  let& _ := branch_if_falsy rid miss in
  let& _ := return_ sender in
  let& _ := bind_ miss in
  let& neg := load_i32 (-1) in
  return_ neg).

(** A module that sleeps [millis] and returns [n]. *)
Definition sleeper (name : string) (millis n : Z) : option Chunk.t := main_only name (
  let& ms := load_i32 millis in
  let& _ := sleep ms in
  let& z := load_i32 n in
  return_ z).

(** [lib.rs] [tests::std_native_chunk_runs]: its module. *)
Definition std_natives_demo : option Chunk.t := main_only "std-natives-demo" (
  let& n := load_i32 42 in
  let& _ := native1_on n 0 in
  let& ms := call_native0 1 in
  return_ ms).

(** A module that returns zero, and one that prints [n] before. *)
Definition zero (name : string) : option Chunk.t := main_only name (
  let& z := load_i32 0 in return_ z).
Definition printer (name : string) (n : Z) : option Chunk.t := main_only name (
  let& n := load_i32 n in
  let& _ := native1_on n 0 in
  let& z := load_i32 0 in
  return_ z).

Definition confined_native : option Chunk.t :=
  let p := Program.new (ascii_bytes "confined-native") in
  '(child, p) ← Program.function p (ascii_bytes "child") 0 (
    let& n := load_i32 1 in
    let& _ := native1_on n 0 in
    return_ n);
  '(_, p) ← Program.function p (ascii_bytes "main") 0 (
    let& _cap := spawn_confined child 0 in
    let& z := load_i32 0 in
    return_ z);
  Some (Program.build p).

Import ChunkBuilder.

(** [scheduler/runtime.rs] [tests::add_chunk] *)
Definition add_chunk : option Chunk.t := raw "test" "main" 2 (fun b =>
  let b := emit_load_imm b 0 41 in
  let b := emit_load_imm b 1 1 in
  b ← emit_binop checks b Opcode.Add 0 0 1;
  Some (emit_return b 0)).

(** [scheduler/runtime.rs] [tests::sleep_then_return_chunk] *)
Definition sleep_then_return_chunk (millis : Z) : option Chunk.t := raw "test" "main" 2 (fun b =>
  let b := emit_load_imm b 0 millis in
  let b := emit_sleep b 0 in
  let b := emit_load_imm b 0 7 in
  Some (emit_return b 0)).

(** [scheduler/runtime.rs] [tests::receive_forever_chunk] *)
Definition receive_forever_chunk : option Chunk.t := raw "recv" "main" 1 (fun b =>
  Some (emit_return (emit_receive b 0) 0)).

(** [scheduler/supervisor.rs] [tests::trap_chunk] *)
Definition trap_chunk : option Chunk.t := raw "trap" "boom" 1 (fun b => Some (emit_trap b 1)).

(** [scheduler/supervisor.rs] [tests::ok_chunk] *)
Definition ok_chunk : option Chunk.t := raw "ok" "main" 1 (fun b =>
  Some (emit_return (emit_load_imm b 0 7) 0)).

(** [scheduler/supervisor.rs] [tests::wait_and_trap_chunk] *)
Definition wait_and_trap_chunk : option Chunk.t := raw "sup-mix" "wait" 1 (fun b =>
  let b := emit_receive b 0 in
  let b := emit_return b 0 in
  let (_, b) := begin_function b (ascii_bytes "boom") 0 1 in
  let b := emit_trap b 1 in
  let (_, b) := begin_function b (ascii_bytes "delayed") 0 1 in
  let b := emit_load_imm b 0 80 in
  let b := emit_sleep b 0 in
  Some (emit_trap b 1)).

End images.
End Images.

(** ** A host *)

(** The lines a sink has been given. *)
Definition Lines : Type := list (list byte).
Abbreviation W := (Shared.W (H := Lines) (R := Z)).
Abbreviation Table := (NativeTable.t Lines).

(** The clock moves by 10 ms at each reading. *)
Definition clock (n : Z) : instant * Z := (n, n + 10000000).

(** [std_native_table_with] on a sink: the wall clock stands still. *)
Definition std_natives (sink : list Value.t -> Lines -> Lines) : Table :=
  Std.std_native_table_with sink (fun _ => Ok 0).
Definition silent : Table := std_natives (fun _ lines => lines).

(** [tests/security_caps.rs:13-24] [CaptureSink::write] *)
Definition capture (values : list Value.t) (lines : Lines) : Lines :=
  lines ++ [concat (imap (fun i v => (if decide (i = O) then [] else ascii_bytes " ") ++ value v) values)].

(** [samples.rs:455-465] [tests::tiny, its configuration]: workers, quantum and mailbox of its own,
    the rest the default. *)
Definition tiny_config : RuntimeConfig.t :=
  RuntimeConfig.mk 10000 MailboxConfig.DEFAULT 0 QuotaConfig.default.
(** [scheduler/supervisor.rs:586-596] [tests::tiny_runtime, its configuration] *)
Definition small_config : RuntimeConfig.t :=
  RuntimeConfig.mk 1000 MailboxConfig.DEFAULT 0 QuotaConfig.default.

Section host.
Context (checks : bool).

(** Runs [body] on a runtime of one worker. *)
Definition on_runtime {A} (cfg : RuntimeConfig.t) (table : Table) (image : option Chunk.t)
    (body : Runtime (H := Lines) -> W A) : option (A * Shared.t Lines Z) :=
  ch ← image;
  match with_natives_and_config ch table Untrusted 1 cfg
          (mk_world RevocationCell.empty_store ∅ 0%N []) 100 with
  | Ok (rt, s) => match body rt s with (Some a, s) => Some (a, s) | (None, _) => None end
  | Err _ => None
  end.
Definition test {A} cfg table image (body : Runtime (H := Lines) -> W A) : bool :=
  is_some (on_runtime cfg table image body).

(** [?], [ok_or(..)?] and [assert!]. *)
Definition ok {A E} (m : W (result A E)) : W A :=
  let* r := m in match r with Ok a => ret a | Err _ => panic end.
Definition known {A} (o : option A) : W A := match o with Some a => ret a | None => panic end.
Definition expect (b : bool) : W unit := if b then ret tt else panic.

Definition spawn (rt : Runtime (H := Lines)) (function : Z) (args : list Value.t) : W FlowHandle :=
  ok (Runtime.spawn Demo.random clock checks rt function args).
Definition index (rt : Runtime (H := Lines)) (name : string) : W Z :=
  known (function_index rt (ascii_bytes name)).

(** One turn of the worker and one of the timer. *)
Definition round : W unit :=
  let* _ := worker_turn Demo.random clock checks Demo.debug 0 100 in
  let* _ := drive_turn clock checks in
  ret tt.

(** [FlowHandle::try_join]. *)
Definition try_join (h : FlowHandle) : W (option FlowOutcome) := fun s =>
  let (o, slot) := FlowHandle.try_join (slot_at s (hreceiver h)) in
  (Some o, s <| completions ::= <[hreceiver h := slot]> |>).

(** Blocks until [probe] answers, each time after a [turn]. *)
Section blocking.
Context {A B : Type} (turn : A -> W A) (probe : A -> W (option B)).
Fixpoint block (n : nat) (a : A) : W (B * A) :=
  let* o := probe a in
  match o, n with
  | Some b, _ => ret (b, a)
  | None, O => panic
  | None, S n => let* a := turn a in block n a
  end.
End blocking.

(** [FlowHandle::join]. *)
Definition join (h : FlowHandle) : W FlowOutcome :=
  let* x := block (fun _ => round) (fun _ => try_join h) 200 tt in ret (fst x).

(** [FlowHandle::join_timeout]: the clock is read after each refused look at the slot. *)
Definition join_timeout (timeout : duration) (h : FlowHandle) : W (option FlowOutcome) :=
  let* start := now clock in
  let* x := block (fun _ => round) (fun _ =>
    let* o := try_join h in
    match o with
    | Some outcome => ret (Some (Some outcome))
    | None => let* t := now clock in ret (if after start timeout <=? t then Some None else None)
    end) 400 tt in
  ret (fst x).

Definition sent : W Z := gets (fun s => RuntimeMetrics.messages_sent (RuntimeMetrics.snapshot (metrics s))).

Definition completed (P : Value.t -> bool) (o : FlowOutcome) : bool :=
  match o with Completed v => P v | Failed _ => false end.
Definition failed (o : FlowOutcome) : bool := match o with Failed _ => true | Completed _ => false end.
Definition int_ (n : Z) (v : Value.t) : bool := match v with Value.Int m => m =? n | _ => false end.
Definition anything (_ : Value.t) : bool := true.


(** ** samples.rs *)

(** The common body: [main] is spawned, joined, and the runtime is shut down. *)
Definition run_main (rt : Runtime (H := Lines)) : W FlowOutcome :=
  let* idx := index rt "main" in
  let* h := spawn rt idx [] in
  let* outcome := join h in
  let* _ := request_shutdown in
  ret outcome.
(** ... of function 0, and what was sent meanwhile. *)
Definition run_first (rt : Runtime (H := Lines)) : W FlowOutcome :=
  let* h := spawn rt 0 [] in
  let* outcome := join h in
  let* _ := request_shutdown in
  ret outcome.
Definition run_counting (rt : Runtime (H := Lines)) : W (FlowOutcome * Z) :=
  let* idx := index rt "main" in
  let* h := spawn rt idx [] in
  let* outcome := join h in
  let* n := sent in
  let* _ := request_shutdown in
  ret (outcome, n).

Definition verifies (image : option Chunk.t) : bool :=
  match image with Some ch => is_ok (verify ch) | None => false end.
(** [decode(&encode(&chunk))?] *)
Definition via_bytes (image : option Chunk.t) : option Chunk.t :=
  ch ← image;
  match Format.decode (Format.encode ch) with Ok ch => Some ch | Err _ => None end.

(** [samples.rs] [tests::tiny] *)
Definition tiny {A} (image : option Chunk.t) (body : Runtime (H := Lines) -> W A) :=
  on_runtime tiny_config NativeTable.empty image body.
(** [samples.rs] [tests::tiny_natives] *)
Definition tiny_natives {A} (image : option Chunk.t) (body : Runtime (H := Lines) -> W A) :=
  on_runtime tiny_config silent image body.

Definition outcome_is (P : FlowOutcome -> bool) (r : option (FlowOutcome * Shared.t Lines Z)) : bool :=
  holds (fun '(o, _) => P o) r.
Definition counts (P : FlowOutcome -> bool) (least : Z)
    (r : option (FlowOutcome * Z * Shared.t Lines Z)) : bool :=
  holds (fun '(o, n, _) => P o && (least <=? n)) r.

(** [samples.rs] [tests::add_forty_two_joins_42] *)
Definition add_forty_two_joins_42 : bool :=
  outcome_is (completed (int_ 42)) (tiny (Samples.add_forty_two checks) run_main).

(** [samples.rs] [tests::ping_pong_joins_2] *)
Definition ping_pong_joins_2 : bool :=
  let chunk := Samples.ping_pong checks in
  verifies chunk &&
  counts (completed (int_ 2)) 2 (tiny_natives (via_bytes chunk) run_counting).

(** [samples.rs] [tests::atomic_request_reply_joins_42] *)
Definition atomic_request_reply_joins_42 : bool :=
  let chunk := Samples.atomic_request_reply checks in
  verifies chunk &&
  counts (completed (int_ 42)) 1 (tiny_natives (via_bytes chunk) run_counting).

(** [samples.rs] [tests::atomic_actors_two_clients_sum_72] *)
Definition atomic_actors_two_clients_sum_72 : bool :=
  let chunk := Samples.atomic_actors checks in
  verifies chunk &&
  counts (completed (int_ 72)) 34 (tiny_natives (via_bytes chunk) run_counting).

(** [samples.rs] [tests::cap_in_payload_reissues_holder] *)
Definition cap_in_payload_reissues_holder : bool :=
  let chunk := Samples.cap_in_payload checks in
  verifies chunk && outcome_is (completed (int_ 42)) (tiny_natives chunk run_main).

(** [samples.rs] [tests::selective_receive_skips_junk_tag] *)
Definition selective_receive_skips_junk_tag : bool :=
  let chunk := Samples.selective_receive checks in
  verifies chunk && outcome_is (completed (int_ 42)) (tiny_natives (via_bytes chunk) run_main).

(** [samples.rs] [tests::ask_reply_joins_42] *)
Definition ask_reply_joins_42 : bool :=
  let chunk := Samples.ask_reply checks in
  verifies chunk &&
  counts (completed (int_ 42)) 2 (tiny_natives (via_bytes chunk) run_counting).

(** [samples.rs] [tests::ask_timeout_writes_unit] *)
Definition ask_timeout_writes_unit : bool :=
  let chunk := Samples.ask_timeout_expires checks in
  verifies chunk &&
  outcome_is (completed (fun v => match v with Value.Unit => true | _ => false end))
    (tiny_natives chunk run_main).

(** [samples.rs] [tests::ask_target_exit_writes_sys_exit] *)
Definition ask_target_exit_writes_sys_exit : bool :=
  let chunk := Samples.ask_target_exits checks in
  verifies chunk && outcome_is (completed (int_ TAG_SYS_EXIT)) (tiny_natives chunk run_main).

(** [samples.rs] [tests::server_loop_joins_42] *)
Definition server_loop_joins_42 : bool :=
  let chunk := Samples.server_loop checks in
  verifies chunk && outcome_is (completed (int_ 42)) (tiny_natives chunk run_main).

Definition authenticated (v : Value.t) : bool :=
  match v with Value.Pid n => negb (n =? 999) && (1 <=? n) | _ => false end.

(** [samples.rs] [tests::send_overwrites_forged_sender] *)
Definition send_overwrites_forged_sender : bool :=
  let chunk := Samples.forged_sender_send checks in
  verifies chunk && outcome_is (completed authenticated) (tiny_natives chunk run_main).

(** [samples.rs] [tests::ask_overwrites_forged_request_sender] *)
Definition ask_overwrites_forged_request_sender : bool :=
  let chunk := Samples.forged_sender_ask checks in
  verifies chunk && outcome_is (completed authenticated) (tiny_natives chunk run_main).

(** [samples.rs] [tests::send_scalar_target_traps] *)
Definition send_scalar_target_traps : bool :=
  outcome_is failed (tiny_natives (Images.bad_cap_target checks) run_first).

(** [samples.rs] [tests::send_scalar_is_not_an_atomic_hop] *)
Definition send_scalar_is_not_an_atomic_hop : bool :=
  outcome_is failed (tiny Images.bad_hop run_first).

(** [samples.rs] [tests::monitor_down_joins_normal_reason] *)
Definition monitor_down_joins_normal_reason : bool :=
  let chunk := Samples.monitor_down checks in
  verifies chunk && outcome_is (completed (int_ 0)) (tiny_natives chunk run_main).

(** [samples.rs] [tests::waiting_send_second_hop_arrives] *)
Definition waiting_send_second_hop_arrives : bool :=
  match MailboxCapacity.new 1 with
  | None => false
  | Some cap =>
    let cfg := RuntimeConfig.mk 10000 (MailboxConfig.new cap Reject) 0 QuotaConfig.default in
    outcome_is (completed (int_ 42))
      (on_runtime cfg silent (Samples.waiting_send checks) (fun rt =>
        let* server := index rt "server" in
        let* client := index rt "client" in
        let* server_h := spawn rt server [] in
        let* server_cap := ok (mint_cap Demo.random (hid server_h)) in
        let* _ := spawn rt client [Value.Cap server_cap] in
        let* outcome := join server_h in
        let* _ := request_shutdown in
        ret outcome))
  end.

(** [samples.rs] [tests::link_kills_peer_on_fault] *)
Definition link_kills_peer_on_fault : bool :=
  holds (fun '(boom_out, park_out, _) => failed boom_out && failed park_out)
    (tiny Images.link_kill (fun rt =>
      let* park := index rt "park" in
      let* boom := index rt "boom" in
      let* parked := spawn rt park [] in
      let* killer := spawn rt boom [] in
      let* _ := ok (link (hid parked) (hid killer)) in
      let* boom_out := join killer in
      let* park_out := join parked in
      let* _ := request_shutdown in
      ret (boom_out, park_out))).

(** [samples.rs] [tests::linked_exit_down_carries_link_reason] *)
Definition linked_exit_down_carries_link_reason : bool :=
  outcome_is (completed (int_ (FlowExitReason.as_u64 FlowExitReason.Link)))
    (tiny_natives Images.link_down_reason (fun rt =>
      let* i := index rt "watcher" in
      let* watcher := spawn rt i [] in
      let* i := index rt "park" in
      let* parked := spawn rt i [] in
      let* i := index rt "boom" in
      let* killer := spawn rt i [] in
      let* _ := ok (monitor checks (hid watcher) (hid parked)) in
      let* _ := ok (link (hid parked) (hid killer)) in
      let* _ := join killer in
      let* watched := join watcher in
      let* _ := join parked in
      let* _ := request_shutdown in
      ret watched)).

(** [samples.rs] [tests::monitor_dead_owner_is_rejected] *)
Definition monitor_dead_owner_is_rejected : bool :=
  holds (fun '(done, err, _) => completed anything done &&
      is_err (fun e => match e with NoSuchFlow _ => true | _ => false end) err)
    (tiny (Samples.add_forty_two checks) (fun rt =>
      let* first := spawn rt 0 [] in
      let* done := join first in
      let* live := spawn rt 0 [] in
      let* err := monitor checks (hid first) (hid live) in
      let* _ := join live in
      let* _ := request_shutdown in
      ret (done, err))).

Definition invalid (e : LifecycleError) : bool := match e with InvalidCapability => true | _ => false end.

(** [samples.rs] [tests::forged_cap_cannot_be_registered] *)
Definition forged_cap_cannot_be_registered : bool :=
  holds (fun '(err, _) => is_err invalid err)
    (tiny (Samples.add_forty_two checks) (fun _ =>
      let* err := register_name (ascii_bytes "svc") (CapId.from_raw 99999) in
      let* _ := request_shutdown in
      ret err)).

(** [samples.rs] [tests::bytecode_register_name_joins] *)
Definition bytecode_register_name_joins : bool :=
  outcome_is (completed (int_ 1)) (tiny Images.reg_self run_first).

(** [samples.rs] [tests::named_service_whereis_returns_cap] *)
Definition named_service_whereis_returns_cap : bool :=
  let chunk := Samples.named_service checks 1%N 2%N in
  verifies chunk &&
  outcome_is (completed (int_ 42))
    (tiny_natives chunk (fun rt =>
      let* idx := index rt "main" in
      let* h := spawn rt idx [] in
      let* outcome := join_timeout 2000 h in
      let* outcome := known outcome in
      let* _ := request_shutdown in
      ret outcome)).

(** [samples.rs] [tests::confined_spawn_cannot_register_name] *)
Definition confined_spawn_cannot_register_name : bool :=
  outcome_is (completed (int_ 0)) (tiny (Images.confined_reg checks) run_main).

(** [samples.rs] [tests::heap_quota_charges_str_on_register_store] *)
Definition heap_quota_charges_str_on_register_store : bool :=
  let q := QuotaConfig.permissive in
  let quota := QuotaConfig.mk (QuotaConfig.cpu_budget q) 64 (QuotaConfig.spawn_burst q)
    (QuotaConfig.spawn_per_sec q) (QuotaConfig.send_burst q) (QuotaConfig.send_per_sec q) in
  outcome_is failed
    (on_runtime (RuntimeConfig.mk 10000 MailboxConfig.DEFAULT 0 quota) NativeTable.empty
      Images.heap_str run_first).

(** [samples.rs] [tests::host_send_stamps_sender_zero_and_mints_request_id] *)
Definition host_send_stamps_sender_zero_and_mints_request_id : bool :=
  outcome_is (completed (fun v => match v with Value.Pid n => n =? 0 | _ => false end))
    (tiny_natives (Images.host_send checks) (fun rt =>
      let* h := spawn rt 0 [] in
      let* _ := ok (send Demo.random checks (hid h) (Value.Message (Msg.request 0 1 (Value.from_i32 0)))) in
      let* outcome := join h in
      let* _ := request_shutdown in
      ret outcome)).

Definition named (r : option CapId.t) (cap : option CapId.t) : W unit := expect (bool_decide (r = cap)).

(** [samples.rs] [tests::registry_clears_on_exit] *)
Definition registry_clears_on_exit : bool :=
  test tiny_config NativeTable.empty (Images.sleeper "reg" 80 1) (fun rt =>
    let svc := ascii_bytes "svc" in
    let* h := spawn rt 0 [] in
    let* cap := ok (mint_cap Demo.random (hid h)) in
    let* _ := ok (register_name svc cap) in
    let* found := ok (whereis svc) in
    let* _ := named found (Some cap) in
    let* _ := join h in
    let* found := ok (whereis svc) in
    let* _ := named found None in
    request_shutdown).

Definition samples_tests : suite :=
  [("add_forty_two_joins_42", add_forty_two_joins_42);
   ("ping_pong_joins_2", ping_pong_joins_2);
   ("atomic_request_reply_joins_42", atomic_request_reply_joins_42);
   ("atomic_actors_two_clients_sum_72", atomic_actors_two_clients_sum_72);
   ("cap_in_payload_reissues_holder", cap_in_payload_reissues_holder);
   ("selective_receive_skips_junk_tag", selective_receive_skips_junk_tag);
   ("ask_reply_joins_42", ask_reply_joins_42);
   ("ask_timeout_writes_unit", ask_timeout_writes_unit);
   ("ask_target_exit_writes_sys_exit", ask_target_exit_writes_sys_exit);
   ("server_loop_joins_42", server_loop_joins_42);
   ("send_overwrites_forged_sender", send_overwrites_forged_sender);
   ("ask_overwrites_forged_request_sender", ask_overwrites_forged_request_sender);
   ("send_scalar_target_traps", send_scalar_target_traps);
   ("send_scalar_is_not_an_atomic_hop", send_scalar_is_not_an_atomic_hop);
   ("monitor_down_joins_normal_reason", monitor_down_joins_normal_reason);
   ("waiting_send_second_hop_arrives", waiting_send_second_hop_arrives);
   ("link_kills_peer_on_fault", link_kills_peer_on_fault);
   ("linked_exit_down_carries_link_reason", linked_exit_down_carries_link_reason);
   ("monitor_dead_owner_is_rejected", monitor_dead_owner_is_rejected);
   ("forged_cap_cannot_be_registered", forged_cap_cannot_be_registered);
   ("bytecode_register_name_joins", bytecode_register_name_joins);
   ("named_service_whereis_returns_cap", named_service_whereis_returns_cap);
   ("confined_spawn_cannot_register_name", confined_spawn_cannot_register_name);
   ("heap_quota_charges_str_on_register_store", heap_quota_charges_str_on_register_store);
   ("host_send_stamps_sender_zero_and_mints_request_id", host_send_stamps_sender_zero_and_mints_request_id);
   ("registry_clears_on_exit", registry_clears_on_exit)]%string.

(** ** scheduler/runtime.rs *)

(** [scheduler/runtime.rs] [tests::polling_and_bounded_waits_never_commit_the_host_thread] *)
Definition polling_and_bounded_waits_never_commit_the_host_thread : bool :=
  test small_config NativeTable.empty (Images.sleep_then_return_chunk 150) (fun rt =>
    let* handle := spawn rt 0 [] in
    let* early := try_join handle in
    let* _ := expect (negb (is_some early)) in
    let* early := join_timeout 20 handle in
    let* _ := expect (negb (is_some early)) in
    let* outcome := join_timeout 10000 handle in
    let* _ := request_shutdown in
    expect (holds (completed (int_ 7)) outcome)).

(** [scheduler/runtime.rs] [tests::spawn_and_join_add] *)
Definition spawn_and_join_add : bool :=
  outcome_is (completed (int_ 42))
    (on_runtime small_config NativeTable.empty (Images.add_chunk checks) run_first).

(** [scheduler/runtime.rs] [tests::kill_parked_flow_joins_failed] *)
Definition kill_parked_flow_joins_failed : bool :=
  outcome_is failed
    (on_runtime small_config NativeTable.empty Images.receive_forever_chunk (fun rt =>
      let* handle := spawn rt 0 [] in
      let* _ := ok (kill checks (hid handle)) in
      let* outcome := join handle in
      let* _ := request_shutdown in
      ret outcome)).

(** [scheduler/runtime.rs] [tests::max_flows_rejects_extra_spawn] *)
Definition max_flows_rejects_extra_spawn : bool :=
  holds (fun '(second, _) =>
      is_err (fun e => match e with FlowLimit current max => (current =? 1) && (max =? 1) | _ => false end)
        second)
    (on_runtime (RuntimeConfig.mk 1000 MailboxConfig.DEFAULT 1 QuotaConfig.default) NativeTable.empty
      Images.receive_forever_chunk (fun rt =>
      let* first := spawn rt 0 [] in
      let* second := Runtime.spawn Demo.random clock checks rt 0 [] in
      let* _ := ok (kill checks (hid first)) in
      let* _ := join first in
      let* _ := request_shutdown in
      ret second)).

Definition runtime_tests : suite :=
  [("polling_and_bounded_waits_never_commit_the_host_thread",
      polling_and_bounded_waits_never_commit_the_host_thread);
   ("spawn_and_join_add", spawn_and_join_add);
   ("kill_parked_flow_joins_failed", kill_parked_flow_joins_failed);
   ("max_flows_rejects_extra_spawn", max_flows_rejects_extra_spawn)]%string.

(** ** scheduler/supervisor.rs *)

Abbreviation Sup := (Sup.t Lines).

(** The least reading of Linux's clock: its seconds are an [i64]. *)
Definition instant_min : instant := - 2 ^ 63 * 1000000000.

(** A turn of each thread, the supervisor's included; its thread ends when it is told to. *)
Definition round_with (p : Sup) : W Sup :=
  let* _ := round in
  let* x := supervise Demo.random clock checks instant_min p in
  ret (default p x).

(** [scheduler/supervisor.rs] [tests::wait_until] *)
Definition wait_until (pred : Sup -> W bool) (p : Sup) : W Sup :=
  let* x := block round_with (fun p =>
    let* b := pred p in ret (if b then Some tt else None)) 200 p in
  ret (snd x).

(** [Supervisor::with_config(rt.spawner(), cfg)?]: the queue of its thread is empty. *)
Definition supervisor (rt : Runtime (H := Lines)) (cfg : SupervisorConfig) : W Sup :=
  let* _ := modify (fun s => s <| supervisors ::= <[0%N := mutex_new []]> |>) in
  ret (Sup.new 0%N (spawner rt) cfg).

(** [sup.start_child(spec)?]. *)
Definition start_child (p : Sup) (spec : ChildSpec.t) : W (FlowHandle * Sup) :=
  let* x := Supervisor.start_child Demo.random clock checks p spec in
  match x with (Ok h, p) => ret (h, p) | (Err _, _) => panic end.
Definition child (name : string) (function : Z) : ChildSpec.t := ChildSpec.new (ascii_bytes name) function.

(** [scheduler/supervisor.rs] [tests::tiny_runtime]: with a supervisor.  The tests shut it down
    before the runtime, which only ends its thread. *)
Definition supervised {A} (image : option Chunk.t) (cfg : SupervisorConfig)
    (body : Runtime (H := Lines) -> Sup -> W A) : option (A * Shared.t Lines Z) :=
  on_runtime small_config NativeTable.empty image (fun rt =>
    let* p := supervisor rt cfg in
    let* a := body rt p in
    let* _ := request_shutdown in
    ret a).

Definition snapshot : W RuntimeMetrics.t := gets (fun s => RuntimeMetrics.snapshot (metrics s)).
Definition collected (h : FlowHandle) : W bool := let* o := try_join h in ret (is_some o).

(** [scheduler/supervisor.rs] [tests::on_failure_does_not_restart_a_clean_exit] *)
Definition on_failure_does_not_restart_a_clean_exit : bool :=
  holds (fun '(outcome, spawned, _) => completed anything outcome && (spawned =? 1))
    (supervised Images.ok_chunk default_sup_config (fun rt p =>
      let* x := start_child p (ChildSpec.with_restart (child "main" 0) OnFailure) in
      let* outcome := join (fst x) in
      let* p := wait_until (fun p => let* n := live_children p in ret (n =? 0)) (snd x) in
      let* m := snapshot in
      ret (outcome, RuntimeMetrics.processes_spawned m))).

(** [scheduler/supervisor.rs] [tests::on_failure_restarts_until_intensity] *)
Definition on_failure_restarts_until_intensity : bool :=
  holds (fun '(spawned, failed, _) => (spawned =? 3) && (failed =? 3))
    (supervised Images.trap_chunk (mk_sup_config 2 (5 * 1000000000) OneForOne) (fun rt p =>
      let* x := start_child p (ChildSpec.with_restart (child "boom" 0) OnFailure) in
      let* p := wait_until (fun p =>
        let* m := snapshot in
        ret (Sup.intensity_exceeded p && (3 <=? RuntimeMetrics.processes_failed m))) (snd x) in
      let* m := snapshot in
      ret (RuntimeMetrics.processes_spawned m, RuntimeMetrics.processes_failed m))).

(** [scheduler/supervisor.rs] [tests::always_restarts_a_clean_exit_until_intensity] *)
Definition always_restarts_a_clean_exit_until_intensity : bool :=
  holds (fun '(spawned, _) => spawned =? 3)
    (supervised Images.ok_chunk (mk_sup_config 2 (5 * 1000000000) OneForOne) (fun rt p =>
      let* x := start_child p (ChildSpec.with_restart (child "main" 0) Always) in
      let* p := wait_until (fun p =>
        let* m := snapshot in
        ret (Sup.intensity_exceeded p && (3 <=? RuntimeMetrics.processes_completed m))) (snd x) in
      let* m := snapshot in
      ret (RuntimeMetrics.processes_spawned m))).

(** [scheduler/supervisor.rs] [tests::one_for_one_does_not_kill_sibling] *)
Definition one_for_one_does_not_kill_sibling : bool :=
  is_some (supervised Images.wait_and_trap_chunk default_sup_config (fun rt p =>
    let* x := start_child p (child "wait" 0) in
    let parked := fst x in
    let* x := start_child (snd x) (ChildSpec.with_restart (child "boom" 1) OnFailure) in
    let* p := wait_until (fun p =>
      let* m := snapshot in ret (1 <=? RuntimeMetrics.processes_failed m)) (snd x) in
    let* o := collected parked in
    expect (negb o))).

(** [scheduler/supervisor.rs] [tests::one_for_all_kills_parked_sibling] *)
Definition one_for_all_kills_parked_sibling : bool :=
  outcome_is failed
    (supervised Images.wait_and_trap_chunk (mk_sup_config 8 (5 * 1000000000) OneForAll) (fun rt p =>
      let* x := start_child p (child "wait" 0) in
      let parked := fst x in
      let* x := start_child (snd x) (ChildSpec.with_restart (child "boom" 1) OnFailure) in
      let* p := wait_until (fun _ => collected parked) (snd x) in
      join parked)).

(** [scheduler/supervisor.rs] [tests::rest_for_one_kills_only_later_children] *)
Definition rest_for_one_kills_only_later_children : bool :=
  outcome_is failed
    (supervised Images.wait_and_trap_chunk (mk_sup_config 8 (5 * 1000000000) RestForOne) (fun rt p =>
      let* x := start_child p (child "keep" 0) in
      let earlier := fst x in
      let* x := start_child (snd x) (ChildSpec.with_restart (child "delayed" 2) OnFailure) in
      let* x := start_child (snd x) (child "tail" 0) in
      let later := fst x in
      let* p := wait_until (fun _ => collected later) (snd x) in
      let* o := collected earlier in
      let* _ := expect (negb o) in
      join later)).

(** [scheduler/supervisor.rs] [tests::child_name_registers_and_rejects_duplicate] *)
Definition child_name_registers_and_rejects_duplicate : bool :=
  let svc := ascii_bytes "svc" in
  holds (fun '(dup, _) =>
      is_err (fun e => match e with NameTaken name => bool_decide (name = svc) | _ => false end) dup)
    (supervised Images.wait_and_trap_chunk default_sup_config (fun rt p =>
      let* x := start_child p (ChildSpec.new svc 0) in
      let* p := wait_until (fun _ =>
        let* w := whereis svc in ret (match w with Ok (Some _) => true | _ => false end)) (snd x) in
      let* w := ok (whereis svc) in
      let* _ := expect (is_some w) in
      let* x := Supervisor.start_child Demo.random clock checks p (ChildSpec.new svc 1) in
      ret (fst x))).

(** [scheduler/supervisor.rs] [tests::policy_table] *)
Definition policy_table : bool :=
  let ok := Completed Value.Unit in
  let fail := Failed "boom" in
  should_restart Always ok && should_restart Always fail &&
  negb (should_restart OnFailure ok) && should_restart OnFailure fail &&
  negb (should_restart Never ok) && negb (should_restart Never fail).

Definition supervisor_tests : suite :=
  [("on_failure_does_not_restart_a_clean_exit", on_failure_does_not_restart_a_clean_exit);
   ("on_failure_restarts_until_intensity", on_failure_restarts_until_intensity);
   ("always_restarts_a_clean_exit_until_intensity", always_restarts_a_clean_exit_until_intensity);
   ("one_for_one_does_not_kill_sibling", one_for_one_does_not_kill_sibling);
   ("one_for_all_kills_parked_sibling", one_for_all_kills_parked_sibling);
   ("rest_for_one_kills_only_later_children", rest_for_one_kills_only_later_children);
   ("child_name_registers_and_rejects_duplicate", child_name_registers_and_rejects_duplicate);
   ("policy_table", policy_table)]%string.

(** ** lib.rs *)

(** [lib.rs] [tests::std_native_chunk_runs] *)
Definition std_native_chunk_runs : bool :=
  verifies Images.std_natives_demo &&
  outcome_is (completed (fun v => match v with Value.Int ms => 0 <=? ms | _ => false end))
    (on_runtime RuntimeConfig.default silent Images.std_natives_demo run_first).

(** ** tests/security_caps.rs *)

(** [tests/security_caps.rs] [cap_from_runtime_a_cannot_register_in_runtime_b]: the second
    runtime is started in the process of the first, whose counters go on. *)
Definition cap_from_runtime_a_cannot_register_in_runtime_b : bool :=
  holds (fun '(registered, _) => is_err invalid registered)
    (ch ← Samples.add_forty_two checks;
     on_runtime tiny_config NativeTable.empty (Some ch) (fun rt_a =>
       let* h := spawn rt_a 0 [] in
       let* cap := ok (mint_cap Demo.random (hid h)) in
       let* rt_b := gets (fun s =>
         match with_natives_and_config ch (NativeTable.empty (H := Lines)) Untrusted 1 tiny_config (wld s) (os s) with
         | Ok (_, b) => Some (b <| next_flow := next_flow s |>)
         | Err _ => None
         end) in
       let* rt_b := known rt_b in
       let* registered := known (fst (register_name (ascii_bytes "svc") cap rt_b)) in
       let* _ := join h in
       let* _ := request_shutdown in
       ret registered)).

(** [tests/security_caps.rs] [cap_revoked_after_holder_flow_exits] *)
Definition cap_revoked_after_holder_flow_exits : bool :=
  holds (fun '(registered, _) => is_err invalid registered)
    (tiny (Images.zero "cap-revoke") (fun rt =>
      let* h := spawn rt 0 [] in
      let* cap := ok (mint_cap Demo.random (hid h)) in
      let* _ := join h in
      let* registered := register_name (ascii_bytes "svc") cap in
      let* _ := request_shutdown in
      ret registered)).

(** [tests/security_caps.rs] [forged_sender_samples_return_authenticated_pid] *)
Definition forged_sender_samples_return_authenticated_pid : bool :=
  forallb (fun chunk => outcome_is (completed authenticated) (tiny_natives chunk run_main))
    [Samples.forged_sender_send checks; Samples.forged_sender_ask checks].

(** [tests/security_caps.rs] [runtime_config_output_wires_print_native] *)
Definition runtime_config_output_wires_print_native : bool :=
  holds (fun '(_, s) => bool_decide (host (wld s) = [ascii_bytes "7"]))
    (on_runtime tiny_config (std_natives capture) (Images.printer "print-sink" 7) run_first).

(** [tests/security_caps.rs] [null_sink_is_default_and_silent] *)
Definition null_sink_is_default_and_silent : bool :=
  is_some (on_runtime tiny_config silent (Images.printer "silent" 1) run_first).

(** [tests/security_caps.rs] [confined_child_cannot_call_natives] *)
Definition confined_child_cannot_call_natives : bool :=
  outcome_is (completed (int_ 0)) (tiny_natives Images.confined_native run_main).

(** [tests/security_caps.rs] [admin_kill_requires_scheduler_cap] *)
Definition admin_kill_requires_scheduler_cap : bool :=
  holds (fun '(refused, outcome, _) => is_err invalid refused && failed outcome)
    (tiny (Images.sleeper "admin-kill-victim" 200 42) (fun rt =>
      let* victim := spawn rt 0 [] in
      let* holder := spawn rt 0 [] in
      let* ordinary := ok (mint_cap Demo.random (hid holder)) in
      let* refused := admin_kill checks (hid holder) ordinary (hid victim) in
      let* admin := ok (mint_admin_cap Demo.random (hid holder)) in
      let* _ := ok (admin_kill checks (hid holder) admin (hid victim)) in
      let* outcome := join victim in
      let* _ := join holder in
      let* _ := request_shutdown in
      ret (refused, outcome))).

(** [tests/security_caps.rs] [admin_top_up_cpu_uses_shared_quota_table] *)
Definition admin_top_up_cpu_uses_shared_quota_table : bool :=
  is_some (tiny (Images.sleeper "idle" 20 0) (fun rt =>
    let* h := spawn rt 0 [] in
    let* admin := ok (mint_admin_cap Demo.random (hid h)) in
    let* _ := ok (admin_top_up_cpu (hid h) admin (hid h) 1000) in
    let* _ := ok (admin_top_up_mem (hid h) admin (hid h) 4096) in
    let* _ := ok (admin_top_up_send (hid h) admin (hid h) 32) in
    let* _ := join h in
    request_shutdown)).

Definition security_tests : suite :=
  [("std_native_chunk_runs", std_native_chunk_runs);
   ("cap_from_runtime_a_cannot_register_in_runtime_b", cap_from_runtime_a_cannot_register_in_runtime_b);
   ("cap_revoked_after_holder_flow_exits", cap_revoked_after_holder_flow_exits);
   ("forged_sender_samples_return_authenticated_pid", forged_sender_samples_return_authenticated_pid);
   ("runtime_config_output_wires_print_native", runtime_config_output_wires_print_native);
   ("null_sink_is_default_and_silent", null_sink_is_default_and_silent);
   ("confined_child_cannot_call_natives", confined_child_cannot_call_natives);
   ("admin_kill_requires_scheduler_cap", admin_kill_requires_scheduler_cap);
   ("admin_top_up_cpu_uses_shared_quota_table", admin_top_up_cpu_uses_shared_quota_table)]%string.

Definition system_tests : suite :=
  samples_tests ++ runtime_tests ++ supervisor_tests ++ security_tests.

(** Why [one_for_all_kills_parked_sibling] and [rest_for_one_kills_only_later_children] do
    not show what they mean to: the poll that saw an outcome has taken it, so the [join]
    after it fails whatever the outcome was. *)
Lemma join_after_poll_fails h outcome s s' :
  try_join h s = (Some (Some outcome), s') -> exists msg, fst (join h s') = Some (Failed msg).
Proof.
  unfold try_join at 1. destruct (FlowHandle.try_join _) as [o slot] eqn:Ht. intros [= -> <-].
  assert (exists msg, FlowHandle.try_join slot = (Some (Failed msg), slot)) as [msg Hagain].
  { revert Ht. destruct (slot_at s (hreceiver h)) as [[] []];
      unfold FlowHandle.try_join, Receiver.try_join, lock, unlock; simpl;
      intros [= <- <-]; eexists; reflexivity. }
  exists msg. unfold join. simpl. unfold bind at 1 2, try_join. unfold slot_at at 1. simpl.
  rewrite lookup_insert_eq. cbn [default from_option id]. by rewrite Hagain.
Qed.

End host.
