(* ===== verification/Tests.v ===== *)
(** The repository's tests hold of the model: each test of the source whose behaviour is the
    program's own is translated and evaluated, in both build profiles. *)

From S2P Require Import Prelude Capability F64 Values Isa Display Native Vm VmTheory JitTrace Harness.
From S2P Require Import TestsBytecode TestsMailbox TestsScheduler TestsVm TestsJit TestsRuntime.
From S2P Require JitClif.

(** What the tests leave open, chosen: printable characters are all, random bytes count, the
    native functions print nowhere and their wall clock stands still, and the JIT's code is
    run by [simulator] for up to 100000 blocks. *)
#[local] Instance printable : Fmt.Unicode := fun _ => true.
Definition rng (n : Z) : option (list byte) * Z := (Some (to_le 16 n), n + 1).
Definition patience : nat := Z.to_nat 100000.

Definition jit (checks : bool) : suite :=
  @jit_tests unit (list (list JitClif.inst)) (simulator patience) checks.

(** Every test, one excepted: [byte_budget_default_fits_one_max_hop] stands apart, since its
    hop of a mebibyte is not computed. *)
Definition repository_tests (checks : bool) : suite :=
  bytecode_tests rng 1 checks ++ mailbox_tests ++ scheduler_tests rng 100 checks ++
  vm_tests (fun _ (h : unit) => h) (fun _ => Ok 0) no_world checks ++ jit checks ++
  system_tests checks.

